(** * react-scitext: segmentation and classification of scientific text

    A shallow embedding of the text-processing core of the package
    (src/utils/latex.ts, src/utils/markdown.tsx and the RichText processors)
    together with the properties of its specification.

    JavaScript strings are sequences of UTF-16 code units; the regular
    expressions of the program carry no [u] flag, so they work on code units
    too.  A string is therefore a list of code units, and indices and lengths
    are natural numbers. *)

From Stdlib Require Import List NArith Arith Bool Lia.
From Stdlib Require String Ascii.
From Stdlib Require Import Sorting.Sorted Sorting.Permutation.
Import ListNotations.
Import String.StringSyntax Ascii.AsciiSyntax.
Bind Scope char_scope with Ascii.ascii.
Bind Scope string_scope with String.string.
Delimit Scope string_scope with string.
Delimit Scope char_scope with char.

Local Open Scope list_scope.
Local Open Scope nat_scope.

Set Implicit Arguments.
Set Warnings "-register-all".

(** ** Strings *)

Definition char := N.
Definition jsstring := list char.

(** [js "..."] is the JavaScript string with the given ASCII characters.  Rocq
    string literals have no escape sequences: a backslash stands for itself. *)
Definition js (s : String.string) : jsstring :=
  List.map Ascii.N_of_ascii (String.list_ascii_of_string s).

Definition ch (a : Ascii.ascii) : char := Ascii.N_of_ascii a.

Fixpoint str_eqb (a b : jsstring) : bool :=
  match a, b with
  | [], [] => true
  | x :: a', y :: b' => N.eqb x y && str_eqb a' b'
  | _, _ => false
  end.

(** [s.slice(i, j)] and [s.slice(i)] for non-negative indices: the characters
    from [i] up to [j], none when [j <= i]; both ends are clamped to the
    length. *)
Definition slice (s : jsstring) (i j : nat) : jsstring :=
  firstn (j - i) (skipn i s).
Definition slice_from (s : jsstring) (i : nat) : jsstring := skipn i s.

(** [s.substring(i, j)] and [s.substring(i)]: as [slice], but the two indices
    are swapped when [j < i]. *)
Definition substring (s : jsstring) (i j : nat) : jsstring :=
  slice s (Nat.min i j) (Nat.max i j).
Definition substring_from (s : jsstring) (i : nat) : jsstring := skipn i s.

(** [s.lastIndexOf(c, from)] for a one-character [c]: the largest index not
    above [from] that holds [c]. *)
Fixpoint lastIndexOf (s : jsstring) (c : char) (from : nat) : option nat :=
  match nth_error s from with
  | Some x =>
      if N.eqb x c then Some from
      else match from with 0 => None | S k => lastIndexOf s c k end
  | None => match from with 0 => None | S k => lastIndexOf s c k end
  end.

Fixpoint startsWith (s p : jsstring) : bool :=
  match p, s with
  | [], _ => true
  | c :: p', x :: s' => N.eqb x c && startsWith s' p'
  | _ :: _, [] => false
  end.

Definition endsWith (s p : jsstring) : bool :=
  (List.length p <=? List.length s)
  && str_eqb (skipn (List.length s - List.length p) s) p.

(** [s.includes(p)]: [p] occurs at some index of [s]. *)
Fixpoint includes (s p : jsstring) : bool :=
  startsWith s p ||
  match s with
  | [] => false
  | _ :: s' => includes s' p
  end.

(** White space and line terminators of ECMAScript: the characters of [\s] and
    of [String.prototype.trim]. *)
Definition is_line_terminator (c : char) : bool :=
  (N.eqb c 10 || N.eqb c 13 || N.eqb c 8232 || N.eqb c 8233)%N.

Definition is_space (c : char) : bool :=
  ((9 <=? c) && (c <=? 13) || N.eqb c 32 || N.eqb c 160 || N.eqb c 5760
   || (8192 <=? c) && (c <=? 8202) || N.eqb c 8232 || N.eqb c 8233
   || N.eqb c 8239 || N.eqb c 8287 || N.eqb c 12288 || N.eqb c 65279)%N.

Fixpoint trimStart (s : jsstring) : jsstring :=
  match s with
  | c :: s' => if is_space c then trimStart s' else s
  | [] => []
  end.

Definition trimEnd (s : jsstring) : jsstring := rev (trimStart (rev s)).
Definition trim (s : jsstring) : jsstring := trimEnd (trimStart s).

(** A string is truthy when it is not empty. *)
Definition truthy (s : jsstring) : bool :=
  match s with [] => false | _ => true end.

(** [parts.join("")]; an [undefined] element contributes nothing. *)
Definition join (parts : list (option jsstring)) : jsstring :=
  concat (List.map (fun p => match p with Some s => s | None => [] end) parts).

(** Decimal digits of a number, for template strings. *)
Fixpoint digits_fuel (fuel n : nat) (acc : jsstring) : jsstring :=
  match fuel with
  | 0 => acc
  | S f =>
      let acc' := N.of_nat (48 + n mod 10) :: acc in
      if n <? 10 then acc' else digits_fuel f (n / 10) acc'
  end.
Definition number_to_string (n : nat) : jsstring := digits_fuel (S n) n [].

(** ** Regular expressions

    The patterns of the program use literals, character classes, [.], greedy
    and lazy quantifiers, alternation, capture groups, one backreference and
    the assertions [^] and [$], under the flags [i], [m] and [s].  They are
    matched by the backtracking matcher of ECMA-262 (section 22.2.2), which is
    written in continuation-passing style; the model follows it rule for
    rule. *)

Inductive class_item : Type :=
| CChar (c : char)            (* a single character *)
| CRange (lo hi : char)       (* lo-hi *)
| CSpace                      (* \s *)
| CDigit.                     (* \d *)

Inductive regex : Type :=
| Empty
| Char (c : char)
| Any                                          (* . *)
| Class (negated : bool) (items : list class_item)
| Seq (a b : regex)
| Alt (a b : regex)
| Rep (greedy : bool) (lo : nat) (hi : option nat) (a : regex)
| Group (n : nat) (a : regex)                  (* n-th capture group *)
| Backref (n : nat)                            (* \n *)
| Bol                                          (* ^ *)
| Eol.                                         (* $ *)

Record flags := { ignoreCase : bool; multiline : bool; dotAll : bool }.

Definition no_flags := {| ignoreCase := false; multiline := false; dotAll := false |}.
Definition flags_s := {| ignoreCase := false; multiline := false; dotAll := true |}.
Definition flags_m := {| ignoreCase := false; multiline := true; dotAll := false |}.
Definition flags_i := {| ignoreCase := true; multiline := false; dotAll := false |}.

(** Pattern syntax. *)
Fixpoint lit_chars (l : jsstring) : regex :=
  match l with
  | [] => Empty
  | [c] => Char c
  | c :: l' => Seq (Char c) (lit_chars l')
  end.
Definition lit (s : String.string) : regex := lit_chars (js s).

Fixpoint seqs (l : list regex) : regex :=
  match l with
  | [] => Empty
  | [r] => r
  | r :: l' => Seq r (seqs l')
  end.

Fixpoint alts (l : list regex) : regex :=
  match l with
  | [] => Empty
  | [r] => r
  | r :: l' => Alt r (alts l')
  end.

Definition star (a : regex) := Rep true 0 None a.         (* a*  *)
Definition star_lazy (a : regex) := Rep false 0 None a.   (* a*? *)
Definition plus (a : regex) := Rep true 1 None a.         (* a+  *)
Definition plus_lazy (a : regex) := Rep false 1 None a.   (* a+? *)
Definition opt (a : regex) := Rep true 0 (Some 1) a.      (* a?  *)
Definition range (lo hi : nat) (a : regex) := Rep true lo (Some hi) a. (* a{lo,hi} *)

Definition chr (a : Ascii.ascii) : regex := Char (ch a).
Definition cc (a : Ascii.ascii) : class_item := CChar (ch a).
Definition cr (a b : Ascii.ascii) : class_item := CRange (ch a) (ch b).
Definition cchars (s : String.string) : list class_item := List.map CChar (js s).

(** Capture groups that occur in a pattern. *)
Fixpoint groups (r : regex) : list nat :=
  match r with
  | Seq a b | Alt a b => groups a ++ groups b
  | Rep _ _ _ a => groups a
  | Group n a => n :: groups a
  | _ => []
  end.

(** Captures: the group number with the range [(start, end)] it matched, or
    [None] once reset; the first entry for a number is the current one. *)
Definition captures := list (nat * option (nat * nat)).

Fixpoint get_cap (n : nat) (c : captures) : option (nat * nat) :=
  match c with
  | [] => None
  | (k, v) :: c' => if k =? n then v else get_cap n c'
  end.

Definition set_cap (n : nat) (v : nat * nat) (c : captures) : captures :=
  (n, Some v) :: c.

Definition reset_caps (gs : list nat) (c : captures) : captures :=
  List.map (fun g => (g, @None (nat * nat))) gs ++ c.

(** A match state: the end index and the captures. *)
Definition mstate := (nat * captures)%type.
Definition pos (st : mstate) : nat := fst st.
Definition caps (st : mstate) : captures := snd st.

Definition cont := mstate -> option mstate.

Definition orelse (a : option mstate) (b : unit -> option mstate) : option mstate :=
  match a with
  | Some z => Some z
  | None => b tt
  end.

(** RepeatMatcher: [fuel] bounds the number of iterations; an iteration either
    uses up one of the [lo] required ones or consumes a character, so
    [lo + remaining input + 1] is enough. *)
Fixpoint rep_loop (ma : cont -> cont) (gs : list nat) (greedy : bool) (k : cont)
    (fuel lo : nat) (hi : option nat) (st : mstate) : option mstate :=
  match fuel with
  | 0 => None
  | S fuel' =>
      match hi with
      | Some 0 => k st
      | _ =>
          let d := fun y : mstate =>
            if (lo =? 0) && (pos y =? pos st) then None
            else rep_loop ma gs greedy k fuel' (Nat.pred lo) (option_map Nat.pred hi) y in
          let xr : mstate := (pos st, reset_caps gs (caps st)) in
          if negb (lo =? 0) then ma d xr
          else if greedy then orelse (ma d xr) (fun _ => k st)
          else orelse (k st) (fun _ => ma d xr)
      end
  end.

Section Matcher.
Variable fl : flags.
Variable text : jsstring.

Definition is_lower (c : char) : bool := ((97 <=? c) && (c <=? 122))%N.
Definition is_upper (c : char) : bool := ((65 <=? c) && (c <=? 90))%N.
Definition to_upper (c : char) : char := if is_lower c then (c - 32)%N else c.
Definition to_lower (c : char) : char := if is_upper c then (c + 32)%N else c.

(** Canonicalize.  Without the [u] flag a character outside ASCII never
    canonicalizes to an ASCII one, and the patterns matched with [i] hold
    ASCII characters only, so the ASCII case mapping is all that is seen. *)
Definition canon (c : char) : char :=
  if ignoreCase fl then to_upper c else c.

Definition char_eq (x c : char) : bool := N.eqb (canon x) (canon c).

Definition in_range (lo hi x : char) : bool := ((lo <=? x) && (x <=? hi))%N.

Definition item_mem (x : char) (it : class_item) : bool :=
  match it with
  | CChar c => char_eq x c
  | CRange lo hi =>
      in_range lo hi x
      || (ignoreCase fl && (in_range lo hi (to_upper x) || in_range lo hi (to_lower x)))
  | CSpace => is_space x
  | CDigit => in_range 48%N 57%N x
  end.

Definition class_mem (negated : bool) (items : list class_item) (x : char) : bool :=
  xorb negated (existsb (item_mem x) items).

Definition any_mem (x : char) : bool :=
  dotAll fl || negb (is_line_terminator x).

Definition at_bol (i : nat) : bool :=
  match i with
  | 0 => true
  | S j => multiline fl &&
           match nth_error text j with
           | Some c => is_line_terminator c
           | None => false
           end
  end.

Definition at_eol (i : nat) : bool :=
  (i =? List.length text) ||
  (multiline fl &&
   match nth_error text i with
   | Some c => is_line_terminator c
   | None => false
   end).

(** One character satisfying [p] at the current index. *)
Definition step_char (p : char -> bool) (k : cont) (st : mstate) : option mstate :=
  match nth_error text (pos st) with
  | Some x => if p x then k (S (pos st), caps st) else None
  | None => None
  end.

(** The text at [i] repeats the [len] characters found at [b]. *)
Fixpoint same_at (b i len : nat) : bool :=
  match len with
  | 0 => true
  | S len' =>
      match nth_error text b, nth_error text i with
      | Some c, Some x => char_eq x c && same_at (S b) (S i) len'
      | _, _ => false
      end
  end.

Fixpoint m (r : regex) (k : cont) (st : mstate) {struct r} : option mstate :=
  match r with
  | Empty => k st
  | Char c => step_char (fun x => char_eq x c) k st
  | Any => step_char any_mem k st
  | Class neg items => step_char (class_mem neg items) k st
  | Seq a b => m a (m b k) st
  | Alt a b => orelse (m a k st) (fun _ => m b k st)
  | Rep g lo hi a =>
      rep_loop (m a) (groups a) g k
               (S (lo + (List.length text - pos st))) lo hi st
  | Group n a =>
      m a (fun y => k (pos y, set_cap n (pos st, pos y) (caps y))) st
  | Backref n =>
      match get_cap n (caps st) with
      | None => k st
      | Some (b, e) =>
          if same_at b (pos st) (e - b) then k (pos st + (e - b), caps st) else None
      end
  | Bol => if at_bol (pos st) then k st else None
  | Eol => if at_eol (pos st) then k st else None
  end.

(** A match attempt at index [i] (what a sticky match does). *)
Definition match_at (r : regex) (i : nat) : option mstate :=
  m r (fun st => Some st) (i, []).

(** RegExpBuiltinExec from [lastIndex]: the first index at which the pattern
    matches, with the final state. *)
Fixpoint scan (r : regex) (n i : nat) : option (nat * mstate) :=
  match match_at r i with
  | Some st => Some (i, st)
  | None =>
      match n with
      | 0 => None
      | S n' => scan r n' (S i)
      end
  end.

Definition exec (r : regex) (lastIndex : nat) : option (nat * mstate) :=
  if lastIndex <=? List.length text
  then scan r (List.length text - lastIndex) lastIndex
  else None.
End Matcher.

(** A successful match: index, matched text and captured texts. *)
Record rmatch := {
  index : nat;
  m_end : nat;
  m_caps : captures
}.

Definition group_text (text : jsstring) (c : captures) (n : nat) : option jsstring :=
  match get_cap n c with
  | Some (b, e) => Some (slice text b e)
  | None => None
  end.

Definition rm_text (text : jsstring) (x : rmatch) : jsstring :=
  slice text (index x) (m_end x).

Definition rm_group (text : jsstring) (x : rmatch) (n : nat) : option jsstring :=
  group_text text (m_caps x) n.

Definition exec_match (fl : flags) (r : regex) (text : jsstring) (lastIndex : nat)
  : option rmatch :=
  match exec fl text r lastIndex with
  | Some (i, st) => Some {| index := i; m_end := pos st; m_caps := caps st |}
  | None => None
  end.

(** [pattern.test(text)] and [text.match(pattern)] for a pattern without the
    [g] flag, or a fresh one: the search starts at index 0. *)
Definition test (fl : flags) (r : regex) (text : jsstring) : bool :=
  match exec_match fl r text 0 with Some _ => true | None => false end.

Definition match_ (fl : flags) (r : regex) (text : jsstring) : option rmatch :=
  exec_match fl r text 0.

(** [while ((x = pattern.exec(text)) !== null)] with the [g] flag: each search
    starts where the last match ended. *)
Fixpoint exec_loop (fl : flags) (r : regex) (text : jsstring) (fuel lastIndex : nat)
  : list rmatch :=
  match fuel with
  | 0 => []
  | S f =>
      match exec_match fl r text lastIndex with
      | None => []
      | Some x => x :: exec_loop fl r text f (m_end x)
      end
  end.

Definition exec_all (fl : flags) (r : regex) (text : jsstring) : list rmatch :=
  exec_loop fl r text (S (List.length text)) 0.

(** [text.split(pattern)] (RegExp.prototype[Symbol.split] without a limit):
    [p] is the start of the pending part and [q] the index at which a sticky
    match is tried.  Each split point contributes the captured groups. *)
Definition group_texts (text : jsstring) (c : captures) (n : nat)
  : list (option jsstring) :=
  List.map (fun i => group_text text c (S i)) (seq 0 n).

Fixpoint split_loop (fl : flags) (r : regex) (text : jsstring) (fuel p q : nat)
  : list (option jsstring) :=
  match fuel with
  | 0 => [Some (slice text p (List.length text))]
  | S f =>
      if q <? List.length text then
        match match_at fl text r q with
        | None => split_loop fl r text f p (S q)
        | Some st =>
            let e := Nat.min (pos st) (List.length text) in
            if e =? p then split_loop fl r text f p (S q)
            else Some (slice text p q)
                 :: group_texts text (caps st) (List.length (groups r))
                 ++ split_loop fl r text f e e
        end
      else [Some (slice text p (List.length text))]
  end.

Definition split (fl : flags) (r : regex) (text : jsstring) : list (option jsstring) :=
  match text with
  | [] => match match_at fl text r 0 with
          | Some _ => []
          | None => [Some text]
          end
  | _ => split_loop fl r text (S (2 * List.length text)) 0 0
  end.

(** [text.split(pattern)] where no group is captured: all parts are strings. *)
Definition split_strings (fl : flags) (r : regex) (text : jsstring) : list jsstring :=
  List.map (fun p => match p with Some s => s | None => [] end) (split fl r text).

(** The matches that [text.replace(pattern, ...)] visits for a pattern with
    the [g] flag: after an empty match the search moves on by one. *)
Fixpoint global_matches (fl : flags) (r : regex) (text : jsstring)
    (fuel lastIndex : nat) : list rmatch :=
  match fuel with
  | 0 => []
  | S f =>
      match exec_match fl r text lastIndex with
      | None => []
      | Some x =>
          x :: global_matches fl r text f
                 (if m_end x =? index x then S (m_end x) else m_end x)
      end
  end.

(** The result of [replace]: the text between the matches is kept and each
    match gives way to what the replacer returns; the replacer may update a
    state (the program's replacers count placeholders). *)
Fixpoint replace_fold {St : Type} (text : jsstring)
    (f : St -> rmatch -> St * jsstring) (ms : list rmatch) (s : St) (next : nat)
  : St * jsstring :=
  match ms with
  | [] => (s, skipn next text)
  | x :: ms' =>
      let (s1, rep) := f s x in
      if next <=? index x then
        let (s2, rest) := replace_fold text f ms' s1 (m_end x) in
        (s2, slice text next (index x) ++ rep ++ rest)
      else replace_fold text f ms' s1 next
  end.

Definition replace_all_st {St : Type} (fl : flags) (r : regex) (text : jsstring)
    (f : St -> rmatch -> St * jsstring) (s : St) : St * jsstring :=
  replace_fold text f (global_matches fl r text (S (S (List.length text))) 0) s 0.

Definition replace_all (fl : flags) (r : regex) (text : jsstring)
    (f : rmatch -> jsstring) : jsstring :=
  snd (replace_all_st fl r text (fun (_ : unit) x => (tt, f x)) tt).

(** [text.replace(pattern, ...)] without the [g] flag: the first match only. *)
Definition replace_first (fl : flags) (r : regex) (text : jsstring)
    (f : rmatch -> jsstring) : jsstring :=
  match exec_match fl r text 0 with
  | None => text
  | Some x => slice text 0 (index x) ++ f x ++ skipn (m_end x) text
  end.

(** [array.sort((a, b) => a.start - b.start)]: the sort of ECMAScript is
    stable, and a stable sort by a key is insertion of each element before the
    first later element with a key that is not smaller. *)
Section Sort.
Variable A : Type.
Variable key : A -> nat.

Fixpoint insert_by (x : A) (l : list A) : list A :=
  match l with
  | [] => [x]
  | y :: l' => if key x <=? key y then x :: l else y :: insert_by x l'
  end.

Fixpoint sort_by (l : list A) : list A :=
  match l with
  | [] => []
  | x :: l' => insert_by x (sort_by l')
  end.
End Sort.

(** ** src/utils/latex.ts *)

Definition opt_str_eqb (a b : option jsstring) : bool :=
  match a, b with
  | Some x, Some y => str_eqb x y
  | None, None => true
  | _, _ => false
  end.

Record LatexEnv := { env_start : nat; env_end : nat; env_content : jsstring }.

Record tag := {
  tag_type : option jsstring;
  tag_env : option jsstring;
  tag_index : nat;
  tag_length : nat
}.

(** /\\(begin|end)\{([^}]+)\}/g *)
Definition tagPattern : regex :=
  seqs [chr "\"; Group 1 (Alt (lit "begin") (lit "end")); chr "{";
        Group 2 (plus (Class true [cc "}"])); chr "}"].

Definition mk_tag (text : jsstring) (x : rmatch) : tag :=
  {| tag_type := rm_group text x 1;
     tag_env := rm_group text x 2;
     tag_index := index x;
     tag_length := List.length (rm_text text x) |}.

Definition is_begin (t : tag) : bool := opt_str_eqb (tag_type t) (Some (js "begin")).

Definition scanTags (text : jsstring) : list tag :=
  List.map (mk_tag text) (exec_all no_flags tagPattern text).

(** One turn of the loop over the tags.  The stack is kept with its top
    first. *)
Definition tag_step (text : jsstring) (st : list tag * list LatexEnv) (t : tag)
  : list tag * list LatexEnv :=
  let (stack, envs) := st in
  if opt_str_eqb (tag_type t) (Some (js "begin")) then (t :: stack, envs)
  else if opt_str_eqb (tag_type t) (Some (js "end")) && (0 <? List.length stack) then
    match stack with
    | startTag :: rest =>
        if opt_str_eqb (tag_env startTag) (tag_env t) then
          if List.length rest =? 0 then
            let start := tag_index startTag in
            let end_ := tag_index t + tag_length t in
            (rest, envs ++ [{| env_start := start; env_end := end_;
                               env_content := substring text start end_ |}])
          else (rest, envs)
        else (stack, envs)
    | [] => (stack, envs)
    end
  else (stack, envs).

Definition findTopLevelEnvs (text : jsstring) : list LatexEnv :=
  sort_by env_start (snd (fold_left (tag_step text) (scanTags text) ([], []))).

(** /(\\\(.+?\\\)|\$\$.*?\$\$|\$.*?\$|\\\[.*?\\\])/gs *)
Definition splitLatexPattern : regex :=
  Group 1 (alts [seqs [lit "\("; plus_lazy Any; lit "\)"];
                 seqs [lit "$$"; star_lazy Any; lit "$$"];
                 seqs [chr "$"; star_lazy Any; chr "$"];
                 seqs [lit "\["; star_lazy Any; lit "\]"]]).

Definition splitLatex (latex : jsstring) : list (option jsstring) :=
  split flags_s splitLatexPattern latex.

(** /^\\\((.+?)\\\)$/s *)
Definition inlineFragmentPattern : regex :=
  seqs [Bol; lit "\("; Group 1 (plus_lazy Any); lit "\)"; Eol].

Definition isInlineLatexFragment (fragment : jsstring) : option rmatch :=
  match_ flags_s inlineFragmentPattern fragment.

Record VariableMatch := { vm_match : rmatch; vm_content : jsstring }.

Definition group_or_empty (text : jsstring) (x : rmatch) (n : nat) : jsstring :=
  match rm_group text x n with Some s => s | None => [] end.

Definition word_class : list class_item := [cr "a" "z"; cr "A" "Z"; cc "_"; cr "0" "9"].

(** /^\\\(\s*([a-zA-Z_0-9]{1,3})\s*\\\)$/s *)
Definition smallVariablePattern : regex :=
  seqs [Bol; lit "\("; star (Class false [CSpace]);
        Group 1 (range 1 3 (Class false word_class));
        star (Class false [CSpace]); lit "\)"; Eol].

Definition isSmallVariableLatex (fragment : jsstring) : option VariableMatch :=
  match match_ flags_s smallVariablePattern fragment with
  | None => None
  | Some x =>
      let content := group_or_empty fragment x 1 in
      if includes content (js "\") || includes content (js "{")
         || includes content (js "}") || includes content (js "^")
         || includes content (js "_") || includes content (js "frac")
      then None
      else Some {| vm_match := x; vm_content := content |}
  end.

(** /^\$([a-zA-Z][a-zA-Z0-9_]{0,2})\$$/s *)
Definition isSimpleVariable (fragment : jsstring) : option VariableMatch :=
  match match_ flags_s
          (seqs [Bol; chr "$";
                 Group 1 (Seq (Class false [cr "a" "z"; cr "A" "Z"])
                              (range 0 2 (Class false [cr "a" "z"; cr "A" "Z"; cr "0" "9"; cc "_"])));
                 chr "$"; Eol]) fragment with
  | None => None
  | Some x =>
      let content := group_or_empty fragment x 1 in
      if includes content (js "\") || includes content (js "{")
         || includes content (js "}") || includes content (js "^")
         || includes content (js "_") || includes content (js "frac")
         || includes content (js "+") || includes content (js "-")
         || includes content (js "*") || includes content (js "/")
         || includes content (js "=") || includes content (js "(")
         || includes content (js ")") || (3 <? List.length content)
      then None
      else Some {| vm_match := x; vm_content := content |}
  end.

(** /^\\\[(.+?)\\\]$/s and /^\$\$(.*?)\$\$$/s; in the second pattern the group
    is numbered 1 as well. *)
Definition bracketBlockPattern : regex :=
  seqs [Bol; lit "\["; Group 1 (plus_lazy Any); lit "\]"; Eol].
Definition dollarBlockPattern : regex :=
  seqs [Bol; lit "$$"; Group 1 (star_lazy Any); lit "$$"; Eol].

Definition isBlockLatexFragment (fragment : jsstring) : option rmatch :=
  match match_ flags_s bracketBlockPattern fragment with
  | Some x => Some x
  | None => match_ flags_s dollarBlockPattern fragment
  end.

Definition letter : list class_item := [cr "a" "z"; cr "A" "Z"].

(** The indicator patterns of [isSelectiveInlineLatex], in the order of the
    source. *)
Definition mathPatterns : list regex :=
  [ (* /[+\-*/=<>≤≥≠±∞∑∏∫∪∩∈∉⊆⊇∅∀∃∴∝]/ *)
    Class false (cchars "+-*/=<>" ++
      List.map CChar [0x2264; 0x2265; 0x2260; 0xb1; 0x221e; 0x2211; 0x220f;
                      0x222b; 0x222a; 0x2229; 0x2208; 0x2209; 0x2286; 0x2287;
                      0x2205; 0x2200; 0x2203; 0x2234; 0x221d]%N);
    (* /\\(frac|sqrt|int|sum|prod|lim|sin|cos|tan|log|ln|exp|times|cup|cap|subset|supset|in|notin|forall|exists|therefore|propto)/ *)
    Seq (chr "\")
        (Group 1 (alts (List.map lit
           ["frac"; "sqrt"; "int"; "sum"; "prod"; "lim"; "sin"; "cos"; "tan";
            "log"; "ln"; "exp"; "times"; "cup"; "cap"; "subset"; "supset"; "in";
            "notin"; "forall"; "exists"; "therefore"; "propto"]%string)));
    (* /\([^)]*[+\-*/=,][^)]*\)/ *)
    seqs [chr "("; star (Class true [cc ")"]); Class false (cchars "+-*/=,");
          star (Class true [cc ")"]); chr ")"];
    (* /\{[^}]*[,=][^}]*\}/ *)
    seqs [chr "{"; star (Class true [cc "}"]); Class false (cchars ",=");
          star (Class true [cc "}"]); chr "}"];
    (* /\{[^}]*\([^)]*,[^)]*\)[^}]*\}/ *)
    seqs [chr "{"; star (Class true [cc "}"]); chr "(";
          star (Class true [cc ")"]); chr ","; star (Class true [cc ")"]);
          chr ")"; star (Class true [cc "}"]); chr "}"];
    (* /[_^]/ *)
    Class false (cchars "_^");
    (* /[A-Z][a-z]?_?\d+/ *)
    seqs [Class false [cr "A" "Z"]; opt (Class false [cr "a" "z"]); opt (chr "_");
          plus (Class false [CDigit])];
    (* /\\[a-zA-Z]+/ *)
    Seq (chr "\") (plus (Class false letter));
    (* /\d+\s*[a-zA-Z]/ *)
    seqs [plus (Class false [CDigit]); star (Class false [CSpace]); Class false letter];
    (* /[a-zA-Z]\s*[=]\s*[^,}]/ *)
    seqs [Class false letter; star (Class false [CSpace]); Class false [cc "="];
          star (Class false [CSpace]); Class true (cchars ",}")] ].

(** /^\$(.+?)\$$/s, then [mathPatterns.some(pattern => pattern.test(content))] *)
Definition isSelectiveInlineLatex (fragment : jsstring) : option rmatch :=
  match match_ flags_s (seqs [Bol; chr "$"; Group 1 (plus_lazy Any); chr "$"; Eol]) fragment with
  | None => None
  | Some x =>
      let content := group_or_empty fragment x 1 in
      if existsb (fun pattern => test no_flags pattern content) mathPatterns
      then Some x else None
  end.

(** /^\\begin\{([^}]+)\}(.*?)\\end\{\1\}$/s *)
Definition environmentPattern : regex :=
  seqs [Bol; lit "\begin{"; Group 1 (plus (Class true [cc "}"])); chr "}";
        Group 2 (star_lazy Any); lit "\end{"; Backref 1; chr "}"; Eol].

Definition isLatexEnvironment (fragment : jsstring) : option rmatch :=
  match_ flags_s environmentPattern fragment.

(** The patterns that [validateLatexInput] refuses; each is a plain string. *)
Definition dangerousLatexCommands : list String.string :=
  ["\input{"; "\include{"; "\write"; "\read"; "\openin"; "\openout";
   "\immediate"; "\special"; "\pdfliteral"]%string.

Definition dangerousLatexPatterns : list regex :=
  List.map lit dangerousLatexCommands.

Definition validateLatexInput (input : jsstring) : bool :=
  negb (existsb (fun pattern => test no_flags pattern input) dangerousLatexPatterns).

(** ** src/components/RichText/processors/ContentParser.ts *)

Inductive match_type : Type := smiles | heading | math | env.

Definition match_type_eqb (a b : match_type) : bool :=
  match a, b with
  | smiles, smiles | heading, heading | math, math | env, env => true
  | _, _ => false
  end.

Record ContentMatch := {
  cm_start : nat;
  cm_end : nat;
  cm_content : jsstring;
  cm_type : match_type
}.

(** The object pushed for a match of a pattern: [start: x.index],
    [end: x.index + x[0].length], [content: x[0]]. *)
Definition mk_match (text : jsstring) (ty : match_type) (x : rmatch) : ContentMatch :=
  {| cm_start := index x;
     cm_end := index x + List.length (rm_text text x);
     cm_content := rm_text text x;
     cm_type := ty |}.

(** /<smiles>.*?<\/smiles>/gs *)
Definition smilesPattern : regex :=
  seqs [lit "<smiles>"; star_lazy Any; lit "</smiles>"].

Definition findSmilesMatches (text : jsstring) (matches : list ContentMatch)
  : list ContentMatch :=
  matches ++ List.map (mk_match text smiles) (exec_all flags_s smilesPattern text).

(** /^(#{1,6})\s+(.+)$/gm *)
Definition headingPattern : regex :=
  seqs [Bol; Group 1 (range 1 6 (chr "#")); plus (Class false [CSpace]);
        Group 2 (plus Any); Eol].

Definition findHeadingMatches (text : jsstring) (matches : list ContentMatch)
  : list ContentMatch :=
  matches ++ List.map (mk_match text heading) (exec_all flags_m headingPattern text).

(** /(\$\$.*?\$\$|\\\[.*?\\\])/gs *)
Definition blockPattern : regex :=
  Group 1 (Alt (seqs [lit "$$"; star_lazy Any; lit "$$"])
               (seqs [lit "\["; star_lazy Any; lit "\]"])).

Definition not_dollar : regex := Class true [cc "$"].
Definition not_dollar_space : regex := Class true [cc "$"; CSpace].

(** /(\\\(.*?\\\)|\$[^$\s][^$]*[^$\s]\$|\$[^$\s]+\$)/gs *)
Definition inlinePattern : regex :=
  Group 1 (alts [seqs [lit "\("; star_lazy Any; lit "\)"];
                 seqs [chr "$"; not_dollar_space; star not_dollar; not_dollar_space; chr "$"];
                 seqs [chr "$"; plus not_dollar_space; chr "$"]]).

(** /^\s*[-*+]\s*$/ on the text between the start of the line and [index].
    For [index = 0] the source searches from [-1], which [lastIndexOf] clamps
    to 0, as the subtraction on natural numbers does. *)
Definition isInListContext (text : jsstring) (index : nat) : bool :=
  let lineStart :=
    match lastIndexOf text 10%N (index - 1) with
    | None => 0
    | Some prevNewlineIdx => prevNewlineIdx + 1
    end in
  let prefix := slice text lineStart index in
  test no_flags
       (seqs [Bol; star (Class false [CSpace]); Class false (cchars "-*+");
              star (Class false [CSpace]); Eol]) prefix.

Definition is_some {A : Type} (o : option A) : bool :=
  match o with Some _ => true | None => false end.

Definition shouldSkipMathFragment (fragment : jsstring) : bool :=
  if startsWith fragment (js "$") && negb (startsWith fragment (js "$$"))
     && is_some (isSimpleVariable fragment) then true
  else if startsWith fragment (js "\(") && endsWith fragment (js "\)")
     && is_some (isSmallVariableLatex fragment) then true
  else if startsWith fragment (js "$") && negb (startsWith fragment (js "$$"))
     && negb (is_some (isSelectiveInlineLatex fragment)) then true
  else false.

(** One turn of the loop over the inline candidates. *)
Definition inline_step (text : jsstring) (matches : list ContentMatch) (x : rmatch)
  : list ContentMatch :=
  let overlaps :=
    existsb (fun existing =>
               (index x <? cm_end existing)
               && (cm_start existing <? index x + List.length (rm_text text x)))
            matches in
  if overlaps then matches
  else if isInListContext text (index x) then matches
  else if shouldSkipMathFragment (rm_text text x) then matches
  else matches ++ [mk_match text math x].

Definition findMathMatches (text : jsstring) (matches : list ContentMatch)
  : list ContentMatch :=
  let matches1 :=
    matches ++ List.map (mk_match text math) (exec_all flags_s blockPattern text) in
  fold_left (inline_step text) (exec_all flags_s inlinePattern text) matches1.

Definition findEnvironmentMatches (text : jsstring) (matches : list ContentMatch)
  : list ContentMatch :=
  matches ++
  List.map (fun e => {| cm_start := env_start e; cm_end := env_end e;
                        cm_content := env_content e; cm_type := env |})
           (findTopLevelEnvs text).

Definition indexed {A : Type} (l : list A) : list (nat * A) :=
  combine (seq 0 (List.length l)) l.

(** [arr.some((otherMatch, j) => ...)] of [filterNestedMatches]. *)
Definition isNested (arr : list ContentMatch) (i : nat) (x : ContentMatch) : bool :=
  existsb (fun jo : nat * ContentMatch =>
             let (j, otherMatch) := jo in
             if i =? j then false
             else (cm_start otherMatch <=? cm_start x) && (cm_end x <=? cm_end otherMatch))
          (indexed arr).

Definition filterNestedMatches (matches : list ContentMatch) : list ContentMatch :=
  let arr := sort_by cm_start matches in
  List.map snd
    (List.filter (fun ix : nat * ContentMatch => negb (isNested arr (fst ix) (snd ix)))
                 (indexed arr)).

Definition parseContent (text : jsstring) : list ContentMatch :=
  let allMatches := findSmilesMatches text [] in
  let allMatches := findHeadingMatches text allMatches in
  let allMatches := findMathMatches text allMatches in
  let allMatches := findEnvironmentMatches text allMatches in
  filterNestedMatches allMatches.

(** ** Rendered output

    The functions below return React elements.  An element is modelled by its
    tag or component name, its key, its string properties and its children.  Two
    components take more than strings: the Markdown engine with the placeholder
    table that its [components] close over, and a heading, which is the element
    that [renderHeading(text, level)] of src/utils/markdown.tsx returns and is
    kept as that call.  Callback properties ([errorCallback]) are constant
    functions of the source and are left out. *)

Inductive element : Type :=
| TextNode (s : jsstring)
| Elem (tag : String.string) (key : option jsstring)
       (props : list (String.string * jsstring)) (children : list element)
| MarkdownEl (key : option jsstring) (placeholderMap : list (jsstring * element))
             (source : jsstring)
| RenderHeading (text : jsstring) (level : nat)
| Inherited (name : jsstring).

Definition key_of (prefix : String.string) (n : nat) : option jsstring :=
  Some (js prefix ++ number_to_string n).

(** [map.set(k, v)] on a [Map], which keeps the order of first insertion. *)
Fixpoint map_set (k : jsstring) (v : element) (mp : list (jsstring * element))
  : list (jsstring * element) :=
  match mp with
  | [] => [(k, v)]
  | (k', v') :: mp' =>
      if str_eqb k' k then (k, v) :: mp' else (k', v') :: map_set k v mp'
  end.

(** [s.split(sep)] for a separator string that is not empty. *)
Fixpoint split_str_loop (sep : jsstring) (s acc : jsstring) : list jsstring :=
  match s with
  | [] => [rev acc]
  | c :: s' =>
      if startsWith s sep
      then rev acc :: split_str_skip sep (List.length sep - 1) s'
      else split_str_loop sep s' (c :: acc)
  end
with split_str_skip (sep : jsstring) (n : nat) (s : jsstring) : list jsstring :=
  match s with
  | [] => [[]]
  | c :: s' =>
      match n with
      | 0 => if startsWith s sep
             then [] :: split_str_skip sep (List.length sep - 1) s'
             else split_str_loop sep s' [c]
      | S n' => split_str_skip sep n' s'
      end
  end.

Definition split_str (s sep : jsstring) : list jsstring := split_str_loop sep s [].

(** ** src/components/RichText/processors/MarkdownProcessor.tsx *)

(** /<smiles>(.*?)<\/smiles>/g *)
Definition smilesCodePattern : regex :=
  seqs [lit "<smiles>"; Group 1 (star_lazy Any); lit "</smiles>"].

(** /\$([a-zA-Z][a-zA-Z0-9_]{0,2})\$/g *)
Definition simpleVarPattern : regex :=
  seqs [chr "$";
        Group 1 (Seq (Class false letter)
                     (range 0 2 (Class false [cr "a" "z"; cr "A" "Z"; cr "0" "9"; cc "_"])));
        chr "$"].

(** /\\\(([a-zA-Z][a-zA-Z0-9]{0,2})\\\)/g *)
Definition smallVarPattern : regex :=
  seqs [lit "\(";
        Group 1 (Seq (Class false letter)
                     (range 0 2 (Class false [cr "a" "z"; cr "A" "Z"; cr "0" "9"])));
        lit "\)"].

Definition placeholder_state := (nat * list (jsstring * element))%type.

Definition smiles_replacer (text : jsstring) (s : placeholder_state) (x : rmatch)
  : placeholder_state * jsstring :=
  let (placeholderCounter, placeholderMap) := s in
  let placeholder := js "SMILES_PLACEHOLDER_" ++ number_to_string placeholderCounter in
  ((S placeholderCounter,
    map_set placeholder
      (Elem "Smiles" (Some placeholder) [("code"%string, group_or_empty text x 1)] [])
      placeholderMap),
   placeholder).

Definition inline_math_replacer (text : jsstring) (s : placeholder_state) (x : rmatch)
  : placeholder_state * jsstring :=
  let (placeholderCounter, placeholderMap) := s in
  let match_ := rm_text text x in
  if is_some (isSimpleVariable match_) then (s, match_)
  else if startsWith match_ (js "\(") && endsWith match_ (js "\)")
          && is_some (isSmallVariableLatex match_) then (s, match_)
  else if startsWith match_ (js "$") && negb (startsWith match_ (js "$$"))
          && negb (is_some (isSelectiveInlineLatex match_)) then (s, match_)
  else
    let placeholder := js "MATH_PLACEHOLDER_" ++ number_to_string placeholderCounter in
    ((S placeholderCounter,
      map_set placeholder
        (Elem "InlineMath" (Some placeholder)
              [("math"%string,
                if startsWith match_ (js "\(")
                then slice match_ 2 (List.length match_ - 2)
                else slice match_ 1 (List.length match_ - 1))] [])
        placeholderMap),
     placeholder).

(** The four replacements that turn a text fragment into Markdown source with
    placeholders.  [processTextFragmentWithPlaceholders] and the item renderer
    of [parseLatexList] both carry them out. *)
Definition substitute_placeholders (textFragment : jsstring)
  : list (jsstring * element) * jsstring :=
  let '(s1, c1) :=
    replace_all_st no_flags smilesCodePattern textFragment
                   (smiles_replacer textFragment) (0, []) in
  let '(s2, c2) :=
    replace_all_st flags_s inlinePattern c1 (inline_math_replacer c1) s1 in
  let c3 := replace_all no_flags simpleVarPattern c2
              (fun x => js "**" ++ group_or_empty c2 x 1 ++ js "**") in
  let c4 := replace_all no_flags smallVarPattern c3
              (fun x => js "***" ++ group_or_empty c3 x 1 ++ js "***") in
  (snd s2, c4).

Definition processTextFragmentWithPlaceholders (textFragment : jsstring) (index : nat)
  : element :=
  let (placeholderMap, processedContent) := substitute_placeholders textFragment in
  MarkdownEl (key_of "text-" index) placeholderMap processedContent.

(** ** src/utils/markdown.tsx *)

(** /(\$[a-zA-Z][a-zA-Z0-9_]{0,2}\$|\\\([a-zA-Z][a-zA-Z0-9]{0,2}\\\))/g *)
Definition smallVariablesSplitPattern : regex :=
  Group 1 (Alt (seqs [chr "$"; Class false letter;
                      range 0 2 (Class false [cr "a" "z"; cr "A" "Z"; cr "0" "9"; cc "_"]);
                      chr "$"])
               (seqs [lit "\("; Class false letter;
                      range 0 2 (Class false [cr "a" "z"; cr "A" "Z"; cr "0" "9"]);
                      lit "\)"])).

Definition is_empty_text_span (e : element) : bool :=
  match e with
  | Elem _ _ _ [TextNode []] => true
  | _ => false
  end.

Definition processTextWithSmallVariables (text : jsstring) : list element :=
  let parts := split_strings no_flags smallVariablesSplitPattern text in
  List.filter (fun part => negb (is_empty_text_span part))
    (List.map
       (fun ip : nat * jsstring =>
          let (index, part) := ip in
          match isSimpleVariable part with
          | Some simpleVarMatch =>
              Elem "span" (Some (number_to_string index))
                   [("className", js "font-bold"); ("role", js "text");
                    ("aria-label", js "Variable " ++ vm_content simpleVarMatch)]%string
                   [TextNode (vm_content simpleVarMatch)]
          | None =>
              match isSmallVariableLatex part with
              | Some smallVarMatch =>
                  Elem "span" (Some (number_to_string index))
                       [("className", js "font-bold italic"); ("role", js "math");
                        ("aria-label", js "Mathematical variable " ++ vm_content smallVarMatch)]%string
                       [TextNode (vm_content smallVarMatch)]
              | None => Elem "span" (Some (number_to_string index)) [] [TextNode part]
              end
          end)
       (indexed parts)).

(** The patterns that [validateMarkdownContent] refuses, all with the flags
    [gi]; each is a fresh pattern, tested once. *)
Definition not_gt : regex := star (Class true [cc ">"]).
Definition dangerousMarkdownPatterns : list regex :=
  [ lit "javascript:"; lit "data:text/html"; lit "vbscript:";
    seqs [lit "<script"; not_gt; chr ">"];
    seqs [lit "<iframe"; not_gt; chr ">"];
    seqs [lit "<object"; not_gt; chr ">"];
    seqs [lit "<embed"; not_gt; chr ">"];
    seqs [lit "<link"; not_gt; chr ">"];
    seqs [lit "<meta"; not_gt; chr ">"] ].

Definition validateMarkdownContent (content : jsstring) : bool :=
  if negb (truthy content) then false
  else if (100000 <? N.of_nat (List.length content))%N then false
  else negb (existsb (fun pattern => test flags_i pattern content) dangerousMarkdownPatterns).

(** ** src/components/RichText/processors/LatexProcessor.tsx *)

(** Names that every object inherits from [Object.prototype]: looking one up in
    the placeholder object finds the inherited member, which is truthy. *)
Definition object_prototype_names : list jsstring :=
  List.map js ["constructor"; "__proto__"; "hasOwnProperty"; "isPrototypeOf";
               "propertyIsEnumerable"; "toLocaleString"; "toString"; "valueOf";
               "__defineGetter__"; "__defineSetter__"; "__lookupGetter__";
               "__lookupSetter__"]%string.

Fixpoint assoc (k : jsstring) (l : list (jsstring * jsstring)) : option jsstring :=
  match l with
  | [] => None
  | (k', v) :: l' => if str_eqb k' k then Some v else assoc k l'
  end.

(** /(__LATEX_ENV_PLACEHOLDER_\d+__)/g *)
Definition placeholderRegex : regex :=
  Group 1 (seqs [lit "__LATEX_ENV_PLACEHOLDER_"; plus (Class false [CDigit]); lit "__"]).

(** The loop over the entries of the placeholder table that cuts the strings
    of [result] at each placeholder and puts the element in between. *)
Fixpoint interleave (element_ : element) (parts : list jsstring) (first : bool)
  : list element :=
  match parts with
  | [] => []
  | p :: parts' =>
      (if first then [] else [element_])
      ++ (if truthy p then [TextNode p] else [])
      ++ interleave element_ parts' false
  end.

Definition substitute_back (placeholderMap : list (jsstring * element))
    (processedPart : jsstring) : list element :=
  fold_left
    (fun result (entry : jsstring * element) =>
       let (placeholder, element_) := entry in
       flat_map (fun item =>
                   match item with
                   | TextNode s =>
                       if includes s placeholder
                       then interleave element_ (split_str s placeholder) true
                       else [item]
                   | _ => [item]
                   end) result)
    placeholderMap [TextNode processedPart].

Definition renderItemContent (placeholders : list (jsstring * jsstring))
    (itemContent : jsstring) : list element :=
  let parts := List.filter truthy (split_strings no_flags placeholderRegex itemContent) in
  List.map
    (fun ip : nat * jsstring =>
       let (i, part) := ip in
       let key := Some (number_to_string i) in
       let processed :=
         let (placeholderMap, processedPart) := substitute_placeholders part in
         Elem "span" key [] (substitute_back placeholderMap processedPart) in
       match assoc part placeholders with
       | Some original =>
           if truthy original then Elem "span" key [] [TextNode original] else processed
       | None =>
           if existsb (str_eqb part) object_prototype_names
           then Elem "span" key [] [Inherited part]
           else processed
       end)
    (indexed parts).

(** The loop of [parseLatexList] that replaces each nested environment by a
    placeholder. *)
Definition placeholder_step (innerContent : jsstring)
    (st : list (jsstring * jsstring) * jsstring * nat) (ie : nat * LatexEnv)
  : list (jsstring * jsstring) * jsstring * nat :=
  let '(placeholders, processedContent, lastIndex) := st in
  let (i, e) := ie in
  let placeholder := js "__LATEX_ENV_PLACEHOLDER_" ++ number_to_string i ++ js "__" in
  (placeholders ++ [(placeholder, env_content e)],
   processedContent ++ substring innerContent lastIndex (env_start e) ++ placeholder,
   env_end e).

(** /^\\begin\{[^}]+\}/s and /\\end\{[^}]+\}$/s *)
Definition beginTagPattern : regex :=
  seqs [Bol; lit "\begin{"; plus (Class true [cc "}"]); chr "}"].
Definition endTagPattern : regex :=
  seqs [lit "\end{"; plus (Class true [cc "}"]); chr "}"; Eol].

Definition innerContent_of (content : jsstring) : jsstring :=
  trim (replace_first flags_s endTagPattern
          (replace_first flags_s beginTagPattern content (fun _ => []))
          (fun _ => [])).

Definition placeholders_of (innerContent : jsstring)
  : list (jsstring * jsstring) * jsstring :=
  let subEnvs := findTopLevelEnvs innerContent in
  let '(placeholders, processedContent, lastIndex) :=
    fold_left (placeholder_step innerContent) (indexed subEnvs) ([], [], 0) in
  (placeholders, processedContent ++ substring_from innerContent lastIndex).

(** The strings that [parseLatexList] turns into items. *)
Definition list_items (processedContent : jsstring) : list jsstring :=
  let items :=
    List.filter (fun item => truthy (trim item))
                (split_strings no_flags (lit "\item") processedContent) in
  if (List.length items =? 0) && truthy (trim processedContent)
  then [trim processedContent]
  else items.

(** The pattern of a description item, with the flag [s]: [^\[([^\]]+)\]\s*]
    followed by a second group that holds [.*], and [$]. *)
Definition descriptionPattern : regex :=
  seqs [Bol; chr "["; Group 1 (plus (Class true [cc "]"])); chr "]";
        star (Class false [CSpace]); Group 2 (star Any); Eol].

Definition render_item (environment : jsstring)
    (placeholders : list (jsstring * jsstring)) (index : nat) (item : jsstring)
  : element :=
  let trimmedItem := trim item in
  if str_eqb environment (js "description") then
    match match_ flags_s descriptionPattern trimmedItem with
    | Some x =>
        let term := group_or_empty trimmedItem x 1 in
        let description := group_or_empty trimmedItem x 2 in
        Elem "div" (Some (number_to_string index)) [("className"%string, js "mb-2")]
             [Elem "dt" None [("className"%string, js "font-semibold")] [TextNode term];
              Elem "dd" None [("className"%string, js "ml-4")]
                   (renderItemContent placeholders description)]
    | None =>
        Elem "div" (Some (number_to_string index)) [("className"%string, js "mb-2")]
             [Elem "dd" None [("className"%string, js "ml-0")]
                   (renderItemContent placeholders trimmedItem)]
    end
  else
    Elem "li" (Some (number_to_string index)) [("className"%string, js "mb-1")]
         (renderItemContent placeholders trimmedItem).

Definition parseLatexList (content environment : jsstring) : list element :=
  let innerContent := innerContent_of content in
  let (placeholders, processedContent) := placeholders_of innerContent in
  let items := list_items processedContent in
  List.map (fun ii : nat * jsstring => render_item environment placeholders (fst ii) (snd ii))
           (indexed items).

Definition renderLatexEnvironment (environment content : jsstring) : element :=
  let items := parseLatexList content environment in
  if List.length items =? 0 then
    Elem "div" None
         [("className"%string,
           js "bg-yellow-50 dark:bg-yellow-900/20 border border-yellow-200 dark:border-yellow-800 p-3 rounded-md my-4")]
         [Elem "p" None
               [("className"%string, js "text-sm text-yellow-800 dark:text-yellow-200 mb-2")]
               [TextNode (js "Malformed LaTeX "); TextNode environment;
                TextNode (js " environment:")];
          Elem "pre" None
               [("className"%string, js "whitespace-pre-wrap text-sm text-gray-700 dark:text-gray-300")]
               [TextNode content]]
  else if str_eqb environment (js "enumerate") then
    Elem "ol" None [("className"%string, js "list-decimal list-outside space-y-1 my-4 pl-5")] items
  else if str_eqb environment (js "itemize") then
    Elem "ul" None [("className"%string, js "list-disc list-outside space-y-1 my-4 pl-5")] items
  else if str_eqb environment (js "description") then
    Elem "dl" None [("className"%string, js "space-y-2 my-4 pl-5")] items
  else
    Elem "div" None
         [("className"%string,
           js "bg-gray-50 dark:bg-gray-800 border border-gray-200 dark:border-gray-700 p-4 rounded-md my-4")]
         [Elem "p" None [("className"%string, js "text-sm text-gray-600 dark:text-gray-400 mb-2")]
               [TextNode (js "LaTeX "); TextNode environment; TextNode (js " environment:")];
          Elem "div" None [("className"%string, js "pl-4")]
               [if 0 <? List.length items
                then Elem "ul" None [("className"%string, js "list-none space-y-1")] items
                else Elem "pre" None [("className"%string, js "whitespace-pre-wrap text-sm")]
                          [TextNode content]]].

Definition InlineMath (key : option jsstring) (math_ : jsstring) : element :=
  Elem "InlineMath" key [("math"%string, math_)] [].

Definition BlockMathDiv (key : option jsstring) (math_ : jsstring) : element :=
  Elem "div" key [("className"%string, js "my-2")]
       [Elem "BlockMath" None [("math"%string, math_)] []].

(** [blockMatch[1] || blockMatch[2]]: both patterns of [isBlockLatexFragment]
    have one group, so [blockMatch[2]] is always undefined, and the result is
    undefined ([None]) when the first group is the empty string, as it is for
    the fragment made of four dollars. *)
Definition block_math_content (fragment : jsstring) (blockMatch : rmatch)
  : option jsstring :=
  let mathContent := group_or_empty fragment blockMatch 1 in
  if truthy mathContent then Some mathContent else None.

(** The two formula elements for a [math] property that may be undefined: an
    undefined property is an absent one. *)
Definition BlockMathOf (key : option jsstring) (mathContent : option jsstring)
  : element :=
  match mathContent with
  | Some math_ => BlockMathDiv key math_
  | None => Elem "div" key [("className"%string, js "my-2")]
                 [Elem "BlockMath" None [] []]
  end.

Definition InlineMathOf (key : option jsstring) (mathContent : option jsstring)
  : element :=
  match mathContent with
  | Some math_ => InlineMath key math_
  | None => Elem "InlineMath" key [] []
  end.

(** The rendering of one part in the last step of [renderLatex]. *)
Definition render_part (forceInline : bool) (ip : nat * option jsstring) : element :=
  let (index, opart) := ip in
  let part := match opart with Some s => s | None => [] end in
  let key := Some (number_to_string index) in
  match isBlockLatexFragment part with
  | Some blockMatch =>
      if negb forceInline then BlockMathOf key (block_math_content part blockMatch)
      else InlineMathOf key (block_math_content part blockMatch)
  | None =>
      match isSimpleVariable part with
      | Some simpleVarMatch =>
          Elem "span" key [("className"%string, js "font-bold")]
               [TextNode (vm_content simpleVarMatch)]
      | None =>
          match isSmallVariableLatex part with
          | Some smallVarMatch =>
              Elem "span" key [("className"%string, js "font-bold italic")]
                   [TextNode (vm_content smallVarMatch)]
          | None =>
              match isInlineLatexFragment part with
              | Some inlineMatch => InlineMath key (group_or_empty part inlineMatch 1)
              | None =>
                  match isSelectiveInlineLatex part with
                  | Some selectiveMatch =>
                      InlineMath key (group_or_empty part selectiveMatch 1)
                  | None =>
                      Elem "span" key [("className"%string, js "whitespace-pre-line")]
                           (match opart with Some s => [TextNode s] | None => [] end)
                  end
              end
          end
      end
  end.

Definition render_parts (latex : jsstring) (forceInline : bool) : element :=
  Elem "Fragment" None [] (List.map (render_part forceInline) (indexed (splitLatex latex))).

Definition renderLatex (latex : jsstring) (forceInline : bool) : element :=
  match isLatexEnvironment latex with
  | Some envMatch => renderLatexEnvironment (group_or_empty latex envMatch 1) latex
  | None =>
      let blockMatch := isBlockLatexFragment latex in
      let inlineMatch := isInlineLatexFragment latex in
      let selectiveMatch := isSelectiveInlineLatex latex in
      let otherwise :=
        match inlineMatch, selectiveMatch with
        | Some i, _ => InlineMath None (group_or_empty latex i 1)
        | None, Some s => InlineMath None (group_or_empty latex s 1)
        | None, None =>
            match isSimpleVariable latex with
            | Some simpleVarMatch =>
                Elem "span" None [("className"%string, js "font-bold")]
                     [TextNode (vm_content simpleVarMatch)]
            | None =>
                match isSmallVariableLatex latex with
                | Some smallVarMatch =>
                    Elem "span" None [("className"%string, js "font-bold italic")]
                         [TextNode (vm_content smallVarMatch)]
                | None => render_parts latex forceInline
                end
            end
        end in
      match blockMatch with
      | Some b =>
          if negb forceInline then BlockMathOf None (block_math_content latex b)
          else otherwise
      | None => otherwise
      end
  end.

(** ** src/components/RichText/RichText.tsx *)

Definition hasComplexStructures (text : jsstring) : bool :=
  (0 <? List.length (findTopLevelEnvs text))
  || includes text (js "\[")
  || includes text (js "$$").

(** /^(\$\$|\\\[)/ *)
Definition blockMathStart : regex :=
  Seq Bol (Group 1 (Alt (lit "$$") (lit "\["))).

Definition isBlockLevel (x : ContentMatch) : bool :=
  match cm_type x with
  | math => is_some (match_ no_flags blockMathStart (cm_content x))
  | smiles | heading | env => true
  end.

Definition prose (inline : bool) (children : list element) : element :=
  if inline then
    Elem "span" None
         [("className", js "prose-inline"); ("role", js "presentation");
          ("aria-label", js "Scientific content with mixed formatting")]%string
         children
  else
    Elem "div" None
         [("className", js "prose dark:prose-invert max-w-none"); ("role", js "article");
          ("aria-label", js "Scientific document content")]%string
         children.

(** /\\\(\s*([a-zA-Z][a-zA-Z0-9]{0,2})\s*\\\)/g *)
Definition fallbackSmallVarPattern : regex :=
  seqs [lit "\("; star (Class false [CSpace]);
        Group 1 (Seq (Class false letter)
                     (range 0 2 (Class false [cr "a" "z"; cr "A" "Z"; cr "0" "9"])));
        star (Class false [CSpace]); lit "\)"].

Definition renderFallbackContent (content : jsstring) (renderAsMarkdown : bool) : element :=
  if renderAsMarkdown then
    let c1 := replace_all no_flags simpleVarPattern content
                (fun x => js "**" ++ group_or_empty content x 1 ++ js "**") in
    let c2 := replace_all no_flags fallbackSmallVarPattern c1
                (fun x => js "***" ++ group_or_empty c1 x 1 ++ js "***") in
    MarkdownEl None [] c2
  else
    Elem "span" None [("className"%string, js "whitespace-pre-line")]
         (processTextWithSmallVariables content).

Definition latexError (index : nat) : element :=
  Elem "div" (key_of "error-" index)
       [("className", js "bg-red-50 border border-red-200 rounded-md p-3");
        ("role", js "alert"); ("aria-live", js "polite");
        ("aria-label", js "LaTeX rendering error")]%string
       [Elem "p" None [("className"%string, js "text-red-800")]
             [TextNode (js "Invalid LaTeX content")]].

Definition fallbackSpan (x : ContentMatch) (index : nat) : element :=
  Elem "span" (key_of "fallback-" index) [] [TextNode (cm_content x)].

Definition renderMatchedContent (x : ContentMatch) (index : nat) : element :=
  match cm_type x with
  | smiles =>
      match match_ no_flags smilesCodePattern (cm_content x) with
      | Some sm =>
          let smilesCode := group_or_empty (cm_content x) sm 1 in
          if truthy smilesCode
          then Elem "Smiles" (key_of "smiles-" index) [("code"%string, smilesCode)] []
          else fallbackSpan x index
      | None => fallbackSpan x index
      end
  | heading =>
      match match_ no_flags headingPattern (cm_content x) with
      | Some headingMatch =>
          let level := List.length (group_or_empty (cm_content x) headingMatch 1) in
          let text := group_or_empty (cm_content x) headingMatch 2 in
          Elem "div" (key_of "heading-" index) [] [RenderHeading text level]
      | None => fallbackSpan x index
      end
  | math | env =>
      if negb (validateLatexInput (cm_content x)) then latexError index
      else if is_some (match_ no_flags blockMathStart (cm_content x)) then
        Elem "div" (key_of "latex-" index)
             [("role", js "math");
              ("aria-label",
               js "Mathematical expression: " ++
               trim (replace_all no_flags (Class false (cchars "$\[]")) (cm_content x)
                                 (fun _ => [])))]%string
             [renderLatex (cm_content x) false]
      else
        Elem "span" (key_of "latex-" index)
             [("role", js "math");
              ("aria-label",
               js "Inline math: " ++
               trim (replace_all no_flags (Class false (cchars "$\()")) (cm_content x)
                                 (fun _ => [])))]%string
             [renderLatex (cm_content x) true]
  end.

(** The text between two block-level matches, or after the last one. *)
Definition render_text (renderAsMarkdown : bool) (text : jsstring) (index : nat)
    (key : option jsstring) : list element :=
  if truthy (trim text) then
    if renderAsMarkdown then [processTextFragmentWithPlaceholders text index]
    else [Elem "span" key [("className"%string, js "whitespace-pre-line")]
               (processTextWithSmallVariables text)]
  else [].

Definition block_step (content : jsstring) (renderAsMarkdown : bool)
    (st : list element * nat) (ix : nat * ContentMatch) : list element * nat :=
  let (elements, currentIndex) := st in
  let (index, x) := ix in
  let before :=
    if currentIndex <? cm_start x
    then render_text renderAsMarkdown (slice content currentIndex (cm_start x)) index
                     (key_of "text-" index)
    else [] in
  (elements ++ before ++ [renderMatchedContent x index], cm_end x).

Definition blockMatches (content : jsstring) : list ContentMatch :=
  List.filter isBlockLevel (parseContent content).

Definition renderWithComplexProcessing (content : jsstring)
    (renderAsMarkdown inline : bool) : element :=
  let '(elements, currentIndex) :=
    fold_left (block_step content renderAsMarkdown) (indexed (blockMatches content))
              ([], 0) in
  let elements :=
    if currentIndex <? List.length content
    then elements ++ render_text renderAsMarkdown (slice_from content currentIndex)
                                 currentIndex (Some (js "text-final"))
    else elements in
  prose inline
        (if 0 <? List.length elements then elements
         else [renderFallbackContent content renderAsMarkdown]).

Definition renderWithPlaceholders (content : jsstring) (inline : bool) : element :=
  prose inline [processTextFragmentWithPlaceholders content 0].

Definition invalidContent : element :=
  Elem "div" None
       [("className", js "error-message bg-red-50 border border-red-200 rounded-md p-3");
        ("role", js "alert"); ("aria-live", js "polite")]%string
       [Elem "p" None [("className"%string, js "text-red-800")]
             [TextNode (js "Invalid or potentially unsafe content")]].

(** The component; [None] is the [null] it returns for an empty content. *)
Definition RichText (content : jsstring) (renderAsMarkdown inline : bool)
  : option element :=
  if negb (truthy content) then None
  else if negb (validateMarkdownContent content) then Some invalidContent
  else if hasComplexStructures content || negb renderAsMarkdown
  then Some (renderWithComplexProcessing content renderAsMarkdown inline)
  else Some (renderWithPlaceholders content inline).

(** ** What a pattern matches

    [Matches fl text r st y]: the pattern [r] can take the state [st] to the
    state [y] on [text].  The backtracking matcher returns the first such way
    for which its continuation succeeds; which ways exist does not depend on
    the order in which they are tried. *)

Section Semantics.
Variable fl : flags.
Variable text : jsstring.

Inductive Matches : regex -> mstate -> mstate -> Prop :=
| M_Empty st : Matches Empty st st
| M_Char c st x :
    nth_error text (pos st) = Some x -> char_eq fl x c = true ->
    Matches (Char c) st (S (pos st), caps st)
| M_Any st x :
    nth_error text (pos st) = Some x -> any_mem fl x = true ->
    Matches Any st (S (pos st), caps st)
| M_Class neg items st x :
    nth_error text (pos st) = Some x -> class_mem fl neg items x = true ->
    Matches (Class neg items) st (S (pos st), caps st)
| M_Seq a b st y z :
    Matches a st y -> Matches b y z -> Matches (Seq a b) st z
| M_AltL a b st y : Matches a st y -> Matches (Alt a b) st y
| M_AltR a b st y : Matches b st y -> Matches (Alt a b) st y
| M_RepMax g lo a st : Matches (Rep g lo (Some 0) a) st st
| M_RepStop g hi a st : Matches (Rep g 0 hi a) st st
| M_RepIter g lo hi a st y z :
    hi <> Some 0 ->
    Matches a (pos st, reset_caps (groups a) (caps st)) y ->
    (lo = 0 -> pos y <> pos st) ->
    Matches (Rep g (Nat.pred lo) (option_map Nat.pred hi) a) y z ->
    Matches (Rep g lo hi a) st z
| M_Group n a st y :
    Matches a st y ->
    Matches (Group n a) st (pos y, set_cap n (pos st, pos y) (caps y))
| M_BackrefNone n st :
    get_cap n (caps st) = None -> Matches (Backref n) st st
| M_Backref n st b e :
    get_cap n (caps st) = Some (b, e) ->
    same_at fl text b (pos st) (e - b) = true ->
    Matches (Backref n) st (pos st + (e - b), caps st)
| M_Bol st : at_bol fl text (pos st) = true -> Matches Bol st st
| M_Eol st : at_eol fl text (pos st) = true -> Matches Eol st st.
End Semantics.

(** A pattern that cannot match the empty string. *)
Fixpoint consumes (r : regex) : bool :=
  match r with
  | Char _ | Any | Class _ _ => true
  | Seq a b => consumes a || consumes b
  | Alt a b => consumes a && consumes b
  | Rep _ lo hi a =>
      (0 <? lo) && consumes a
      && match hi with Some 0 => false | _ => true end
  | Group _ a => consumes a
  | Empty | Backref _ | Bol | Eol => false
  end.

(** The matches of a loop over a pattern come one after the other. *)
Fixpoint chained (fl : flags) (text : jsstring) (r : regex) (from : nat)
    (l : list rmatch) : Prop :=
  match l with
  | [] => True
  | x :: l' =>
      from <= index x /\ index x <= m_end x /\ m_end x <= List.length text
      /\ Matches fl text r (index x, []) (m_end x, m_caps x)
      /\ chained fl text r (m_end x) l'
  end.

(** [occurs text i l]: the characters of [l] stand in [text] from index [i]
    on. *)
Definition occurs (text : jsstring) (i : nat) (l : jsstring) : Prop :=
  forall j x, nth_error l j = Some x -> nth_error text (i + j) = Some x.

(** The test that a pattern of one character makes. *)
Definition char_pred (fl : flags) (r : regex) : option (char -> bool) :=
  match r with
  | Char c => Some (fun x => char_eq fl x c)
  | Any => Some (any_mem fl)
  | Class neg items => Some (class_mem fl neg items)
  | _ => None
  end.

(** [run text p i n]: the [n] characters of [text] from [i] on satisfy [p]. *)
Definition run (text : jsstring) (p : char -> bool) (i n : nat) : Prop :=
  forall j, j < n -> exists x, nth_error text (i + j) = Some x /\ p x = true.

(** The text of a tag, and what the scan knows of each tag it returns. *)
Definition tag_text (kind name : jsstring) : jsstring :=
  js "\" ++ kind ++ js "{" ++ name ++ js "}".

Definition valid_name (name : jsstring) : Prop :=
  name <> [] /\ Forall (fun c => c <> ch "}") name.

Definition tag_kind (kind : jsstring) : Prop := kind = js "begin" \/ kind = js "end".

Definition tag_ok (text : jsstring) (t : tag) : Prop :=
  exists kind name,
    tag_kind kind /\ valid_name name
    /\ tag_type t = Some kind /\ tag_env t = Some name
    /\ tag_length t = List.length (tag_text kind name)
    /\ occurs text (tag_index t) (tag_text kind name).

Fixpoint tags_chain (text : jsstring) (from : nat) (l : list tag) : Prop :=
  match l with
  | [] => True
  | t :: l' =>
      from <= tag_index t /\ tag_ok text t
      /\ tag_index t + tag_length t <= List.length text
      /\ tags_chain text (tag_index t + tag_length t) l'
  end.

(** A span that lies in the text and holds the characters of its range. *)
Definition valid_span (text : jsstring) (x : ContentMatch) : Prop :=
  cm_start x < cm_end x /\ cm_end x <= List.length text
  /\ cm_content x = slice text (cm_start x) (cm_end x).

(** An environment span that is a complete environment of the text. *)
Definition complete_env (text : jsstring) (e : LatexEnv) : Prop :=
  env_start e < env_end e /\ env_end e <= List.length text
  /\ env_content e = slice text (env_start e) (env_end e)
  /\ exists name body,
       valid_name name
       /\ env_content e = tag_text (js "begin") name ++ body ++ tag_text (js "end") name.

(** The number of begin tags of a text. *)
Definition count_begin (text : jsstring) : nat :=
  List.length (List.filter is_begin (scanTags text)).

(** What holds of the stack and of the spans while the tags are read; the
    tags on the stack end at or before [from]. *)
Definition stack_inv (text : jsstring) (from : nat) (st : list tag * list LatexEnv) : Prop :=
  Forall (fun t => tag_ok text t /\ is_begin t = true
                   /\ tag_index t + tag_length t <= from) (fst st)
  /\ Forall (complete_env text) (snd st).

(** Two continuations that agree on every state from index [i] to the end of
    [text]. *)
Definition agree_from (text : jsstring) (i : nat) (k1 k2 : cont) : Prop :=
  forall y, i <= pos y -> pos y <= Nat.max i (List.length text) -> k1 y = k2 y.

(** A text described from index [i] on as tags and the gaps between them; a
    gap holds neither [\begin{] nor [\end{]. *)
Definition tag_free (s : jsstring) : Prop :=
  includes s (js "\begin{") = false /\ includes s (js "\end{") = false.

Definition segment := (jsstring * jsstring * jsstring)%type.

Fixpoint described (text : jsstring) (i : nat) (segs : list segment) (tail : jsstring)
  : Prop :=
  match segs with
  | [] => tag_free tail /\ occurs text i tail /\ i + List.length tail = List.length text
  | (gap, kind, name) :: segs' =>
      tag_free gap /\ occurs text i gap /\ tag_kind kind /\ valid_name name
      /\ occurs text (i + List.length gap) (tag_text kind name)
      /\ described text (i + List.length gap + List.length (tag_text kind name)) segs' tail
  end.

Fixpoint segment_tags (i : nat) (segs : list segment) : list tag :=
  match segs with
  | [] => []
  | (gap, kind, name) :: segs' =>
      {| tag_type := Some kind; tag_env := Some name;
         tag_index := i + List.length gap;
         tag_length := List.length (tag_text kind name) |}
      :: segment_tags (i + List.length gap + List.length (tag_text kind name)) segs'
  end.

Fixpoint segments_text (segs : list segment) (tail : jsstring) : jsstring :=
  match segs with
  | [] => tail
  | (gap, kind, name) :: segs' => gap ++ tag_text kind name ++ segments_text segs' tail
  end.

(** Word characters and white space, as the classes of the small-variable
    pattern read them. *)
Definition is_word (c : char) : bool := class_mem flags_s false word_class c.
Definition is_blank (c : char) : bool := class_mem flags_s false [CSpace] c.

(** ** src/utils/latex.ts, the functions around the classifiers *)

Record MathFragment := {
  mf_content : jsstring;
  isBlock : bool;
  isInline : bool;
  isSelectiveInline : bool
}.

Definition analyzeMathFragment (fragment : jsstring) : MathFragment :=
  {| mf_content := fragment;
     isBlock := is_some (isBlockLatexFragment fragment);
     isInline := is_some (isInlineLatexFragment fragment);
     isSelectiveInline := is_some (isSelectiveInlineLatex fragment) |}.

Definition not_close_brace : regex := star (Class true [cc "}"]).
Definition not_open_brace : regex := star (Class true [cc "{"]).

(** The four patterns of [sanitizeLatexContent], all with the flag [g];
    each match is replaced by the empty string. *)
Definition sanitizeLatexPatterns : list regex :=
  [ seqs [lit "\input{"; not_close_brace; chr "}"];
    seqs [lit "\include{"; not_close_brace; chr "}"];
    seqs [lit "\write"; not_open_brace; chr "{"; not_close_brace; chr "}"];
    seqs [lit "\read"; not_open_brace; chr "{"; not_close_brace; chr "}"] ].

Definition erase (fl : flags) (content : jsstring) (pattern : regex) : jsstring :=
  replace_all fl pattern content (fun _ => []).

Definition sanitizeLatexContent (content : jsstring) : jsstring :=
  fold_left (erase no_flags) sanitizeLatexPatterns content.

(** ** src/utils/markdown.tsx, [sanitizeMarkdownContent] *)

Definition flags_is := {| ignoreCase := true; multiline := false; dotAll := true |}.

Definition sanitizeMarkdownContent (content : jsstring) : jsstring :=
  let c1 := erase flags_is content
              (seqs [lit "<script"; not_gt; chr ">"; star_lazy Any; lit "</script>"]) in
  let c2 := erase flags_is c1
              (seqs [lit "<iframe"; not_gt; chr ">"; star_lazy Any; lit "</iframe>"]) in
  let c3 := erase flags_i c2 (lit "javascript:") in
  let c4 := erase flags_i c3 (lit "data:text/html") in
  erase flags_i c4 (lit "vbscript:").

(** A pattern in which [.] does not occur matches the same way whatever the
    flag [s] is. *)
Fixpoint any_free (r : regex) : bool :=
  match r with
  | Any => false
  | Seq a b | Alt a b => any_free a && any_free b
  | Rep _ _ _ a | Group _ a => any_free a
  | _ => true
  end.

(** A fragment between two delimiters: [^open(.{lo,}?)close$] with the flag
    [s]. *)
Definition delimited (open close : jsstring) (lo : nat) : regex :=
  seqs [Bol; lit_chars open; Group 1 (Rep false lo None Any); lit_chars close; Eol].

(** Letters and letters or digits, as the classes of the variable patterns
    read them. *)
Definition is_letter (c : char) : bool := class_mem flags_s false letter c.
Definition is_alnum (c : char) : bool :=
  class_mem flags_s false [cr "a" "z"; cr "A" "Z"; cr "0" "9"] c.

(** /^\$([a-zA-Z][a-zA-Z0-9_]{0,2})\$$/s, the pattern of [isSimpleVariable] *)
Definition simpleVariablePattern : regex :=
  seqs [Bol; chr "$";
        Group 1 (Seq (Class false [cr "a" "z"; cr "A" "Z"])
                     (range 0 2 (Class false [cr "a" "z"; cr "A" "Z"; cr "0" "9"; cc "_"])));
        chr "$"; Eol].

(** The order that the loop over the tags keeps: the spans found so far lie
    one after the other, before [from] and before every tag on the stack. *)
Definition order_inv (from : nat) (st : list tag * list LatexEnv) : Prop :=
  (forall e, In e (snd st) -> env_end e <= from)
  /\ (forall e t, In e (snd st) -> In t (fst st) -> env_end e <= tag_index t)
  /\ StronglySorted (fun a b => env_end a <= env_start b) (snd st).

(** [first_char p r]: every match of [r] starts with a character that
    satisfies [p]; read off the literal characters with which the pattern
    begins. *)
Definition one_of (chars : jsstring) (x : char) : bool := existsb (N.eqb x) chars.

Fixpoint first_char (p : char -> bool) (r : regex) : bool :=
  match r with
  | Char c => p c
  | Seq a b =>
      first_char p a
      || match a with Bol | Empty => first_char p b | _ => false end
  | Alt a b => first_char p a && first_char p b
  | Group _ a => first_char p a
  | Rep _ lo hi a =>
      (0 <? lo) && match hi with Some 0 => false | _ => true end && first_char p a
  | _ => false
  end.

(** ** The children processor of src/components/RichText/processors/MarkdownProcessor.tsx

    The components that [processTextFragmentWithPlaceholders] hands to the
    Markdown engine pass their children through one function: a string is cut
    at the placeholders, as in [substitute_back]; an array is processed item
    by item; anything else is returned as it is. *)
Inductive children : Type :=
| ChildString (s : jsstring)
| ChildElement (e : element)
| ChildArray (items : list children).

Definition child_of (e : element) : children :=
  match e with
  | TextNode s => ChildString s
  | _ => ChildElement e
  end.

Fixpoint processChildren (placeholderMap : list (jsstring * element)) (c : children)
  : children :=
  match c with
  | ChildString s => ChildArray (List.map child_of (substitute_back placeholderMap s))
  | ChildArray items => ChildArray (List.map (processChildren placeholderMap) items)
  | ChildElement _ => c
  end.

(** [parts.join(sep)] *)
Definition join_with (sep : jsstring) (parts : list jsstring) : jsstring :=
  match parts with
  | [] => []
  | p :: parts' => p ++ concat (List.map (fun q => sep ++ q) parts')
  end.

(** The string for which an item of a substituted text stands: a text stands
    for itself and an element for its key. *)
Definition element_key (e : element) : option jsstring :=
  match e with
  | Elem _ key _ _ => key
  | MarkdownEl key _ _ => key
  | _ => None
  end.

Definition restore (e : element) : jsstring :=
  match e with
  | TextNode s => s
  | _ => match element_key e with Some k => k | None => [] end
  end.

Definition is_text (e : element) : bool :=
  match e with TextNode _ => true | _ => false end.

(** One turn of the loop of [substitute_back] over the placeholder table. *)
Definition substitute_step (result : list element) (entry : jsstring * element)
  : list element :=
  let (placeholder, element_) := entry in
  flat_map (fun item =>
              match item with
              | TextNode s =>
                  if includes s placeholder
                  then interleave element_ (split_str s placeholder) true
                  else [item]
              | _ => [item]
              end) result.

Definition text_of (items : list element) : jsstring :=
  concat (List.map restore items).

(** What the loop of [split_str] keeps: [sep] does not occur in
    [rev acc ++ s] at an index that lies in [acc]. *)
Definition no_occurrence (sep acc s : jsstring) : Prop :=
  forall k, k < List.length acc -> ~ occurs (rev acc ++ s) k sep.

(** The entries of the placeholder tables that the program builds: a name
    that is not empty, with an element that has this name as its key. *)
Definition good_entry (entry : jsstring * element) : Prop :=
  fst entry <> [] /\ restore (snd entry) = fst entry /\ is_text (snd entry) = false.

(** The text for which processed children stand. *)
Fixpoint children_text (c : children) : jsstring :=
  match c with
  | ChildString s => s
  | ChildElement e => restore e
  | ChildArray items => concat (List.map children_text items)
  end.

(** The items that are texts hold no [p]. *)
Definition texts_free (p : jsstring) (items : list element) : Prop :=
  Forall (fun item => forall s, item = TextNode s -> includes s p = false) items.

(** ** src/utils/markdown.tsx, headings *)

(** /(\\\[.*?\\\]|\$\$.*?\$\$|\\\(.*?\\\)|\$[^$\s][^$]*[^$\s]\$|\$[^$\s]+\$)/gs *)
Definition mixedMathPattern : regex :=
  Group 1 (alts [seqs [lit "\["; star_lazy Any; lit "\]"];
                 seqs [lit "$$"; star_lazy Any; lit "$$"];
                 seqs [lit "\("; star_lazy Any; lit "\)"];
                 seqs [chr "$"; not_dollar_space; star not_dollar; not_dollar_space; chr "$"];
                 seqs [chr "$"; plus not_dollar_space; chr "$"]]).

Record MathSpan := { ms_start : nat; ms_end : nat; ms_content : jsstring }.

(** The three tests of the loop of [processMixedContent] that leave a match
    out ([continue]). *)
Definition mixed_skip (m0 : jsstring) : bool :=
  (startsWith m0 (js "$") && negb (startsWith m0 (js "$$"))
   && is_some (isSimpleVariable m0))
  || (startsWith m0 (js "\(") && endsWith m0 (js "\)")
      && is_some (isSmallVariableLatex m0))
  || (startsWith m0 (js "$") && negb (startsWith m0 (js "$$"))
      && negb (is_some (isSelectiveInlineLatex m0))).

Definition mixed_matches (text : jsstring) : list MathSpan :=
  List.map (fun x => {| ms_start := index x;
                        ms_end := index x + List.length (rm_text text x);
                        ms_content := rm_text text x |})
           (List.filter (fun x => negb (mixed_skip (rm_text text x)))
                        (exec_all flags_s mixedMathPattern text)).

Definition math_content_span (index : nat) (mathMatch : MathSpan) : element :=
  Elem "span" (key_of "math-" index) [("className"%string, js "math-content")]
       [TextNode (ms_content mathMatch)].

Definition mixed_step (text : jsstring) (st : list element * nat) (im : nat * MathSpan)
  : list element * nat :=
  let (elements, currentIndex) := st in
  let (index, mathMatch) := im in
  let before :=
    if currentIndex <? ms_start mathMatch then
      let textBefore := slice text currentIndex (ms_start mathMatch) in
      if truthy textBefore then processTextWithSmallVariables textBefore else []
    else [] in
  (elements ++ before ++ [math_content_span index mathMatch], ms_end mathMatch).

(** An element whose [children] is a string that is blank. *)
Definition has_blank_text (el : element) : bool :=
  match el with
  | Elem _ _ _ [TextNode s] => negb (truthy (trim s))
  | _ => false
  end.

Definition processMixedContent (text : jsstring) : list element :=
  let matches := mixed_matches text in
  let '(elements, currentIndex) :=
    fold_left (mixed_step text) (indexed matches) ([], 0) in
  let elements :=
    if currentIndex <? List.length text then
      let remainingText := slice_from text currentIndex in
      if truthy remainingText
      then elements ++ processTextWithSmallVariables remainingText
      else elements
    else elements in
  if List.length matches =? 0 then processTextWithSmallVariables text
  else List.filter (fun el => negb (has_blank_text el)) elements.

Definition sizeClasses (level : nat) : option jsstring :=
  match level with
  | 1 => Some (js "text-3xl font-bold mb-4 mt-6")
  | 2 => Some (js "text-2xl font-semibold mb-3 mt-5")
  | 3 => Some (js "text-xl font-medium mb-2 mt-4")
  | 4 => Some (js "text-lg font-medium mb-2 mt-3")
  | 5 => Some (js "text-base font-medium mb-1 mt-2")
  | 6 => Some (js "text-sm font-medium mb-1 mt-2")
  | _ => None
  end.

Definition tag_name (s : jsstring) : String.string :=
  String.string_of_list_ascii (List.map Ascii.ascii_of_N s).

(** [renderHeading].  The case mapping of the engine, [toLowerCase], follows
    the tables of Unicode and is left as a parameter; what is proved of the
    heading holds for every mapping. *)
Section Heading.
Variable toLowerCase : jsstring -> jsstring.

(** The lower-case text without the characters outside [a-z], [0-9] and
    white space, with a hyphen for each run of white space, cut after 50
    characters. *)
Definition headingId (text : jsstring) : jsstring :=
  substring
    (replace_all no_flags (plus (Class false [CSpace]))
       (replace_all no_flags (Class true [cr "a" "z"; cr "0" "9"; CSpace])
                    (toLowerCase text) (fun _ => []))
       (fun _ => js "-"))
    0 50.

Definition renderHeading (text : jsstring) (level : nat) : element :=
  Elem (tag_name (js "h" ++ number_to_string level)) None
       ([("id"%string, headingId text)]
        ++ match sizeClasses level with
           | Some c => [("className"%string, c)]
           | None => []
           end
        ++ [("tabIndex"%string, js "-1")])
       (processMixedContent text).
End Heading.

(** The characters of a heading id. *)
Definition is_id_char (c : char) : bool :=
  class_mem no_flags false [cr "a" "z"; cr "0" "9"; cc "-"] c.

(** An element that is a span around one text. *)
Definition is_text_span (el : element) : bool :=
  match el with
  | Elem "span" _ _ [TextNode _] => true
  | _ => false
  end.

(** What [replace] with the flag [g] goes through: matches that follow one
    another from [from] on, none of them empty, with no match at the indices
    in between and after the last. *)
Fixpoint visits (fl : flags) (text : jsstring) (r : regex) (from : nat)
    (ms : list rmatch) : Prop :=
  match ms with
  | [] => forall j, from <= j -> match_at fl text r j = None
  | x :: ms' =>
      from <= index x /\ index x < m_end x /\ m_end x <= List.length text
      /\ (forall j, from <= j -> j < index x -> match_at fl text r j = None)
      /\ visits fl text r (m_end x) ms'
  end.

(** The body of a list environment: each item behind its [\item]. *)
Definition items_text (items : list jsstring) : jsstring :=
  concat (List.map (fun item => js "\item" ++ item) items).

(** An item that holds some text and no command. *)
Definition item_text (item : jsstring) : Prop :=
  Forall (fun x => x <> ch "\") item /\ truthy (trim item) = true.

(** Two spans that share no position of the text. *)
Definition disjoint_spans (a b : ContentMatch) : Prop :=
  cm_end a <= cm_start b \/ cm_end b <= cm_start a.

(** A math span of the inline scan: the block pattern finds only spans that
    start with two dollars or with [\[]. *)
Definition inline_math_span (x : ContentMatch) : Prop :=
  cm_type x = math
  /\ startsWith (cm_content x) (js "$$") = false
  /\ startsWith (cm_content x) (js "\[") = false.

(** The pairs of spans that the scanner keeps apart: two spans of one type,
    and an inline math span with any span that is not an environment. *)
Definition kept_apart (a b : ContentMatch) : Prop :=
  cm_type a = cm_type b
  \/ (inline_math_span a /\ cm_type b <> env)
  \/ (inline_math_span b /\ cm_type a <> env).

(** * Properties of the matcher *)

Section MatcherFacts.
Variable fl : flags.
Variable text : jsstring.

Local Abbreviation M := (Matches fl text).
Local Abbreviation mt := (m fl text).

Lemma same_at_bound b i len :
  same_at fl text b i len = true -> len = 0 \/ i + len <= List.length text.
Proof.
  revert b i. induction len as [|len IH]; intros b i H; [now left|right].
  simpl in H.
  destruct (nth_error text b) as [c|]; [|discriminate].
  destruct (nth_error text i) as [x|] eqn:Hi; [|discriminate].
  apply andb_true_iff in H as [_ H].
  assert (i < List.length text) by (apply nth_error_Some; congruence).
  destruct (IH _ _ H); lia.
Qed.

Lemma Matches_bounds r st y :
  M r st y -> pos st <= pos y /\ pos y <= Nat.max (pos st) (List.length text).
Proof.
  induction 1; simpl in *;
    try match goal with
        | H : nth_error text _ = Some _ |- _ =>
            assert (pos st < List.length text) by (apply nth_error_Some; congruence)
        end;
    try lia.
  match goal with H : same_at _ _ _ _ _ = true |- _ =>
    apply same_at_bound in H end.
  lia.
Qed.

Lemma Matches_le r st y : M r st y -> pos st <= pos y.
Proof. intros H; apply Matches_bounds in H; lia. Qed.

Lemma Matches_in_text r st y :
  M r st y -> pos st <= List.length text -> pos y <= List.length text.
Proof. intros H; apply Matches_bounds in H; lia. Qed.

Lemma consumes_progress r st y :
  consumes r = true -> M r st y -> pos st < pos y.
Proof.
  intros Hc HM. induction HM; cbn [consumes] in Hc; try discriminate;
    cbn [pos fst] in *; try lia.
  - apply orb_true_iff in Hc as [Hc|Hc].
    + apply IHHM1 in Hc. apply Matches_le in HM2. lia.
    + apply IHHM2 in Hc. apply Matches_le in HM1. lia.
  - apply andb_true_iff in Hc as [Hc _]. auto.
  - apply andb_true_iff in Hc as [_ Hc]. auto.
  - apply andb_true_iff in Hc as [Hc _]. apply andb_true_iff in Hc as [_ Hc].
    apply IHHM1 in Hc. apply Matches_le in HM2. cbn [pos fst] in Hc. lia.
  - auto.
Qed.

(** The matcher is sound: its result is what the continuation returns at the
    end of a match. *)
Lemma rep_loop_sound a g k :
  (forall k st z, mt a k st = Some z -> exists y, M a st y /\ k y = Some z) ->
  forall fuel lo hi st z,
    rep_loop (mt a) (groups a) g k fuel lo hi st = Some z ->
    exists y, M (Rep g lo hi a) st y /\ k y = Some z.
Proof.
  intros IHa. induction fuel as [|fuel IH]; intros lo hi st z H; [discriminate|].
  assert (Hiter :
    mt a (fun y => if (lo =? 0) && (pos y =? pos st) then None
                   else rep_loop (mt a) (groups a) g k fuel (Nat.pred lo)
                                 (option_map Nat.pred hi) y)
       (pos st, reset_caps (groups a) (caps st)) = Some z ->
    hi <> Some 0 ->
    exists y, M (Rep g lo hi a) st y /\ k y = Some z).
  { intros Hm Hhi. apply IHa in Hm as (y & Hy & Hd).
    destruct ((lo =? 0) && (pos y =? pos st)) eqn:Hc; [discriminate|].
    apply IH in Hd as (y' & Hy' & Hk).
    exists y'. split; [|exact Hk].
    eapply M_RepIter; eauto.
    intros ->. simpl in Hc. apply Nat.eqb_neq in Hc. exact Hc. }
  simpl in H.
  destruct hi as [[|h]|].
  - exists st. split; [apply M_RepMax|exact H].
  - destruct (lo =? 0) eqn:Hlo; simpl in H.
    + apply Nat.eqb_eq in Hlo. subst lo.
      destruct g; unfold orelse in H.
      * match type of H with
        | match ?e with _ => _ end = _ => destruct e eqn:He
        end.
        -- inversion H; subst. apply Hiter; [exact He|discriminate].
        -- exists st. split; [apply M_RepStop|exact H].
      * destruct (k st) eqn:Hk.
        -- inversion H; subst. exists st. split; [apply M_RepStop|exact Hk].
        -- apply Hiter; [exact H|discriminate].
    + apply Hiter; [exact H|discriminate].
  - destruct (lo =? 0) eqn:Hlo; simpl in H.
    + apply Nat.eqb_eq in Hlo. subst lo.
      destruct g; unfold orelse in H.
      * match type of H with
        | match ?e with _ => _ end = _ => destruct e eqn:He
        end.
        -- inversion H; subst. apply Hiter; [exact He|discriminate].
        -- exists st. split; [apply M_RepStop|exact H].
      * destruct (k st) eqn:Hk.
        -- inversion H; subst. exists st. split; [apply M_RepStop|exact Hk].
        -- apply Hiter; [exact H|discriminate].
    + apply Hiter; [exact H|discriminate].
Qed.

Lemma step_char_sound p k st z :
  step_char text p k st = Some z ->
  exists x, nth_error text (pos st) = Some x /\ p x = true
            /\ k (S (pos st), caps st) = Some z.
Proof.
  unfold step_char. destruct (nth_error text (pos st)) as [x|]; [|discriminate].
  destruct (p x) eqn:Hp; [|discriminate]. eauto.
Qed.

Theorem m_sound r :
  forall k st z, mt r k st = Some z -> exists y, M r st y /\ k y = Some z.
Proof.
  induction r; intros k st z H; cbn [m] in H.
  - exists st. split; [constructor|exact H].
  - apply step_char_sound in H as (x & Hx & Hp & Hk).
    eexists; split; [eapply M_Char; eauto|exact Hk].
  - apply step_char_sound in H as (x & Hx & Hp & Hk).
    eexists; split; [eapply M_Any; eauto|exact Hk].
  - apply step_char_sound in H as (x & Hx & Hp & Hk).
    eexists; split; [eapply M_Class; eauto|exact Hk].
  - apply IHr1 in H as (y & Hy & H). apply IHr2 in H as (y' & Hy' & H).
    exists y'. split; [econstructor; eauto|exact H].
  - unfold orelse in H. destruct (mt r1 k st) eqn:H1.
    + inversion H; subst. apply IHr1 in H1 as (y & Hy & Hk).
      exists y. split; [apply M_AltL; exact Hy|exact Hk].
    + apply IHr2 in H as (y & Hy & Hk).
      exists y. split; [apply M_AltR; exact Hy|exact Hk].
  - eapply rep_loop_sound; eauto.
  - apply IHr in H as (y & Hy & Hk).
    eexists; split; [apply M_Group; exact Hy|exact Hk].
  - destruct (get_cap n (caps st)) as [[b e]|] eqn:Hc.
    + destruct (same_at fl text b (pos st) (e - b)) eqn:Hs; [|discriminate].
      eexists; split; [eapply M_Backref; eauto|exact H].
    + exists st. split; [apply M_BackrefNone; exact Hc|exact H].
  - destruct (at_bol fl text (pos st)) eqn:Hb; [|discriminate].
    exists st. split; [apply M_Bol; exact Hb|exact H].
  - destruct (at_eol fl text (pos st)) eqn:Hb; [|discriminate].
    exists st. split; [apply M_Eol; exact Hb|exact H].
Qed.

Lemma orelse_left a b : a <> None -> orelse a b <> None.
Proof. destruct a; simpl; congruence. Qed.

Lemma orelse_right a b : b tt <> None -> orelse a b <> None.
Proof. destruct a; simpl; congruence. Qed.

(** The matcher is complete: when the pattern has a match that the
    continuation accepts, the matcher does not fail (the iteration bound of
    [rep_loop] is never what stops it). *)
Lemma rep_loop_complete a g :
  (forall st y, M a st y -> forall k, k y <> None -> mt a k st <> None) ->
  forall r st z, M r st z ->
  forall lo hi, r = Rep g lo hi a ->
  forall fuel k, lo + (List.length text - pos st) < fuel -> k z <> None ->
  rep_loop (mt a) (groups a) g k fuel lo hi st <> None.
Proof.
  intros IHa r st z HM.
  induction HM; intros lo' hi' E fuel k Hf Hk; inversion E; subst; clear E;
    (destruct fuel as [|fuel]; [lia|]); simpl.
  - exact Hk.
  - destruct hi' as [[|h]|]; [exact Hk| |];
      (destruct g; unfold orelse; simpl;
       [ match goal with |- match ?e with _ => _ end <> None =>
           destruct e; [discriminate|exact Hk] end
       | destruct (k st); [discriminate|congruence] ]).
  - assert (Hiter :
      mt a (fun y => if (lo' =? 0) && (pos y =? pos st) then None
                     else rep_loop (mt a) (groups a) g k fuel (Nat.pred lo')
                                   (option_map Nat.pred hi') y)
         (pos st, reset_caps (groups a) (caps st)) <> None).
    { apply (IHa _ _ HM1).
      pose proof (Matches_bounds HM1) as Hb. simpl in Hb.
      destruct (lo' =? 0) eqn:Hlo; simpl.
      - apply Nat.eqb_eq in Hlo. subst lo'.
        specialize (H0 eq_refl).
        destruct (pos y =? pos st) eqn:Hp; [apply Nat.eqb_eq in Hp; contradiction|].
        apply IHHM2; [reflexivity| |exact Hk]. simpl. lia.
      - apply Nat.eqb_neq in Hlo.
        apply IHHM2; [reflexivity| |exact Hk]. lia. }
    destruct hi' as [[|h]|]; [congruence| |];
      (destruct (lo' =? 0); cbn [negb]; [|exact Hiter];
       destruct g;
       [ apply orelse_left; exact Hiter
       | apply orelse_right; exact Hiter ]).
Qed.

Lemma step_char_complete p k st x :
  nth_error text (pos st) = Some x -> p x = true ->
  k (S (pos st), caps st) <> None -> step_char text p k st <> None.
Proof. intros Hx Hp Hk. unfold step_char. rewrite Hx, Hp. exact Hk. Qed.

Theorem m_complete r :
  forall st y, M r st y -> forall k, k y <> None -> mt r k st <> None.
Proof.
  induction r; intros st y HM k Hk; cbn [m].
  - inversion HM; subst. exact Hk.
  - inversion HM; subst. eapply step_char_complete; eauto.
  - inversion HM; subst. eapply step_char_complete; eauto.
  - inversion HM; subst. eapply step_char_complete; eauto.
  - inversion HM; subst. eapply IHr1; eauto.
  - inversion HM; subst.
    + apply orelse_left. eapply IHr1; eauto.
    + apply orelse_right. eapply IHr2; eauto.
  - eapply rep_loop_complete; eauto.
  - inversion HM; subst.
    match goal with H : M r _ _ |- _ => apply (IHr _ _ H) end. exact Hk.
  - inversion HM; subst.
    + match goal with H : get_cap _ _ = _ |- _ => rewrite H end. exact Hk.
    + match goal with H : get_cap _ _ = _ |- _ => rewrite H end.
      match goal with H : same_at _ _ _ _ _ = _ |- _ => rewrite H end. exact Hk.
  - inversion HM; subst.
    match goal with H : at_bol _ _ _ = _ |- _ => rewrite H end. exact Hk.
  - inversion HM; subst.
    match goal with H : at_eol _ _ _ = _ |- _ => rewrite H end. exact Hk.
Qed.
End MatcherFacts.

(** ** The bound on the turns of a quantifier

    A continuation is only ever called at a state between the current index
    and the end of the text, and the result of [rep_loop] is the same for
    every bound above [lo + remaining input]: the bound that [m] passes never
    cuts a match short. *)

Section FuelFacts.
Variable fl : flags.
Variable text : jsstring.

Local Abbreviation mt := (m fl text).

Lemma agree_from_later i j k1 k2 :
  i <= j -> j <= Nat.max i (List.length text) ->
  agree_from text i k1 k2 -> agree_from text j k1 k2.
Proof. intros H1 H2 H y Hy1 Hy2. apply H; lia. Qed.

Lemma step_char_local p k1 k2 st :
  agree_from text (pos st) k1 k2 -> step_char text p k1 st = step_char text p k2 st.
Proof.
  intros H. unfold step_char.
  destruct (nth_error text (pos st)) as [x|] eqn:E; [|reflexivity].
  destruct (p x); [|reflexivity].
  assert (pos st < List.length text) by (apply nth_error_Some; congruence).
  apply H; simpl; lia.
Qed.

Lemma rep_loop_local ma gs g :
  (forall k1 k2 st, agree_from text (pos st) k1 k2 -> ma k1 st = ma k2 st) ->
  forall fuel lo hi k1 k2 st,
    agree_from text (pos st) k1 k2 ->
    rep_loop ma gs g k1 fuel lo hi st = rep_loop ma gs g k2 fuel lo hi st.
Proof.
  intros Hma. induction fuel as [|fuel IH]; intros lo hi k1 k2 st H; [reflexivity|].
  assert (Hk : k1 st = k2 st) by (apply H; lia).
  assert (Hiter :
    ma (fun y => if (lo =? 0) && (pos y =? pos st) then None
                 else rep_loop ma gs g k1 fuel (Nat.pred lo) (option_map Nat.pred hi) y)
       (pos st, reset_caps gs (caps st))
    = ma (fun y => if (lo =? 0) && (pos y =? pos st) then None
                   else rep_loop ma gs g k2 fuel (Nat.pred lo) (option_map Nat.pred hi) y)
         (pos st, reset_caps gs (caps st))).
  { apply Hma. intros y Hy1 Hy2. cbn [pos fst] in Hy1, Hy2.
    destruct ((lo =? 0) && (pos y =? pos st)); [reflexivity|].
    apply IH. eapply agree_from_later; [| |exact H]; lia. }
  cbn [rep_loop]. rewrite Hk, Hiter. reflexivity.
Qed.

Lemma m_local r :
  forall k1 k2 st, agree_from text (pos st) k1 k2 -> mt r k1 st = mt r k2 st.
Proof.
  induction r; intros k1 k2 st H; cbn [m].
  - apply H; lia.
  - apply step_char_local, H.
  - apply step_char_local, H.
  - apply step_char_local, H.
  - apply IHr1. intros y Hy1 Hy2. apply IHr2.
    eapply agree_from_later; [| |exact H]; lia.
  - rewrite (IHr1 k1 k2 st H), (IHr2 k1 k2 st H). reflexivity.
  - apply rep_loop_local; [exact IHr|exact H].
  - apply IHr. intros y Hy1 Hy2. apply H; cbn [pos fst]; lia.
  - destruct (get_cap n (caps st)) as [[b e]|]; [|apply H; lia].
    destruct (same_at fl text b (pos st) (e - b)) eqn:Hs; [|reflexivity].
    apply same_at_bound in Hs. apply H; cbn [pos fst]; lia.
  - destruct (at_bol fl text (pos st)); [apply H; lia|reflexivity].
  - destruct (at_eol fl text (pos st)); [apply H; lia|reflexivity].
Qed.

Lemma rep_loop_enough a g k :
  forall f1 f2 lo hi st,
    lo + (List.length text - pos st) < f1 ->
    lo + (List.length text - pos st) < f2 ->
    rep_loop (mt a) (groups a) g k f1 lo hi st
    = rep_loop (mt a) (groups a) g k f2 lo hi st.
Proof.
  induction f1 as [|f1 IH]; intros f2 lo hi st H1 H2; [lia|].
  destruct f2 as [|f2]; [lia|].
  assert (Hiter :
    mt a (fun y => if (lo =? 0) && (pos y =? pos st) then None
                   else rep_loop (mt a) (groups a) g k f1 (Nat.pred lo)
                                 (option_map Nat.pred hi) y)
       (pos st, reset_caps (groups a) (caps st))
    = mt a (fun y => if (lo =? 0) && (pos y =? pos st) then None
                     else rep_loop (mt a) (groups a) g k f2 (Nat.pred lo)
                                   (option_map Nat.pred hi) y)
         (pos st, reset_caps (groups a) (caps st))).
  { apply m_local. intros y Hy1 Hy2. cbn [pos fst] in Hy1, Hy2.
    destruct (lo =? 0) eqn:Hlo; cbn [andb].
    - apply Nat.eqb_eq in Hlo. subst lo.
      destruct (pos y =? pos st) eqn:Hp; [reflexivity|].
      apply Nat.eqb_neq in Hp. apply IH; simpl; lia.
    - apply Nat.eqb_neq in Hlo. apply IH; lia. }
  cbn [rep_loop]. rewrite Hiter. reflexivity.
Qed.
End FuelFacts.

(** ** Searching and looping *)

Section SearchFacts.
Variable fl : flags.
Variable text : jsstring.

Local Abbreviation M := (Matches fl text).

Lemma match_at_sound r i st : match_at fl text r i = Some st -> M r (i, []) st.
Proof.
  intros H. apply m_sound in H as (y & Hy & E). inversion E; subst. exact Hy.
Qed.

Lemma match_at_complete r i y : M r (i, []) y -> match_at fl text r i <> None.
Proof. intros H. eapply m_complete; eauto. discriminate. Qed.

Lemma scan_sound r n :
  forall i j st, scan fl text r n i = Some (j, st) ->
    i <= j <= i + n /\ match_at fl text r j = Some st
    /\ forall j', i <= j' < j -> match_at fl text r j' = None.
Proof.
  induction n as [|n IH]; intros i j st H; simpl in H;
    destruct (match_at fl text r i) eqn:Hm.
  - inversion H; subst. repeat split; try lia; auto.
  - discriminate.
  - inversion H; subst. repeat split; try lia; auto.
  - apply IH in H as (Hj & Hs & Hn). repeat split; try lia; auto.
    intros j' Hj'. destruct (Nat.eq_dec j' i) as [->|]; [exact Hm|].
    apply Hn. lia.
Qed.

Lemma scan_complete r n :
  forall i j, i <= j <= i + n -> match_at fl text r j <> None ->
    scan fl text r n i <> None.
Proof.
  induction n as [|n IH]; intros i j Hj Hm; simpl;
    destruct (match_at fl text r i) eqn:Hi; try discriminate.
  - assert (j = i) by lia. subst. contradiction.
  - destruct (Nat.eq_dec j i) as [->|]; [contradiction|].
    apply (IH (S i) j); [lia|exact Hm].
Qed.

Lemma exec_match_sound r lastIndex x :
  exec_match fl r text lastIndex = Some x ->
  lastIndex <= index x /\ index x <= m_end x /\ m_end x <= List.length text
  /\ M r (index x, []) (m_end x, m_caps x).
Proof.
  unfold exec_match, exec. intros H.
  destruct (lastIndex <=? List.length text) eqn:Hl; [|discriminate].
  apply Nat.leb_le in Hl.
  destruct (scan fl text r (List.length text - lastIndex) lastIndex) as [[i st]|] eqn:Hs;
    [|discriminate].
  inversion H; subst; simpl. clear H.
  apply scan_sound in Hs as (Hi & Hm & _).
  apply match_at_sound in Hm.
  pose proof (Matches_bounds Hm) as Hb. simpl in Hb.
  destruct st as [e c]; simpl in *. repeat split; try lia. exact Hm.
Qed.

Lemma exec_match_first r lastIndex x :
  exec_match fl r text lastIndex = Some x ->
  match_at fl text r (index x) = Some (m_end x, m_caps x)
  /\ forall j, lastIndex <= j < index x -> match_at fl text r j = None.
Proof.
  unfold exec_match, exec. intros H.
  destruct (lastIndex <=? List.length text) eqn:Hl; [|discriminate].
  destruct (scan fl text r (List.length text - lastIndex) lastIndex) as [[i st]|] eqn:Hs;
    [|discriminate].
  inversion H; subst; simpl. clear H.
  apply scan_sound in Hs as (Hi & Hm & Hn).
  destruct st; simpl. auto.
Qed.

Lemma exec_match_complete r lastIndex j y :
  lastIndex <= j -> j <= List.length text -> M r (j, []) y ->
  exec_match fl r text lastIndex <> None.
Proof.
  intros H1 H2 HM. unfold exec_match, exec.
  assert (Hl : (lastIndex <=? List.length text) = true) by (apply Nat.leb_le; lia).
  rewrite Hl.
  pose proof (@scan_complete r (List.length text - lastIndex) lastIndex j) as Hs.
  destruct (scan fl text r (List.length text - lastIndex) lastIndex) as [[i st]|];
    [discriminate|].
  exfalso. apply Hs; [lia| |reflexivity].
  eapply match_at_complete; eauto.
Qed.

Lemma exec_match_none r lastIndex j y :
  exec_match fl r text lastIndex = None ->
  lastIndex <= j -> j <= List.length text -> M r (j, []) y -> False.
Proof.
  intros H H1 H2 HM. exact (exec_match_complete H1 H2 HM H).
Qed.

Lemma test_true r j y :
  j <= List.length text -> M r (j, []) y -> test fl r text = true.
Proof.
  intros Hj HM. unfold test.
  pose proof (@exec_match_complete r 0 j y (Nat.le_0_l _) Hj HM).
  destruct (exec_match fl r text 0); congruence.
Qed.

Lemma test_sound r :
  test fl r text = true ->
  exists j y, j <= List.length text /\ M r (j, []) y.
Proof.
  unfold test. destruct (exec_match fl r text 0) as [x|] eqn:H; [|discriminate].
  intros _. apply exec_match_sound in H as (_ & H1 & H2 & HM).
  exists (index x), (m_end x, m_caps x). split; [lia|exact HM].
Qed.

Lemma exec_loop_chained r fuel :
  forall lastIndex, chained fl text r lastIndex (exec_loop fl r text fuel lastIndex).
Proof.
  induction fuel as [|fuel IH]; intros li; simpl; [exact I|].
  destruct (exec_match fl r text li) as [x|] eqn:H; simpl; [|exact I].
  apply exec_match_sound in H as (H1 & H2 & H3 & HM).
  repeat split; auto.
Qed.

(** For a pattern that cannot match the empty string the loop ends before
    the bound on its turns is reached: more turns change nothing. *)
Lemma exec_loop_fuel r :
  consumes r = true ->
  forall f1 f2 lastIndex,
    List.length text - lastIndex < f1 -> List.length text - lastIndex < f2 ->
    exec_loop fl r text f1 lastIndex = exec_loop fl r text f2 lastIndex.
Proof.
  intros Hc. induction f1 as [|f1 IH]; intros f2 li H1 H2; [lia|].
  destruct f2 as [|f2]; [lia|]. simpl.
  destruct (exec_match fl r text li) as [x|] eqn:H; [|reflexivity].
  apply exec_match_sound in H as (Ha & Hb & Hd & HM).
  apply (consumes_progress Hc) in HM. simpl in HM.
  f_equal. apply IH; lia.
Qed.

Lemma chained_Forall r from l :
  chained fl text r from l ->
  Forall (fun x => from <= index x /\ index x <= m_end x
                   /\ m_end x <= List.length text
                   /\ M r (index x, []) (m_end x, m_caps x)) l.
Proof.
  revert from. induction l as [|x l IH]; intros from H; constructor.
  - simpl in H. tauto.
  - simpl in H. destruct H as (H1 & H2 & H3 & H4 & H5).
    apply IH in H5. eapply Forall_impl; [|exact H5].
    simpl. intros y Hy. repeat split; try tauto. lia.
Qed.
End SearchFacts.

(** ** Slices *)

Lemma slice_length s i j :
  j <= List.length s -> List.length (slice s i j) = j - i.
Proof.
  intros H. unfold slice. rewrite length_firstn, length_skipn. lia.
Qed.

Lemma firstn_plus (A : Type) (a b : nat) (l : list A) :
  firstn (a + b) l = firstn a l ++ firstn b (skipn a l).
Proof.
  revert l. induction a as [|a IH]; intros [|x l]; simpl; try reflexivity.
  - now rewrite firstn_nil.
  - now rewrite IH.
Qed.

Lemma slice_app s i j k :
  i <= j -> j <= k -> slice s i j ++ slice s j k = slice s i k.
Proof.
  intros H1 H2. unfold slice.
  replace (k - i) with ((j - i) + (k - j)) by lia.
  rewrite firstn_plus. f_equal.
  rewrite skipn_skipn. replace (j - i + i) with j by lia. reflexivity.
Qed.

Lemma slice_skipn s i j :
  i <= j -> slice s i j ++ skipn j s = skipn i s.
Proof.
  intros H. unfold slice.
  rewrite <- (firstn_skipn (j - i) (skipn i s)) at 2.
  f_equal. rewrite skipn_skipn. f_equal. lia.
Qed.

Lemma slice_to_end s i : slice s i (List.length s) = skipn i s.
Proof.
  unfold slice. apply firstn_all2. rewrite length_skipn. lia.
Qed.

Lemma slice_all s : slice s 0 (List.length s) = s.
Proof. rewrite slice_to_end. reflexivity. Qed.

Lemma substring_slice s i j : i <= j -> substring s i j = slice s i j.
Proof.
  intros H. unfold substring. rewrite Nat.min_l, Nat.max_r by lia. reflexivity.
Qed.

Lemma nth_error_slice s i j k :
  k < j - i -> nth_error (slice s i j) k = nth_error s (i + k).
Proof.
  intros H. unfold slice. rewrite nth_error_firstn.
  destruct (k <? j - i) eqn:E; [|apply Nat.ltb_ge in E; lia].
  apply nth_error_skipn.
Qed.

Lemma join_cons a l :
  join (a :: l) = (match a with Some s => s | None => [] end) ++ join l.
Proof. reflexivity. Qed.

Lemma join_app l1 l2 : join (l1 ++ l2) = join l1 ++ join l2.
Proof.
  unfold join. rewrite map_app, concat_app. reflexivity.
Qed.

(** ** Splitting *)

Section SplitFacts.
Variable fl : flags.
Variable text : jsstring.
Variable r0 : regex.
Hypothesis no_groups : groups r0 = [].

Lemma Matches_group_capture n q y :
  Matches fl text (Group n r0) (q, []) y ->
  get_cap n (caps y) = Some (q, pos y).
Proof.
  intros H. inversion H; subst. simpl. rewrite Nat.eqb_refl. reflexivity.
Qed.

(** Whatever the number of turns, the parts of the loop make up the text
    from [p] on. *)
Lemma split_loop_join fuel :
  forall p q, p <= q -> q <= List.length text ->
    join (split_loop fl (Group 1 r0) text fuel p q) = skipn p text.
Proof.
  induction fuel as [|fuel IH]; intros p q Hpq Hq; simpl.
  - unfold join; simpl. rewrite app_nil_r. apply slice_to_end.
  - destruct (q <? List.length text) eqn:Hlt.
    + apply Nat.ltb_lt in Hlt.
      destruct (match_at fl text (Group 1 r0) q) as [st|] eqn:Hm.
      * apply match_at_sound in Hm.
        pose proof (Matches_bounds Hm) as Hb. simpl in Hb.
        pose proof (Matches_group_capture Hm) as Hc.
        rewrite Nat.min_l by lia.
        destruct (pos st =? p) eqn:Hp.
        -- apply IH; lia.
        -- rewrite no_groups. simpl.
           rewrite join_cons. unfold group_texts. simpl.
           rewrite join_cons. unfold group_text. rewrite Hc.
           rewrite IH by lia.
           rewrite app_assoc, slice_app by lia.
           apply slice_skipn. lia.
      * apply IH; lia.
    + unfold join; simpl. rewrite app_nil_r. apply slice_to_end.
Qed.

Lemma split_join : join (split fl (Group 1 r0) text) = text.
Proof.
  unfold split. destruct text as [|c s] eqn:E.
  - destruct (match_at fl [] (Group 1 r0) 0); reflexivity.
  - rewrite <- E. rewrite split_loop_join by lia. reflexivity.
Qed.

(** When the pattern cannot match the empty string every turn moves on, so
    the bound on the turns of the loop is not reached. *)
Lemma split_loop_fuel :
  consumes r0 = true ->
  forall f1 f2 p q, p <= q ->
    List.length text - q < f1 -> List.length text - q < f2 ->
    split_loop fl (Group 1 r0) text f1 p q = split_loop fl (Group 1 r0) text f2 p q.
Proof.
  intros Hc. induction f1 as [|f1 IH]; intros f2 p q Hpq H1 H2; [lia|].
  destruct f2 as [|f2]; [lia|]. simpl.
  destruct (q <? List.length text) eqn:Hlt; [|reflexivity].
  apply Nat.ltb_lt in Hlt.
  destruct (match_at fl text (Group 1 r0) q) as [st|] eqn:Hm.
  - apply match_at_sound in Hm.
    pose proof (Matches_bounds Hm) as Hb. simpl in Hb.
    assert (Hgt : q < pos st).
    { apply (@consumes_progress fl text (Group 1 r0) (q, []) st); auto. }
    rewrite Nat.min_l by lia.
    destruct (pos st =? p) eqn:Hp; [apply Nat.eqb_eq in Hp; lia|].
    do 3 f_equal. apply IH; lia.
  - apply IH; lia.
Qed.
End SplitFacts.

(** ** Occurrences of a string *)

Lemma occurs_nil text i : occurs text i [].
Proof. intros [|j] x H; discriminate. Qed.

Lemma occurs_cons text i c l :
  occurs text i (c :: l) <-> nth_error text i = Some c /\ occurs text (S i) l.
Proof.
  split.
  - intros H. split.
    + specialize (H 0 c eq_refl). rewrite Nat.add_0_r in H. exact H.
    + intros j x Hj. specialize (H (S j) x Hj).
      replace (S i + j) with (i + S j) by lia. exact H.
  - intros [H0 H] [|j] x Hj; simpl in Hj.
    + inversion Hj; subst. rewrite Nat.add_0_r. exact H0.
    + replace (i + S j) with (S i + j) by lia. apply H. exact Hj.
Qed.

Lemma occurs_head text i c l : occurs text i (c :: l) -> nth_error text i = Some c.
Proof. intros H. apply occurs_cons in H. tauto. Qed.

Lemma occurs_app text i l1 l2 :
  occurs text i (l1 ++ l2)
  <-> occurs text i l1 /\ occurs text (i + List.length l1) l2.
Proof.
  revert i. induction l1 as [|c l1 IH]; intros i; simpl.
  - rewrite Nat.add_0_r. split; [intros H; split; [apply occurs_nil|exact H]|tauto].
  - rewrite !occurs_cons, IH. replace (i + S (List.length l1)) with (S i + List.length l1) by lia.
    tauto.
Qed.

Lemma occurs_bound text i l :
  occurs text i l -> l <> [] -> i + List.length l <= List.length text.
Proof.
  intros H Hl.
  destruct (nth_error l (List.length l - 1)) as [x|] eqn:E.
  - apply H in E. assert (i + (List.length l - 1) < List.length text)
      by (apply nth_error_Some; congruence).
    destruct l; [congruence|simpl in *; lia].
  - apply nth_error_None in E. destruct l; [congruence|simpl in *; lia].
Qed.

Lemma occurs_slice text i l :
  occurs text i l -> slice text i (i + List.length l) = l.
Proof.
  revert i. induction l as [|c l IH]; intros i H.
  - unfold slice. cbn [List.length]. replace (i + 0 - i) with 0 by lia. reflexivity.
  - apply occurs_cons in H as [H0 H]. apply IH in H.
    unfold slice in *. simpl List.length.
    replace (i + S (List.length l) - i) with (S (List.length l)) by lia.
    replace (S i + List.length l - S i) with (List.length l) in H by lia.
    pose proof (nth_error_skipn i text 0) as Hs. rewrite Nat.add_0_r, H0 in Hs.
    destruct (skipn i text) as [|c' rest] eqn:Er; [discriminate|].
    simpl in Hs. inversion Hs; subst. simpl. f_equal.
    assert (rest = skipn (S i) text).
    { replace (S i) with (1 + i) by lia. rewrite <- skipn_skipn, Er. reflexivity. }
    subst rest. exact H.
Qed.

Lemma slice_occurs text i j :
  i <= j -> j <= List.length text -> occurs text i (slice text i j).
Proof.
  intros H1 H2 k x Hk.
  assert (k < j - i).
  { assert (k < List.length (slice text i j)) by (apply nth_error_Some; congruence).
    rewrite slice_length in H by lia. exact H. }
  rewrite nth_error_slice in Hk by lia. exact Hk.
Qed.

Lemma occurs_startsWith text i l :
  occurs text i l -> startsWith (skipn i text) l = true.
Proof.
  revert i. induction l as [|c l IH]; intros i H.
  - destruct (skipn i text); reflexivity.
  - apply occurs_cons in H as [H0 H].
    pose proof (nth_error_skipn i text 0) as Hs. rewrite Nat.add_0_r, H0 in Hs.
    destruct (skipn i text) as [|c' rest] eqn:Er; [discriminate|].
    simpl in Hs. inversion Hs; subst. simpl. rewrite N.eqb_refl. simpl.
    assert (rest = skipn (S i) text).
    { replace (S i) with (1 + i) by lia. rewrite <- skipn_skipn, Er. reflexivity. }
    subst rest. apply IH. exact H.
Qed.

Lemma startsWith_occurs s l : startsWith s l = true -> occurs s 0 l.
Proof.
  revert s. induction l as [|c l IH]; intros s H; [apply occurs_nil|].
  destruct s as [|x s]; [discriminate|]. simpl in H.
  apply andb_true_iff in H as [Hx H]. apply N.eqb_eq in Hx. subst x.
  apply occurs_cons. split; [reflexivity|].
  intros j y Hj. simpl. apply (IH _ H j y Hj).
Qed.

Lemma includes_eq s p :
  includes s p
  = startsWith s p || match s with [] => false | _ :: s' => includes s' p end.
Proof. destruct s; reflexivity. Qed.

Lemma includes_skipn text i l :
  startsWith (skipn i text) l = true -> includes text l = true.
Proof.
  revert text. induction i as [|i IH]; intros text H; rewrite includes_eq.
  - simpl in H. rewrite H. reflexivity.
  - destruct text as [|c text].
    + rewrite skipn_nil in H. rewrite H. reflexivity.
    + rewrite skipn_cons in H. apply IH in H. rewrite H. apply orb_true_r.
Qed.

Lemma occurs_includes text i l : occurs text i l -> includes text l = true.
Proof. intros H. eapply includes_skipn, occurs_startsWith, H. Qed.

Lemma includes_occurs text l :
  includes text l = true -> exists i, i <= List.length text /\ occurs text i l.
Proof.
  induction text as [|c text IH]; intros H; rewrite includes_eq in H.
  - rewrite orb_false_r in H. exists 0. split; [lia|].
    apply startsWith_occurs. exact H.
  - apply orb_true_iff in H as [H|H].
    + exists 0. split; [lia|]. apply startsWith_occurs. exact H.
    + apply IH in H as (i & Hi & Ho). exists (S i). split; [simpl; lia|].
      intros j x Hj. simpl. apply Ho. exact Hj.
Qed.

Lemma occurs_in_slice text i j k l :
  i <= j -> j <= List.length text ->
  occurs (slice text i j) k l -> occurs text (i + k) l.
Proof.
  intros H1 H2 Ho n x Hn. specialize (Ho n x Hn).
  assert (k + n < j - i).
  { assert (k + n < List.length (slice text i j)) by (apply nth_error_Some; congruence).
    rewrite slice_length in H by lia. exact H. }
  rewrite nth_error_slice in Ho by lia.
  replace (i + k + n) with (i + (k + n)) by lia. exact Ho.
Qed.

(** ** Matches of literal strings and of runs of single characters *)

Section PatternFacts.
Variable fl : flags.
Variable text : jsstring.
Hypothesis case_sensitive : ignoreCase fl = false.

Local Abbreviation M := (Matches fl text).

Lemma char_eq_eq x c : char_eq fl x c = true <-> x = c.
Proof.
  unfold char_eq, canon. rewrite case_sensitive. apply N.eqb_eq.
Qed.

Lemma Matches_lit l :
  forall i c, occurs text i l -> M (lit_chars l) (i, c) (i + List.length l, c).
Proof.
  induction l as [|x l IH]; intros i c H.
  - simpl. rewrite Nat.add_0_r. constructor.
  - apply occurs_cons in H as [H0 H].
    assert (Hx : M (Char x) (i, c) (S i, c)).
    { apply (@M_Char fl text x (i, c) x); [exact H0|apply char_eq_eq; reflexivity]. }
    destruct l as [|y l].
    + simpl. replace (i + 1) with (S i) by lia. exact Hx.
    + change (lit_chars (x :: y :: l)) with (Seq (Char x) (lit_chars (y :: l))).
      eapply M_Seq; [exact Hx|].
      replace (i + List.length (x :: y :: l)) with (S i + List.length (y :: l))
        by (simpl; lia).
      apply IH. exact H.
Qed.

Lemma Matches_lit_inv l :
  forall st y, M (lit_chars l) st y ->
    y = (pos st + List.length l, caps st) /\ occurs text (pos st) l.
Proof.
  induction l as [|x l IH]; intros st y H.
  - simpl in H. inversion H; subst. destruct y; simpl. rewrite Nat.add_0_r.
    split; [reflexivity|apply occurs_nil].
  - assert (Hone : forall st y, M (Char x) st y ->
               y = (S (pos st), caps st) /\ nth_error text (pos st) = Some x).
    { intros st0 y0 H0. inversion H0; subst. split; [reflexivity|].
      match goal with E : char_eq _ _ _ = true |- _ => apply char_eq_eq in E; subst end.
      assumption. }
    destruct l as [|z l].
    + simpl in H. apply Hone in H as [-> H]. simpl.
      split; [f_equal; lia|]. apply occurs_cons. split; [exact H|apply occurs_nil].
    + change (lit_chars (x :: z :: l)) with (Seq (Char x) (lit_chars (z :: l))) in H.
      remember (lit_chars (z :: l)) as rest eqn:Er.
      inversion H; subst.
      match goal with H1 : M (Char x) _ _ |- _ => apply Hone in H1 as [-> H1] end.
      match goal with H2 : M (lit_chars _) _ _ |- _ => apply IH in H2 as [-> H2] end.
      cbn [pos caps fst snd] in *.
      split; [f_equal; simpl; lia|].
      apply occurs_cons. split; assumption.
Qed.

Lemma Matches_single a p st y :
  char_pred fl a = Some p ->
  (M a st y <-> exists x, nth_error text (pos st) = Some x /\ p x = true
                          /\ y = (S (pos st), caps st)).
Proof.
  intros Hp. destruct a; try discriminate; inversion Hp; subst; split.
  - intros H; inversion H; subst; eauto.
  - intros (x & H1 & H2 & ->). econstructor; eauto.
  - intros H; inversion H; subst; eauto.
  - intros (x & H1 & H2 & ->). econstructor; eauto.
  - intros H; inversion H; subst; eauto.
  - intros (x & H1 & H2 & ->). econstructor; eauto.
Qed.

Lemma char_pred_groups a p : char_pred fl a = Some p -> groups a = [].
Proof. destruct a; try discriminate; reflexivity. Qed.

(** A quantifier over a pattern of one character takes a run of characters. *)
Lemma Matches_rep_run a p g :
  char_pred fl a = Some p ->
  forall n lo hi i c,
    lo <= n -> (forall h, hi = Some h -> n <= h) -> run text p i n ->
    M (Rep g lo hi a) (i, c) (i + n, c).
Proof.
  intros Hp. induction n as [|n IH]; intros lo hi i c Hlo Hhi Hrun.
  - assert (lo = 0) by lia. subst. rewrite Nat.add_0_r. apply M_RepStop.
  - destruct (Hrun 0 (Nat.lt_0_succ _)) as (x & Hx & Hpx). rewrite Nat.add_0_r in Hx.
    apply (@M_RepIter fl text g lo hi a (i, c) (S i, c)).
    + intros ->. specialize (Hhi 0 eq_refl). lia.
    + apply (proj2 (Matches_single _ _ _ Hp)). exists x. rewrite (char_pred_groups _ Hp).
      simpl. auto.
    + simpl. lia.
    + replace (i + S n) with (S i + n) by lia. apply IH.
      * lia.
      * intros h Hh. destruct hi as [h'|]; [|discriminate]. simpl in Hh.
        inversion Hh. specialize (Hhi h' eq_refl). lia.
      * intros j Hj. specialize (Hrun (S j) ltac:(lia)).
        replace (S i + j) with (i + S j) by lia. exact Hrun.
Qed.

Lemma Matches_rep_run_inv a p g :
  char_pred fl a = Some p ->
  forall r st y, M r st y -> forall lo hi, r = Rep g lo hi a ->
    (forall h, hi = Some h -> lo <= h) ->
    exists n, y = (pos st + n, caps st)
              /\ lo <= n
              /\ (forall h, hi = Some h -> n <= h)
              /\ run text p (pos st) n.
Proof.
  intros Hp r st y H.
  induction H; intros lo' hi' E Hwf; inversion E; subst; clear E.
  - exists 0. destruct st; simpl. rewrite Nat.add_0_r.
    split; [reflexivity|]. split; [apply (Hwf 0 eq_refl)|].
    split; [intros h Hh; lia|intros j Hj; lia].
  - exists 0. destruct st; simpl. rewrite Nat.add_0_r.
    split; [reflexivity|]. split; [lia|].
    split; [intros h Hh; lia|intros j Hj; lia].
  - clear IHMatches1.
    apply (proj1 (Matches_single _ _ _ Hp)) in H0.
    destruct H0 as (x & Hx & Hpx & ->).
    rewrite (char_pred_groups _ Hp) in *. cbn [pos caps fst snd reset_caps List.map app] in *.
    destruct (IHMatches2 _ _ eq_refl) as (n & -> & Hlo & Hhi & Hrun).
    { intros h Hh. destruct hi' as [h'|]; [|discriminate]. simpl in Hh.
      inversion Hh. specialize (Hwf h' eq_refl). lia. }
    cbn [pos caps fst snd] in *.
    exists (S n). split; [f_equal; lia|]. split; [lia|]. split.
    + intros h Hh. subst hi'. specialize (Hhi (Nat.pred h) eq_refl).
      destruct h; [congruence|]. simpl in Hhi. lia.
    + intros [|j] Hj.
      * rewrite Nat.add_0_r. eauto.
      * replace (pos st + S j) with (S (pos st) + j) by lia. apply Hrun. lia.
Qed.
End PatternFacts.

(** ** Sorting and filtering *)

Section SortFacts.
Variable A : Type.
Variable key : A -> nat.

Lemma insert_by_perm x l : Permutation (insert_by key x l) (x :: l).
Proof.
  induction l as [|y l IH]; simpl; [reflexivity|].
  destruct (key x <=? key y); [reflexivity|].
  rewrite IH. apply perm_swap.
Qed.

Lemma sort_by_perm l : Permutation (sort_by key l) l.
Proof.
  induction l as [|x l IH]; simpl; [reflexivity|].
  rewrite insert_by_perm. now constructor.
Qed.

Lemma sort_by_In x l : In x (sort_by key l) -> In x l.
Proof. apply Permutation_in, sort_by_perm. Qed.

Lemma sort_by_Forall (P : A -> Prop) l : Forall P l -> Forall P (sort_by key l).
Proof. apply Permutation_Forall. symmetry. apply sort_by_perm. Qed.

Lemma sort_by_length l : List.length (sort_by key l) = List.length l.
Proof. apply Permutation_length, sort_by_perm. Qed.

Lemma insert_by_sorted x l :
  StronglySorted (fun a b => key a <= key b) l ->
  StronglySorted (fun a b => key a <= key b) (insert_by key x l).
Proof.
  induction 1 as [|y l Hs IH Hy]; simpl.
  - constructor; constructor.
  - destruct (key x <=? key y) eqn:E.
    + apply Nat.leb_le in E. constructor; [constructor; assumption|].
      constructor; [exact E|]. eapply Forall_impl; [|exact Hy].
      simpl. intros; lia.
    + apply Nat.leb_gt in E. constructor; [exact IH|].
      apply (@Permutation_Forall _ _ (x :: l)).
      * symmetry. apply insert_by_perm.
      * constructor; [lia|exact Hy].
Qed.

Lemma sort_by_sorted l : StronglySorted (fun a b => key a <= key b) (sort_by key l).
Proof.
  induction l as [|x l IH]; simpl; [constructor|].
  apply insert_by_sorted, IH.
Qed.
End SortFacts.

Lemma StronglySorted_filter (A : Type) (R : A -> A -> Prop) (f : A -> bool) l :
  StronglySorted R l -> StronglySorted R (List.filter f l).
Proof.
  induction 1 as [|x l Hs IH Hx]; simpl; [constructor|].
  destruct (f x); [|exact IH].
  constructor; [exact IH|].
  apply Forall_forall. intros y Hy. apply filter_In in Hy as [Hy _].
  rewrite Forall_forall in Hx. auto.
Qed.

Lemma StronglySorted_impl_In (A : Type) (R R' : A -> A -> Prop) l :
  (forall a b, In a l -> In b l -> R a b -> R' a b) ->
  StronglySorted R l -> StronglySorted R' l.
Proof.
  intros Himp H. induction H as [|x l Hs IH Hx]; [constructor|].
  constructor.
  - apply IH. intros a b Ha Hb. apply Himp; right; assumption.
  - rewrite Forall_forall in *. intros y Hy.
    apply Himp; [left; reflexivity|right; exact Hy|auto].
Qed.

Lemma StronglySorted_map (A B : Type) (R : B -> B -> Prop) (f : A -> B) l :
  StronglySorted (fun a b => R (f a) (f b)) l -> StronglySorted R (List.map f l).
Proof.
  induction 1 as [|x l Hs IH Hx]; simpl; constructor; [exact IH|].
  rewrite Forall_forall in *. intros y Hy.
  apply in_map_iff in Hy as (a & <- & Ha). auto.
Qed.

(** The elements of [indexed l] are the elements of [l] with their index, in
    order. *)
Lemma indexed_from_In (A : Type) (l : list A) :
  forall s i x, In (i, x) (combine (seq s (List.length l)) l) ->
    s <= i /\ nth_error l (i - s) = Some x.
Proof.
  induction l as [|y l IH]; intros s i x H; simpl in H; [contradiction|].
  destruct H as [H|H].
  - inversion H; subst. rewrite Nat.sub_diag. split; [lia|reflexivity].
  - apply IH in H as [H1 H2]. split; [lia|].
    replace (i - s) with (S (i - S s)) by lia. exact H2.
Qed.

Lemma indexed_In (A : Type) (l : list A) i x :
  In (i, x) (indexed l) -> nth_error l i = Some x.
Proof.
  intros H. apply indexed_from_In in H as [_ H]. rewrite Nat.sub_0_r in H. exact H.
Qed.

Lemma indexed_sorted_from (A : Type) (R : A -> A -> Prop) (l : list A) :
  StronglySorted R l ->
  forall s, StronglySorted (fun a b => fst a < fst b /\ R (snd a) (snd b))
                           (combine (seq s (List.length l)) l).
Proof.
  induction 1 as [|x l Hs IH Hx]; intros s; simpl; constructor.
  - apply IH.
  - apply Forall_forall. intros [j y] Hy.
    pose proof (in_combine_r _ _ _ _ Hy) as Hin.
    apply indexed_from_In in Hy as [Hj _].
    rewrite Forall_forall in Hx. simpl. split; [lia|auto].
Qed.

Lemma indexed_sorted (A : Type) (R : A -> A -> Prop) (l : list A) :
  StronglySorted R l ->
  StronglySorted (fun a b => fst a < fst b /\ R (snd a) (snd b)) (indexed l).
Proof. intros H. apply indexed_sorted_from. exact H. Qed.

(** ** Occurrences in a concatenation *)

Lemma occurs_prefix l rest : occurs (l ++ rest) 0 l.
Proof.
  intros j x H. simpl. rewrite nth_error_app1; [exact H|].
  apply nth_error_Some. congruence.
Qed.

Lemma occurs_skip pre rest k l :
  occurs rest k l -> occurs (pre ++ rest) (List.length pre + k) l.
Proof.
  intros H j x Hj. rewrite nth_error_app2 by lia.
  replace (List.length pre + k + j - List.length pre) with (k + j) by lia.
  apply H. exact Hj.
Qed.

Lemma run_prefix (p : char -> bool) l rest :
  Forall (fun x => p x = true) l -> run (l ++ rest) p 0 (List.length l).
Proof.
  intros H j Hj. simpl.
  destruct (nth_error l j) as [x|] eqn:E.
  - exists x. split.
    + rewrite nth_error_app1 by exact Hj. exact E.
    + rewrite Forall_forall in H. apply H. eapply nth_error_In. exact E.
  - apply nth_error_None in E. lia.
Qed.

Lemma run_skip (p : char -> bool) pre rest k n :
  run rest p k n -> run (pre ++ rest) p (List.length pre + k) n.
Proof.
  intros H j Hj. destruct (H j Hj) as (x & Hx & Hp). exists x. split; [|exact Hp].
  rewrite nth_error_app2 by lia.
  replace (List.length pre + k + j - List.length pre) with (k + j) by lia. exact Hx.
Qed.

Lemma run_Forall text (p : char -> bool) i n :
  run text p i n -> i + n <= List.length text ->
  Forall (fun x => p x = true) (slice text i (i + n)).
Proof.
  intros H Hb. apply Forall_forall. intros x Hx.
  apply In_nth_error in Hx as (j & Hj).
  assert (Hlt : j < i + n - i).
  { assert (j < List.length (slice text i (i + n))) by (apply nth_error_Some; congruence).
    rewrite slice_length in H0 by lia. exact H0. }
  rewrite nth_error_slice in Hj by exact Hlt.
  destruct (H j ltac:(lia)) as (y & Hy & Hp). congruence.
Qed.

Lemma same_at_intro fl text b i len :
  (forall j, j < len -> exists x, nth_error text (b + j) = Some x
                                  /\ nth_error text (i + j) = Some x) ->
  same_at fl text b i len = true.
Proof.
  revert b i. induction len as [|len IH]; intros b i H; [reflexivity|].
  simpl. destruct (H 0 (Nat.lt_0_succ _)) as (x & Hb & Hi).
  rewrite Nat.add_0_r in Hb, Hi. rewrite Hb, Hi.
  apply andb_true_iff. split.
  - unfold char_eq. apply N.eqb_refl.
  - apply IH. intros j Hj. destruct (H (S j) ltac:(lia)) as (y & Hy1 & Hy2).
    exists y. replace (S b + j) with (b + S j) by lia.
    replace (S i + j) with (i + S j) by lia. auto.
Qed.

Lemma str_eqb_eq a b : str_eqb a b = true <-> a = b.
Proof.
  revert b. induction a as [|x a IH]; intros [|y b]; simpl; split; intros H;
    try reflexivity; try discriminate.
  - apply andb_true_iff in H as [H1 H2]. apply N.eqb_eq in H1. apply IH in H2.
    congruence.
  - inversion H; subst. rewrite N.eqb_refl. simpl. apply IH. reflexivity.
Qed.

(** ** Building a match

    The rules of [Matches] with the end index given by an equation, so that a
    match of a whole pattern is put together index by index. *)

Section Build.
Variable fl : flags.
Variable text : jsstring.
Hypothesis case_sensitive : ignoreCase fl = false.

Local Abbreviation M := (Matches fl text).

Lemma build_seq a b i c j c' k c'' :
  M a (i, c) (j, c') -> M b (j, c') (k, c'') -> M (Seq a b) (i, c) (k, c'').
Proof. apply M_Seq. Qed.

Lemma build_char x i c j :
  nth_error text i = Some x -> j = S i -> M (Char x) (i, c) (j, c).
Proof.
  intros H ->. apply (@M_Char fl text x (i, c) x); [exact H|].
  apply char_eq_eq; [exact case_sensitive|reflexivity].
Qed.

Lemma build_lit l i c j :
  occurs text i l -> j = i + List.length l -> M (lit_chars l) (i, c) (j, c).
Proof. intros H ->. apply Matches_lit; assumption. Qed.

Lemma build_run a p g lo hi n i c j :
  char_pred fl a = Some p -> run text p i n ->
  lo <= n -> (forall h, hi = Some h -> n <= h) -> j = i + n ->
  M (Rep g lo hi a) (i, c) (j, c).
Proof. intros Hp Hr Hlo Hhi ->. eapply Matches_rep_run; eauto. Qed.

Lemma build_group n a i c j c' c'' :
  M a (i, c) (j, c') -> c'' = set_cap n (i, j) c' -> M (Group n a) (i, c) (j, c'').
Proof. intros H ->. apply (M_Group n H). Qed.

Lemma build_backref n i c b e j :
  get_cap n c = Some (b, e) ->
  (forall k, k < e - b -> exists x, nth_error text (b + k) = Some x
                                    /\ nth_error text (i + k) = Some x) ->
  j = i + (e - b) -> M (Backref n) (i, c) (j, c).
Proof.
  intros Hc Hs ->. apply (@M_Backref fl text n (i, c) b e); [exact Hc|].
  apply same_at_intro. exact Hs.
Qed.

Lemma build_bol c : M Bol (0, c) (0, c).
Proof. apply M_Bol. reflexivity. Qed.

Lemma build_eol i c : i = List.length text -> M Eol (i, c) (i, c).
Proof.
  intros ->. apply M_Eol. unfold at_eol. cbn [pos fst].
  rewrite Nat.eqb_refl. reflexivity.
Qed.
End Build.

(** ** Taking a match apart *)

Section Invert.
Variable fl : flags.
Variable text : jsstring.
Hypothesis case_sensitive : ignoreCase fl = false.

Local Abbreviation M := (Matches fl text).

Lemma inv_seq a b st z : M (Seq a b) st z -> exists y, M a st y /\ M b y z.
Proof. intros H. inversion H; subst. eauto. Qed.

Lemma inv_alt a b st y : M (Alt a b) st y -> M a st y \/ M b st y.
Proof. intros H. inversion H; subst; auto. Qed.

Lemma inv_char x st y :
  M (Char x) st y -> nth_error text (pos st) = Some x /\ y = (S (pos st), caps st).
Proof.
  intros H. inversion H; subst.
  match goal with E : char_eq _ _ _ = true |- _ =>
    apply char_eq_eq in E; [subst|exact case_sensitive] end.
  auto.
Qed.

Lemma inv_group n a st y :
  M (Group n a) st y ->
  exists y', M a st y' /\ y = (pos y', set_cap n (pos st, pos y') (caps y')).
Proof. intros H. inversion H; subst. eauto. Qed.

Lemma inv_bol st y :
  M Bol st y -> multiline fl = false -> y = st /\ pos st = 0.
Proof.
  intros H Hm. inversion H; subst. split; [reflexivity|].
  match goal with E : at_bol _ _ _ = true |- _ => unfold at_bol in E end.
  destruct (pos y); [reflexivity|]. rewrite Hm in *. discriminate.
Qed.

Lemma inv_eol st y :
  M Eol st y -> multiline fl = false -> y = st /\ pos st = List.length text.
Proof.
  intros H Hm. inversion H; subst. split; [reflexivity|].
  match goal with E : at_eol _ _ _ = true |- _ => unfold at_eol in E end.
  rewrite Hm, orb_false_r in *. apply Nat.eqb_eq. assumption.
Qed.

End Invert.

(** ** Tags and environments *)

Lemma not_brace_class fl c :
  ignoreCase fl = false ->
  (class_mem fl true [cc "}"] c = true <-> c <> ch "}").
Proof.
  intros Hc. unfold class_mem, item_mem. cbn [existsb cc]. rewrite orb_false_r.
  unfold char_eq, canon. rewrite Hc. change (ch "}") with 125%N.
  destruct (N.eqb_spec c 125%N) as [E|E]; simpl; split; intros H;
    try congruence; try discriminate; try reflexivity.
Qed.

Lemma tag_match_ok text x :
  Matches no_flags text tagPattern (index x, []) (m_end x, m_caps x) ->
  m_end x <= List.length text ->
  tag_ok text (mk_tag text x)
  /\ tag_index (mk_tag text x) = index x
  /\ tag_index (mk_tag text x) + tag_length (mk_tag text x) = m_end x.
Proof.
  intros H Hlen. unfold tagPattern in H. cbn [seqs] in H.
  set (i := index x) in *.
  apply inv_seq in H as (y1 & H1 & H).
  apply inv_char in H1 as [Hbs ->]; [|reflexivity].
  apply inv_seq in H as (y2 & H2 & H).
  apply inv_group in H2 as (y2' & H2 & ->).
  assert (Hkind : exists kind, (kind = js "begin" \/ kind = js "end")
                               /\ y2' = (S i + List.length kind, [])
                               /\ occurs text (S i) kind).
  { apply inv_alt in H2 as [H2|H2];
      apply Matches_lit_inv in H2 as [-> Ho]; try reflexivity.
    - exists (js "begin"). auto.
    - exists (js "end"). auto. }
  destruct Hkind as (kind & Hk & -> & Hok). clear H2.
  cbn [pos caps fst snd] in H.
  apply inv_seq in H as (y3 & H3 & H).
  apply inv_char in H3 as [Hob ->]; [|reflexivity].
  cbn [pos caps fst snd] in *.
  apply inv_seq in H as (y4 & H4 & H).
  apply inv_group in H4 as (y4' & H4 & ->).
  assert (Hr := Matches_rep_run_inv (a := Class true [cc "}"]) (g := true)
                                   eq_refl H4 eq_refl).
  destruct Hr as (n & -> & Hn & _ & Hrun); [discriminate|].
  cbn [pos caps fst snd] in *.
  apply inv_char in H as [Hcb E]; [|reflexivity].
  cbn [pos caps fst snd] in *.
  inversion E as [[He Hc]]. clear E.
  set (a := S (S i + List.length kind)) in *.
  assert (Hb : a + n < List.length text) by (apply nth_error_Some; congruence).
  set (name := slice text a (a + n)).
  assert (Hname : occurs text a name) by (apply slice_occurs; lia).
  assert (Hnl : List.length name = n).
  { unfold name. rewrite slice_length by lia. lia. }
  assert (Hocc : occurs text i (tag_text kind name)).
  { unfold tag_text. apply occurs_cons. split; [exact Hbs|].
    apply occurs_app. split; [exact Hok|].
    apply occurs_cons. split; [exact Hob|].
    apply occurs_app. split; [exact Hname|].
    rewrite Hnl. apply occurs_cons. split; [exact Hcb|apply occurs_nil]. }
  assert (Htl : List.length (tag_text kind name) = m_end x - i).
  { unfold tag_text. rewrite !length_app. simpl. rewrite Hnl. unfold a in *. lia. }
  split; [|split].
  - exists kind, name. split; [exact Hk|]. split.
    + split.
      * intros E. rewrite E in Hnl. simpl in Hnl. lia.
      * unfold name. eapply Forall_impl; [|apply (run_Forall Hrun); lia].
        intros c Hcl. simpl in Hcl.
        apply (@not_brace_class no_flags c eq_refl). exact Hcl.
    + unfold mk_tag, rm_group, rm_text, group_text. cbn [tag_type tag_env tag_length tag_index].
      rewrite Hc. cbn [get_cap set_cap Nat.eqb].
      split; [|split; [|split]].
      * pose proof (occurs_slice Hok) as Hs. simpl in Hs. rewrite Hs. reflexivity.
      * reflexivity.
      * fold i. rewrite slice_length by lia. rewrite Htl. reflexivity.
      * exact Hocc.
  - reflexivity.
  - unfold mk_tag, rm_text. cbn [tag_index tag_length]. fold i.
    rewrite slice_length by lia. lia.
Qed.

Lemma environment_matches X mid :
  Forall (fun c => class_mem flags_s true [cc "}"] c = true) X -> X <> [] ->
  isLatexEnvironment (js "\begin{" ++ X ++ js "}" ++ mid ++ js "\end{" ++ X ++ js "}")
  <> None.
Proof.
  intros HX Hne.
  set (n := List.length X). set (k := List.length mid).
  set (T := js "\begin{" ++ X ++ js "}" ++ mid ++ js "\end{" ++ X ++ js "}").
  assert (HT : List.length T = 14 + n + k + n).
  { unfold T. rewrite !length_app. simpl. fold n k. lia. }
  assert (O1 : occurs T 0 (js "\begin{")) by apply occurs_prefix.
  assert (R1 : run T (class_mem flags_s true [cc "}"]) 7 n).
  { apply (run_skip (js "\begin{") (k := 0)). apply run_prefix. exact HX. }
  assert (O2 : occurs T (7 + n) (js "}")).
  { unfold T. apply (occurs_skip (js "\begin{") (k := n)).
    replace n with (List.length X + 0) by (unfold n; lia).
    apply occurs_skip. apply occurs_prefix. }
  assert (R2 : run T (any_mem flags_s) (8 + n) k).
  { intros j Hj. destruct (nth_error T (8 + n + j)) as [x|] eqn:E.
    - exists x. split; reflexivity.
    - apply nth_error_None in E. lia. }
  assert (O3 : occurs T (8 + n + k) (js "\end{")).
  { unfold T. replace (8 + n + k) with (List.length (js "\begin{") + (List.length X + (List.length (js "}") + (List.length mid + 0))))
      by (simpl; fold n k; lia).
    do 4 apply occurs_skip. apply occurs_prefix. }
  assert (O4 : occurs T (13 + n + k) X).
  { unfold T. replace (13 + n + k) with (List.length (js "\begin{") + (List.length X + (List.length (js "}") + (List.length mid + (List.length (js "\end{") + 0)))))
      by (simpl; fold n k; lia).
    do 5 apply occurs_skip. apply occurs_prefix. }
  assert (O0 : occurs T 7 X).
  { unfold T. apply (occurs_skip (js "\begin{") (k := 0)). apply occurs_prefix. }
  assert (O5 : occurs T (13 + n + k + n) (js "}")).
  { unfold T. replace (13 + n + k + n) with (List.length (js "\begin{") + (List.length X + (List.length (js "}") + (List.length mid + (List.length (js "\end{") + (List.length X + 0))))))
      by (simpl; fold n k; lia).
    do 6 apply occurs_skip. rewrite <- (app_nil_r (js "}")). apply occurs_prefix. }
  unfold isLatexEnvironment, match_. fold T.
  set (c1 := set_cap 1 (7, 7 + n) []).
  set (c2 := set_cap 2 (8 + n, 8 + n + k) c1).
  apply (@exec_match_complete flags_s T environmentPattern 0 0 (14 + n + k + n, c2));
    [lia|lia|].
  unfold environmentPattern. cbn [seqs].
  apply build_seq with (j := 0) (c' := []); [apply build_bol|].
  apply build_seq with (j := 7) (c' := []);
    [apply build_lit; [reflexivity|exact O1|reflexivity]|].
  apply build_seq with (j := 7 + n) (c' := c1).
  { apply build_group with (c' := []); [|reflexivity].
    apply build_run with (p := class_mem flags_s true [cc "}"]) (n := n);
      [reflexivity|exact R1| |discriminate|reflexivity].
    unfold n. destruct X; simpl; [congruence|lia]. }
  apply build_seq with (j := 8 + n) (c' := c1).
  { apply build_char; [reflexivity| |lia]. apply (occurs_head O2). }
  apply build_seq with (j := 8 + n + k) (c' := c2).
  { apply build_group with (c' := c1); [|reflexivity].
    apply build_run with (p := any_mem flags_s) (n := k);
      [reflexivity|exact R2|lia|discriminate|reflexivity]. }
  apply build_seq with (j := 13 + n + k) (c' := c2).
  { apply build_lit; [reflexivity|exact O3|simpl; lia]. }
  apply build_seq with (j := 13 + n + k + n) (c' := c2).
  { apply build_backref with (b := 7) (e := 7 + n); [reflexivity| |lia].
    intros j Hj. destruct (nth_error X j) as [x|] eqn:E.
    - exists x. split; [apply O0; exact E|apply O4; exact E].
    - apply nth_error_None in E. fold n in E. lia. }
  apply build_seq with (j := 14 + n + k + n) (c' := c2).
  { apply build_char; [reflexivity| |lia]. apply (occurs_head O5). }
  apply build_eol. lia.
Qed.

Lemma chained_tags text l :
  forall from, chained no_flags text tagPattern from l ->
    tags_chain text from (List.map (mk_tag text) l).
Proof.
  induction l as [|x l IH]; intros from H; [exact I|].
  simpl in H. destruct H as (H1 & H2 & H3 & HM & Hrest).
  destruct (tag_match_ok x HM H3) as (Hok & Hi & He).
  cbn [List.map tags_chain]. rewrite He, Hi.
  repeat split; auto.
Qed.

Lemma scanTags_chain text : tags_chain text 0 (scanTags text).
Proof. apply chained_tags. apply exec_loop_chained. Qed.

Lemma stack_inv_mono text from from' st :
  from <= from' -> stack_inv text from st -> stack_inv text from' st.
Proof.
  intros Hle [Hs He]. split; [|exact He].
  eapply Forall_impl; [|exact Hs]. simpl. intros t (H1 & H2 & H3).
  repeat split; auto. lia.
Qed.

Lemma tag_ok_kind text t :
  tag_ok text t ->
  exists name, valid_name name /\ tag_env t = Some name
    /\ ((is_begin t = true /\ tag_type t = Some (js "begin")
         /\ tag_length t = List.length (tag_text (js "begin") name)
         /\ occurs text (tag_index t) (tag_text (js "begin") name))
        \/ (is_begin t = false /\ tag_type t = Some (js "end")
            /\ tag_length t = List.length (tag_text (js "end") name)
            /\ occurs text (tag_index t) (tag_text (js "end") name))).
Proof.
  intros (kind & name & Hk & Hn & Hty & Henv & Hl & Ho).
  exists name. split; [exact Hn|]. split; [exact Henv|].
  destruct Hk as [-> | ->]; [left|right]; unfold is_begin; rewrite Hty; auto.
Qed.

Lemma tag_text_length kind name :
  List.length (tag_text kind name) = 3 + List.length kind + List.length name.
Proof. unfold tag_text. rewrite !length_app. simpl. lia. Qed.

Lemma tag_step_inv text from st t :
  stack_inv text from st -> from <= tag_index t -> tag_ok text t ->
  tag_index t + tag_length t <= List.length text ->
  stack_inv text (tag_index t + tag_length t) (tag_step text st t).
Proof.
  intros Hinv Hfrom Hok Hend. destruct st as [stack envs].
  assert (Hkeep : stack_inv text (tag_index t + tag_length t) (stack, envs)).
  { eapply stack_inv_mono; [|exact Hinv]. lia. }
  destruct (tag_ok_kind Hok) as (name & Hname & Henv & [Hb|He]).
  - destruct Hb as (Hb & _). unfold tag_step. unfold is_begin in Hb. rewrite Hb.
    destruct Hkeep as [Hs He]. split; [|exact He]. cbn [fst].
    constructor; [|exact Hs]. unfold is_begin. auto.
  - destruct He as (Hnb & Hty & Hlen & Hocc). unfold tag_step.
    unfold is_begin in Hnb. rewrite Hnb. rewrite Hty.
    change (opt_str_eqb (Some (js "end")) (Some (js "end"))) with true.
    cbn [andb].
    destruct stack as [|top rest]; [exact Hkeep|].
    cbn [List.length Nat.ltb Nat.leb].
    destruct (opt_str_eqb (tag_env top) (tag_env t)) eqn:Eenv; [|exact Hkeep].
    destruct Hkeep as [Hs Hes]. cbn [fst snd] in *.
    inversion Hs as [|? ? Htop Hrest]; subst.
    destruct (List.length rest =? 0) eqn:Er; [|split; assumption].
    split; [exact Hrest|]. cbn [snd].
    apply Forall_app. split; [exact Hes|]. constructor; [|constructor].
    destruct Htop as (Htok & Htb & Htend).
    destruct Hinv as [Hs0 _]. cbn [fst] in Hs0.
    inversion Hs0 as [|? ? (_ & _ & Htfrom) _]; subst.
    destruct (tag_ok_kind Htok) as (name' & Hname' & Henv' & [Hb'|He']);
      [|destruct He' as (E & _); congruence].
    destruct Hb' as (_ & _ & Hlen' & Hocc').
    rewrite Henv', Henv in Eenv. simpl in Eenv. apply str_eqb_eq in Eenv. subst name'.
    rewrite tag_text_length in Hlen, Hlen'. simpl in Hlen, Hlen'.
    set (s := tag_index top) in *. set (e := tag_index t + tag_length t).
    assert (Hse : s <= e) by (unfold e; lia).
    unfold complete_env. cbn [env_start env_end env_content].
    rewrite substring_slice by exact Hse.
    split; [unfold e; lia|]. split; [exact Hend|]. split; [reflexivity|].
    exists name, (slice text (s + tag_length top) (tag_index t)).
    split; [exact Hname|].
    rewrite <- (slice_app text (i := s) (j := s + tag_length top) (k := e))
      by (unfold e; lia).
    rewrite <- (slice_app text (i := s + tag_length top) (j := tag_index t) (k := e))
      by (unfold e; lia).
    f_equal; [|f_equal].
    + rewrite <- (occurs_slice Hocc'). rewrite tag_text_length. simpl.
      f_equal. lia.
    + rewrite <- (occurs_slice Hocc). rewrite tag_text_length. simpl.
      unfold e. f_equal. lia.
Qed.

Lemma fold_tags_inv text tags :
  forall from st, tags_chain text from tags -> stack_inv text from st ->
    exists from', stack_inv text from' (fold_left (tag_step text) tags st).
Proof.
  induction tags as [|t tags IH]; intros from st Hc Hinv; simpl.
  - exists from. exact Hinv.
  - simpl in Hc. destruct Hc as (H1 & H2 & H3 & H4).
    eapply IH; [exact H4|]. apply tag_step_inv with (from := from); assumption.
Qed.

Lemma findTopLevelEnvs_complete text :
  Forall (complete_env text) (findTopLevelEnvs text).
Proof.
  unfold findTopLevelEnvs. apply sort_by_Forall.
  destruct (@fold_tags_inv text (scanTags text) 0 ([], [])) as (from & _ & H).
  - apply scanTags_chain.
  - split; constructor.
  - exact H.
Qed.

Lemma tag_step_count text st t :
  List.length (fst (tag_step text st t)) + List.length (snd (tag_step text st t))
  <= List.length (fst st) + List.length (snd st) + (if is_begin t then 1 else 0).
Proof.
  destruct st as [stack envs]. unfold tag_step, is_begin.
  destruct (opt_str_eqb (tag_type t) (Some (js "begin"))); [simpl; lia|].
  destruct (opt_str_eqb (tag_type t) (Some (js "end")) && (0 <? List.length stack));
    [|simpl; lia].
  destruct stack as [|top rest]; [simpl; lia|].
  destruct (opt_str_eqb (tag_env top) (tag_env t)); [|simpl; lia].
  destruct (List.length rest =? 0); simpl; [rewrite length_app; simpl|]; lia.
Qed.

Lemma fold_tags_count text tags :
  forall st,
    List.length (fst (fold_left (tag_step text) tags st))
    + List.length (snd (fold_left (tag_step text) tags st))
    <= List.length (fst st) + List.length (snd st)
       + List.length (List.filter is_begin tags).
Proof.
  induction tags as [|t tags IH]; intros st; simpl; [lia|].
  specialize (IH (tag_step text st t)).
  pose proof (tag_step_count text st t) as Hs.
  destruct (is_begin t); simpl; lia.
Qed.

Lemma valid_name_class name :
  valid_name name ->
  name <> [] /\ Forall (fun c => class_mem flags_s true [cc "}"] c = true) name.
Proof.
  intros [H1 H2]. split; [exact H1|].
  eapply Forall_impl; [|exact H2]. intros c Hc.
  apply (@not_brace_class flags_s c eq_refl). exact Hc.
Qed.

(** ** Spans of the scanner *)

Lemma mk_match_valid text ty x :
  index x < m_end x -> m_end x <= List.length text ->
  valid_span text (mk_match text ty x).
Proof.
  intros H1 H2. unfold valid_span, mk_match, rm_text.
  cbn [cm_start cm_end cm_content]. rewrite slice_length by exact H2.
  repeat split; try lia. f_equal. lia.
Qed.

Lemma exec_all_progress fl r text :
  consumes r = true ->
  Forall (fun x => index x < m_end x /\ m_end x <= List.length text)
         (exec_all fl r text).
Proof.
  intros Hc. unfold exec_all.
  eapply Forall_impl; [|apply chained_Forall, exec_loop_chained].
  simpl. intros x (_ & _ & H & HM). split; [|exact H].
  apply (consumes_progress Hc HM).
Qed.

Lemma exec_all_valid fl r text ty :
  consumes r = true ->
  Forall (valid_span text) (List.map (mk_match text ty) (exec_all fl r text)).
Proof.
  intros Hc. apply Forall_map.
  eapply Forall_impl; [|apply exec_all_progress; exact Hc].
  simpl. intros x [H1 H2]. apply mk_match_valid; assumption.
Qed.

Lemma inline_step_valid text acc x :
  Forall (valid_span text) acc ->
  index x < m_end x -> m_end x <= List.length text ->
  Forall (valid_span text) (inline_step text acc x).
Proof.
  intros Ha H1 H2. unfold inline_step.
  repeat match goal with |- Forall _ (if ?b then _ else _) => destruct b end;
    try exact Ha.
  apply Forall_app. split; [exact Ha|].
  constructor; [|constructor]. apply mk_match_valid; assumption.
Qed.

Lemma fold_inline_valid text ms :
  forall acc,
    Forall (valid_span text) acc ->
    Forall (fun x => index x < m_end x /\ m_end x <= List.length text) ms ->
    Forall (valid_span text) (fold_left (inline_step text) ms acc).
Proof.
  induction ms as [|x ms IH]; intros acc Ha Hm; simpl; [exact Ha|].
  inversion Hm as [|? ? [H1 H2] Hrest]; subst.
  apply IH; [|exact Hrest]. apply inline_step_valid; assumption.
Qed.

Lemma env_span_valid text e :
  complete_env text e ->
  valid_span text {| cm_start := env_start e; cm_end := env_end e;
                     cm_content := env_content e; cm_type := env |}.
Proof. intros (H1 & H2 & H3 & _). repeat split; assumption. Qed.

Lemma all_matches_valid text :
  Forall (valid_span text)
         (findEnvironmentMatches text
            (findMathMatches text
               (findHeadingMatches text (findSmilesMatches text [])))).
Proof.
  unfold findEnvironmentMatches. apply Forall_app. split.
  - unfold findMathMatches. apply fold_inline_valid.
    + apply Forall_app. split.
      * unfold findHeadingMatches, findSmilesMatches.
        apply Forall_app. split; [|apply exec_all_valid; reflexivity].
        apply exec_all_valid. reflexivity.
      * apply exec_all_valid. reflexivity.
    + apply exec_all_progress. reflexivity.
  - apply Forall_map. eapply Forall_impl; [|apply findTopLevelEnvs_complete].
    intros e He. apply env_span_valid. exact He.
Qed.

Lemma existsb_false_In (A : Type) (f : A -> bool) l x :
  existsb f l = false -> In x l -> f x = false.
Proof.
  intros H Hin. destruct (f x) eqn:E; [|reflexivity].
  assert (existsb f l = true) by (apply existsb_exists; eauto). congruence.
Qed.

Lemma indexed_distinct (A : Type) (l : list A) i x y :
  In (i, x) (indexed l) -> In (i, y) (indexed l) -> x = y.
Proof.
  intros H1 H2. apply indexed_In in H1, H2. congruence.
Qed.

(** After the filter no span lies inside another: the starts and the ends
    both go up strictly. *)
Lemma filterNestedMatches_sorted matches :
  StronglySorted (fun a b => cm_start a < cm_start b /\ cm_end a < cm_end b)
                 (filterNestedMatches matches).
Proof.
  unfold filterNestedMatches.
  set (arr := sort_by cm_start matches).
  apply StronglySorted_map.
  eapply StronglySorted_impl_In;
    [|apply StronglySorted_filter, indexed_sorted, (sort_by_sorted cm_start matches)].
  intros [i a] [j b] Ha Hb [Hij Hab]. cbn [fst snd] in *.
  apply filter_In in Ha as [Ha Hfa]. apply filter_In in Hb as [Hb Hfb].
  cbn [fst snd] in *. apply negb_true_iff in Hfa, Hfb.
  unfold isNested in Hfa, Hfb.
  pose proof (existsb_false_In _ _ _ Hfa Hb) as H1.
  pose proof (existsb_false_In _ _ _ Hfb Ha) as H2.
  cbn beta iota in H1, H2.
  destruct (i =? j) eqn:E1; [apply Nat.eqb_eq in E1; lia|].
  destruct (j =? i) eqn:E2; [apply Nat.eqb_eq in E2; lia|].
  apply andb_false_iff in H1, H2.
  rewrite !Nat.leb_gt in H1, H2. lia.
Qed.

Lemma filterNestedMatches_In matches x :
  In x (filterNestedMatches matches) -> In x matches.
Proof.
  unfold filterNestedMatches. intros H.
  apply in_map_iff in H as ([i y] & <- & H). apply filter_In in H as [H _].
  apply sort_by_In with (key := cm_start). eapply in_combine_r. exact H.
Qed.

Lemma filterNestedMatches_Forall (P : ContentMatch -> Prop) matches :
  Forall P matches -> Forall P (filterNestedMatches matches).
Proof.
  intros H. apply Forall_forall. intros x Hx.
  rewrite Forall_forall in H. apply H, filterNestedMatches_In, Hx.
Qed.

(** ** Texts without block-level content *)

Lemma no_block_math content :
  includes content (js "$$") = false -> includes content (js "\[") = false ->
  exec_all flags_s blockPattern content = [].
Proof.
  intros H1 H2. unfold exec_all. cbn [exec_loop].
  destruct (exec_match flags_s blockPattern content 0) as [x|] eqn:E; [|reflexivity].
  exfalso. apply exec_match_sound in E as (_ & _ & _ & HM).
  unfold blockPattern in HM. cbn [seqs] in HM.
  apply inv_group in HM as (y & HM & _).
  apply inv_alt in HM as [HM|HM];
    apply inv_seq in HM as (y1 & HM & _);
    apply Matches_lit_inv in HM as [_ Ho]; try reflexivity;
    apply occurs_includes in Ho; congruence.
Qed.

Lemma fold_inline_In text ms :
  forall acc x,
    In x (fold_left (inline_step text) ms acc) ->
    In x acc \/ exists z, In z ms /\ x = mk_match text math z.
Proof.
  induction ms as [|z ms IH]; intros acc x H; simpl in H; [left; exact H|].
  apply IH in H as [H|(z' & Hz & ->)].
  - unfold inline_step in H.
    repeat match type of H with In _ (if ?b then _ else _) => destruct b end;
      try (left; exact H).
    apply in_app_iff in H as [H|[<-|[]]]; [left; exact H|].
    right. exists z. split; [left; reflexivity|reflexivity].
  - right. exists z'. split; [right; exact Hz|reflexivity].
Qed.

Lemma inline_span_not_block content z :
  includes content (js "$$") = false -> includes content (js "\[") = false ->
  index z <= m_end z -> m_end z <= List.length content ->
  isBlockLevel (mk_match content math z) = false.
Proof.
  intros H1 H2 Hle Hlen. unfold isBlockLevel, mk_match. cbn [cm_type cm_content].
  unfold match_.
  destruct (exec_match no_flags blockMathStart (rm_text content z) 0) as [x|] eqn:E;
    [|reflexivity].
  exfalso. apply exec_match_sound in E as (_ & _ & _ & HM).
  unfold blockMathStart in HM.
  apply inv_seq in HM as (y & Hb & HM).
  apply inv_bol in Hb as [-> Hz]; [|reflexivity]. cbn [pos fst] in Hz.
  apply inv_group in HM as (y1 & HM & _).
  unfold rm_text in HM.
  apply inv_alt in HM as [HM|HM];
    apply Matches_lit_inv in HM as [_ Ho]; try reflexivity;
    cbn [pos fst] in Ho; rewrite Hz in Ho;
    apply occurs_in_slice in Ho; try assumption;
    apply occurs_includes in Ho; congruence.
Qed.

Lemma filter_none (A : Type) (f : A -> bool) l :
  (forall x, In x l -> f x = false) -> List.filter f l = [].
Proof.
  induction l as [|x l IH]; intros H; simpl; [reflexivity|].
  rewrite (H x (or_introl eq_refl)). apply IH. intros y Hy. apply H. right. exact Hy.
Qed.

Lemma no_block_matches content :
  findTopLevelEnvs content = [] ->
  includes content (js "\[") = false -> includes content (js "$$") = false ->
  exec_all flags_s smilesPattern content = [] ->
  exec_all flags_m headingPattern content = [] ->
  blockMatches content = [].
Proof.
  intros Henv Hbr Hdd Hsm Hhd. unfold blockMatches. apply filter_none.
  intros x Hx. unfold parseContent in Hx. apply filterNestedMatches_In in Hx.
  unfold findEnvironmentMatches, findMathMatches, findHeadingMatches,
    findSmilesMatches in Hx.
  rewrite Henv, Hsm, Hhd, (no_block_math content Hdd Hbr) in Hx.
  cbn [List.map app] in Hx. rewrite app_nil_r in Hx.
  apply fold_inline_In in Hx as [[]|(z & Hz & ->)].
  pose proof (@exec_all_progress flags_s inlinePattern content eq_refl) as Hp.
  rewrite Forall_forall in Hp. destruct (Hp z Hz) as [Hlt Hlen].
  apply inline_span_not_block; try assumption. lia.
Qed.

Lemma trim_nonempty content : truthy (trim content) = true -> content <> [].
Proof. intros H ->. discriminate. Qed.

(** ** Small variables and inline math *)

(** What the small-variable pattern says of a fragment it matches. *)
Lemma small_variable_shape fragment x :
  match_ flags_s smallVariablePattern fragment = Some x ->
  occurs fragment 0 (js "\(")
  /\ occurs fragment (List.length fragment - 2) (js "\)")
  /\ 5 <= List.length fragment.
Proof.
  intros H. unfold match_ in H. apply exec_match_sound in H as (_ & _ & _ & HM).
  unfold smallVariablePattern in HM. cbn [seqs] in HM.
  apply inv_seq in HM as (y0 & Hb & HM).
  apply inv_bol in Hb as [-> Hz]; [|reflexivity]. cbn [pos fst] in Hz.
  apply inv_seq in HM as (y1 & H1 & HM).
  apply Matches_lit_inv in H1 as [-> Ho1]; [|reflexivity].
  cbn [pos caps fst snd] in *. rewrite Hz in *.
  apply inv_seq in HM as (y2 & H2 & HM).
  assert (Hr2 := Matches_rep_run_inv (a := Class false [CSpace]) (g := true)
                                     eq_refl H2 eq_refl).
  destruct Hr2 as (a & -> & _ & _ & _); [discriminate|].
  cbn [pos caps fst snd] in *.
  apply inv_seq in HM as (y3 & H3 & HM).
  apply inv_group in H3 as (y3' & H3 & ->).
  assert (Hr3 := Matches_rep_run_inv (a := Class false word_class) (g := true)
                                     eq_refl H3 eq_refl).
  destruct Hr3 as (n & -> & Hn & _ & _); [intros h Hh; inversion Hh; lia|].
  cbn [pos caps fst snd] in *.
  apply inv_seq in HM as (y4 & H4 & HM).
  assert (Hr4 := Matches_rep_run_inv (a := Class false [CSpace]) (g := true)
                                     eq_refl H4 eq_refl).
  destruct Hr4 as (b & -> & _ & _ & _); [discriminate|].
  cbn [pos caps fst snd] in *.
  apply inv_seq in HM as (y5 & H5 & HM).
  apply Matches_lit_inv in H5 as [-> Ho5]; [|reflexivity].
  cbn [pos caps fst snd] in *.
  apply inv_eol in HM as [_ He]; [|reflexivity].
  cbn [pos fst] in He. simpl in He.
  split; [exact Ho1|]. split; [|lia].
  replace (List.length fragment - 2) with (0 + 2 + a + n + b) by lia. exact Ho5.
Qed.

Lemma not_environment fragment :
  occurs fragment 0 (js "\(") -> isLatexEnvironment fragment = None.
Proof.
  intros Ho. unfold isLatexEnvironment, match_.
  destruct (exec_match flags_s environmentPattern fragment 0) as [x|] eqn:E;
    [|reflexivity].
  exfalso. apply exec_match_sound in E as (_ & _ & _ & HM).
  unfold environmentPattern in HM. cbn [seqs] in HM.
  apply inv_seq in HM as (y0 & Hb & HM).
  apply inv_bol in Hb as [-> Hz]; [|reflexivity]. cbn [pos fst] in Hz.
  apply inv_seq in HM as (y1 & H1 & _).
  apply Matches_lit_inv in H1 as [_ Ho1]; [|reflexivity].
  cbn [pos fst] in Ho1. rewrite Hz in Ho1.
  specialize (Ho 1 _ eq_refl). specialize (Ho1 1 _ eq_refl).
  rewrite Ho in Ho1. discriminate.
Qed.

Lemma not_block fragment :
  occurs fragment 0 (js "\(") -> isBlockLatexFragment fragment = None.
Proof.
  intros Ho. unfold isBlockLatexFragment, match_.
  destruct (exec_match flags_s bracketBlockPattern fragment 0) as [x|] eqn:E.
  - exfalso. apply exec_match_sound in E as (_ & _ & _ & HM).
    unfold bracketBlockPattern in HM. cbn [seqs] in HM.
    apply inv_seq in HM as (y0 & Hb & HM).
    apply inv_bol in Hb as [-> Hz]; [|reflexivity]. cbn [pos fst] in Hz.
    apply inv_seq in HM as (y1 & H1 & _).
    apply Matches_lit_inv in H1 as [_ Ho1]; [|reflexivity].
    cbn [pos fst] in Ho1. rewrite Hz in Ho1.
    specialize (Ho 1 _ eq_refl). specialize (Ho1 1 _ eq_refl).
    rewrite Ho in Ho1. discriminate.
  - destruct (exec_match flags_s dollarBlockPattern fragment 0) as [x|] eqn:E2;
      [|reflexivity].
    exfalso. apply exec_match_sound in E2 as (_ & _ & _ & HM).
    unfold dollarBlockPattern in HM. cbn [seqs] in HM.
    apply inv_seq in HM as (y0 & Hb & HM).
    apply inv_bol in Hb as [-> Hz]; [|reflexivity]. cbn [pos fst] in Hz.
    apply inv_seq in HM as (y1 & H1 & _).
    apply Matches_lit_inv in H1 as [_ Ho1]; [|reflexivity].
    cbn [pos fst] in Ho1. rewrite Hz in Ho1.
    specialize (Ho 0 _ eq_refl). specialize (Ho1 0 _ eq_refl).
    rewrite Ho in Ho1. discriminate.
Qed.

(** A fragment [\(...\)] with something inside is inline math, and the body
    is what stands between the delimiters. *)
Lemma inline_fragment fragment :
  occurs fragment 0 (js "\(") ->
  occurs fragment (List.length fragment - 2) (js "\)") ->
  5 <= List.length fragment ->
  exists i, isInlineLatexFragment fragment = Some i
            /\ group_or_empty fragment i 1
               = slice fragment 2 (List.length fragment - 2).
Proof.
  intros Ho1 Ho2 Hlen. set (len := List.length fragment) in *.
  unfold isInlineLatexFragment, match_.
  destruct (exec_match flags_s inlineFragmentPattern fragment 0) as [x|] eqn:E.
  - exists x. split; [reflexivity|].
    apply exec_match_sound in E as (_ & _ & _ & HM).
    unfold inlineFragmentPattern in HM. cbn [seqs] in HM.
    apply inv_seq in HM as (y0 & Hb & HM).
    apply inv_bol in Hb as [-> Hz]; [|reflexivity]. cbn [pos fst] in Hz.
    apply inv_seq in HM as (y1 & H1 & HM).
    apply Matches_lit_inv in H1 as [-> _]; [|reflexivity].
    cbn [pos caps fst snd] in *. rewrite Hz in *.
    apply inv_seq in HM as (y2 & H2 & HM).
    apply inv_group in H2 as (y2' & H2 & ->).
    assert (Hr := Matches_rep_run_inv (a := Any) (g := false) eq_refl H2 eq_refl).
    destruct Hr as (n & -> & _ & _ & _); [discriminate|].
    cbn [pos caps fst snd] in *.
    apply inv_seq in HM as (y3 & H3 & HM).
    apply Matches_lit_inv in H3 as [-> _]; [|reflexivity].
    cbn [pos caps fst snd] in *.
    apply inv_eol in HM as [Hy He]; [|reflexivity].
    cbn [pos fst] in He. simpl in He. fold len in He.
    inversion Hy as [[Hend Hcaps]].
    unfold group_or_empty, rm_group, group_text. rewrite Hcaps.
    cbn [get_cap set_cap Nat.eqb]. f_equal. lia.
  - exfalso. revert E. apply exec_match_complete with (j := 0)
      (y := (len, set_cap 1 (2, len - 2) [])); [lia|lia|].
    unfold inlineFragmentPattern. cbn [seqs].
    apply build_seq with (j := 0) (c' := []); [apply build_bol|].
    apply build_seq with (j := 2) (c' := []);
      [apply build_lit; [reflexivity|exact Ho1|reflexivity]|].
    apply build_seq with (j := len - 2) (c' := set_cap 1 (2, len - 2) []).
    { apply build_group with (c' := []); [|reflexivity].
      apply build_run with (p := any_mem flags_s) (n := len - 4);
        [reflexivity| |lia|discriminate|lia].
      intros j Hj. destruct (nth_error fragment (2 + j)) as [c|] eqn:Ec.
      - exists c. split; reflexivity.
      - apply nth_error_None in Ec. fold len in Ec. lia. }
    apply build_seq with (j := len) (c' := set_cap 1 (2, len - 2) []).
    { apply build_lit; [reflexivity|exact Ho2|simpl; lia]. }
    apply build_eol. reflexivity.
Qed.

(** ** The tags of a text that is given by its tags *)

Lemma occurs_inj text i l1 l2 :
  occurs text i l1 -> occurs text i l2 -> List.length l1 = List.length l2 -> l1 = l2.
Proof.
  intros H1 H2 Hl. apply nth_error_ext. intros j.
  destruct (nth_error l1 j) as [x|] eqn:E1.
  - pose proof (H1 _ _ E1) as Hx.
    destruct (nth_error l2 j) as [y|] eqn:E2.
    + pose proof (H2 _ _ E2). congruence.
    + apply nth_error_None in E2.
      assert (j < List.length l1) by (apply nth_error_Some; congruence). lia.
  - apply nth_error_None in E1. symmetry. apply nth_error_None. lia.
Qed.

Lemma occurs_nth text i l j :
  occurs text i l -> j < List.length l -> nth_error text (i + j) = nth_error l j.
Proof.
  intros H Hj. destruct (nth_error l j) as [x|] eqn:E.
  - apply H. exact E.
  - apply nth_error_None in E. lia.
Qed.

Lemma tag_text_parts text j kind name :
  occurs text j (tag_text kind name) ->
  nth_error text j = Some (ch "\")
  /\ occurs text (S j) kind
  /\ nth_error text (S j + List.length kind) = Some (ch "{")
  /\ occurs text (S (S j + List.length kind)) name
  /\ nth_error text (S (S j + List.length kind) + List.length name) = Some (ch "}").
Proof.
  unfold tag_text. intros H.
  apply occurs_cons in H as [H0 H].
  apply occurs_app in H as [H1 H].
  apply occurs_cons in H as [H2 H].
  apply occurs_app in H as [H3 H].
  apply occurs_head in H. auto.
Qed.

Lemma tag_text_unique text j kind name kind' name' :
  tag_kind kind -> tag_kind kind' -> valid_name name -> valid_name name' ->
  occurs text j (tag_text kind name) -> occurs text j (tag_text kind' name') ->
  kind = kind' /\ name = name'.
Proof.
  intros Hk Hk' Hn Hn' H H'.
  apply tag_text_parts in H as (_ & Hkind & _ & Hname & Hclose).
  apply tag_text_parts in H' as (_ & Hkind' & _ & Hname' & Hclose').
  assert (Ek : kind = kind').
  { destruct Hk as [-> | ->], Hk' as [-> | ->]; try reflexivity; exfalso.
    - specialize (Hkind 0 _ eq_refl). specialize (Hkind' 0 _ eq_refl).
      rewrite Hkind in Hkind'. discriminate.
    - specialize (Hkind 0 _ eq_refl). specialize (Hkind' 0 _ eq_refl).
      rewrite Hkind in Hkind'. discriminate. }
  subst kind'. split; [reflexivity|].
  set (p := S (S j + List.length kind)) in *.
  destruct Hn as [_ Hn], Hn' as [_ Hn'].
  rewrite Forall_forall in Hn, Hn'.
  assert (Hlen : List.length name = List.length name').
  { destruct (Nat.lt_trichotomy (List.length name) (List.length name'))
      as [Hlt|[Heq|Hgt]]; [exfalso|exact Heq|exfalso].
    - rewrite (occurs_nth Hname' Hlt) in Hclose.
      apply nth_error_In in Hclose. apply Hn' in Hclose. congruence.
    - rewrite (occurs_nth Hname Hgt) in Hclose'.
      apply nth_error_In in Hclose'. apply Hn in Hclose'. congruence. }
  exact (occurs_inj Hname Hname' Hlen).
Qed.

Lemma tag_pattern_matches text j kind name :
  tag_kind kind -> valid_name name -> occurs text j (tag_text kind name) ->
  exists c, Matches no_flags text tagPattern (j, [])
                    (j + List.length (tag_text kind name), c).
Proof.
  intros Hk [Hne Hn] H.
  apply tag_text_parts in H as (H0 & Hkind & Hopen & Hname & Hclose).
  set (k := List.length kind) in *. set (n := List.length name) in *.
  set (c1 := set_cap 1 (S j, S j + k) []).
  set (c2 := set_cap 2 (S (S j + k), S (S j + k) + n) c1).
  exists c2. rewrite tag_text_length. fold k n.
  unfold tagPattern. cbn [seqs].
  apply build_seq with (j := S j) (c' := []);
    [apply build_char; [reflexivity|exact H0|reflexivity]|].
  apply build_seq with (j := S j + k) (c' := c1).
  { apply build_group with (c' := []); [|reflexivity].
    destruct Hk as [E|E]; rewrite E in Hkind; unfold k; rewrite E.
    - apply M_AltL. apply build_lit; [reflexivity|exact Hkind|reflexivity].
    - apply M_AltR. apply build_lit; [reflexivity|exact Hkind|reflexivity]. }
  apply build_seq with (j := S (S j + k)) (c' := c1);
    [apply build_char; [reflexivity|exact Hopen|reflexivity]|].
  apply build_seq with (j := S (S j + k) + n) (c' := c2).
  { apply build_group with (c' := c1); [|reflexivity].
    apply build_run with (p := class_mem no_flags true [cc "}"]) (n := n);
      [reflexivity| | |discriminate|reflexivity].
    - intros i Hi. destruct (nth_error name i) as [x|] eqn:E.
      + exists x. split; [apply Hname; exact E|].
        apply (@not_brace_class no_flags x eq_refl).
        rewrite Forall_forall in Hn. apply Hn. eapply nth_error_In. exact E.
      + apply nth_error_None in E. fold n in E. lia.
    - unfold n. destruct name; simpl; [congruence|lia]. }
  apply build_char; [reflexivity|exact Hclose|lia].
Qed.

Lemma occurs_within text i gap p l :
  occurs text i gap -> occurs text p l -> i <= p ->
  p + List.length l <= i + List.length gap ->
  occurs gap (p - i) l.
Proof.
  intros Hg Hl Hip Hend k x Hk.
  assert (k < List.length l) by (apply nth_error_Some; congruence).
  rewrite <- (occurs_nth Hg) by lia.
  replace (i + (p - i + k)) with (p + k) by lia. apply Hl. exact Hk.
Qed.

(** Where the tag pattern matches, the text has [\begin{] or [\end{]. *)
Lemma tag_match_opening text x :
  Matches no_flags text tagPattern (index x, []) (m_end x, m_caps x) ->
  exists opening,
    (opening = js "\begin{" \/ opening = js "\end{")
    /\ occurs text (index x) opening.
Proof.
  intros HM. unfold tagPattern in HM. cbn [seqs] in HM.
  apply inv_seq in HM as (y1 & H1 & HM).
  apply inv_char in H1 as [Hbs ->]; [|reflexivity].
  apply inv_seq in HM as (y2 & H2 & HM).
  apply inv_group in H2 as (y2' & H2 & ->).
  apply inv_seq in HM as (y3 & H3 & _).
  apply inv_char in H3 as [Hob _]; [|reflexivity].
  cbn [pos caps fst snd] in *.
  apply inv_alt in H2 as [H2|H2];
    apply Matches_lit_inv in H2 as [-> Hk]; try reflexivity;
    cbn [pos caps fst snd] in *.
  - exists (js "\begin{"). split; [left; reflexivity|].
    change (js "\begin{") with (js "\" ++ js "begin" ++ js "{").
    apply occurs_cons. split; [exact Hbs|].
    apply occurs_app. split; [exact Hk|].
    apply occurs_cons. split; [exact Hob|apply occurs_nil].
  - exists (js "\end{"). split; [right; reflexivity|].
    change (js "\end{") with (js "\" ++ js "end" ++ js "{").
    apply occurs_cons. split; [exact Hbs|].
    apply occurs_app. split; [exact Hk|].
    apply occurs_cons. split; [exact Hob|apply occurs_nil].
Qed.

Lemma opening_inner opening d :
  opening = js "\begin{" \/ opening = js "\end{" ->
  1 <= d -> nth_error opening d <> Some (ch "\").
Proof.
  intros [-> | ->] Hd; destruct d as [|d]; try lia;
    do 7 (try destruct d as [|d]); simpl; try discriminate;
    destruct d; discriminate.
Qed.

(** No tag starts in a gap that is followed by a backslash or by the end of
    the text. *)
Lemma no_tag_in_gap text i gap x :
  tag_free gap -> occurs text i gap ->
  (nth_error text (i + List.length gap) = Some (ch "\")
   \/ i + List.length gap = List.length text) ->
  Matches no_flags text tagPattern (index x, []) (m_end x, m_caps x) ->
  i <= index x -> index x < i + List.length gap -> False.
Proof.
  intros [Hfb Hfe] Hog Hnext HM Hi Hlt.
  destruct (tag_match_opening x HM) as (opening & Hop & Ho).
  destruct (le_lt_dec (index x + List.length opening) (i + List.length gap)) as [Hin|Hout].
  - pose proof (occurs_within Hog Ho Hi Hin) as Hw.
    apply occurs_includes in Hw. destruct Hop as [-> | ->]; congruence.
  - set (d := i + List.length gap - index x).
    assert (Hd : 1 <= d /\ d < List.length opening) by (unfold d; lia).
    pose proof (occurs_nth Ho (proj2 Hd)) as Hn.
    replace (index x + d) with (i + List.length gap) in Hn by (unfold d; lia).
    destruct Hnext as [Hbs|Hend].
    + rewrite Hbs in Hn. symmetry in Hn.
      exact (opening_inner Hop (proj1 Hd) Hn).
    + assert (Hnone : nth_error text (i + List.length gap) = None)
        by (apply nth_error_None; lia).
      rewrite Hnone in Hn. symmetry in Hn. apply nth_error_None in Hn. lia.
Qed.

(** The search from [i] in a gap finds the tag that follows the gap. *)
Lemma exec_tag_exact text i gap kind name :
  tag_free gap -> occurs text i gap -> tag_kind kind -> valid_name name ->
  occurs text (i + List.length gap) (tag_text kind name) ->
  exists x,
    exec_match no_flags tagPattern text i = Some x
    /\ m_end x = i + List.length gap + List.length (tag_text kind name)
    /\ mk_tag text x
       = {| tag_type := Some kind; tag_env := Some name;
            tag_index := i + List.length gap;
            tag_length := List.length (tag_text kind name) |}.
Proof.
  intros Hgap Hog Hk Hn Ho.
  set (j := i + List.length gap) in *.
  destruct (tag_pattern_matches Hk Hn Ho) as (c & HMj).
  assert (Hjlen : j + List.length (tag_text kind name) <= List.length text).
  { apply occurs_bound; [exact Ho|]. unfold tag_text. discriminate. }
  destruct (exec_match no_flags tagPattern text i) as [x|] eqn:E.
  2:{ exfalso. apply (exec_match_none E (j := j) (y := (j + List.length (tag_text kind name), c)));
        [unfold j; lia|lia|exact HMj]. }
  exists x. split; [reflexivity|].
  pose proof (exec_match_first _ _ _ _ E) as [_ Hfirst].
  apply exec_match_sound in E as (Hi & Hle & Hend & HM).
  assert (Hidx : index x = j).
  { destruct (Nat.lt_trichotomy (index x) j) as [Hlt|[Heq|Hgt]];
      [exfalso|exact Heq|exfalso].
    - apply (no_tag_in_gap x Hgap Hog); [left|exact HM|exact Hi|exact Hlt].
      fold j. apply (occurs_head (l := List.tl (tag_text kind name))). exact Ho.
    - specialize (Hfirst j ltac:(unfold j in *; lia)).
      apply (match_at_complete HMj). exact Hfirst. }
  destruct (tag_match_ok x HM Hend) as (Hok & Hti & Hte).
  destruct Hok as (kind' & name' & Hk' & Hn' & Hty & Henv & Hlen & Hocc).
  rewrite Hti, Hidx in Hocc.
  destruct (tag_text_unique Hk' Hk Hn' Hn Hocc Ho) as [-> ->].
  split.
  - rewrite <- Hte, Hti, Hlen, Hidx. reflexivity.
  - unfold mk_tag in *. cbn [tag_type tag_env tag_index tag_length] in *.
    rewrite Hty, Henv, Hlen, Hidx. reflexivity.
Qed.

Lemma exec_no_tag text i tail :
  tag_free tail -> occurs text i tail -> i + List.length tail = List.length text ->
  exec_match no_flags tagPattern text i = None.
Proof.
  intros Hgap Hog Hlen.
  destruct (exec_match no_flags tagPattern text i) as [x|] eqn:E; [|reflexivity].
  exfalso. apply exec_match_sound in E as (Hi & Hle & Hend & HM).
  destruct (tag_match_opening x HM) as (opening & Hop & Ho).
  assert (Hb : index x + List.length opening <= List.length text).
  { apply occurs_bound; [exact Ho|]. destruct Hop as [-> | ->]; discriminate. }
  apply (no_tag_in_gap x Hgap Hog); [right; exact Hlen|exact HM|exact Hi|].
  destruct Hop as [-> | ->]; simpl in Hb; lia.
Qed.

Lemma exec_loop_described text segs tail :
  forall i fuel,
    described text i segs tail -> List.length segs < fuel ->
    List.map (mk_tag text) (exec_loop no_flags tagPattern text fuel i)
    = segment_tags i segs.
Proof.
  induction segs as [|[[gap kind] name] segs IH]; intros i fuel H Hf;
    (destruct fuel as [|fuel]; [simpl in Hf; lia|]); cbn [exec_loop].
  - destruct H as (H1 & H2 & H3). rewrite (exec_no_tag H1 H2 H3). reflexivity.
  - destruct H as (H1 & H2 & H3 & H4 & H5 & H6).
    destruct (exec_tag_exact H1 H2 H3 H4 H5) as (x & -> & He & Ht).
    cbn [List.map segment_tags]. rewrite Ht, He. f_equal.
    apply IH; [exact H6|simpl in Hf; lia].
Qed.

Lemma described_length text segs tail :
  forall i, described text i segs tail -> i + List.length segs <= List.length text.
Proof.
  induction segs as [|[[gap kind] name] segs IH]; intros i H.
  - destruct H as (_ & _ & H). simpl. lia.
  - destruct H as (_ & _ & _ & _ & _ & H). apply IH in H.
    rewrite tag_text_length in H. simpl. lia.
Qed.

Lemma scanTags_described text segs tail :
  described text 0 segs tail -> scanTags text = segment_tags 0 segs.
Proof.
  intros H. unfold scanTags, exec_all. apply exec_loop_described with (tail := tail).
  - exact H.
  - apply described_length in H. lia.
Qed.

Lemma segments_text_described segs tail :
  tag_free tail ->
  Forall (fun s : segment =>
            let '(gap, kind, name) := s in
            tag_free gap /\ tag_kind kind /\ valid_name name) segs ->
  forall pre,
    described (pre ++ segments_text segs tail) (List.length pre) segs tail.
Proof.
  intros Ht. induction 1 as [|[[gap kind] name] segs (Hg & Hk & Hn) Hrest IH];
    intros pre; cbn [described segments_text].
  - split; [exact Ht|]. split.
    + rewrite <- (Nat.add_0_r (List.length pre)). apply occurs_skip. rewrite <- (app_nil_r tail) at 1. apply occurs_prefix.
    + rewrite length_app. reflexivity.
  - split; [exact Hg|]. split.
    + rewrite <- (Nat.add_0_r (List.length pre)). apply occurs_skip, occurs_prefix.
    + split; [exact Hk|]. split; [exact Hn|]. split.
      * rewrite app_assoc. rewrite <- length_app.
        rewrite <- (Nat.add_0_r (List.length (pre ++ gap))).
        apply occurs_skip, occurs_prefix.
      * specialize (IH (pre ++ gap ++ tag_text kind name)).
        rewrite !length_app in IH. rewrite <- !app_assoc in IH.
        rewrite Nat.add_assoc in IH. exact IH.
Qed.

Lemma tag_step_begin text stack envs t :
  tag_type t = Some (js "begin") ->
  tag_step text (stack, envs) t = (t :: stack, envs).
Proof. intros H. unfold tag_step. rewrite H. reflexivity. Qed.

Lemma tag_step_ignored text stack envs t :
  is_begin t = false ->
  match stack with
  | [] => True
  | top :: _ => opt_str_eqb (tag_env top) (tag_env t) = false
  end ->
  tag_step text (stack, envs) t = (stack, envs).
Proof.
  intros Hb Htop. unfold tag_step. unfold is_begin in Hb. rewrite Hb.
  destruct (opt_str_eqb (tag_type t) (Some (js "end")) && (0 <? List.length stack));
    [|reflexivity].
  destruct stack as [|top rest]; [reflexivity|]. rewrite Htop. reflexivity.
Qed.

Lemma tag_step_inner text top next rest envs t :
  is_begin t = false ->
  fst (tag_step text (top :: next :: rest, envs) t) <> [] /\
  snd (tag_step text (top :: next :: rest, envs) t) = envs.
Proof.
  intros Hb. unfold tag_step. unfold is_begin in Hb. rewrite Hb.
  destruct (opt_str_eqb (tag_type t) (Some (js "end"))
            && (0 <? List.length (top :: next :: rest)));
    [|split; [discriminate|reflexivity]].
  destruct (opt_str_eqb (tag_env top) (tag_env t));
    split; try discriminate; reflexivity.
Qed.

Lemma names_differ X Y : X <> Y -> opt_str_eqb (Some X) (Some Y) = false.
Proof.
  intros H. simpl. destruct (str_eqb X Y) eqn:E; [|reflexivity].
  apply str_eqb_eq in E. contradiction.
Qed.

Lemma findTopLevelEnvs_described text segs tail :
  described text 0 segs tail ->
  findTopLevelEnvs text
  = sort_by env_start
      (snd (fold_left (tag_step text) (segment_tags 0 segs) ([], []))).
Proof.
  intros H. unfold findTopLevelEnvs. rewrite (scanTags_described _ _ _ H). reflexivity.
Qed.

Lemma begin_end_mismatch g0 X body Y g1 :
  tag_free g0 -> tag_free body -> tag_free g1 ->
  valid_name X -> valid_name Y -> X <> Y ->
  findTopLevelEnvs
    (g0 ++ tag_text (js "begin") X ++ body ++ tag_text (js "end") Y ++ g1) = [].
Proof.
  intros H0 Hb H1 HX HY Hne.
  set (segs := [(g0, js "begin", X); (body, js "end", Y)] : list segment).
  change (g0 ++ tag_text (js "begin") X ++ body ++ tag_text (js "end") Y ++ g1)
    with ([] ++ segments_text segs g1).
  rewrite (@findTopLevelEnvs_described _ segs g1).
  - cbn [segs segment_tags fold_left].
    rewrite tag_step_begin by reflexivity.
    rewrite tag_step_ignored; [reflexivity|reflexivity|].
    cbn [tag_env]. apply names_differ. exact Hne.
  - apply segments_text_described; [exact H1|].
    constructor; [split; [exact H0|split; [left; reflexivity|exact HX]]|].
    constructor; [split; [exact Hb|split; [right; reflexivity|exact HY]]|].
    constructor.
Qed.

Lemma interleaved_mismatch g0 A g1 B g2 g3 g4 :
  tag_free g0 -> tag_free g1 -> tag_free g2 -> tag_free g3 -> tag_free g4 ->
  valid_name A -> valid_name B -> A <> B ->
  findTopLevelEnvs
    (g0 ++ tag_text (js "begin") A ++ g1 ++ tag_text (js "begin") B
        ++ g2 ++ tag_text (js "end") A ++ g3 ++ tag_text (js "end") B ++ g4) = [].
Proof.
  intros H0 H1 H2 H3 H4 HA HB Hne.
  set (segs := [(g0, js "begin", A); (g1, js "begin", B);
                (g2, js "end", A); (g3, js "end", B)] : list segment).
  change (g0 ++ tag_text (js "begin") A ++ g1 ++ tag_text (js "begin") B
             ++ g2 ++ tag_text (js "end") A ++ g3 ++ tag_text (js "end") B ++ g4)
    with ([] ++ segments_text segs g4).
  rewrite (@findTopLevelEnvs_described _ segs g4).
  - cbn [segs segment_tags fold_left].
    rewrite tag_step_begin by reflexivity.
    rewrite tag_step_begin by reflexivity.
    rewrite tag_step_ignored;
      [|reflexivity|cbn [tag_env]; apply names_differ; congruence].
    match goal with
    | |- sort_by _ (snd (tag_step ?t (?top :: ?next :: ?rest, ?envs) ?tg)) = _ =>
        rewrite (proj2 (@tag_step_inner t top next rest envs tg eq_refl))
    end.
    reflexivity.
  - apply segments_text_described; [exact H4|].
    constructor; [split; [exact H0|split; [left; reflexivity|exact HA]]|].
    constructor; [split; [exact H1|split; [left; reflexivity|exact HB]]|].
    constructor; [split; [exact H2|split; [right; reflexivity|exact HA]]|].
    constructor; [split; [exact H3|split; [right; reflexivity|exact HB]]|].
    constructor.
Qed.

(** ** Fragments that are small variables *)

Lemma word_not_blank c : is_word c = true -> is_blank c = false /\ c <> ch "\".
Proof.
  unfold is_word, is_blank, class_mem, word_class, item_mem, in_range, char_eq,
    canon, is_space, cr, cc, ch. cbn [existsb xorb ignoreCase flags_s andb orb].
  change (Ascii.N_of_ascii "a") with 97%N. change (Ascii.N_of_ascii "z") with 122%N.
  change (Ascii.N_of_ascii "A") with 65%N. change (Ascii.N_of_ascii "Z") with 90%N.
  change (Ascii.N_of_ascii "0") with 48%N. change (Ascii.N_of_ascii "9") with 57%N.
  change (Ascii.N_of_ascii "_") with 95%N. change (Ascii.N_of_ascii "\") with 92%N.
  rewrite !orb_false_r. intros H.
  assert (Hw : (48 <= c <= 57 \/ 65 <= c <= 90 \/ c = 95 \/ 97 <= c <= 122)%N).
  { repeat (apply orb_true_iff in H as [H|H]);
      try (apply andb_true_iff in H as [H1 H2]; apply N.leb_le in H1, H2; lia);
      apply N.eqb_eq in H; lia. }
  clear H. split; [|lia].
  repeat (apply orb_false_iff; split);
    try (apply andb_false_iff;
         destruct (N.leb_spec 9 c); [right; apply N.leb_gt; lia|left; reflexivity]);
    try (apply N.eqb_neq; lia).
  apply andb_false_iff. left. apply N.leb_gt. lia.
Qed.

Section SmallVariable.
Variables ws1 w ws2 : jsstring.
Hypothesis blank1 : Forall (fun c => is_blank c = true) ws1.
Hypothesis blank2 : Forall (fun c => is_blank c = true) ws2.
Hypothesis word : Forall (fun c => is_word c = true) w.
Hypothesis len_lo : 1 <= List.length w.
Hypothesis len_hi : List.length w <= 3.

Let T := js "\(" ++ ws1 ++ w ++ ws2 ++ js "\)".
Let a := List.length ws1.
Let n := List.length w.
Let c := List.length ws2.

Lemma sv_length : List.length T = 4 + a + n + c.
Proof. unfold T, a, n, c. rewrite !length_app. simpl. lia. Qed.

Lemma sv_open : occurs T 0 (js "\(").
Proof. apply occurs_prefix. Qed.

Lemma sv_ws1 : occurs T 2 ws1.
Proof. apply (occurs_skip (js "\(") (k := 0)). apply occurs_prefix. Qed.

Lemma sv_w : occurs T (2 + a) w.
Proof.
  apply (occurs_skip (js "\(") (k := a)).
  rewrite <- (Nat.add_0_r a). apply occurs_skip. apply occurs_prefix.
Qed.

Lemma sv_ws2 : occurs T (2 + a + n) ws2.
Proof.
  replace (2 + a + n) with (List.length (js "\(") + (a + (n + 0))) by (simpl; lia).
  do 3 apply occurs_skip. apply occurs_prefix.
Qed.

Lemma sv_close : occurs T (2 + a + n + c) (js "\)").
Proof.
  replace (2 + a + n + c) with (List.length (js "\(") + (a + (n + (c + 0))))
    by (simpl; lia).
  do 4 apply occurs_skip. rewrite <- (app_nil_r (js "\)")). apply occurs_prefix.
Qed.

Lemma occurs_run text (p : char -> bool) i l :
  occurs text i l -> Forall (fun x => p x = true) l -> run text p i (List.length l).
Proof.
  intros Ho Hp j Hj. destruct (nth_error l j) as [x|] eqn:E.
  - exists x. split; [apply Ho; exact E|].
    rewrite Forall_forall in Hp. apply Hp. eapply nth_error_In. exact E.
  - apply nth_error_None in E. lia.
Qed.

(** What stands at an index of the fragment. *)
Lemma sv_at_ws1 j : j < a -> exists x, nth_error T (2 + j) = Some x /\ is_blank x = true.
Proof. apply occurs_run; [exact sv_ws1|exact blank1]. Qed.

Lemma sv_at_w j : j < n -> exists x, nth_error T (2 + a + j) = Some x /\ is_word x = true.
Proof. apply occurs_run; [exact sv_w|exact word]. Qed.

Lemma sv_after_w :
  exists x, nth_error T (2 + a + n) = Some x /\ is_word x = false.
Proof.
  destruct (Nat.eq_dec c 0) as [E|E].
  - exists (ch "\"). split; [|reflexivity].
    pose proof sv_close as H. rewrite E, Nat.add_0_r in H. apply (occurs_head H).
  - assert (Hr : run T is_blank (2 + a + n) c)
      by (apply occurs_run; [exact sv_ws2|exact blank2]).
    destruct (Hr 0 ltac:(lia)) as (x & Hx & Hb). rewrite Nat.add_0_r in Hx.
    exists x. split; [exact Hx|].
    destruct (is_word x) eqn:Ew; [|reflexivity].
    apply word_not_blank in Ew as [Ew _]. congruence.
Qed.

Lemma small_variable_match :
  exists x, match_ flags_s smallVariablePattern T = Some x
            /\ group_or_empty T x 1 = w.
Proof.
  pose proof sv_length as HT.
  unfold match_.
  destruct (exec_match flags_s smallVariablePattern T 0) as [x|] eqn:E.
  - exists x. split; [reflexivity|].
    apply exec_match_sound in E as (_ & _ & _ & HM).
    unfold smallVariablePattern in HM. cbn [seqs] in HM.
    apply inv_seq in HM as (y0 & Hb & HM).
    apply inv_bol in Hb as [-> Hz]; [|reflexivity]. cbn [pos fst] in Hz.
    apply inv_seq in HM as (y1 & H1 & HM).
    apply Matches_lit_inv in H1 as [-> _]; [|reflexivity].
    cbn [pos caps fst snd] in *. rewrite Hz in *.
    apply inv_seq in HM as (y2 & H2 & HM).
    assert (Hr2 := Matches_rep_run_inv (a := Class false [CSpace]) (g := true)
                                       eq_refl H2 eq_refl).
    destruct Hr2 as (a' & -> & _ & _ & Hrun1); [discriminate|].
    cbn [pos caps fst snd] in *.
    apply inv_seq in HM as (y3 & H3 & HM).
    apply inv_group in H3 as (y3' & H3 & ->).
    assert (Hr3 := Matches_rep_run_inv (a := Class false word_class) (g := true)
                                       eq_refl H3 eq_refl).
    destruct Hr3 as (n' & -> & Hn1 & Hn3 & Hrun2); [intros h Hh; inversion Hh; lia|].
    cbn [pos caps fst snd] in *.
    apply inv_seq in HM as (y4 & H4 & HM).
    assert (Hr4 := Matches_rep_run_inv (a := Class false [CSpace]) (g := true)
                                       eq_refl H4 eq_refl).
    destruct Hr4 as (c' & -> & _ & _ & Hrun3); [discriminate|].
    cbn [pos caps fst snd] in *.
    apply inv_seq in HM as (y5 & H5 & HM).
    apply Matches_lit_inv in H5 as [-> Hclose]; [|reflexivity].
    cbn [pos caps fst snd] in *.
    apply inv_eol in HM as [Hy He]; [|reflexivity].
    cbn [pos fst] in He. simpl in He, Hclose.
    inversion Hy as [[Hend Hcaps]]. clear Hy.
    (* the white space before the variable *)
    assert (Ha : a' = a).
    { destruct (Nat.lt_trichotomy a' a) as [Hlt|[Heq|Hgt]]; [exfalso|exact Heq|exfalso].
      - destruct (sv_at_ws1 Hlt) as (x1 & Hx1 & Hb1).
        destruct (Hrun2 0 ltac:(lia)) as (x2 & Hx2 & Hw2).
        rewrite Nat.add_0_r in Hx2. simpl in Hx1, Hx2. rewrite Hx1 in Hx2.
        inversion Hx2; subst. apply word_not_blank in Hw2 as [Hw2 _].
        unfold is_blank in *. congruence.
      - destruct (Hrun1 a Hgt) as (x1 & Hx1 & Hb1).
        destruct (@sv_at_w 0 ltac:(unfold n; lia)) as (x2 & Hx2 & Hw2).
        rewrite Nat.add_0_r in Hx2. simpl in Hx1, Hx2. rewrite Hx1 in Hx2.
        inversion Hx2; subst. apply word_not_blank in Hw2 as [Hw2 _].
        unfold is_blank in *. congruence. }
    subst a'.
    assert (Hn : n' = n).
    { destruct (Nat.lt_trichotomy n' n) as [Hlt|[Heq|Hgt]]; [exfalso|exact Heq|exfalso].
      - destruct (sv_at_w Hlt) as (x1 & Hx1 & Hw1).
        apply word_not_blank in Hw1 as [Hnb Hnbs].
        destruct c' as [|c'].
        + rewrite Nat.add_0_r in Hclose. apply occurs_head in Hclose.
          simpl in Hx1, Hclose. rewrite Hx1 in Hclose.
          inversion Hclose; subst. apply Hnbs. reflexivity.
        + destruct (Hrun3 0 ltac:(lia)) as (x2 & Hx2 & Hb2).
          rewrite Nat.add_0_r in Hx2. simpl in Hx1, Hx2. rewrite Hx1 in Hx2.
          inversion Hx2; subst. unfold is_blank in *. congruence.
      - destruct (Hrun2 n Hgt) as (x1 & Hx1 & Hw1).
        destruct sv_after_w as (x2 & Hx2 & Hw2).
        simpl in Hx1, Hx2. rewrite Hx1 in Hx2. inversion Hx2; subst.
        unfold is_word in *. congruence. }
    subst n'.
    unfold group_or_empty, rm_group, group_text. rewrite Hcaps.
    cbn [get_cap set_cap Nat.eqb].
    pose proof (occurs_slice sv_w) as Hs. fold n in Hs. simpl in Hs. simpl. exact Hs.
  - exfalso. revert E.
    set (c1 := set_cap 1 (2 + a, 2 + a + n) []).
    apply exec_match_complete with (j := 0) (y := (4 + a + n + c, c1)); [lia|lia|].
    unfold smallVariablePattern. cbn [seqs].
    apply build_seq with (j := 0) (c' := []); [apply build_bol|].
    apply build_seq with (j := 2) (c' := []);
      [apply build_lit; [reflexivity|exact sv_open|reflexivity]|].
    apply build_seq with (j := 2 + a) (c' := []).
    { apply build_run with (p := is_blank) (n := a);
        [reflexivity|apply occurs_run; [exact sv_ws1|exact blank1]|lia|discriminate|reflexivity]. }
    apply build_seq with (j := 2 + a + n) (c' := c1).
    { apply build_group with (c' := []); [|reflexivity].
      apply build_run with (p := is_word) (n := n);
        [reflexivity|apply occurs_run; [exact sv_w|exact word]|exact len_lo| |reflexivity].
      intros h Hh. inversion Hh; subst. exact len_hi. }
    apply build_seq with (j := 2 + a + n + c) (c' := c1).
    { apply build_run with (p := is_blank) (n := c);
        [reflexivity|apply occurs_run; [exact sv_ws2|exact blank2]|lia|discriminate|reflexivity]. }
    apply build_seq with (j := 4 + a + n + c) (c' := c1).
    { apply build_lit; [reflexivity|exact sv_close|simpl; lia]. }
    apply build_eol. rewrite HT. reflexivity.
Qed.
End SmallVariable.

Lemma is_blank_space c : is_blank c = is_space c.
Proof. unfold is_blank, class_mem, item_mem. simpl. apply orb_false_r. Qed.

Lemma trimStart_blank ws rest :
  Forall (fun c => is_blank c = true) ws -> trimStart (ws ++ rest) = trimStart rest.
Proof.
  induction 1 as [|x ws Hx _ IH]; [reflexivity|].
  simpl. rewrite is_blank_space in Hx. rewrite Hx. exact IH.
Qed.

Lemma trimStart_word x rest : is_word x = true -> trimStart (x :: rest) = x :: rest.
Proof.
  intros H. apply word_not_blank in H as [H _]. rewrite is_blank_space in H.
  simpl. rewrite H. reflexivity.
Qed.

(** The shape of the fragments of the claim: white space, the variable and
    white space between the delimiters; the variable is the trimmed inner
    content. *)
Lemma trim_inner ws1 w ws2 :
  Forall (fun c => is_blank c = true) ws1 ->
  Forall (fun c => is_blank c = true) ws2 ->
  Forall (fun c => is_word c = true) w ->
  trim (ws1 ++ w ++ ws2) = w.
Proof.
  intros H1 H2 Hw. unfold trim, trimEnd. rewrite trimStart_blank by exact H1.
  destruct w as [|x w].
  - simpl. rewrite <- (app_nil_r ws2) at 1. rewrite trimStart_blank by exact H2.
    reflexivity.
  - inversion Hw as [|? ? Hx Hw']; subst.
    rewrite <- app_comm_cons, trimStart_word by exact Hx.
    rewrite app_comm_cons, rev_app_distr.
    rewrite trimStart_blank by (apply Forall_rev; exact H2).
    assert (Hlast : exists y l, rev (x :: w) = y :: l /\ is_word y = true).
    { destruct (rev (x :: w)) as [|y l] eqn:E.
      - apply (f_equal (@List.length _)) in E. rewrite length_rev in E. discriminate.
      - exists y, l. split; [reflexivity|].
        assert (Hin : In y (x :: w)) by (apply in_rev; rewrite E; left; reflexivity).
        rewrite Forall_forall in Hw. apply Hw. exact Hin. }
    destruct Hlast as (y & l & E & Hy). rewrite E, trimStart_word by exact Hy.
    rewrite <- E. apply rev_involutive.
Qed.

Lemma startsWith_app p rest : startsWith (p ++ rest) p = true.
Proof. intros. apply (occurs_startsWith (i := 0)). apply occurs_prefix. Qed.

Lemma str_eqb_refl s : str_eqb s s = true.
Proof. apply str_eqb_eq. reflexivity. Qed.

Lemma endsWith_app s p : endsWith (s ++ p) p = true.
Proof.
  unfold endsWith. rewrite length_app.
  apply andb_true_iff. split; [apply Nat.leb_le; lia|].
  replace (List.length s + List.length p - List.length p) with (List.length s) by lia.
  rewrite skipn_app, skipn_all, Nat.sub_diag. simpl. apply str_eqb_refl.
Qed.

(** [isSmallVariableLatex] and the scanner on every small variable: a
    fragment made of the delimiters around one to three word characters, with
    white space on either side, is accepted with the variable as its
    content, and the scanner makes no math span of it. *)
Lemma small_variable_accepted ws1 w ws2 :
  Forall (fun c => is_blank c = true) ws1 ->
  Forall (fun c => is_blank c = true) ws2 ->
  Forall (fun c => is_word c = true) w ->
  1 <= List.length w -> List.length w <= 3 ->
  includes w (js "\") = false -> includes w (js "{") = false ->
  includes w (js "}") = false -> includes w (js "^") = false ->
  includes w (js "_") = false -> includes w (js "frac") = false ->
  (exists x, isSmallVariableLatex (js "\(" ++ ws1 ++ w ++ ws2 ++ js "\)")
             = Some {| vm_match := x; vm_content := w |})
  /\ shouldSkipMathFragment (js "\(" ++ ws1 ++ w ++ ws2 ++ js "\)") = true.
Proof.
  intros H1 H2 Hw Hlo Hhi I1 I2 I3 I4 I5 I6.
  destruct (small_variable_match H1 H2 Hw Hlo Hhi) as (x & Hm & Hc).
  assert (Hsv : isSmallVariableLatex (js "\(" ++ ws1 ++ w ++ ws2 ++ js "\)")
                = Some {| vm_match := x; vm_content := w |}).
  { unfold isSmallVariableLatex. rewrite Hm, Hc, I1, I2, I3, I4, I5, I6. reflexivity. }
  split; [exists x; exact Hsv|].
  unfold shouldSkipMathFragment. rewrite Hsv.
  change (startsWith (js "\(" ++ ws1 ++ w ++ ws2 ++ js "\)") (js "$")) with false.
  cbn [andb]. rewrite startsWith_app.
  replace (js "\(" ++ ws1 ++ w ++ ws2 ++ js "\)")
    with ((js "\(" ++ ws1 ++ w ++ ws2) ++ js "\)")
    by (rewrite <- !app_assoc; reflexivity).
  rewrite endsWith_app. reflexivity.
Qed.

(** * The properties of the specification *)

(** ** The splitting utility *)

(** C9: for every string [s], the parts that [splitLatex s] returns, put
    together in order, are [s] again. *)
Theorem splitLatex_roundtrip : forall s : jsstring, join (splitLatex s) = s.
Proof.
  intros s. unfold splitLatex, splitLatexPattern. apply split_join. reflexivity.
Qed.

(** The pattern of [splitLatex] cannot match the empty string, so the loop of
    [split] never runs out of turns. *)
Lemma splitLatex_turns s f :
  List.length s < f ->
  split_loop flags_s splitLatexPattern s f 0 0
  = split_loop flags_s splitLatexPattern s (S (2 * List.length s)) 0 0.
Proof.
  intros H. unfold splitLatexPattern. apply split_loop_fuel; [reflexivity|lia..].
Qed.

(** ** The length limit *)

(** C10: an input of more than 100000 characters fails
    [validateMarkdownContent], and [RichText] answers with the invalid-content
    alert whatever the text holds. *)
Theorem long_input_rejected :
  forall (content : jsstring) (renderAsMarkdown inline : bool),
    (100000 < N.of_nat (List.length content))%N ->
    validateMarkdownContent content = false
    /\ RichText content renderAsMarkdown inline = Some invalidContent.
Proof.
  intros content rm inl H.
  assert (Hv : validateMarkdownContent content = false).
  { unfold validateMarkdownContent.
    destruct content as [|c s]; [reflexivity|]. cbn [truthy negb].
    apply N.ltb_lt in H. rewrite H. reflexivity. }
  split; [exact Hv|].
  unfold RichText. rewrite Hv.
  destruct content; [simpl in H; lia|reflexivity].
Qed.

Lemma long_input_rejected_witness :
  validateMarkdownContent (repeat 97%N (N.to_nat 100001)) = false
  /\ RichText (repeat 97%N (N.to_nat 100001)) true false = Some invalidContent.
Proof.
  apply long_input_rejected.
  rewrite repeat_length, N2Nat.id. reflexivity.
Defined.

(** ** The single-dollar heuristic *)

(** C5, as the specification states it, fails: the content ["10 and x"] of the
    fragment matches one of the indicator patterns, the fragment is accepted
    by [isSelectiveInlineLatex], and the scan of the sentence has a math
    span. *)
Lemma price_fragment_counterexample :
  (exists pattern, In pattern mathPatterns
                   /\ test no_flags pattern (js "10 and x") = true)
  /\ isSelectiveInlineLatex (js "$10 and x$") <> None
  /\ (exists x, In x (parseContent (js "Price is $10 and x$y"))
                /\ cm_type x = math).
Proof.
  split; [|split].
  - exists (seqs [plus (Class false [CDigit]); star (Class false [CSpace]);
                  Class false letter]).
    split; [|vm_compute; reflexivity].
    unfold mathPatterns. do 8 right. left. reflexivity.
  - vm_compute. discriminate.
  - exists {| cm_start := 9; cm_end := 19; cm_content := js "$10 and x$";
              cm_type := math |}.
    split; [|reflexivity]. vm_compute. left. reflexivity.
Qed.

(** C5 as the code has it: of the ten indicator patterns exactly the ninth,
    digits then optional white space then a letter, matches ["10 and x"] (at
    ["10 a"]); the fragment is selective math, and the scan of the sentence
    returns the one math span from 9 to 19. *)
Theorem price_fragment_is_selective_math :
  List.map (fun pattern => test no_flags pattern (js "10 and x")) mathPatterns
  = [false; false; false; false; false; false; false; false; true; false]
  /\ isSelectiveInlineLatex (js "$10 and x$")
     = Some {| index := 0; m_end := 10; m_caps := [(1, Some (1, 9))] |}
  /\ shouldSkipMathFragment (js "$10 and x$") = false
  /\ parseContent (js "Price is $10 and x$y")
     = [{| cm_start := 9; cm_end := 19; cm_content := js "$10 and x$";
           cm_type := math |}].
Proof. repeat split; vm_compute; reflexivity. Qed.

(** ** List environments *)

(** C8: [parseLatexList] on the two-item [itemize] environment strips the
    wrapper, splits the body at [\item], drops the empty first segment and
    returns two items, with the trimmed bodies ["A"] and ["B"]. *)
Theorem itemize_two_items :
  let content := js "\begin{itemize}\item A\item B\end{itemize}" in
  innerContent_of content = js "\item A\item B"
  /\ placeholders_of (js "\item A\item B") = ([], js "\item A\item B")
  /\ split_strings no_flags (lit "\item") (js "\item A\item B")
     = [[]; js " A"; js " B"]
  /\ list_items (js "\item A\item B") = [js " A"; js " B"]
  /\ List.map trim (list_items (js "\item A\item B")) = [js "A"; js "B"]
  /\ parseLatexList content (js "itemize")
     = [Elem "li" (Some (js "0")) [("className"%string, js "mb-1")]
             [Elem "span" (Some (js "0")) [] [TextNode (js "A")]];
        Elem "li" (Some (js "1")) [("className"%string, js "mb-1")]
             [Elem "span" (Some (js "0")) [] [TextNode (js "B")]]].
Proof. repeat split; vm_compute; reflexivity. Qed.

(** ** Small variables *)

(** The first decision of [renderLatex] asks for inline math before the
    small variable: whatever [isSmallVariableLatex] accepts, a call of
    [renderLatex] renders as inline math with the text between the delimiters
    as its body, white space included, and the small-variable branch of that
    decision is never taken. *)
Lemma small_variable_rendered_as_inline_math :
  forall (fragment : jsstring) (v : VariableMatch) (forceInline : bool),
    isSmallVariableLatex fragment = Some v ->
    renderLatex fragment forceInline
    = InlineMath None (slice fragment 2 (List.length fragment - 2)).
Proof.
  intros fragment v fi H.
  assert (Hm : exists x, match_ flags_s smallVariablePattern fragment = Some x).
  { unfold isSmallVariableLatex in H.
    destruct (match_ flags_s smallVariablePattern fragment) as [x|];
      [eauto|discriminate]. }
  destruct Hm as (x & Hm).
  apply small_variable_shape in Hm as (Ho1 & Ho2 & Hlen).
  destruct (inline_fragment Ho1 Ho2 Hlen) as (i & Hi & Hbody).
  unfold renderLatex.
  rewrite (not_environment Ho1), (not_block Ho1), Hi, Hbody. reflexivity.
Qed.

(** ** Mismatched environments *)

(** C2: an end tag that finds the stack empty or topped by another name
    leaves the stack and the spans as they are; a text with a begin tag and an
    end tag of different names, and no other tag before, between or after
    them, has no environment span; and a text with the tags begin A, begin B,
    end A, end B, for different names A and B, has none either.
    [findTopLevelEnvs] is a total function: there is no error to raise. *)
Theorem mismatched_end_tags_ignored :
  (forall (text : jsstring) stack envs t,
      is_begin t = false ->
      match stack with
      | [] => True
      | top :: _ => opt_str_eqb (tag_env top) (tag_env t) = false
      end ->
      tag_step text (stack, envs) t = (stack, envs))
  /\ (forall g0 X body Y g1 : jsstring,
         tag_free g0 -> tag_free body -> tag_free g1 ->
         valid_name X -> valid_name Y -> X <> Y ->
         findTopLevelEnvs
           (g0 ++ tag_text (js "begin") X ++ body ++ tag_text (js "end") Y ++ g1)
         = [])
  /\ (forall g0 A g1 B g2 g3 g4 : jsstring,
         tag_free g0 -> tag_free g1 -> tag_free g2 -> tag_free g3 -> tag_free g4 ->
         valid_name A -> valid_name B -> A <> B ->
         findTopLevelEnvs
           (g0 ++ tag_text (js "begin") A ++ g1 ++ tag_text (js "begin") B
               ++ g2 ++ tag_text (js "end") A ++ g3 ++ tag_text (js "end") B ++ g4)
         = []).
Proof.
  split; [|split].
  - intros text stack envs t. apply tag_step_ignored.
  - apply begin_end_mismatch.
  - apply interleaved_mismatch.
Qed.

Lemma mismatched_end_tags_ignored_witness :
  findTopLevelEnvs (js "\begin{itemize}\item one\end{enumerate}") = []
  /\ findTopLevelEnvs (js "\begin{A}\begin{B}\end{A}\end{B}") = [].
Proof.
  split.
  - apply (proj1 (proj2 mismatched_end_tags_ignored)
             [] (js "itemize") (js "\item one") (js "enumerate") []);
      try (split; reflexivity);
      try (split; [discriminate|repeat constructor; discriminate]).
    discriminate.
  - apply (proj2 (proj2 mismatched_end_tags_ignored)
             [] (js "A") [] (js "B") [] [] []);
      try (split; reflexivity);
      try (split; [discriminate|repeat constructor; discriminate]).
    discriminate.
Defined.

(** ** Disallowed LaTeX primitives *)

(** C4, as the specification states it, fails: [RichText] validates the whole
    input with [validateMarkdownContent], which does not look for LaTeX
    primitives, so a text with [\input{] passes, is segmented and is handed to
    the Markdown engine. *)
Lemma input_primitive_counterexample :
  includes (js "\input{file.tex}") (js "\input{") = true
  /\ validateMarkdownContent (js "\input{file.tex}") = true
  /\ RichText (js "\input{file.tex}") true false
     = Some (prose false [MarkdownEl (key_of "text-" 0) [] (js "\input{file.tex}")])
  /\ RichText (js "\input{file.tex}") true false <> Some invalidContent.
Proof.
  repeat split; try (vm_compute; reflexivity).
  vm_compute. discriminate.
Qed.

(** ** The two pipelines *)

(** C3, as the specification states it, fails: a text with a heading line has
    no environment and no block-math delimiter, yet the full pipeline renders
    the heading itself while the fast one hands the line to the Markdown
    engine; a chemical tag is a block of its own in the full pipeline and a
    placeholder inside the Markdown text in the fast one. *)
Lemma pipelines_differ_counterexample :
  hasComplexStructures (js "# Title") = false
  /\ renderWithPlaceholders (js "# Title") false
     = prose false [MarkdownEl (key_of "text-" 0) [] (js "# Title")]
  /\ renderWithComplexProcessing (js "# Title") true false
     = prose false [Elem "div" (key_of "heading-" 0) [] [RenderHeading (js "Title") 1]]
  /\ renderWithComplexProcessing (js "# Title") true false
     <> renderWithPlaceholders (js "# Title") false
  /\ hasComplexStructures (js "a <smiles>CCO</smiles> b") = false
  /\ renderWithComplexProcessing (js "a <smiles>CCO</smiles> b") true false
     <> renderWithPlaceholders (js "a <smiles>CCO</smiles> b") false.
Proof.
  repeat split; try (vm_compute; reflexivity); vm_compute; discriminate.
Qed.

(** C3 as the code has it: for a text that is not blank and has no top-level
    environment, no block-math delimiter, no chemical tag and no heading line,
    the full pipeline finds no block-level span and returns what the fast
    pipeline returns: the wrapper around the one Markdown element of the whole
    text. *)
Theorem pipelines_agree_without_blocks :
  forall (content : jsstring) (inline : bool),
    findTopLevelEnvs content = [] ->
    includes content (js "\[") = false ->
    includes content (js "$$") = false ->
    exec_all flags_s smilesPattern content = [] ->
    exec_all flags_m headingPattern content = [] ->
    truthy (trim content) = true ->
    hasComplexStructures content = false
    /\ blockMatches content = []
    /\ renderWithComplexProcessing content true inline
       = renderWithPlaceholders content inline.
Proof.
  intros content inline Henv Hbr Hdd Hsm Hhd Htrim.
  pose proof (no_block_matches content Henv Hbr Hdd Hsm Hhd) as Hnone.
  split; [|split; [exact Hnone|]].
  - unfold hasComplexStructures. rewrite Henv, Hbr, Hdd. reflexivity.
  - unfold renderWithComplexProcessing, renderWithPlaceholders.
    rewrite Hnone. cbn [indexed List.length seq combine fold_left].
    pose proof (trim_nonempty Htrim) as Hne.
    destruct content as [|c s] eqn:E; [congruence|]. rewrite <- E in *.
    assert (Hlt : (0 <? List.length content) = true) by (rewrite E; reflexivity).
    rewrite Hlt. unfold render_text, slice_from. cbn [skipn app].
    rewrite Htrim. reflexivity.
Qed.

Lemma pipelines_agree_without_blocks_witness :
  hasComplexStructures (js "hello $x+y$ and $x$") = false
  /\ blockMatches (js "hello $x+y$ and $x$") = []
  /\ renderWithComplexProcessing (js "hello $x+y$ and $x$") true false
     = renderWithPlaceholders (js "hello $x+y$ and $x$") false.
Proof.
  apply pipelines_agree_without_blocks; vm_compute; reflexivity.
Defined.

(** ** Top-level environments *)

(** C7: [findTopLevelEnvs] returns no more spans than the text has begin tags,
    and the content of each span is the range of the text it names and is a
    complete environment: [\begin{X}], a body and [\end{X}] with the same
    name [X], which [isLatexEnvironment] accepts. *)
Theorem top_level_envs_complete :
  forall text : jsstring,
    List.length (findTopLevelEnvs text) <= count_begin text
    /\ Forall (fun e => complete_env text e
                        /\ isLatexEnvironment (env_content e) <> None)
              (findTopLevelEnvs text).
Proof.
  intros text. split.
  - unfold findTopLevelEnvs, count_begin. rewrite sort_by_length.
    pose proof (fold_tags_count text (scanTags text) ([], [])) as H.
    simpl in H. lia.
  - eapply Forall_impl; [|apply findTopLevelEnvs_complete].
    intros e He. split; [exact He|].
    destruct He as (_ & _ & _ & name & body & Hname & ->).
    apply valid_name_class in Hname as [Hne Hcl].
    pose proof (environment_matches body Hcl Hne) as Hm.
    unfold tag_text. rewrite <- !app_assoc. exact Hm.
Qed.

(** ** The spans of the scanner *)

(** C1, as the specification states it, fails: the filter drops a span that
    lies inside another one, but two spans that overlap in part both stay.
    Here the block math starts inside the chemical tag and ends after it. *)
Lemma overlapping_spans_counterexample :
  parseContent (js "<smiles>$$</smiles>$$")
  = [{| cm_start := 0; cm_end := 19; cm_content := js "<smiles>$$</smiles>";
        cm_type := smiles |};
     {| cm_start := 8; cm_end := 21; cm_content := js "$$</smiles>$$";
        cm_type := math |}]
  /\ exists a b, In a (parseContent (js "<smiles>$$</smiles>$$"))
                 /\ In b (parseContent (js "<smiles>$$</smiles>$$"))
                 /\ cm_start a < cm_start b /\ cm_start b < cm_end a.
Proof.
  split; [vm_compute; reflexivity|].
  exists {| cm_start := 0; cm_end := 19; cm_content := js "<smiles>$$</smiles>";
            cm_type := smiles |},
         {| cm_start := 8; cm_end := 21; cm_content := js "$$</smiles>$$";
            cm_type := math |}.
  split; [vm_compute; left; reflexivity|].
  split; [vm_compute; right; left; reflexivity|].
  cbn [cm_start cm_end]. lia.
Qed.

(** * Further properties of the code *)

(** ** Replacing where nothing matches *)

Lemma global_matches_none fl r text fuel i :
  exec_match fl r text i = None -> global_matches fl r text fuel i = [].
Proof. intros H. destruct fuel; simpl; [reflexivity|]. rewrite H. reflexivity. Qed.

Lemma replace_all_st_none (St : Type) fl r text (f : St -> rmatch -> St * jsstring) s :
  exec_match fl r text 0 = None -> replace_all_st fl r text f s = (s, text).
Proof.
  intros H. unfold replace_all_st. rewrite global_matches_none by exact H. reflexivity.
Qed.

Lemma replace_all_none fl r text f :
  exec_match fl r text 0 = None -> replace_all fl r text f = text.
Proof. intros H. unfold replace_all. rewrite replace_all_st_none by exact H. reflexivity. Qed.

Lemma test_false_exec fl r text : test fl r text = false -> exec_match fl r text 0 = None.
Proof. unfold test. destruct (exec_match fl r text 0); [discriminate|reflexivity]. Qed.

Lemma exec_match_none_iff fl r text :
  exec_match fl r text 0 = None
  <-> forall j y, j <= List.length text -> ~ Matches fl text r (j, []) y.
Proof.
  split.
  - intros H j y Hj HM.
    exact (exec_match_none H (Nat.le_0_l j) Hj HM).
  - intros H. destruct (exec_match fl r text 0) as [x|] eqn:E; [|reflexivity].
    apply exec_match_sound in E as (_ & H1 & H2 & HM).
    exfalso. eapply (H (index x)); [lia|exact HM].
Qed.

(** A pattern that is a plain string is found where the string occurs. *)
Lemma test_lit text l : test no_flags (lit_chars l) text = includes text l.
Proof.
  destruct (includes text l) eqn:E.
  - apply includes_occurs in E as (i & Hi & Ho).
    eapply test_true; [exact Hi|]. apply Matches_lit; [reflexivity|exact Ho].
  - destruct (test no_flags (lit_chars l) text) eqn:T; [|reflexivity].
    apply test_sound in T as (j & y & Hj & HM).
    apply Matches_lit_inv in HM; [|reflexivity]. destruct HM as [_ Ho].
    apply occurs_includes in Ho. simpl in Ho. congruence.
Qed.

Lemma existsb_map_ext (A B : Type) (f : B -> bool) (g : A -> B) (h : A -> bool) l :
  (forall x, f (g x) = h x) -> existsb f (List.map g l) = existsb h l.
Proof. intros E. induction l; simpl; [reflexivity|]. rewrite IHl, E. reflexivity. Qed.

Lemma validateLatexInput_includes input :
  validateLatexInput input
  = negb (existsb (fun command => includes input (js command)) dangerousLatexCommands).
Proof.
  unfold validateLatexInput, dangerousLatexPatterns. f_equal.
  apply existsb_map_ext. intros c. unfold lit. apply test_lit.
Qed.

(** A pattern that begins with a plain string matches only where the string
    occurs. *)
Lemma starts_with_lit fl text l rest j y :
  ignoreCase fl = false ->
  Matches fl text (Seq (lit_chars l) rest) (j, []) y -> includes text l = true.
Proof.
  intros Hc H. apply inv_seq in H as (z & H1 & _).
  apply Matches_lit_inv in H1; [|exact Hc]. destruct H1 as [_ Ho].
  eapply occurs_includes. exact Ho.
Qed.

Lemma erase_lit_absent fl text l rest :
  ignoreCase fl = false -> includes text l = false ->
  erase fl text (Seq (lit_chars l) rest) = text.
Proof.
  intros Hc Hi. unfold erase. apply replace_all_none.
  apply exec_match_none_iff. intros j y _ HM.
  apply starts_with_lit in HM; [congruence|exact Hc].
Qed.

Lemma sanitizeLatexContent_clean content :
  includes content (js "\input{") = false ->
  includes content (js "\include{") = false ->
  includes content (js "\write") = false ->
  includes content (js "\read") = false ->
  sanitizeLatexContent content = content.
Proof.
  intros H1 H2 H3 H4.
  unfold sanitizeLatexContent, sanitizeLatexPatterns. cbn [fold_left seqs]. unfold lit.
  rewrite (@erase_lit_absent no_flags _ _ _ eq_refl H1).
  rewrite (@erase_lit_absent no_flags _ _ _ eq_refl H2).
  rewrite (@erase_lit_absent no_flags _ _ _ eq_refl H3).
  apply (@erase_lit_absent no_flags _ _ _ eq_refl H4).
Qed.

Lemma validateLatexInput_command input command :
  validateLatexInput input = true -> In command dangerousLatexCommands ->
  includes input (js command) = false.
Proof.
  rewrite validateLatexInput_includes. intros H Hin.
  apply negb_true_iff in H.
  exact (existsb_false_In _ _ _ H Hin).
Qed.

(** ** Flags *)

Lemma Matches_dotAll fl1 fl2 text r st y :
  ignoreCase fl1 = ignoreCase fl2 -> multiline fl1 = multiline fl2 ->
  any_free r = true ->
  Matches fl1 text r st y -> Matches fl2 text r st y.
Proof.
  intros Hi Hm Hfree H.
  destruct fl1 as [i1 m1 d1], fl2 as [i2 m2 d2]. simpl in Hi, Hm. subst i2 m2.
  induction H; simpl in Hfree;
    try (apply andb_true_iff in Hfree as [Hf1 Hf2]);
    try discriminate.
  - constructor.
  - econstructor; eauto.
  - econstructor; eauto.
  - econstructor; eauto.
  - apply M_AltL; auto.
  - apply M_AltR; auto.
  - apply M_RepMax.
  - apply M_RepStop.
  - eapply M_RepIter; eauto.
  - apply M_Group; auto.
  - apply M_BackrefNone; auto.
  - apply M_Backref; auto.
  - apply M_Bol; auto.
  - apply M_Eol; auto.
Qed.

Lemma run_of_occurs text (p : char -> bool) i l :
  occurs text i l -> Forall (fun x => p x = true) l -> run text p i (List.length l).
Proof.
  intros Ho Hall j Hj.
  destruct (nth_error l j) as [x|] eqn:E.
  - exists x. split; [apply Ho; exact E|].
    rewrite Forall_forall in Hall. apply Hall. eapply nth_error_In. exact E.
  - apply nth_error_None in E. lia.
Qed.

(** ** Patterns with the flag [i] *)

Lemma to_upper_lower x : to_upper (to_lower x) = to_upper x.
Proof.
  unfold to_upper, to_lower, is_upper, is_lower.
  destruct ((65 <=? x)%N) eqn:E1; destruct ((x <=? 90)%N) eqn:E2; simpl;
    try reflexivity.
  apply N.leb_le in E1, E2.
  assert (H1 : (97 <=? x + 32)%N = true) by (apply N.leb_le; lia).
  assert (H2 : (x + 32 <=? 122)%N = true) by (apply N.leb_le; lia).
  assert (H3 : (97 <=? x)%N = false) by (apply N.leb_gt; lia).
  rewrite H1, H2, H3. simpl. lia.
Qed.

Lemma Matches_lit_any_case fl text :
  ignoreCase fl = true ->
  forall l u i c,
    List.map to_lower u = l -> occurs text i u ->
    Matches fl text (lit_chars l) (i, c) (i + List.length l, c).
Proof.
  intros Hi. induction l as [|x l IH]; intros u i c Hu Ho.
  - simpl. rewrite Nat.add_0_r. constructor.
  - destruct u as [|y u]; [discriminate|]. injection Hu as Hx Hl.
    apply occurs_cons in Ho as [Hy Ho].
    assert (Hone : Matches fl text (Char x) (i, c) (S i, c)).
    { apply (M_Char fl text x (i, c) (x := y)); [exact Hy|].
      unfold char_eq, canon. rewrite Hi, <- Hx, to_upper_lower. apply N.eqb_refl. }
    destruct l as [|z l].
    + simpl. replace (i + 1) with (S i) by lia. exact Hone.
    + change (lit_chars (x :: z :: l)) with (Seq (Char x) (lit_chars (z :: l))).
      eapply M_Seq; [exact Hone|].
      replace (i + List.length (x :: z :: l)) with (S i + List.length (z :: l))
        by (simpl; lia).
      apply (IH u); [exact Hl|exact Ho].
Qed.

Lemma validateMarkdownContent_pattern content pattern :
  validateMarkdownContent content = true -> In pattern dangerousMarkdownPatterns ->
  test flags_i pattern content = false.
Proof.
  unfold validateMarkdownContent. intros H Hin.
  destruct (negb (truthy content)); [discriminate|].
  destruct ((100000 <? N.of_nat (List.length content))%N); [discriminate|].
  apply negb_true_iff in H. exact (existsb_false_In _ _ _ H Hin).
Qed.

Lemma validateMarkdownContent_refuses content pattern :
  In pattern dangerousMarkdownPatterns -> test flags_i pattern content = true ->
  validateMarkdownContent content = false.
Proof.
  intros Hin Ht. destruct (validateMarkdownContent content) eqn:E; [|reflexivity].
  rewrite (validateMarkdownContent_pattern _ E Hin) in Ht. discriminate.
Qed.

Lemma erase_tag_absent content l close :
  test flags_i (seqs [lit_chars l; not_gt; chr ">"]) content = false ->
  erase flags_is content (seqs [lit_chars l; not_gt; chr ">"; star_lazy Any; close])
  = content.
Proof.
  intros Ht. unfold erase. apply replace_all_none.
  apply exec_match_none_iff. intros j y Hj HM.
  cbn [seqs] in HM, Ht.
  apply inv_seq in HM as (y1 & H1 & HM).
  apply inv_seq in HM as (y2 & H2 & HM).
  apply inv_seq in HM as (y3 & H3 & _).
  assert (HP : Matches flags_is content (Seq (lit_chars l) (Seq not_gt (chr ">")))
                       (j, []) y3).
  { eapply M_Seq; [exact H1|]. eapply M_Seq; [exact H2|exact H3]. }
  apply (@Matches_dotAll flags_is flags_i) in HP; try reflexivity.
  - rewrite (test_true Hj HP) in Ht. discriminate.
  - simpl. rewrite andb_true_r.
    clear. induction l as [|x [|z l] IH]; try reflexivity. 
    change (lit_chars (x :: z :: l)) with (Seq (Char x) (lit_chars (z :: l))).
    simpl any_free. exact IH.
Qed.

Lemma first_occurrence (c : char) l :
  In c l -> exists l1 l2, l = l1 ++ c :: l2 /\ Forall (fun x => x <> c) l1.
Proof.
  induction l as [|x l IH]; intros Hin; [destruct Hin|].
  destruct (N.eq_dec x c) as [->|Hne].
  - exists [], l. split; [reflexivity|constructor].
  - destruct Hin as [->|Hin]; [congruence|].
    destruct (IH Hin) as (l1 & l2 & -> & Hall).
    exists (x :: l1), l2. split; [reflexivity|]. constructor; assumption.
Qed.

Lemma not_gt_class x : x <> ch ">" -> class_mem flags_i true [cc ">"] x = true.
Proof.
  intros Hx. unfold class_mem, item_mem, cc, char_eq, canon. simpl.
  rewrite orb_false_r. apply negb_true_iff. apply N.eqb_neq.
  unfold to_upper. change (is_lower (ch ">")) with false. cbv iota.
  unfold is_lower. intros E.
  destruct ((97 <=? x)%N) eqn:E1; destruct ((x <=? 122)%N) eqn:E2; simpl in E;
    try (apply Hx; exact E).
  apply N.leb_le in E1. change (ch ">") with 62%N in E. lia.
Qed.

Lemma scheme_found (scheme a u b : jsstring) :
  List.map to_lower u = scheme ->
  test flags_i (lit_chars scheme) (a ++ u ++ b) = true.
Proof.
  intros Hu.
  apply (@test_true flags_i (a ++ u ++ b) _ (List.length a)
                    (List.length a + List.length scheme, [])).
  - rewrite length_app. lia.
  - apply (@Matches_lit_any_case flags_i _ eq_refl scheme u); [exact Hu|].
    rewrite <- (Nat.add_0_r (List.length a)). apply occurs_skip, occurs_prefix.
Qed.

Lemma tag_found (name a u rest : jsstring) :
  List.map to_lower u = name -> In (ch ">") rest ->
  test flags_i (seqs [lit_chars name; not_gt; chr ">"]) (a ++ u ++ rest) = true.
Proof.
  intros Hu Hin.
  destruct (first_occurrence _ _ Hin) as (attrs & b & -> & Hall).
  assert (Hlen : List.length u = List.length name)
    by (rewrite <- Hu; symmetry; apply length_map).
  set (text := a ++ u ++ attrs ++ ch ">" :: b).
  set (i := List.length a).
  assert (Ho : occurs text (i + List.length u) (attrs ++ ch ">" :: b)).
  { unfold text. rewrite app_assoc.
    replace (i + List.length u) with (List.length (a ++ u) + 0)
      by (rewrite length_app; unfold i; lia).
    apply occurs_skip. rewrite <- (app_nil_r (attrs ++ ch ">" :: b)) at 1.
    apply occurs_prefix. }
  apply occurs_app in Ho as [Ho1 Ho2].
  apply (@test_true flags_i text _ i
           (S (i + List.length name + List.length attrs), [])).
  - unfold text, i. rewrite !length_app. simpl. lia.
  - cbn [seqs]. eapply M_Seq; [|eapply M_Seq].
    + apply (@Matches_lit_any_case flags_i _ eq_refl name u); [exact Hu|].
      unfold text, i. rewrite <- (Nat.add_0_r (List.length a)).
      apply occurs_skip, occurs_prefix.
    + apply (@Matches_rep_run flags_i text (Class true [cc ">"]) _ true eq_refl
               (List.length attrs)); [lia|discriminate|].
      rewrite <- Hlen. apply run_of_occurs; [exact Ho1|].
      eapply Forall_impl; [|exact Hall]. intros x Hx. apply not_gt_class. exact Hx.
    + apply occurs_head in Ho2. rewrite Hlen in Ho2.
      apply (M_Char flags_i text (ch ">") (_, []) (x := ch ">")); [exact Ho2|].
      reflexivity.
Qed.

Lemma RichText_invalid content renderAsMarkdown inline :
  content <> [] -> validateMarkdownContent content = false ->
  RichText content renderAsMarkdown inline = Some invalidContent.
Proof.
  intros Hne Hv. unfold RichText. rewrite Hv.
  destruct content; [congruence|reflexivity].
Qed.

(** ** Validation and sanitizing of LaTeX *)

(** X1: [validateLatexInput] accepts an input exactly when none of the nine
    command strings occurs in it; the patterns hold no operator, so a test is
    a search for the string, at any place and inside longer words too. *)
Theorem validateLatexInput_exact :
  forall input : jsstring,
    validateLatexInput input
    = forallb (fun command => negb (includes input (js command)))
              dangerousLatexCommands.
Proof.
  intros input. rewrite validateLatexInput_includes.
  induction dangerousLatexCommands as [|c l IH]; [reflexivity|].
  simpl. rewrite negb_orb. f_equal. exact IH.
Qed.

(** X2: [sanitizeLatexContent] changes nothing in an input that
    [validateLatexInput] accepts.  The converse step fails: what the sanitizer
    returns need not pass the validation, since the text around a removed
    command can close up to a new one. *)
Theorem sanitizeLatexContent_keeps_valid :
  (forall content : jsstring,
      validateLatexInput content = true -> sanitizeLatexContent content = content)
  /\ sanitizeLatexContent (js "\in\input{}put{a}") = js "\input{a}"
  /\ validateLatexInput (sanitizeLatexContent (js "\in\input{}put{a}")) = false.
Proof.
  split; [|split; vm_compute; reflexivity].
  intros content H.
  apply sanitizeLatexContent_clean;
    apply (validateLatexInput_command _ H); vm_compute; tauto.
Qed.

Lemma sanitizeLatexContent_keeps_valid_witness :
  sanitizeLatexContent (js "\frac{a}{b} + \sqrt{2}") = js "\frac{a}{b} + \sqrt{2}".
Proof.
  apply (proj1 sanitizeLatexContent_keeps_valid). vm_compute. reflexivity.
Defined.

(** ** Validation and sanitizing of Markdown *)

(** X3: [sanitizeMarkdownContent] changes nothing in a content that
    [validateMarkdownContent] accepts. *)
Theorem sanitizeMarkdownContent_keeps_valid :
  forall content : jsstring,
    validateMarkdownContent content = true ->
    sanitizeMarkdownContent content = content.
Proof.
  intros content H. unfold sanitizeMarkdownContent. unfold lit at 1 3.
  rewrite (@erase_tag_absent content (js "<script"))
    by (apply (validateMarkdownContent_pattern _ H); vm_compute; tauto).
  rewrite (@erase_tag_absent content (js "<iframe"))
    by (apply (validateMarkdownContent_pattern _ H); vm_compute; tauto).
  unfold erase.
  rewrite (@replace_all_none flags_i (lit "javascript:") content)
    by (apply test_false_exec, (validateMarkdownContent_pattern _ H); vm_compute; tauto).
  rewrite (@replace_all_none flags_i (lit "data:text/html") content)
    by (apply test_false_exec, (validateMarkdownContent_pattern _ H); vm_compute; tauto).
  apply replace_all_none.
  apply test_false_exec, (validateMarkdownContent_pattern _ H); vm_compute; tauto.
Qed.

Lemma sanitizeMarkdownContent_keeps_valid_witness :
  sanitizeMarkdownContent (js "A *script* in Java, see <b>data</b>")
  = js "A *script* in Java, see <b>data</b>".
Proof.
  apply sanitizeMarkdownContent_keeps_valid. vm_compute. reflexivity.
Defined.

(** X4: a content that holds one of the URL schemes [javascript:],
    [data:text/html] or [vbscript:], in any mix of upper and lower case and
    at any place, is refused by [validateMarkdownContent], and [RichText]
    shows the alert in its place. *)
Theorem script_schemes_refused :
  forall (scheme : String.string) (a u b : jsstring) (renderAsMarkdown inline : bool),
    In scheme ["javascript:"; "data:text/html"; "vbscript:"]%string ->
    List.map to_lower u = js scheme ->
    validateMarkdownContent (a ++ u ++ b) = false
    /\ RichText (a ++ u ++ b) renderAsMarkdown inline = Some invalidContent.
Proof.
  intros scheme a u b md inline Hin Hu.
  assert (Hv : validateMarkdownContent (a ++ u ++ b) = false).
  { apply (@validateMarkdownContent_refuses _ (lit scheme)).
    - simpl in Hin. unfold dangerousMarkdownPatterns.
      destruct Hin as [<-|[<-|[<-|[]]]]; simpl; tauto.
    - apply scheme_found. exact Hu. }
  split; [exact Hv|]. apply RichText_invalid; [|exact Hv].
  destruct u; [|destruct a; discriminate].
  simpl in Hin. destruct Hin as [<-|[<-|[<-|[]]]]; discriminate.
Qed.

Lemma script_schemes_refused_witness :
  validateMarkdownContent (js "[x](JavaScript:alert(1))") = false
  /\ RichText (js "[x](JavaScript:alert(1))") true false = Some invalidContent.
Proof.
  apply (@script_schemes_refused "javascript:" (js "[x](") (js "JavaScript:")
           (js "alert(1))") true false).
  - simpl. left. reflexivity.
  - vm_compute. reflexivity.
Defined.

(** X5: a content in which one of the tag openings [<script], [<iframe],
    [<object], [<embed], [<link] or [<meta] (in any mix of upper and lower
    case) is followed anywhere later by [>] is refused by
    [validateMarkdownContent], and [RichText] shows the alert in its place. *)
Theorem active_tags_refused :
  forall (name : String.string) (a u rest : jsstring) (renderAsMarkdown inline : bool),
    In name ["<script"; "<iframe"; "<object"; "<embed"; "<link"; "<meta"]%string ->
    List.map to_lower u = js name ->
    In (ch ">") rest ->
    validateMarkdownContent (a ++ u ++ rest) = false
    /\ RichText (a ++ u ++ rest) renderAsMarkdown inline = Some invalidContent.
Proof.
  intros name a u rest md inline Hin Hu Hgt.
  assert (Hv : validateMarkdownContent (a ++ u ++ rest) = false).
  { apply (@validateMarkdownContent_refuses _ (seqs [lit name; not_gt; chr ">"])).
    - simpl in Hin. unfold dangerousMarkdownPatterns.
      destruct Hin as [<-|[<-|[<-|[<-|[<-|[<-|[]]]]]]]; simpl; tauto.
    - apply tag_found; assumption. }
  split; [exact Hv|]. apply RichText_invalid; [|exact Hv].
  destruct rest; [destruct Hgt|]. destruct a, u; discriminate.
Qed.

Lemma active_tags_refused_witness :
  validateMarkdownContent (js "see <SCRIPT src=x>alert(1)") = false
  /\ RichText (js "see <SCRIPT src=x>alert(1)") true false = Some invalidContent.
Proof.
  apply (@active_tags_refused "<script" (js "see ") (js "<SCRIPT")
           (js " src=x>alert(1)") true false).
  - simpl. left. reflexivity.
  - vm_compute. reflexivity.
  - vm_compute. do 6 right. left. reflexivity.
Defined.

(** ** Fragments between delimiters *)

Lemma any_mem_s x : any_mem flags_s x = true.
Proof. reflexivity. Qed.

Lemma slice_three s i j :
  i <= j -> j <= List.length s ->
  s = slice s 0 i ++ slice s i j ++ slice s j (List.length s).
Proof.
  intros Hij Hj. rewrite (slice_app s) by lia. rewrite (slice_app s) by lia.
  symmetry. apply slice_all.
Qed.

Lemma delimited_sound open close lo fragment x :
  match_ flags_s (delimited open close lo) fragment = Some x ->
  exists body,
    fragment = open ++ body ++ close /\ lo <= List.length body
    /\ group_or_empty fragment x 1 = body
    /\ index x = 0 /\ m_end x = List.length fragment.
Proof.
  unfold match_. intros E.
  apply exec_match_sound in E as (_ & _ & Hlen & HM).
  unfold delimited in HM. cbn [seqs] in HM.
  apply inv_seq in HM as (y0 & Hb & HM).
  apply inv_bol in Hb as [-> Hz]; [|reflexivity]. cbn [pos fst] in Hz.
  apply inv_seq in HM as (y1 & H1 & HM).
  apply Matches_lit_inv in H1 as [-> Hopen]; [|reflexivity].
  cbn [pos caps fst snd] in *. rewrite Hz in *.
  apply inv_seq in HM as (y2 & H2 & HM).
  apply inv_group in H2 as (y2' & H2 & ->).
  assert (Hr := Matches_rep_run_inv (a := Any) (g := false) eq_refl H2 eq_refl).
  destruct Hr as (n & -> & Hlo & _ & _); [discriminate|].
  cbn [pos caps fst snd] in *.
  apply inv_seq in HM as (y3 & H3 & HM).
  apply Matches_lit_inv in H3 as [-> Hclose]; [|reflexivity].
  cbn [pos caps fst snd] in *.
  apply inv_eol in HM as [Hy He]; [|reflexivity].
  cbn [pos fst] in He. inversion Hy as [[Hend Hcaps]]. clear Hy.
  simpl in Hopen, Hclose, He, Hend.
  exists (slice fragment (List.length open) (List.length open + n)).
  assert (Ho := occurs_slice Hopen). assert (Hc := occurs_slice Hclose).
  simpl in Ho. rewrite He in Hc.
  split; [|split; [|split; [|split]]].
  - rewrite (slice_three fragment (i := List.length open) (j := List.length open + n))
      at 1 by lia.
    rewrite Ho, Hc. reflexivity.
  - rewrite slice_length by lia. lia.
  - unfold group_or_empty, rm_group, group_text. rewrite Hcaps.
    cbn [get_cap set_cap Nat.eqb]. reflexivity.
  - reflexivity.
  - lia.
Qed.

Lemma delimited_complete open close lo body :
  lo <= List.length body ->
  exists x, match_ flags_s (delimited open close lo) (open ++ body ++ close) = Some x
            /\ group_or_empty (open ++ body ++ close) x 1 = body.
Proof.
  intros Hlo. set (text := open ++ body ++ close).
  destruct (match_ flags_s (delimited open close lo) text) as [x|] eqn:E.
  - exists x. split; [reflexivity|].
    apply delimited_sound in E as (body' & Ht & _ & Hg & _).
    rewrite Hg. unfold text in Ht.
    apply app_inv_head in Ht. apply app_inv_tail in Ht. congruence.
  - exfalso. revert E. unfold match_.
    set (a := List.length open). set (n := List.length body).
    apply exec_match_complete
      with (j := 0) (y := (a + n + List.length close, set_cap 1 (a, a + n) []));
      [lia|lia|].
    unfold delimited. cbn [seqs].
    apply build_seq with (j := 0) (c' := []); [apply build_bol|].
    apply build_seq with (j := a) (c' := []).
    { apply build_lit; [reflexivity| |reflexivity]. apply occurs_prefix. }
    apply build_seq with (j := a + n) (c' := set_cap 1 (a, a + n) []).
    { eapply build_group; [|reflexivity].
      apply build_run with (p := any_mem flags_s) (n := n);
        [reflexivity| |exact Hlo|discriminate|reflexivity].
      intros j Hj. unfold text.
      destruct (nth_error body j) as [c|] eqn:Ec;
        [|apply nth_error_None in Ec; unfold n in Hj; lia].
      exists c. split; [|reflexivity].
      assert (Ho : occurs (open ++ body ++ close) (List.length open + 0) body)
        by (apply occurs_skip, occurs_prefix).
      rewrite Nat.add_0_r in Ho. apply Ho. exact Ec. }
    apply build_seq with (j := a + n + List.length close)
                         (c' := set_cap 1 (a, a + n) []).
    { apply build_lit; [reflexivity| |reflexivity].
      unfold text. rewrite app_assoc.
      replace (a + n) with (List.length (open ++ body) + 0)
        by (rewrite length_app; unfold a, n; lia).
      apply occurs_skip. rewrite <- (app_nil_r close) at 1. apply occurs_prefix. }
    apply build_eol. unfold text, a, n. rewrite !length_app. lia.
Qed.

Lemma isInlineLatexFragment_sound fragment x :
  isInlineLatexFragment fragment = Some x ->
  exists body, body <> [] /\ fragment = js "\(" ++ body ++ js "\)"
               /\ group_or_empty fragment x 1 = body.
Proof.
  unfold isInlineLatexFragment.
  change inlineFragmentPattern with (delimited (js "\(") (js "\)") 1).
  intros E. apply delimited_sound in E as (body & Hf & Hlo & Hg & _).
  exists body. split; [|split; assumption].
  intros ->. simpl in Hlo. lia.
Qed.

Lemma isInlineLatexFragment_complete body :
  body <> [] ->
  exists x, isInlineLatexFragment (js "\(" ++ body ++ js "\)") = Some x
            /\ group_or_empty (js "\(" ++ body ++ js "\)") x 1 = body.
Proof.
  intros Hne. unfold isInlineLatexFragment.
  change inlineFragmentPattern with (delimited (js "\(") (js "\)") 1).
  apply delimited_complete. destruct body; [congruence|simpl; lia].
Qed.

Lemma bracket_block_sound fragment x :
  match_ flags_s bracketBlockPattern fragment = Some x ->
  exists body, body <> [] /\ fragment = js "\[" ++ body ++ js "\]"
               /\ group_or_empty fragment x 1 = body.
Proof.
  change bracketBlockPattern with (delimited (js "\[") (js "\]") 1).
  intros E. apply delimited_sound in E as (body & Hf & Hlo & Hg & _).
  exists body. split; [|split; assumption].
  intros ->. simpl in Hlo. lia.
Qed.

Lemma dollar_block_sound fragment x :
  match_ flags_s dollarBlockPattern fragment = Some x ->
  exists body, fragment = js "$$" ++ body ++ js "$$"
               /\ group_or_empty fragment x 1 = body.
Proof.
  change dollarBlockPattern with (delimited (js "$$") (js "$$") 0).
  intros E. apply delimited_sound in E as (body & Hf & Hlo & Hg & _).
  exists body. split; assumption.
Qed.

Lemma isBlockLatexFragment_sound fragment x :
  isBlockLatexFragment fragment = Some x ->
  (exists body, body <> [] /\ fragment = js "\[" ++ body ++ js "\]"
                /\ group_or_empty fragment x 1 = body)
  \/ (exists body, fragment = js "$$" ++ body ++ js "$$"
                   /\ group_or_empty fragment x 1 = body).
Proof.
  unfold isBlockLatexFragment.
  destruct (match_ flags_s bracketBlockPattern fragment) as [b|] eqn:E.
  - intros [= ->]. left. apply bracket_block_sound. exact E.
  - intros E2. right. apply dollar_block_sound. exact E2.
Qed.

Lemma isBlockLatexFragment_bracket body :
  body <> [] ->
  exists x, isBlockLatexFragment (js "\[" ++ body ++ js "\]") = Some x
            /\ group_or_empty (js "\[" ++ body ++ js "\]") x 1 = body.
Proof.
  intros Hne. unfold isBlockLatexFragment.
  change bracketBlockPattern with (delimited (js "\[") (js "\]") 1).
  destruct (@delimited_complete (js "\[") (js "\]") 1 body) as (x & E & Hg).
  { destruct body; [congruence|simpl; lia]. }
  rewrite E. exists x. split; [reflexivity|exact Hg].
Qed.

Lemma isBlockLatexFragment_dollars body :
  exists x, isBlockLatexFragment (js "$$" ++ body ++ js "$$") = Some x
            /\ group_or_empty (js "$$" ++ body ++ js "$$") x 1 = body.
Proof.
  unfold isBlockLatexFragment.
  destruct (match_ flags_s bracketBlockPattern (js "$$" ++ body ++ js "$$"))
    as [b|] eqn:E.
  - apply bracket_block_sound in E as (body' & _ & Hf & _). discriminate.
  - change dollarBlockPattern with (delimited (js "$$") (js "$$") 0).
    apply delimited_complete. lia.
Qed.

Lemma isSelectiveInlineLatex_sound fragment x :
  isSelectiveInlineLatex fragment = Some x ->
  exists body, body <> [] /\ fragment = js "$" ++ body ++ js "$"
               /\ group_or_empty fragment x 1 = body
               /\ existsb (fun pattern => test no_flags pattern body) mathPatterns = true.
Proof.
  unfold isSelectiveInlineLatex.
  change (seqs [Bol; chr "$"; Group 1 (plus_lazy Any); chr "$"; Eol])
    with (delimited (js "$") (js "$") 1).
  destruct (match_ flags_s (delimited (js "$") (js "$") 1) fragment) as [z|] eqn:E;
    [|discriminate].
  apply delimited_sound in E as (body & Hf & Hlo & Hg & _).
  rewrite Hg.
  destruct (existsb _ mathPatterns) eqn:Ep; [|discriminate].
  intros [= ->]. exists body. repeat split; try assumption.
  intros ->. simpl in Hlo. lia.
Qed.

Lemma isSelectiveInlineLatex_complete body :
  body <> [] ->
  existsb (fun pattern => test no_flags pattern body) mathPatterns = true ->
  exists x, isSelectiveInlineLatex (js "$" ++ body ++ js "$") = Some x
            /\ group_or_empty (js "$" ++ body ++ js "$") x 1 = body.
Proof.
  intros Hne Hp. unfold isSelectiveInlineLatex.
  change (seqs [Bol; chr "$"; Group 1 (plus_lazy Any); chr "$"; Eol])
    with (delimited (js "$") (js "$") 1).
  destruct (@delimited_complete (js "$") (js "$") 1 body) as (x & E & Hg).
  { destruct body; [congruence|simpl; lia]. }
  rewrite E, Hg, Hp. exists x. split; [reflexivity|exact Hg].
Qed.

Lemma isLatexEnvironment_starts fragment x :
  isLatexEnvironment fragment = Some x -> startsWith fragment (js "\begin{") = true.
Proof.
  unfold isLatexEnvironment, match_. intros E.
  apply exec_match_sound in E as (_ & _ & _ & HM).
  unfold environmentPattern in HM. cbn [seqs] in HM.
  apply inv_seq in HM as (y0 & Hb & HM).
  apply inv_bol in Hb as [-> Hz]; [|reflexivity]. cbn [pos fst] in Hz.
  apply inv_seq in HM as (y1 & H1 & HM).
  apply Matches_lit_inv in H1 as [_ Hopen]; [|reflexivity].
  cbn [pos fst] in Hopen. rewrite Hz in Hopen.
  apply (occurs_startsWith (i := 0)) in Hopen. exact Hopen.
Qed.

Lemma not_environment_start fragment :
  startsWith fragment (js "\begin{") = false -> isLatexEnvironment fragment = None.
Proof.
  intros H. destruct (isLatexEnvironment fragment) eqn:E; [|reflexivity].
  apply isLatexEnvironment_starts in E. congruence.
Qed.

(** ** Variables *)

Lemma alnum_ranges x :
  is_alnum x = true <->
  ((48 <= x <= 57) \/ (65 <= x <= 90) \/ (97 <= x <= 122))%N.
Proof.
  unfold is_alnum, class_mem, item_mem, cr, in_range, ch. simpl.
  rewrite !orb_false_r, !orb_true_iff, !andb_true_iff, !N.leb_le. tauto.
Qed.

Lemma letter_ranges x :
  is_letter x = true <-> ((65 <= x <= 90) \/ (97 <= x <= 122))%N.
Proof.
  unfold is_letter, letter, class_mem, item_mem, cr, in_range, ch. simpl.
  rewrite !orb_false_r, !orb_true_iff, !andb_true_iff, !N.leb_le. tauto.
Qed.

Lemma word_ranges x :
  is_word x = true <->
  ((48 <= x <= 57) \/ (65 <= x <= 90) \/ (97 <= x <= 122) \/ x = 95)%N.
Proof.
  unfold is_word, word_class, class_mem, item_mem, cr, cc, in_range, char_eq, canon, ch.
  simpl.
  rewrite !orb_false_r, !orb_true_iff, !andb_true_iff, !N.leb_le, N.eqb_eq. tauto.
Qed.

Lemma letter_alnum x : is_letter x = true -> is_alnum x = true.
Proof. rewrite letter_ranges, alnum_ranges. tauto. Qed.

Lemma includes_char s c :
  includes s [c] = false <-> Forall (fun x => x <> c) s.
Proof.
  induction s as [|x s IH].
  - simpl. split; [constructor|reflexivity].
  - rewrite includes_eq. cbn [startsWith].
    replace (startsWith s []) with true by (destruct s; reflexivity).
    rewrite andb_true_r.
    rewrite orb_false_iff, IH, N.eqb_neq. split.
    + intros [H1 H2]. constructor; assumption.
    + intros H. inversion H; subst. split; assumption.
Qed.

Lemma includes_longer s p :
  List.length s < List.length p -> includes s p = false.
Proof.
  intros Hlen. destruct (includes s p) eqn:E; [|reflexivity].
  apply includes_occurs in E as (i & Hi & Ho).
  apply occurs_bound in Ho; [lia|]. intros ->. simpl in Hlen. lia.
Qed.

Lemma alnum_not c s :
  Forall (fun x => is_alnum x = true) s -> is_alnum c = false -> includes s [c] = false.
Proof.
  intros Hall Hc. apply includes_char.
  eapply Forall_impl; [|exact Hall]. intros x Hx ->. congruence.
Qed.

Lemma occurs_one text i x : nth_error text i = Some x -> occurs text i [x].
Proof. intros H. apply occurs_cons. split; [exact H|apply occurs_nil]. Qed.

Lemma slice_one text i x : nth_error text i = Some x -> slice text i (S i) = [x].
Proof.
  intros H. apply occurs_one in H. apply occurs_slice in H. simpl in H.
  rewrite Nat.add_1_r in H. exact H.
Qed.

Lemma simple_class_ranges x :
  class_mem flags_s false [cr "a" "z"; cr "A" "Z"; cr "0" "9"; cc "_"] x = true <->
  is_alnum x = true \/ x = ch "_".
Proof.
  rewrite alnum_ranges.
  unfold class_mem, item_mem, cr, cc, in_range, char_eq, canon, ch. simpl.
  rewrite !orb_false_r, !orb_true_iff, !andb_true_iff, !N.leb_le, N.eqb_eq. tauto.
Qed.

Lemma simple_variable_sound fragment x :
  match_ flags_s simpleVariablePattern fragment = Some x ->
  exists c rest,
    fragment = js "$" ++ (c :: rest) ++ js "$"
    /\ group_or_empty fragment x 1 = c :: rest
    /\ is_letter c = true /\ List.length rest <= 2
    /\ Forall (fun x => is_alnum x = true \/ x = ch "_") rest.
Proof.
  unfold match_. intros E.
  apply exec_match_sound in E as (_ & _ & Hlen & HM).
  unfold simpleVariablePattern in HM. cbn [seqs] in HM.
  apply inv_seq in HM as (y0 & Hb & HM).
  apply inv_bol in Hb as [-> Hz]; [|reflexivity]. cbn [pos fst] in Hz.
  apply inv_seq in HM as (y1 & H1 & HM).
  apply inv_char in H1 as [Hd1 ->]; [|reflexivity].
  cbn [pos caps fst snd] in *. rewrite Hz in *.
  apply inv_seq in HM as (y2 & H2 & HM).
  apply inv_group in H2 as (y2' & H2 & ->).
  apply inv_seq in H2 as (y3 & H3 & H2).
  apply (Matches_single flags_s fragment (Class false [cr "a" "z"; cr "A" "Z"]) (1, [])
                        y3 eq_refl) in H3.
  destruct H3 as (c & Hc & Hletter & ->). cbn [pos caps fst snd] in *.
  assert (Hr := Matches_rep_run_inv
                  (a := Class false [cr "a" "z"; cr "A" "Z"; cr "0" "9"; cc "_"])
                  (g := true) eq_refl H2 eq_refl).
  destruct Hr as (n & -> & _ & Hn & Hrun); [intros h Hh; inversion Hh; lia|].
  specialize (Hn 2 eq_refl).
  cbn [pos caps fst snd] in *.
  apply inv_seq in HM as (y4 & H4 & HM).
  apply inv_char in H4 as [Hd2 ->]; [|reflexivity].
  cbn [pos caps fst snd] in *.
  apply inv_eol in HM as [Hy He]; [|reflexivity].
  cbn [pos fst] in He. inversion Hy as [[Hend Hcaps]]. clear Hy.
  exists c, (slice fragment 2 (2 + n)).
  assert (Hg : slice fragment 1 (2 + n) = c :: slice fragment 2 (2 + n)).
  { rewrite <- (slice_app fragment (i := 1) (j := 2) (k := 2 + n)) by lia.
    rewrite (@slice_one _ _ _ Hc). reflexivity. }
  split; [|split; [|split; [|split]]].
  - rewrite (slice_three fragment (i := 1) (j := 2 + n)) at 1 by lia.
    rewrite (@slice_one _ _ _ Hd1), Hg. rewrite <- He.
    rewrite (@slice_one _ _ _ Hd2). reflexivity.
  - unfold group_or_empty, rm_group, group_text. rewrite Hcaps.
    cbn [get_cap set_cap Nat.eqb]. exact Hg.
  - exact Hletter.
  - rewrite slice_length by lia. lia.
  - apply run_Forall in Hrun; [|lia].
    eapply Forall_impl; [|exact Hrun]. intros z Hz'. apply simple_class_ranges. exact Hz'.
Qed.

Lemma simple_variable_complete c rest :
  is_letter c = true -> List.length rest <= 2 ->
  Forall (fun x => is_alnum x = true \/ x = ch "_") rest ->
  exists x, match_ flags_s simpleVariablePattern (js "$" ++ (c :: rest) ++ js "$") = Some x
            /\ group_or_empty (js "$" ++ (c :: rest) ++ js "$") x 1 = c :: rest.
Proof.
  intros Hc Hlen Hrest. set (text := js "$" ++ (c :: rest) ++ js "$").
  destruct (match_ flags_s simpleVariablePattern text) as [x|] eqn:E.
  - exists x. split; [reflexivity|].
    apply simple_variable_sound in E as (c' & rest' & Ht & Hg & _).
    rewrite Hg. unfold text in Ht. simpl in Ht.
    injection Ht as Hcc Hr. apply app_inv_tail in Hr. congruence.
  - exfalso. revert E. unfold match_.
    set (n := List.length rest).
    assert (Hrest' : occurs text 2 rest).
    { unfold text. change (js "$" ++ (c :: rest) ++ js "$")
        with ([ch "$"; c] ++ rest ++ js "$").
      change 2 with (List.length [ch "$"; c] + 0).
      apply occurs_skip, occurs_prefix. }
    assert (Hd2 : nth_error text (2 + n) = Some (ch "$")).
    { unfold text. change (js "$" ++ (c :: rest) ++ js "$")
        with (([ch "$"; c] ++ rest) ++ js "$").
      rewrite nth_error_app2 by (rewrite length_app; simpl; unfold n; lia).
      rewrite length_app. simpl.
      replace (n - List.length rest) with 0 by (unfold n; lia).
      reflexivity. }
    apply exec_match_complete
      with (j := 0) (y := (3 + n, set_cap 1 (1, 2 + n) [])); [lia|lia|].
    unfold simpleVariablePattern. cbn [seqs].
    apply build_seq with (j := 0) (c' := []); [apply build_bol|].
    apply build_seq with (j := 1) (c' := []).
    { apply build_char; reflexivity. }
    apply build_seq with (j := 2 + n) (c' := set_cap 1 (1, 2 + n) []).
    { eapply build_group; [|reflexivity].
      apply build_seq with (j := 2) (c' := []).
      - apply (M_Class flags_s text false [cr "a" "z"; cr "A" "Z"] (1, []) (x := c));
          [reflexivity|exact Hc].
      - apply build_run
          with (p := class_mem flags_s false [cr "a" "z"; cr "A" "Z"; cr "0" "9"; cc "_"])
               (n := n);
          [reflexivity| |lia|intros h Hh; inversion Hh; unfold n; lia|reflexivity].
        apply run_of_occurs; [exact Hrest'|].
        eapply Forall_impl; [|exact Hrest]. intros z Hz'.
        apply simple_class_ranges. exact Hz'. }
    apply build_seq with (j := 3 + n) (c' := set_cap 1 (1, 2 + n) []).
    { apply build_char; [reflexivity|exact Hd2|reflexivity]. }
    apply build_eol. unfold text, n. simpl. rewrite length_app. simpl. lia.
Qed.

Lemma isSimpleVariable_sound fragment v :
  isSimpleVariable fragment = Some v ->
  exists c rest,
    vm_content v = c :: rest /\ fragment = js "$" ++ (c :: rest) ++ js "$"
    /\ is_letter c = true /\ List.length rest <= 2
    /\ Forall (fun x => is_alnum x = true) rest.
Proof.
  unfold isSimpleVariable. fold simpleVariablePattern.
  destruct (match_ flags_s simpleVariablePattern fragment) as [x|] eqn:E; [|discriminate].
  apply simple_variable_sound in E as (c & rest & Hf & Hg & Hc & Hlen & Hrest).
  rewrite Hg.
  destruct (includes (c :: rest) (js "_")) eqn:Hu.
  { rewrite !orb_true_r. cbn [orb]. discriminate. }
  match goal with |- (if ?b then _ else _) = _ -> _ => destruct b; [discriminate|] end.
  intros [= <-]. exists c, rest. cbn [vm_content].
  split; [reflexivity|]. split; [exact Hf|]. split; [exact Hc|]. split; [exact Hlen|].
  apply (includes_char (c :: rest) (ch "_")) in Hu. inversion Hu; subst.
  rewrite Forall_forall in *. intros z Hz.
  destruct (Hrest z Hz) as [Ha|Hb]; [exact Ha|].
  exfalso. match goal with H : forall x, In x rest -> x <> _ |- _ => exact (H z Hz Hb) end.
Qed.

Ltac absent_char Hall s :=
  replace (includes _ (js s)) with false
    by (symmetry; apply (alnum_not _ Hall); reflexivity).

Lemma isSimpleVariable_complete c rest :
  is_letter c = true -> List.length rest <= 2 ->
  Forall (fun x => is_alnum x = true) rest ->
  exists x, isSimpleVariable (js "$" ++ (c :: rest) ++ js "$")
            = Some {| vm_match := x; vm_content := c :: rest |}.
Proof.
  intros Hc Hlen Hrest.
  destruct (@simple_variable_complete c rest Hc Hlen) as (x & E & Hg).
  { eapply Forall_impl; [|exact Hrest]. intros z Hz. left. exact Hz. }
  exists x. unfold isSimpleVariable. fold simpleVariablePattern. rewrite E, Hg.
  assert (Hall : Forall (fun x => is_alnum x = true) (c :: rest))
    by (constructor; [apply letter_alnum; exact Hc|exact Hrest]).
  absent_char Hall "\"%string. absent_char Hall "{"%string.
  absent_char Hall "}"%string. absent_char Hall "^"%string.
  absent_char Hall "_"%string. absent_char Hall "+"%string.
  absent_char Hall "-"%string. absent_char Hall "*"%string.
  absent_char Hall "/"%string. absent_char Hall "="%string.
  absent_char Hall "("%string. absent_char Hall ")"%string.
  rewrite (@includes_longer (c :: rest) (js "frac")) by (simpl; lia).
  replace (3 <? List.length (c :: rest)) with false
    by (symmetry; apply Nat.ltb_ge; simpl; lia).
  reflexivity.
Qed.

Lemma small_variable_sound fragment x :
  match_ flags_s smallVariablePattern fragment = Some x ->
  exists ws1 g ws2,
    fragment = js "\(" ++ ws1 ++ g ++ ws2 ++ js "\)"
    /\ group_or_empty fragment x 1 = g
    /\ Forall (fun c => is_blank c = true) ws1
    /\ Forall (fun c => is_blank c = true) ws2
    /\ Forall (fun c => is_word c = true) g
    /\ 1 <= List.length g /\ List.length g <= 3.
Proof.
  unfold match_. intros E.
  apply exec_match_sound in E as (_ & _ & Hlen & HM).
  unfold smallVariablePattern in HM. cbn [seqs] in HM.
  apply inv_seq in HM as (y0 & Hb & HM).
  apply inv_bol in Hb as [-> Hz]; [|reflexivity]. cbn [pos fst] in Hz.
  apply inv_seq in HM as (y1 & H1 & HM).
  apply Matches_lit_inv in H1 as [-> Hopen]; [|reflexivity].
  cbn [pos caps fst snd] in *. rewrite Hz in *.
  apply inv_seq in HM as (y2 & H2 & HM).
  assert (Hr2 := Matches_rep_run_inv (a := Class false [CSpace]) (g := true)
                                     eq_refl H2 eq_refl).
  destruct Hr2 as (a & -> & _ & _ & Hrun1); [discriminate|].
  cbn [pos caps fst snd] in *.
  apply inv_seq in HM as (y3 & H3 & HM).
  apply inv_group in H3 as (y3' & H3 & ->).
  assert (Hr3 := Matches_rep_run_inv (a := Class false word_class) (g := true)
                                     eq_refl H3 eq_refl).
  destruct Hr3 as (n & -> & Hn1 & Hn3 & Hrun2); [intros h Hh; inversion Hh; lia|].
  specialize (Hn3 3 eq_refl).
  cbn [pos caps fst snd] in *.
  apply inv_seq in HM as (y4 & H4 & HM).
  assert (Hr4 := Matches_rep_run_inv (a := Class false [CSpace]) (g := true)
                                     eq_refl H4 eq_refl).
  destruct Hr4 as (c & -> & _ & _ & Hrun3); [discriminate|].
  cbn [pos caps fst snd] in *.
  apply inv_seq in HM as (y5 & H5 & HM).
  apply Matches_lit_inv in H5 as [-> Hclose]; [|reflexivity].
  cbn [pos caps fst snd] in *.
  apply inv_eol in HM as [Hy He]; [|reflexivity].
  cbn [pos fst] in He.
  inversion Hy as [[Hend Hcaps]]. clear Hy.
  change (0 + List.length (js "\(")) with 2 in *.
  change (List.length (js "\)")) with 2 in *.
  exists (slice fragment 2 (2 + a)), (slice fragment (2 + a) (2 + a + n)),
         (slice fragment (2 + a + n) (2 + a + n + c)).
  split; [|split; [|split; [|split; [|split; [|split]]]]].
  - apply occurs_slice in Hopen, Hclose.
    change (0 + List.length (js "\(")) with 2 in Hopen.
    change (List.length (js "\)")) with 2 in Hclose.
    replace (2 + a + n + c + 2) with (List.length fragment) in Hclose by lia.
    rewrite slice_to_end in Hclose.
    rewrite <- Hclose, <- Hopen.
    rewrite !slice_skipn by lia. reflexivity.
  - unfold group_or_empty, rm_group, group_text. rewrite Hcaps.
    cbn [get_cap set_cap Nat.eqb]. reflexivity.
  - apply run_Forall in Hrun1; [exact Hrun1|lia].
  - apply run_Forall in Hrun3; [exact Hrun3|lia].
  - apply run_Forall in Hrun2; [exact Hrun2|lia].
  - rewrite slice_length by lia. lia.
  - rewrite slice_length by lia. lia.
Qed.

Lemma Forall_blank_space l :
  Forall (fun c => is_blank c = true) l <-> Forall (fun c => is_space c = true) l.
Proof.
  split; intros H; (eapply Forall_impl; [|exact H]); intros z Hz; cbv beta in *;
    [rewrite <- is_blank_space|rewrite is_blank_space]; exact Hz.
Qed.

Lemma isSmallVariableLatex_sound fragment v :
  isSmallVariableLatex fragment = Some v ->
  exists ws1 ws2,
    fragment = js "\(" ++ ws1 ++ vm_content v ++ ws2 ++ js "\)"
    /\ Forall (fun c => is_space c = true) ws1
    /\ Forall (fun c => is_space c = true) ws2
    /\ Forall (fun c => is_alnum c = true) (vm_content v)
    /\ 1 <= List.length (vm_content v) /\ List.length (vm_content v) <= 3.
Proof.
  unfold isSmallVariableLatex.
  destruct (match_ flags_s smallVariablePattern fragment) as [x|] eqn:E; [|discriminate].
  apply small_variable_sound in E as (ws1 & g & ws2 & Hf & Hg & H1 & H2 & Hw & Hlo & Hhi).
  rewrite Hg.
  destruct (includes g (js "_")) eqn:Hu.
  { rewrite !orb_true_r. cbn [orb]. discriminate. }
  match goal with |- (if ?b then _ else _) = _ -> _ => destruct b; [discriminate|] end.
  intros [= <-]. exists ws1, ws2. cbn [vm_content].
  split; [exact Hf|].
  split; [apply Forall_blank_space; exact H1|].
  split; [apply Forall_blank_space; exact H2|].
  split; [|split; assumption].
  apply (includes_char g (ch "_")) in Hu.
  rewrite Forall_forall in *. intros z Hz.
  specialize (Hw z Hz). specialize (Hu z Hz).
  apply word_ranges in Hw. apply alnum_ranges.
  change (ch "_") with 95%N in Hu. destruct Hw as [?|[?|[?|?]]]; tauto.
Qed.

Lemma isSmallVariableLatex_complete ws1 w ws2 :
  Forall (fun c => is_space c = true) ws1 ->
  Forall (fun c => is_space c = true) ws2 ->
  Forall (fun c => is_alnum c = true) w ->
  1 <= List.length w -> List.length w <= 3 ->
  exists x, isSmallVariableLatex (js "\(" ++ ws1 ++ w ++ ws2 ++ js "\)")
            = Some {| vm_match := x; vm_content := w |}.
Proof.
  intros H1 H2 Hw Hlo Hhi.
  apply small_variable_accepted; try assumption.
  - apply Forall_blank_space; exact H1.
  - apply Forall_blank_space; exact H2.
  - eapply Forall_impl; [|exact Hw]. intros z Hz.
    apply word_ranges. apply alnum_ranges in Hz. tauto.
  - apply (alnum_not _ Hw). reflexivity.
  - apply (alnum_not _ Hw). reflexivity.
  - apply (alnum_not _ Hw). reflexivity.
  - apply (alnum_not _ Hw). reflexivity.
  - apply (alnum_not _ Hw). reflexivity.
  - apply includes_longer. simpl. lia.
Qed.

(** ** Environments *)

Lemma same_at_nth fl text b i len :
  ignoreCase fl = false -> same_at fl text b i len = true ->
  forall j, j < len ->
    exists x, nth_error text (b + j) = Some x /\ nth_error text (i + j) = Some x.
Proof.
  intros Hc. revert b i. induction len as [|len IH]; intros b i H j Hj; [lia|].
  simpl in H.
  destruct (nth_error text b) as [c|] eqn:Eb; [|discriminate].
  destruct (nth_error text i) as [x|] eqn:Ei; [|discriminate].
  apply andb_true_iff in H as [Hx H].
  apply char_eq_eq in Hx; [|exact Hc]. subst x.
  destruct j as [|j].
  - exists c. rewrite !Nat.add_0_r. split; assumption.
  - destruct (IH (S b) (S i) H j ltac:(lia)) as (x & H1 & H2).
    exists x. rewrite <- !Nat.add_succ_comm. split; assumption.
Qed.

Lemma same_at_slice fl text b i len :
  ignoreCase fl = false -> same_at fl text b i len = true ->
  b + len <= List.length text -> i + len <= List.length text ->
  slice text i (i + len) = slice text b (b + len).
Proof.
  intros Hc H Hb Hi. apply nth_error_ext. intros j.
  destruct (Nat.lt_ge_cases j len) as [Hj|Hj].
  - rewrite !nth_error_slice by lia.
    destruct (same_at_nth _ _ _ _ Hc H Hj) as (x & H1 & H2). congruence.
  - assert (L1 : List.length (slice text i (i + len)) <= j)
      by (rewrite slice_length by lia; lia).
    assert (L2 : List.length (slice text b (b + len)) <= j)
      by (rewrite slice_length by lia; lia).
    apply nth_error_None in L1, L2. congruence.
Qed.

Lemma inv_backref fl text n st y b e :
  Matches fl text (Backref n) st y -> get_cap n (caps st) = Some (b, e) ->
  y = (pos st + (e - b), caps st) /\ same_at fl text b (pos st) (e - b) = true.
Proof.
  intros H Hg. inversion H; subst.
  - congruence.
  - match goal with H1 : get_cap n (caps st) = Some _ |- _ =>
      rewrite Hg in H1; inversion H1; subst end.
    split; [reflexivity|assumption].
Qed.

Lemma first_close (c : char) a r a' r' :
  a ++ c :: r = a' ++ c :: r' ->
  Forall (fun x => x <> c) a -> Forall (fun x => x <> c) a' -> a = a'.
Proof.
  revert a'. induction a as [|x a IH]; intros a' E Ha Ha'.
  - destruct a' as [|x' a']; [reflexivity|].
    simpl in E. injection E as E1 _. inversion Ha'; subst. congruence.
  - destruct a' as [|x' a'].
    + simpl in E. injection E as E1 _. inversion Ha; subst. congruence.
    + simpl in E. injection E as E1 E2. subst x'.
      inversion Ha; inversion Ha'; subst. f_equal. apply IH; assumption.
Qed.

Lemma environment_sound fragment x :
  isLatexEnvironment fragment = Some x ->
  exists name body,
    valid_name name
    /\ fragment = tag_text (js "begin") name ++ body ++ tag_text (js "end") name
    /\ group_or_empty fragment x 1 = name.
Proof.
  unfold isLatexEnvironment, match_. intros E.
  apply exec_match_sound in E as (_ & _ & Hlen & HM).
  unfold environmentPattern in HM. cbn [seqs] in HM.
  apply inv_seq in HM as (y0 & Hb & HM).
  apply inv_bol in Hb as [-> Hz]; [|reflexivity]. cbn [pos fst] in Hz.
  apply inv_seq in HM as (y1 & H1 & HM).
  apply Matches_lit_inv in H1 as [-> Hopen]; [|reflexivity].
  cbn [pos caps fst snd] in *. rewrite Hz in *.
  change (0 + List.length (js "\begin{")) with 7 in *.
  apply inv_seq in HM as (y2 & H2 & HM).
  apply inv_group in H2 as (y2' & H2 & ->).
  assert (Hr2 := Matches_rep_run_inv (a := Class true [cc "}"]) (g := true)
                                     eq_refl H2 eq_refl).
  destruct Hr2 as (n & -> & Hn & _ & Hrun); [discriminate|].
  cbn [pos caps fst snd] in *.
  apply inv_seq in HM as (y3 & H3 & HM).
  apply inv_char in H3 as [Hclose1 ->]; [|reflexivity].
  cbn [pos caps fst snd] in *.
  apply inv_seq in HM as (y4 & H4 & HM).
  apply inv_group in H4 as (y4' & H4 & ->).
  assert (Hr4 := Matches_rep_run_inv (a := Any) (g := false) eq_refl H4 eq_refl).
  destruct Hr4 as (k & -> & _ & _ & _); [discriminate|].
  cbn [pos caps fst snd] in *.
  apply inv_seq in HM as (y5 & H5 & HM).
  apply Matches_lit_inv in H5 as [-> Hend]; [|reflexivity].
  cbn [pos caps fst snd] in *.
  change (List.length (js "\end{")) with 5 in *.
  apply inv_seq in HM as (y6 & H6 & HM).
  apply (inv_backref (b := 7) (e := 7 + n)) in H6; [|reflexivity].
  destruct H6 as [-> Hsame]. cbn [pos caps fst snd] in *.
  replace (7 + n - 7) with n in * by lia.
  apply inv_seq in HM as (y7 & H7 & HM).
  apply inv_char in H7 as [Hclose2 ->]; [|reflexivity].
  cbn [pos caps fst snd] in *.
  apply inv_eol in HM as [Hy He]; [|reflexivity].
  cbn [pos fst] in He. inversion Hy as [[Hfin Hcaps]]. clear Hy.
  set (name := slice fragment 7 (7 + n)).
  exists name, (slice fragment (S (7 + n)) (S (7 + n) + k)).
  assert (Hname2 : slice fragment (S (7 + n) + k + 5) (S (7 + n) + k + 5 + n) = name).
  { apply (same_at_slice flags_s); [reflexivity|exact Hsame|lia|lia]. }
  split; [|split].
  - split.
    + intros Hnil. apply (f_equal (@List.length _)) in Hnil.
      unfold name in Hnil. rewrite slice_length in Hnil by lia. simpl in Hnil. lia.
    + apply run_Forall in Hrun; [|lia].
      eapply Forall_impl; [|exact Hrun]. intros c Hc.
      apply (not_brace_class flags_s); [reflexivity|exact Hc].
  - unfold tag_text. rewrite <- !app_assoc.
    apply occurs_slice in Hopen, Hend.
    change (0 + List.length (js "\begin{")) with 7 in Hopen.
    change (List.length (js "\end{")) with 5 in Hend.
    apply slice_one in Hclose1, Hclose2.
    change (js "\" ++ js "begin" ++ js "{" ++ name ++ js "}" ++
            slice fragment (S (7 + n)) (S (7 + n) + k) ++
            js "\" ++ js "end" ++ js "{" ++ name ++ js "}")
      with (js "\begin{" ++ name ++ [ch "}"] ++
            slice fragment (S (7 + n)) (S (7 + n) + k) ++
            js "\end{" ++ name ++ [ch "}"]).
    assert (Hall : fragment
                   = slice fragment 0 7 ++ slice fragment 7 (7 + n)
                     ++ slice fragment (7 + n) (S (7 + n))
                     ++ slice fragment (S (7 + n)) (S (7 + n) + k)
                     ++ slice fragment (S (7 + n) + k) (S (7 + n) + k + 5)
                     ++ slice fragment (S (7 + n) + k + 5) (S (7 + n) + k + 5 + n)
                     ++ slice fragment (S (7 + n) + k + 5 + n)
                                       (S (S (7 + n) + k + 5 + n))).
    { rewrite He, slice_to_end. rewrite !slice_skipn by lia. reflexivity. }
    rewrite Hopen, Hclose1, Hend, Hname2, Hclose2 in Hall. exact Hall.
  - unfold group_or_empty, rm_group, group_text. rewrite Hcaps.
    cbn [get_cap set_cap Nat.eqb]. reflexivity.
Qed.

Lemma tag_text_begin name rest :
  tag_text (js "begin") name ++ rest = js "\begin{" ++ name ++ ch "}" :: rest.
Proof. unfold tag_text. rewrite <- !app_assoc. reflexivity. Qed.

Lemma tag_text_end name rest :
  tag_text (js "end") name ++ rest = js "\end{" ++ name ++ ch "}" :: rest.
Proof. unfold tag_text. rewrite <- !app_assoc. reflexivity. Qed.

Lemma environment_complete name body :
  valid_name name ->
  exists x,
    isLatexEnvironment (tag_text (js "begin") name ++ body ++ tag_text (js "end") name)
    = Some x
    /\ group_or_empty
         (tag_text (js "begin") name ++ body ++ tag_text (js "end") name) x 1 = name.
Proof.
  intros Hv.
  set (fragment := tag_text (js "begin") name ++ body ++ tag_text (js "end") name).
  destruct (isLatexEnvironment fragment) as [x|] eqn:E.
  - exists x. split; [reflexivity|].
    apply environment_sound in E as (name' & body' & Hv' & Hf & Hg).
    rewrite Hg. unfold fragment in Hf. rewrite !tag_text_begin in Hf.
    apply app_inv_head in Hf. symmetry.
    apply (@first_close _ _ _ _ _ Hf); [apply Hv|apply Hv'].
  - exfalso. revert E. unfold fragment.
    replace (tag_text (js "begin") name ++ body ++ tag_text (js "end") name)
      with (js "\begin{" ++ name ++ js "}" ++ body ++ js "\end{" ++ name ++ js "}").
    + apply valid_name_class in Hv as [Hne Hall].
      apply environment_matches; assumption.
    + rewrite tag_text_begin. rewrite <- (app_nil_r (tag_text (js "end") name)).
      rewrite tag_text_end. reflexivity.
Qed.

Lemma is_some_true (A : Type) (o : option A) : is_some o = true <-> exists x, o = Some x.
Proof.
  destruct o; simpl; split; intros H; eauto; try discriminate.
  destruct H; discriminate.
Qed.

(** ** The kinds of a math fragment *)

(** X6: the three flags of [analyzeMathFragment] read off the delimiters of
    the whole fragment.  It is inline exactly when it is [\(], a body that is
    not empty, and [\)]; block exactly when it is [\[], a body that is not
    empty, and [\]], or [$$], any body, and [$$]; selective inline exactly
    when it is [$], a body that is not empty and that one of the indicator
    patterns finds, and [$].  The body may hold delimiters and line breaks.
    An inline fragment is neither block nor selective inline. *)
Theorem analyzeMathFragment_flags :
  forall fragment : jsstring,
    mf_content (analyzeMathFragment fragment) = fragment
    /\ (isInline (analyzeMathFragment fragment) = true
        <-> exists body, body <> [] /\ fragment = js "\(" ++ body ++ js "\)")
    /\ (isBlock (analyzeMathFragment fragment) = true
        <-> (exists body, body <> [] /\ fragment = js "\[" ++ body ++ js "\]")
            \/ (exists body, fragment = js "$$" ++ body ++ js "$$"))
    /\ (isSelectiveInline (analyzeMathFragment fragment) = true
        <-> exists body,
              body <> [] /\ fragment = js "$" ++ body ++ js "$"
              /\ existsb (fun pattern => test no_flags pattern body) mathPatterns = true)
    /\ (isInline (analyzeMathFragment fragment) = true ->
        isBlock (analyzeMathFragment fragment) = false
        /\ isSelectiveInline (analyzeMathFragment fragment) = false).
Proof.
  intros fragment. cbn [analyzeMathFragment mf_content isInline isBlock isSelectiveInline].
  assert (Hinline : is_some (isInlineLatexFragment fragment) = true
                    <-> exists body, body <> [] /\ fragment = js "\(" ++ body ++ js "\)").
  { rewrite is_some_true. split.
    - intros (x & E). apply isInlineLatexFragment_sound in E as (body & H1 & H2 & _).
      exists body. split; assumption.
    - intros (body & Hne & ->).
      destruct (isInlineLatexFragment_complete Hne) as (x & E & _). exists x. exact E. }
  assert (Hblock : is_some (isBlockLatexFragment fragment) = true
                   <-> (exists body, body <> [] /\ fragment = js "\[" ++ body ++ js "\]")
                       \/ (exists body, fragment = js "$$" ++ body ++ js "$$")).
  { rewrite is_some_true. split.
    - intros (x & E). apply isBlockLatexFragment_sound in E.
      destruct E as [(body & H1 & H2 & _)|(body & H2 & _)];
        [left; exists body; split; assumption|right; exists body; exact H2].
    - intros [(body & Hne & ->)|(body & ->)].
      + destruct (isBlockLatexFragment_bracket Hne) as (x & E & _). exists x. exact E.
      + destruct (isBlockLatexFragment_dollars body) as (x & E & _). exists x. exact E. }
  assert (Hsel : is_some (isSelectiveInlineLatex fragment) = true
                 <-> exists body,
                       body <> [] /\ fragment = js "$" ++ body ++ js "$"
                       /\ existsb (fun pattern => test no_flags pattern body)
                                  mathPatterns = true).
  { rewrite is_some_true. split.
    - intros (x & E). apply isSelectiveInlineLatex_sound in E as (body & H1 & H2 & _ & H3).
      exists body. repeat split; assumption.
    - intros (body & Hne & -> & Hp).
      destruct (isSelectiveInlineLatex_complete Hne Hp) as (x & E & _). exists x. exact E. }
  split; [reflexivity|]. split; [exact Hinline|]. split; [exact Hblock|].
  split; [exact Hsel|].
  intros Hi. apply Hinline in Hi as (body & _ & ->). split.
  - apply not_true_is_false. intros E.
    apply Hblock in E. destruct E as [(b & _ & E)|(b & E)]; discriminate.
  - apply not_true_is_false. intros E.
    apply Hsel in E. destruct E as (b & _ & E & _). discriminate.
Qed.

Lemma analyzeMathFragment_flags_witness :
  isBlock (analyzeMathFragment (js "\(x^2\)")) = false
  /\ isSelectiveInline (analyzeMathFragment (js "\(x^2\)")) = false.
Proof.
  apply (analyzeMathFragment_flags (js "\(x^2\)")). vm_compute. reflexivity.
Defined.

(** ** Variables *)

(** X7: [isSimpleVariable] accepts exactly the fragments made of [$], a
    letter, at most two more letters or digits, and [$], and its content is
    what stands between the dollars.  The underscore that the pattern admits
    is refused by the checks that follow it, and these checks refuse nothing
    else. *)
Theorem isSimpleVariable_exact :
  forall fragment content : jsstring,
    option_map vm_content (isSimpleVariable fragment) = Some content
    <-> exists c rest,
          content = c :: rest /\ fragment = js "$" ++ content ++ js "$"
          /\ is_letter c = true /\ List.length rest <= 2
          /\ Forall (fun x => is_alnum x = true) rest.
Proof.
  intros fragment content. split.
  - destruct (isSimpleVariable fragment) as [v|] eqn:E; [|discriminate].
    intros [= <-]. apply isSimpleVariable_sound in E as (c & rest & Hc & Hf & H).
    exists c, rest. rewrite Hc. split; [reflexivity|]. split; [exact Hf|exact H].
  - intros (c & rest & -> & -> & Hc & Hlen & Hrest).
    destruct (@isSimpleVariable_complete c rest Hc Hlen Hrest) as (x & E).
    rewrite E. reflexivity.
Qed.

(** X8: [isSmallVariableLatex] accepts exactly the fragments made of [\(],
    white space, one to three letters or digits, white space, and [\)]; its
    content is the run of letters and digits, without the white space. *)
Theorem isSmallVariableLatex_exact :
  forall fragment content : jsstring,
    option_map vm_content (isSmallVariableLatex fragment) = Some content
    <-> exists ws1 ws2,
          fragment = js "\(" ++ ws1 ++ content ++ ws2 ++ js "\)"
          /\ Forall (fun c => is_space c = true) ws1
          /\ Forall (fun c => is_space c = true) ws2
          /\ Forall (fun c => is_alnum c = true) content
          /\ 1 <= List.length content /\ List.length content <= 3.
Proof.
  intros fragment content. split.
  - destruct (isSmallVariableLatex fragment) as [v|] eqn:E; [|discriminate].
    intros [= <-]. apply isSmallVariableLatex_sound in E. exact E.
  - intros (ws1 & ws2 & -> & H1 & H2 & Hw & Hlo & Hhi).
    destruct (@isSmallVariableLatex_complete ws1 content ws2 H1 H2 Hw Hlo Hhi) as (x & E).
    rewrite E. reflexivity.
Qed.

(** ** Environments *)

(** X9: [isLatexEnvironment] accepts exactly the fragments made of
    [\begin{name}], any body and [\end{name}] with the same name, a name
    being a string without [}] that is not empty; the first group of the
    match is that name. *)
Theorem isLatexEnvironment_exact :
  forall fragment name : jsstring,
    option_map (fun x => group_or_empty fragment x 1) (isLatexEnvironment fragment)
    = Some name
    <-> valid_name name
        /\ exists body,
             fragment = tag_text (js "begin") name ++ body ++ tag_text (js "end") name.
Proof.
  intros fragment name. split.
  - destruct (isLatexEnvironment fragment) as [x|] eqn:E; [|discriminate].
    intros [= <-]. apply environment_sound in E as (name & body & Hv & Hf & Hg).
    rewrite Hg. split; [exact Hv|]. exists body. exact Hf.
  - intros (Hv & body & ->).
    destruct (@environment_complete name body Hv) as (x & E & Hg).
    rewrite E. cbn [option_map]. rewrite Hg. reflexivity.
Qed.

(** ** Rendering one formula *)

Lemma isBlockLatexFragment_none fragment :
  startsWith fragment (js "\[") = false -> startsWith fragment (js "$$") = false ->
  isBlockLatexFragment fragment = None.
Proof.
  intros H1 H2. destruct (isBlockLatexFragment fragment) as [x|] eqn:E; [|reflexivity].
  apply isBlockLatexFragment_sound in E.
  destruct E as [(b & _ & -> & _)|(b & -> & _)];
    [rewrite startsWith_app in H1|rewrite startsWith_app in H2]; discriminate.
Qed.

(** X10: a fragment that is one formula between delimiters is handed to the
    formula component without them, whatever the body holds: [\(body\)]
    becomes an inline formula with that body, with or without [forceInline],
    and [\[body\]] and [$$body$$] become a display formula with that body. *)
Theorem renderLatex_delimited :
  forall body : jsstring,
    body <> [] ->
    (forall forceInline,
        renderLatex (js "\(" ++ body ++ js "\)") forceInline = InlineMath None body)
    /\ renderLatex (js "\[" ++ body ++ js "\]") false = BlockMathDiv None body
    /\ renderLatex (js "$$" ++ body ++ js "$$") false = BlockMathDiv None body.
Proof.
  intros body Hne. split; [|split].
  - intros fi. unfold renderLatex.
    rewrite not_environment_start by reflexivity.
    rewrite isBlockLatexFragment_none by reflexivity.
    destruct (isInlineLatexFragment_complete Hne) as (x & E & Hg).
    rewrite E, Hg. reflexivity.
  - unfold renderLatex. rewrite not_environment_start by reflexivity.
    destruct (isBlockLatexFragment_bracket Hne) as (x & E & Hg).
    rewrite E. unfold block_math_content. rewrite Hg.
    destruct body; [congruence|reflexivity].
  - unfold renderLatex. rewrite not_environment_start by reflexivity.
    destruct (isBlockLatexFragment_dollars body) as (x & E & Hg).
    rewrite E. unfold block_math_content. rewrite Hg.
    destruct body; [congruence|reflexivity].
Qed.

Lemma renderLatex_delimited_witness :
  renderLatex (js "\(a \) b\)") true = InlineMath None (js "a \) b")
  /\ renderLatex (js "$$x$$") false = BlockMathDiv None (js "x").
Proof.
  split.
  - apply (@renderLatex_delimited (js "a \) b")). discriminate.
  - apply (@renderLatex_delimited (js "x")). discriminate.
Defined.

(** X11: a fragment that is an environment, [\begin{name}], any body and
    [\end{name}], is handed by [renderLatex] to [renderLatexEnvironment]
    under its name, with or without [forceInline]. *)
Theorem renderLatex_environment :
  forall (name body : jsstring) (forceInline : bool),
    valid_name name ->
    renderLatex (tag_text (js "begin") name ++ body ++ tag_text (js "end") name)
                forceInline
    = renderLatexEnvironment name
        (tag_text (js "begin") name ++ body ++ tag_text (js "end") name).
Proof.
  intros name body fi Hv. unfold renderLatex.
  destruct (@environment_complete name body Hv) as (x & E & Hg).
  rewrite E, Hg. reflexivity.
Qed.

Lemma renderLatex_environment_witness :
  renderLatex (js "\begin{enumerate}\item a\end{enumerate}") true
  = renderLatexEnvironment (js "enumerate") (js "\begin{enumerate}\item a\end{enumerate}").
Proof.
  apply (@renderLatex_environment (js "enumerate") (js "\item a") true).
  split; [discriminate|]. repeat constructor; discriminate.
Defined.

(** ** The order of the environments *)

Lemma tag_step_cases text stack envs t :
  tag_step text (stack, envs) t = (t :: stack, envs)
  \/ tag_step text (stack, envs) t = (stack, envs)
  \/ exists top rest,
       stack = top :: rest
       /\ ((rest <> [] /\ tag_step text (stack, envs) t = (rest, envs))
           \/ (rest = []
               /\ tag_step text (stack, envs) t
                  = ([], envs ++ [{| env_start := tag_index top;
                                     env_end := tag_index t + tag_length t;
                                     env_content :=
                                       substring text (tag_index top)
                                                 (tag_index t + tag_length t) |}]))).
Proof.
  unfold tag_step.
  destruct (opt_str_eqb (tag_type t) (Some (js "begin"))); [left; reflexivity|].
  destruct (opt_str_eqb (tag_type t) (Some (js "end")) && (0 <? List.length stack));
    [|right; left; reflexivity].
  destruct stack as [|top rest]; [right; left; reflexivity|].
  destruct (opt_str_eqb (tag_env top) (tag_env t)); [|right; left; reflexivity].
  right. right. exists top, rest. split; [reflexivity|].
  destruct rest as [|next rest]; [right|left].
  - split; reflexivity.
  - split; [discriminate|reflexivity].
Qed.

Lemma StronglySorted_snoc (A : Type) (R : A -> A -> Prop) l x :
  StronglySorted R l -> (forall a, In a l -> R a x) -> StronglySorted R (l ++ [x]).
Proof.
  induction 1 as [|a l Hs IH Ha]; intros Hx; simpl.
  - constructor; constructor.
  - constructor.
    + apply IH. intros b Hb. apply Hx. right. exact Hb.
    + apply Forall_app. split; [exact Ha|]. constructor; [|constructor].
      apply Hx. left. reflexivity.
Qed.

Lemma tag_step_order text from st t :
  order_inv from st -> from <= tag_index t ->
  order_inv (tag_index t + tag_length t) (tag_step text st t).
Proof.
  intros (H1 & H2 & H3) Hfrom. destruct st as [stack envs]. cbn [fst snd] in *.
  assert (Hkeep : forall e, In e envs -> env_end e <= tag_index t + tag_length t).
  { intros e He. specialize (H1 e He). lia. }
  destruct (tag_step_cases text stack envs t)
    as [E|[E|(top & rest & -> & [[Hne E]|[-> E]])]];
    rewrite E; unfold order_inv; cbn [fst snd].
  - split; [exact Hkeep|]. split; [|exact H3].
    intros e t' He [<-|Ht]; [specialize (H1 e He); lia|apply H2; assumption].
  - split; [exact Hkeep|]. split; assumption.
  - split; [exact Hkeep|]. split; [|exact H3].
    intros e t' He Ht. apply H2; [exact He|right; exact Ht].
  - split; [|split].
    + intros e He. apply in_app_or in He as [He|[<-|[]]]; [apply Hkeep; exact He|].
      cbn [env_end]. lia.
    + intros e t' _ [].
    + apply StronglySorted_snoc; [exact H3|].
      intros a Ha. cbn [env_start]. apply H2; [exact Ha|left; reflexivity].
Qed.

Lemma fold_tags_order text tags :
  forall from st, tags_chain text from tags -> order_inv from st ->
    exists from', order_inv from' (fold_left (tag_step text) tags st).
Proof.
  induction tags as [|t tags IH]; intros from st Hc Hinv; simpl.
  - exists from. exact Hinv.
  - simpl in Hc. destruct Hc as (H1 & H2 & H3 & H4).
    eapply IH; [exact H4|]. apply tag_step_order with (from := from); assumption.
Qed.

Lemma sort_by_sorted_id (A : Type) (key : A -> nat) l :
  StronglySorted (fun a b => key a <= key b) l -> sort_by key l = l.
Proof.
  induction 1 as [|x l Hs IH Hx]; [reflexivity|].
  simpl. rewrite IH. destruct l as [|y l]; [reflexivity|].
  simpl. inversion Hx; subst.
  replace (key x <=? key y) with true by (symmetry; apply Nat.leb_le; assumption).
  reflexivity.
Qed.

Lemma envs_in_order text :
  let envs := snd (fold_left (tag_step text) (scanTags text) ([], [])) in
  StronglySorted (fun a b => env_end a <= env_start b) envs
  /\ findTopLevelEnvs text = envs.
Proof.
  intros envs.
  destruct (@fold_tags_order text (scanTags text) 0 ([], [])) as (from & _ & _ & Hs).
  { apply scanTags_chain. }
  { split; [intros e []|]. split; [intros e t []|constructor]. }
  destruct (@fold_tags_inv text (scanTags text) 0 ([], [])) as (from' & _ & Hc).
  { apply scanTags_chain. }
  { split; constructor. }
  fold envs in Hs, Hc. split; [exact Hs|].
  unfold findTopLevelEnvs. fold envs. apply sort_by_sorted_id.
  eapply StronglySorted_impl_In; [|exact Hs].
  intros a b Ha _ Hab. cbv beta in Hab.
  rewrite Forall_forall in Hc. destruct (Hc a Ha) as (Hlt & _). lia.
Qed.

(** ** Well-formed environments *)

Lemma tag_step_close text top rest envs t name :
  tag_type t = Some (js "end") -> tag_env top = Some name -> tag_env t = Some name ->
  tag_step text (top :: rest, envs) t
  = (rest,
     if List.length rest =? 0
     then envs ++ [{| env_start := tag_index top;
                      env_end := tag_index t + tag_length t;
                      env_content := substring text (tag_index top)
                                               (tag_index t + tag_length t) |}]
     else envs).
Proof.
  intros Ht Htop Henv. unfold tag_step. rewrite Ht, Htop, Henv.
  change (opt_str_eqb (Some (js "end")) (Some (js "begin"))) with false.
  change (opt_str_eqb (Some (js "end")) (Some (js "end"))) with true.
  cbn [andb List.length Nat.ltb Nat.leb opt_str_eqb]. rewrite str_eqb_refl.
  destruct (List.length rest =? 0); reflexivity.
Qed.

Lemma slice_middle (pre mid post : jsstring) :
  slice (pre ++ mid ++ post) (List.length pre) (List.length pre + List.length mid) = mid.
Proof.
  apply occurs_slice. rewrite <- (Nat.add_0_r (List.length pre)).
  apply occurs_skip, occurs_prefix.
Qed.

Lemma substring_middle (pre mid post : jsstring) i j :
  i = List.length pre -> j = List.length pre + List.length mid ->
  substring (pre ++ mid ++ post) i j = mid.
Proof.
  intros -> ->. rewrite substring_slice by lia. apply slice_middle.
Qed.

Ltac described_segments :=
  repeat (constructor;
          [split; [assumption|split; [(left; reflexivity) || (right; reflexivity)
                                      |assumption]]|]);
  constructor.

(** ** Environments of a text *)

(** X12: the spans of [findTopLevelEnvs] come in the order of the text and do
    not overlap: each ends before the next one starts.  The loop pushes them
    in this order, so the sort at its end changes nothing. *)
Theorem top_level_envs_disjoint :
  forall text : jsstring,
    StronglySorted (fun a b => env_end a <= env_start b) (findTopLevelEnvs text)
    /\ findTopLevelEnvs text
       = snd (fold_left (tag_step text) (scanTags text) ([], [])).
Proof.
  intros text. destruct (envs_in_order text) as [Hs He].
  split; [rewrite He; exact Hs|exact He].
Qed.

(** X13: environments that are well formed are found, at the top level
    only.  In a text whose parts between the tags hold no further tag, one
    environment gives one span, from the backslash of its begin tag to the
    brace that closes its end tag; an environment nested in another one gives
    no span of its own; two environments one after the other give two spans,
    in the order of the text. *)
Theorem well_formed_environments_found :
  (forall g0 X body g1 : jsstring,
      tag_free g0 -> tag_free body -> tag_free g1 -> valid_name X ->
      findTopLevelEnvs
        (g0 ++ (tag_text (js "begin") X ++ body ++ tag_text (js "end") X) ++ g1)
      = [{| env_start := List.length g0;
            env_end := List.length g0
                       + List.length (tag_text (js "begin") X ++ body
                                        ++ tag_text (js "end") X);
            env_content := tag_text (js "begin") X ++ body ++ tag_text (js "end") X |}])
  /\ (forall g0 A g1 B g2 g3 g4 : jsstring,
         tag_free g0 -> tag_free g1 -> tag_free g2 -> tag_free g3 -> tag_free g4 ->
         valid_name A -> valid_name B ->
         findTopLevelEnvs
           (g0 ++ (tag_text (js "begin") A ++ g1 ++ tag_text (js "begin") B ++ g2
                     ++ tag_text (js "end") B ++ g3 ++ tag_text (js "end") A) ++ g4)
         = [{| env_start := List.length g0;
               env_end := List.length g0
                          + List.length (tag_text (js "begin") A ++ g1
                                           ++ tag_text (js "begin") B ++ g2
                                           ++ tag_text (js "end") B ++ g3
                                           ++ tag_text (js "end") A);
               env_content := tag_text (js "begin") A ++ g1
                                ++ tag_text (js "begin") B ++ g2
                                ++ tag_text (js "end") B ++ g3
                                ++ tag_text (js "end") A |}])
  /\ (forall g0 A g1 g2 B g3 g4 : jsstring,
         tag_free g0 -> tag_free g1 -> tag_free g2 -> tag_free g3 -> tag_free g4 ->
         valid_name A -> valid_name B ->
         findTopLevelEnvs
           (g0 ++ (tag_text (js "begin") A ++ g1 ++ tag_text (js "end") A) ++ g2
               ++ (tag_text (js "begin") B ++ g3 ++ tag_text (js "end") B) ++ g4)
         = [{| env_start := List.length g0;
               env_end := List.length g0
                          + List.length (tag_text (js "begin") A ++ g1
                                           ++ tag_text (js "end") A);
               env_content := tag_text (js "begin") A ++ g1 ++ tag_text (js "end") A |};
            {| env_start := List.length g0
                            + List.length (tag_text (js "begin") A ++ g1
                                             ++ tag_text (js "end") A)
                            + List.length g2;
               env_end := List.length g0
                          + List.length (tag_text (js "begin") A ++ g1
                                           ++ tag_text (js "end") A)
                          + List.length g2
                          + List.length (tag_text (js "begin") B ++ g3
                                           ++ tag_text (js "end") B);
               env_content := tag_text (js "begin") B ++ g3 ++ tag_text (js "end") B |}]).
Proof.
  split; [|split].
  - intros g0 X body g1 H0 Hb H1 HX.
    set (segs := [(g0, js "begin", X); (body, js "end", X)] : list segment).
    set (e := tag_text (js "begin") X ++ body ++ tag_text (js "end") X).
    assert (Hd : described (g0 ++ e ++ g1) 0 segs g1).
    { replace (g0 ++ e ++ g1) with ([] ++ segments_text segs g1)
        by (unfold e, segs; cbn [segments_text app]; rewrite <- !app_assoc; reflexivity).
      apply segments_text_described; [exact H1|]. described_segments. }
    rewrite (@findTopLevelEnvs_described _ _ _ Hd). set (T := g0 ++ e ++ g1).
    cbn [segs segment_tags fold_left].
    rewrite tag_step_begin by reflexivity.
    rewrite (@tag_step_close _ _ _ _ _ X) by reflexivity.
    cbn [List.length Nat.eqb snd app sort_by insert_by tag_index tag_length].
    f_equal. f_equal.
    + unfold e. rewrite !length_app. lia.
    + apply substring_middle; [reflexivity|].
      unfold e. rewrite !length_app. lia.
  - intros g0 A g1 B g2 g3 g4 H0 H1 H2 H3 H4 HA HB.
    set (segs := [(g0, js "begin", A); (g1, js "begin", B);
                  (g2, js "end", B); (g3, js "end", A)] : list segment).
    set (e := tag_text (js "begin") A ++ g1 ++ tag_text (js "begin") B ++ g2
                ++ tag_text (js "end") B ++ g3 ++ tag_text (js "end") A).
    assert (Hd : described (g0 ++ e ++ g4) 0 segs g4).
    { replace (g0 ++ e ++ g4) with ([] ++ segments_text segs g4)
        by (unfold e, segs; cbn [segments_text app]; rewrite <- !app_assoc; reflexivity).
      apply segments_text_described; [exact H4|]. described_segments. }
    rewrite (@findTopLevelEnvs_described _ _ _ Hd). set (T := g0 ++ e ++ g4).
    cbn [segs segment_tags fold_left].
    rewrite tag_step_begin by reflexivity.
    rewrite tag_step_begin by reflexivity.
    rewrite (@tag_step_close _ _ _ _ _ B) by reflexivity.
    cbn [List.length Nat.eqb].
    rewrite (@tag_step_close _ _ _ _ _ A) by reflexivity.
    cbn [List.length Nat.eqb snd app sort_by insert_by tag_index tag_length].
    f_equal. f_equal.
    + unfold e. rewrite !length_app. lia.
    + apply substring_middle; [reflexivity|].
      unfold e. rewrite !length_app. lia.
  - intros g0 A g1 g2 B g3 g4 H0 H1 H2 H3 H4 HA HB.
    set (segs := [(g0, js "begin", A); (g1, js "end", A);
                  (g2, js "begin", B); (g3, js "end", B)] : list segment).
    set (e1 := tag_text (js "begin") A ++ g1 ++ tag_text (js "end") A).
    set (e2 := tag_text (js "begin") B ++ g3 ++ tag_text (js "end") B).
    assert (Hd : described (g0 ++ e1 ++ g2 ++ e2 ++ g4) 0 segs g4).
    { replace (g0 ++ e1 ++ g2 ++ e2 ++ g4) with ([] ++ segments_text segs g4)
        by (unfold e1, e2, segs; cbn [segments_text app]; rewrite <- !app_assoc;
            reflexivity).
      apply segments_text_described; [exact H4|]. described_segments. }
    rewrite (@findTopLevelEnvs_described _ _ _ Hd).
    assert (Hc1 : forall i j, i = List.length g0 -> j = List.length g0 + List.length e1 ->
                    substring (g0 ++ e1 ++ g2 ++ e2 ++ g4) i j = e1).
    { intros i j Hi Hj. apply substring_middle; assumption. }
    assert (Hc2 : forall i j, i = List.length g0 + List.length e1 + List.length g2 ->
                    j = List.length g0 + List.length e1 + List.length g2 + List.length e2 ->
                    substring (g0 ++ e1 ++ g2 ++ e2 ++ g4) i j = e2).
    { intros i j Hi Hj.
      replace (g0 ++ e1 ++ g2 ++ e2 ++ g4) with ((g0 ++ e1 ++ g2) ++ e2 ++ g4)
        by (rewrite <- !app_assoc; reflexivity).
      apply substring_middle; rewrite !length_app; lia. }
    set (T := g0 ++ e1 ++ g2 ++ e2 ++ g4) in *.
    cbn [segs segment_tags fold_left].
    rewrite tag_step_begin by reflexivity.
    rewrite (@tag_step_close _ _ _ _ _ A) by reflexivity.
    cbn [List.length Nat.eqb].
    rewrite tag_step_begin by reflexivity.
    rewrite (@tag_step_close _ _ _ _ _ B) by reflexivity.
    cbn [List.length Nat.eqb snd app tag_index tag_length].
    rewrite Hc1 by (try reflexivity; unfold e1; rewrite !length_app; lia).
    rewrite Hc2 by (unfold e1, e2; rewrite !length_app; lia).
    cbn [sort_by insert_by env_start].
    replace (_ <=? _) with true by (symmetry; apply Nat.leb_le; lia).
    f_equal; [f_equal|f_equal; f_equal]; unfold e1, e2; rewrite !length_app; lia.
Qed.

Lemma well_formed_environments_found_witness :
  findTopLevelEnvs (js "see \begin{itemize}\item a\end{itemize}.")
  = [{| env_start := 4; env_end := 39;
        env_content := js "\begin{itemize}\item a\end{itemize}" |}].
Proof.
  apply (proj1 well_formed_environments_found
               (js "see ") (js "itemize") (js "\item a") (js "."));
    try (split; reflexivity).
  split; [discriminate|]. repeat constructor; discriminate.
Defined.

(** ** Texts in which a pattern finds nothing *)

Lemma first_char_sound fl text p :
  ignoreCase fl = false ->
  forall r st y, Matches fl text r st y -> first_char p r = true ->
    exists x, nth_error text (pos st) = Some x /\ p x = true.
Proof.
  intros Hc r st y H.
  induction H; intros Hf; simpl in Hf; try discriminate.
  - match goal with E : char_eq _ _ _ = true |- _ =>
      apply char_eq_eq in E; [subst|exact Hc] end.
    eauto.
  - apply orb_true_iff in Hf as [Hf|Hf]; [auto|].
    destruct a; try discriminate.
    + inversion H; subst. auto.
    + inversion H; subst. auto.
  - apply andb_true_iff in Hf as [Hf _]. auto.
  - apply andb_true_iff in Hf as [_ Hf]. auto.
  - rewrite andb_false_r in Hf. discriminate.
  - apply andb_true_iff in Hf as [_ Hf]. apply IHMatches1 in Hf. exact Hf.
  - auto.
Qed.

Lemma no_match_at fl text p r i :
  ignoreCase fl = false -> first_char p r = true ->
  Forall (fun x => p x = false) text -> match_at fl text r i = None.
Proof.
  intros Hc Hf Hall. destruct (match_at fl text r i) as [st|] eqn:E; [|reflexivity].
  apply match_at_sound in E.
  destruct (first_char_sound p Hc E Hf) as (x & Hx & Hp).
  apply nth_error_In in Hx. rewrite Forall_forall in Hall.
  rewrite (Hall x Hx) in Hp. discriminate.
Qed.

Lemma no_exec_match fl text p r i :
  ignoreCase fl = false -> first_char p r = true ->
  Forall (fun x => p x = false) text -> exec_match fl r text i = None.
Proof.
  intros Hc Hf Hall. destruct (exec_match fl r text i) as [x|] eqn:E; [|reflexivity].
  apply exec_match_first in E as [E _].
  rewrite (@no_match_at fl text p r (index x) Hc Hf Hall) in E. discriminate.
Qed.

Lemma exec_all_none fl r text :
  exec_match fl r text 0 = None -> exec_all fl r text = [].
Proof. intros H. unfold exec_all. simpl. rewrite H. reflexivity. Qed.

Lemma split_loop_none fl r text :
  (forall q, match_at fl text r q = None) ->
  forall fuel p q,
    List.length text - q < fuel ->
    split_loop fl r text fuel p q = [Some (slice text p (List.length text))].
Proof.
  intros Hn. induction fuel as [|f IH]; intros p q Hf; [lia|].
  simpl. destruct (q <? List.length text) eqn:Eq; [|reflexivity].
  rewrite Hn. apply Nat.ltb_lt in Eq. apply IH. lia.
Qed.

Lemma split_strings_none fl r text :
  text <> [] -> (forall q, match_at fl text r q = None) ->
  split_strings fl r text = [text].
Proof.
  intros Hne Hn. unfold split_strings, split.
  destruct text as [|c s]; [congruence|].
  rewrite split_loop_none by (assumption || lia).
  simpl map. f_equal. apply slice_all.
Qed.

Lemma one_of_absent chars text :
  Forall (fun x => ~ In x chars) text -> Forall (fun x => one_of chars x = false) text.
Proof.
  intros H. eapply Forall_impl; [|exact H]. intros x Hx. cbv beta in *.
  unfold one_of. destruct (existsb (N.eqb x) chars) eqn:E; [|reflexivity].
  apply existsb_exists in E as (y & Hy & Exy). apply N.eqb_eq in Exy. subst y.
  contradiction.
Qed.

Lemma absent_pair (a b : char) text :
  Forall (fun x => x <> a) text -> Forall (fun x => x <> b) text ->
  Forall (fun x => one_of [a; b] x = false) text.
Proof.
  intros Ha Hb. apply one_of_absent. rewrite Forall_forall in *.
  intros x Hx [E|[E|[]]]; [apply (Ha x Hx)|apply (Hb x Hx)]; congruence.
Qed.

Lemma absent_single (a : char) text :
  Forall (fun x => x <> a) text -> Forall (fun x => one_of [a] x = false) text.
Proof.
  intros Ha. apply one_of_absent. rewrite Forall_forall in *.
  intros x Hx [E|[]]. apply (Ha x Hx). congruence.
Qed.

Lemma absent_includes (a : char) text l :
  Forall (fun x => x <> a) text -> In a l -> includes text l = false.
Proof.
  intros Ha Hin. destruct (includes text l) eqn:E; [|reflexivity].
  apply includes_occurs in E as (i & _ & Ho).
  apply In_nth_error in Hin as (j & Hj).
  apply Ho in Hj. apply nth_error_In in Hj.
  rewrite Forall_forall in Ha. exfalso. exact (Ha a Hj eq_refl).
Qed.

Lemma tag_free_no_envs text : tag_free text -> findTopLevelEnvs text = [].
Proof.
  intros Hf.
  rewrite (@findTopLevelEnvs_described text [] text); [reflexivity|].
  simpl. split; [exact Hf|]. split; [|reflexivity].
  intros j x Hj. exact Hj.
Qed.

Section PlainText.
Variable content : jsstring.
Hypothesis no_dollar : Forall (fun x => x <> ch "$") content.
Hypothesis no_backslash : Forall (fun x => x <> ch "\") content.
Hypothesis no_smiles : includes content (js "<smiles>") = false.

Lemma plain_no_envs : findTopLevelEnvs content = [].
Proof.
  apply tag_free_no_envs. split;
    apply (absent_includes _ no_backslash); left; reflexivity.
Qed.

Lemma plain_not_complex : hasComplexStructures content = false.
Proof.
  unfold hasComplexStructures. rewrite plain_no_envs.
  rewrite (absent_includes (js "\[") no_backslash) by (left; reflexivity).
  rewrite (absent_includes (js "$$") no_dollar) by (left; reflexivity).
  reflexivity.
Qed.

Lemma plain_no_smiles_code : exec_match no_flags smilesCodePattern content 0 = None.
Proof.
  apply exec_match_none_iff. intros j y _ HM.
  unfold smilesCodePattern in HM. cbn [seqs] in HM.
  apply starts_with_lit in HM; [congruence|reflexivity].
Qed.

Lemma plain_no_smiles_span fl :
  ignoreCase fl = false -> exec_match fl smilesPattern content 0 = None.
Proof.
  intros Hc. apply exec_match_none_iff. intros j y _ HM.
  unfold smilesPattern in HM. cbn [seqs] in HM.
  apply starts_with_lit in HM; [congruence|exact Hc].
Qed.

Lemma plain_no_inline i : exec_match flags_s inlinePattern content i = None.
Proof.
  apply (@no_exec_match flags_s content (one_of [ch "\"; ch "$"]));
    [reflexivity|reflexivity|].
  apply absent_pair; assumption.
Qed.

Lemma plain_no_block i : exec_match flags_s blockPattern content i = None.
Proof.
  apply (@no_exec_match flags_s content (one_of [ch "\"; ch "$"]));
    [reflexivity|reflexivity|].
  apply absent_pair; assumption.
Qed.

Lemma plain_substitute : substitute_placeholders content = ([], content).
Proof.
  unfold substitute_placeholders.
  rewrite replace_all_st_none by exact plain_no_smiles_code.
  rewrite replace_all_st_none by apply plain_no_inline.
  rewrite (@replace_all_none no_flags simpleVarPattern content)
    by (apply (@no_exec_match no_flags content (one_of [ch "$"]));
        [reflexivity|reflexivity|apply absent_single; exact no_dollar]).
  rewrite (@replace_all_none no_flags smallVarPattern content)
    by (apply (@no_exec_match no_flags content (one_of [ch "\"]));
        [reflexivity|reflexivity|apply absent_single; exact no_backslash]).
  reflexivity.
Qed.

Lemma plain_not_simple : isSimpleVariable content = None.
Proof.
  destruct (isSimpleVariable content) as [v|] eqn:E; [|reflexivity].
  apply isSimpleVariable_sound in E as (c & rest & _ & Hf & _).
  pose proof no_dollar as H. rewrite Hf in H. inversion H as [|? ? Hx _].
  exfalso. apply Hx. reflexivity.
Qed.

Lemma plain_not_small : isSmallVariableLatex content = None.
Proof.
  destruct (isSmallVariableLatex content) as [v|] eqn:E; [|reflexivity].
  apply isSmallVariableLatex_sound in E as (ws1 & ws2 & Hf & _).
  pose proof no_backslash as H. rewrite Hf in H. inversion H as [|? ? Hx _].
  exfalso. apply Hx. reflexivity.
Qed.

Lemma plain_small_variables :
  content <> [] ->
  processTextWithSmallVariables content
  = [Elem "span" (Some (js "0")) [] [TextNode content]].
Proof.
  intros Hne. unfold processTextWithSmallVariables.
  rewrite split_strings_none; [|exact Hne|].
  - cbn [indexed List.length seq combine List.map].
    rewrite plain_not_simple, plain_not_small.
    cbn [List.filter is_empty_text_span negb].
    destruct content; [congruence|reflexivity].
  - intros q.
    apply (@no_match_at no_flags content (one_of [ch "\"; ch "$"]));
      [reflexivity|reflexivity|apply absent_pair; assumption].
Qed.

Lemma plain_no_spans :
  Forall (fun x => x <> ch "#") content -> parseContent content = [].
Proof.
  intros no_hash.
  unfold parseContent, findSmilesMatches, findHeadingMatches, findMathMatches,
    findEnvironmentMatches.
  rewrite (@exec_all_none _ _ _ (plain_no_smiles_span flags_s eq_refl)).
  rewrite (@exec_all_none flags_m headingPattern content)
    by (apply (@no_exec_match flags_m content (one_of [ch "#"]));
        [reflexivity|reflexivity|apply absent_single; exact no_hash]).
  rewrite (@exec_all_none _ _ _ (plain_no_block 0)).
  rewrite (@exec_all_none _ _ _ (plain_no_inline 0)).
  rewrite plain_no_envs. reflexivity.
Qed.
End PlainText.

(** ** Plain text *)

(** X14: a text without [$], [\] and [#] in which [<smiles>] does not occur
    has no span: [parseContent] returns the empty list. *)
Theorem plain_text_has_no_spans :
  forall text : jsstring,
    Forall (fun x => x <> ch "$") text ->
    Forall (fun x => x <> ch "\") text ->
    Forall (fun x => x <> ch "#") text ->
    includes text (js "<smiles>") = false ->
    parseContent text = [].
Proof.
  intros text no_dollar no_backslash no_hash no_smiles.
  unfold parseContent, findSmilesMatches, findHeadingMatches, findMathMatches,
    findEnvironmentMatches.
  rewrite (@exec_all_none flags_s smilesPattern text)
    by (apply plain_no_smiles_span; [exact no_smiles|reflexivity]).
  rewrite (@exec_all_none flags_m headingPattern text)
    by (apply (@no_exec_match flags_m text (one_of [ch "#"]));
        [reflexivity|reflexivity|apply absent_single; exact no_hash]).
  rewrite (@exec_all_none flags_s blockPattern text)
    by (apply plain_no_block; assumption).
  rewrite (@exec_all_none flags_s inlinePattern text)
    by (apply plain_no_inline; assumption).
  rewrite (plain_no_envs no_backslash). reflexivity.
Qed.

Lemma plain_text_has_no_spans_witness :
  parseContent (js "Water boils at 100 degrees; a < b.") = [].
Proof.
  apply plain_text_has_no_spans;
    [repeat constructor; discriminate ..|vm_compute; reflexivity].
Defined.

(** X15: a valid content without [$] and [\] in which [<smiles>] does not
    occur reaches the Markdown engine as it is: [RichText] returns the prose
    wrapper around one Markdown element with the content as its source and an
    empty placeholder table.  With [renderAsMarkdown] off, and no [#] in the
    content, it returns the wrapper around one span that holds the content as
    one text. *)
Theorem RichText_plain_text :
  forall (content : jsstring) (inline : bool),
    validateMarkdownContent content = true ->
    Forall (fun x => x <> ch "$") content ->
    Forall (fun x => x <> ch "\") content ->
    includes content (js "<smiles>") = false ->
    RichText content true inline
    = Some (prose inline [MarkdownEl (key_of "text-" 0) [] content])
    /\ (Forall (fun x => x <> ch "#") content ->
        RichText content false inline
        = Some (prose inline
                  [Elem "span"
                        (if truthy (trim content) then Some (js "text-final") else None)
                        [("className"%string, js "whitespace-pre-line")]
                        [Elem "span" (Some (js "0")) [] [TextNode content]]])).
Proof.
  intros content inline Hv Hd Hb Hs.
  assert (Hne : content <> []) by (intros ->; discriminate).
  assert (Ht : truthy content = true) by (destruct content; [congruence|reflexivity]).
  split.
  - unfold RichText. rewrite Ht, Hv, (plain_not_complex Hd Hb). cbn [negb orb].
    unfold renderWithPlaceholders, processTextFragmentWithPlaceholders.
    rewrite (plain_substitute Hd Hb Hs). reflexivity.
  - intros Hh. unfold RichText. rewrite Ht, Hv, orb_true_r. cbn [negb].
    unfold renderWithComplexProcessing, blockMatches.
    rewrite (plain_no_spans Hd Hb Hs Hh).
    cbn [List.filter indexed List.length seq combine fold_left].
    replace (0 <? List.length content) with true
      by (destruct content; [congruence|reflexivity]).
    unfold render_text, slice_from, renderFallbackContent. cbn [skipn app].
    rewrite (plain_small_variables Hd Hb Hs Hne).
    destruct (truthy (trim content)); reflexivity.
Qed.

Lemma RichText_plain_text_witness :
  RichText (js "Plain *text*.") true false
  = Some (prose false [MarkdownEl (key_of "text-" 0) [] (js "Plain *text*.")]).
Proof.
  apply RichText_plain_text;
    [vm_compute; reflexivity|repeat constructor; discriminate ..
    |vm_compute; reflexivity].
Defined.

(** ** The math spans of the scanner *)

Lemma fold_inline_kept text ms :
  forall acc x,
    In x (fold_left (inline_step text) ms acc) ->
    In x acc
    \/ exists z, In z ms /\ x = mk_match text math z
                 /\ shouldSkipMathFragment (rm_text text z) = false
                 /\ isInListContext text (index z) = false.
Proof.
  induction ms as [|z ms IH]; intros acc x H; simpl in H; [left; exact H|].
  apply IH in H as [H|(z' & Hz & Hx)].
  - unfold inline_step in H.
    destruct (existsb _ acc); [left; exact H|].
    destruct (isInListContext text (index z)) eqn:El; [left; exact H|].
    destruct (shouldSkipMathFragment (rm_text text z)) eqn:Es; [left; exact H|].
    apply in_app_iff in H as [H|[<-|[]]]; [left; exact H|].
    right. exists z. split; [left; reflexivity|]. split; [reflexivity|].
    split; assumption.
  - right. exists z'. split; [right; exact Hz|exact Hx].
Qed.

Lemma not_dollar_space_class c :
  class_mem flags_s true [cc "$"; CSpace] c = true -> c <> ch "$".
Proof.
  unfold class_mem, item_mem, cc, char_eq, canon. simpl. intros H ->.
  discriminate.
Qed.

Lemma slice_starts text i e l :
  occurs text i l -> i + List.length l <= e -> e <= List.length text ->
  exists rest, slice text i e = l ++ rest.
Proof.
  intros Ho Hle He. exists (slice text (i + List.length l) e).
  rewrite <- (slice_app text (i := i) (j := i + List.length l) (k := e)) by lia.
  rewrite (occurs_slice Ho). reflexivity.
Qed.

Lemma inline_shape text i e c :
  Matches flags_s text inlinePattern (i, []) (e, c) -> e <= List.length text ->
  (exists mid, slice text i e = js "\(" ++ mid ++ js "\)")
  \/ (exists c1 rest, slice text i e = ch "$" :: c1 :: rest /\ c1 <> ch "$").
Proof.
  intros HM He. unfold inlinePattern in HM.
  apply inv_group in HM as (y & HM & Hy). cbn [alts] in HM.
  assert (Hpos : pos y = e) by (inversion Hy; reflexivity). clear Hy.
  apply inv_alt in HM as [HM|HM]; [|apply inv_alt in HM as [HM|HM]].
  - left. cbn [seqs] in HM.
    apply inv_seq in HM as (y1 & H1 & HM).
    apply Matches_lit_inv in H1 as [-> Hopen]; [|reflexivity].
    cbn [pos caps fst snd] in *.
    apply inv_seq in HM as (y2 & H2 & HM).
    assert (Hr := Matches_rep_run_inv (a := Any) (g := false) eq_refl H2 eq_refl).
    destruct Hr as (n & -> & _ & _ & _); [discriminate|].
    cbn [pos caps fst snd] in *.
    apply Matches_lit_inv in HM as [-> Hclose]; [|reflexivity].
    cbn [pos caps fst snd] in *.
    change (List.length (js "\(")) with 2 in *.
    change (List.length (js "\)")) with 2 in *.
    exists (slice text (i + 2) (i + 2 + n)).
    rewrite <- (slice_app text (i := i) (j := i + 2) (k := e)) by lia.
    rewrite <- (slice_app text (i := i + 2) (j := i + 2 + n) (k := e)) by lia.
    apply occurs_slice in Hopen, Hclose.
    change (List.length (js "\(")) with 2 in Hopen.
    change (List.length (js "\)")) with 2 in Hclose.
    rewrite Hopen, <- Hpos, Hclose. reflexivity.
  - right. cbn [seqs] in HM.
    apply inv_seq in HM as (y1 & H1 & HM).
    apply inv_char in H1 as [Hd ->]; [|reflexivity].
    cbn [pos caps fst snd] in *.
    apply inv_seq in HM as (y2 & H2 & HM).
    apply (Matches_single flags_s text not_dollar_space (S i, []) y2 eq_refl) in H2.
    destruct H2 as (c1 & Hc1 & Hclass & ->). cbn [pos caps fst snd] in *.
    apply Matches_le in HM. cbn [pos fst] in HM.
    exists c1, (slice text (S (S i)) e). split; [|apply not_dollar_space_class; exact Hclass].
    rewrite <- (slice_app text (i := i) (j := S i) (k := e)) by lia.
    rewrite <- (slice_app text (i := S i) (j := S (S i)) (k := e)) by lia.
    rewrite (@slice_one _ _ _ Hd), (@slice_one _ _ _ Hc1). reflexivity.
  - right. cbn [seqs] in HM.
    apply inv_seq in HM as (y1 & H1 & HM).
    apply inv_char in H1 as [Hd ->]; [|reflexivity].
    cbn [pos caps fst snd] in *.
    apply inv_seq in HM as (y2 & H2 & HM).
    assert (Hr := Matches_rep_run_inv (a := not_dollar_space) (g := true)
                                      eq_refl H2 eq_refl).
    destruct Hr as (n & -> & Hn & _ & Hrun); [discriminate|].
    cbn [pos caps fst snd] in *.
    apply Matches_le in HM. cbn [pos fst] in HM.
    destruct (Hrun 0 ltac:(lia)) as (c1 & Hc1 & Hclass).
    rewrite Nat.add_0_r in Hc1.
    exists c1, (slice text (S (S i)) e). split; [|apply not_dollar_space_class; exact Hclass].
    rewrite <- (slice_app text (i := i) (j := S i) (k := e)) by lia.
    rewrite <- (slice_app text (i := S i) (j := S (S i)) (k := e)) by lia.
    rewrite (@slice_one _ _ _ Hd), (@slice_one _ _ _ Hc1). reflexivity.
Qed.

Lemma block_shape text i e c :
  Matches flags_s text blockPattern (i, []) (e, c) -> e <= List.length text ->
  exists rest, slice text i e = js "$$" ++ rest \/ slice text i e = js "\[" ++ rest.
Proof.
  intros HM He. unfold blockPattern in HM.
  apply inv_group in HM as (y & HM & Hy).
  assert (Hpos : pos y = e) by (inversion Hy; reflexivity). clear Hy.
  apply inv_alt in HM as [HM|HM]; cbn [seqs] in HM;
    apply inv_seq in HM as (y1 & H1 & HM);
    (apply Matches_lit_inv in H1 as [-> Hopen]; [|reflexivity]);
    apply Matches_le in HM; cbn [pos caps fst snd] in *.
  - destruct (@slice_starts text i e _ Hopen) as (rest & Hs);
      [simpl in *; lia|lia|]. exists rest. left. exact Hs.
  - destruct (@slice_starts text i e _ Hopen) as (rest & Hs);
      [simpl in *; lia|lia|]. exists rest. right. exact Hs.
Qed.

Lemma exec_all_matches fl r text z :
  In z (exec_all fl r text) ->
  index z <= m_end z /\ m_end z <= List.length text
  /\ Matches fl text r (index z, []) (m_end z, m_caps z).
Proof.
  intros Hin. unfold exec_all in Hin.
  pose proof (exec_loop_chained fl text r (S (List.length text)) 0) as Hc.
  apply chained_Forall in Hc. rewrite Forall_forall in Hc.
  destruct (Hc z Hin) as (_ & H1 & H2 & H3). auto.
Qed.

Lemma math_span_source text x :
  In x (parseContent text) -> cm_type x = math ->
  (exists z, In z (exec_all flags_s blockPattern text) /\ cm_content x = rm_text text z)
  \/ (exists z, In z (exec_all flags_s inlinePattern text)
                /\ cm_content x = rm_text text z
                /\ shouldSkipMathFragment (rm_text text z) = false
                /\ isInListContext text (index z) = false).
Proof.
  intros Hin Hty. unfold parseContent in Hin. apply filterNestedMatches_In in Hin.
  unfold findEnvironmentMatches in Hin. apply in_app_iff in Hin as [Hin|Hin].
  - unfold findMathMatches in Hin. apply fold_inline_kept in Hin.
    destruct Hin as [Hin|(z & Hz & -> & Hs & Hl)].
    + apply in_app_iff in Hin as [Hin|Hin].
      * exfalso. unfold findHeadingMatches, findSmilesMatches in Hin.
        apply in_app_iff in Hin as [Hin|Hin];
          [apply in_app_iff in Hin as [[]|Hin]|];
          apply in_map_iff in Hin as (z & <- & _); discriminate.
      * left. apply in_map_iff in Hin as (z & <- & Hz). exists z. split; [exact Hz|reflexivity].
    + right. exists z. repeat split; assumption.
  - exfalso. apply in_map_iff in Hin as (e & <- & _). discriminate.
Qed.

Lemma simple_variable_starts fragment v :
  isSimpleVariable fragment = Some v ->
  exists c rest, fragment = ch "$" :: c :: rest /\ is_letter c = true.
Proof.
  intros E. apply isSimpleVariable_sound in E as (c & rest & _ & Hf & Hc & _).
  exists c, (rest ++ js "$"). split; [exact Hf|exact Hc].
Qed.

Lemma small_variable_starts fragment v :
  isSmallVariableLatex fragment = Some v ->
  exists rest, fragment = ch "\" :: ch "(" :: rest.
Proof.
  intros E. apply isSmallVariableLatex_sound in E as (ws1 & ws2 & Hf & _).
  eexists. exact Hf.
Qed.

(** X16: no math span of [parseContent] is a variable: its content is
    accepted neither by [isSimpleVariable] nor by [isSmallVariableLatex]; and
    a math span between single dollars is one that [isSelectiveInlineLatex]
    accepts. *)
Theorem math_spans_are_not_variables :
  forall (text : jsstring) (x : ContentMatch),
    In x (parseContent text) -> cm_type x = math ->
    isSimpleVariable (cm_content x) = None
    /\ isSmallVariableLatex (cm_content x) = None
    /\ (startsWith (cm_content x) (js "$") = true ->
        startsWith (cm_content x) (js "$$") = false ->
        isSelectiveInlineLatex (cm_content x) <> None).
Proof.
  intros text x Hin Hty.
  destruct (math_span_source _ _ Hin Hty)
    as [(z & Hz & ->)|(z & Hz & -> & Hskip & _)];
    apply exec_all_matches in Hz as (Hle & Hlen & HM); unfold rm_text in *.
  - destruct (block_shape HM Hlen) as (rest & [Hs|Hs]); rewrite Hs.
    + split; [|split].
      * destruct (isSimpleVariable (js "$$" ++ rest)) as [v|] eqn:E; [|reflexivity].
        apply simple_variable_starts in E as (c & r & Hf & Hc).
        injection Hf as <- _. discriminate.
      * destruct (isSmallVariableLatex (js "$$" ++ rest)) as [v|] eqn:E; [|reflexivity].
        apply small_variable_starts in E as (r & Hf). discriminate.
      * intros _ H. rewrite startsWith_app in H. discriminate.
    + split; [|split].
      * destruct (isSimpleVariable (js "\[" ++ rest)) as [v|] eqn:E; [|reflexivity].
        apply simple_variable_starts in E as (c & r & Hf & Hc). discriminate.
      * destruct (isSmallVariableLatex (js "\[" ++ rest)) as [v|] eqn:E; [|reflexivity].
        apply small_variable_starts in E as (r & Hf). discriminate.
      * intros H _. discriminate.
  - destruct (inline_shape HM Hlen) as [(mid & Hs)|(c1 & rest & Hs & Hc1)];
      rewrite Hs in *.
    + split; [|split].
      * destruct (isSimpleVariable (js "\(" ++ mid ++ js "\)")) as [v|] eqn:E;
          [|reflexivity].
        apply simple_variable_starts in E as (c & r & Hf & Hc). discriminate.
      * unfold shouldSkipMathFragment in Hskip.
        change (startsWith (js "\(" ++ mid ++ js "\)") (js "$")) with false in Hskip.
        cbn [andb] in Hskip. rewrite startsWith_app in Hskip.
        replace (js "\(" ++ mid ++ js "\)") with ((js "\(" ++ mid) ++ js "\)") in Hskip
          by (rewrite <- app_assoc; reflexivity).
        rewrite endsWith_app in Hskip. cbn [andb] in Hskip.
        rewrite <- app_assoc in Hskip.
        destruct (isSmallVariableLatex (js "\(" ++ mid ++ js "\)")); [discriminate|].
        reflexivity.
      * intros H _. discriminate.
    + assert (Hd : startsWith (ch "$" :: c1 :: rest) (js "$") = true) by reflexivity.
      assert (Hdd : startsWith (ch "$" :: c1 :: rest) (js "$$") = false).
      { simpl. replace (c1 =? 36)%N with false; [reflexivity|].
        symmetry. apply N.eqb_neq. exact Hc1. }
      unfold shouldSkipMathFragment in Hskip. rewrite Hd, Hdd in Hskip.
      cbn [andb negb] in Hskip.
      destruct (isSimpleVariable (ch "$" :: c1 :: rest)) as [v|] eqn:E1;
        [discriminate|]. cbn [is_some andb] in Hskip.
      change (startsWith (ch "$" :: c1 :: rest) (js "\(")) with false in Hskip.
      cbn [andb] in Hskip.
      split; [reflexivity|]. split.
      * destruct (isSmallVariableLatex (ch "$" :: c1 :: rest)) as [v|] eqn:E;
          [|reflexivity].
        apply small_variable_starts in E as (r & Hf). discriminate.
      * intros _ _ E. rewrite E in Hskip. discriminate.
Qed.

Lemma math_spans_are_not_variables_witness :
  isSimpleVariable (js "$a+b$") = None
  /\ isSmallVariableLatex (js "$a+b$") = None
  /\ (startsWith (js "$a+b$") (js "$") = true ->
      startsWith (js "$a+b$") (js "$$") = false ->
      isSelectiveInlineLatex (js "$a+b$") <> None).
Proof.
  apply (@math_spans_are_not_variables (js "x $a+b$ y")
           {| cm_start := 2; cm_end := 7; cm_content := js "$a+b$"; cm_type := math |}).
  - vm_compute. left. reflexivity.
  - reflexivity.
Defined.

(** ** Filtering twice *)

Lemma StronglySorted_pair (A : Type) (R : A -> A -> Prop) l a b :
  StronglySorted R l -> In a l -> In b l -> a = b \/ R a b \/ R b a.
Proof.
  induction 1 as [|x l Hs IH Hx]; intros Ha Hb; [destruct Ha|].
  rewrite Forall_forall in Hx.
  destruct Ha as [<-|Ha], Hb as [<-|Hb]; auto.
Qed.

Lemma map_snd_indexed_from (A : Type) (l : list A) :
  forall s, List.map snd (combine (seq s (List.length l)) l) = l.
Proof. induction l as [|x l IH]; intros s; simpl; [reflexivity|]. rewrite IH. reflexivity. Qed.

Lemma map_snd_indexed (A : Type) (l : list A) : List.map snd (indexed l) = l.
Proof. apply map_snd_indexed_from. Qed.

Lemma filter_all (A : Type) (f : A -> bool) l :
  (forall x, In x l -> f x = true) -> List.filter f l = l.
Proof.
  induction l as [|x l IH]; intros H; simpl; [reflexivity|].
  rewrite (H x (or_introl eq_refl)). f_equal. apply IH. intros y Hy. apply H. right. exact Hy.
Qed.

Lemma sorted_not_nested arr i x :
  StronglySorted (fun a b => cm_start a < cm_start b /\ cm_end a < cm_end b) arr ->
  In (i, x) (indexed arr) -> isNested arr i x = false.
Proof.
  intros Hs Hin. unfold isNested.
  destruct (existsb _ (indexed arr)) eqn:E; [|reflexivity].
  apply existsb_exists in E as ([j o] & Hjo & Hc).
  destruct (i =? j) eqn:Eij; [discriminate|]. apply Nat.eqb_neq in Eij.
  apply andb_true_iff in Hc as [H1 H2]. apply Nat.leb_le in H1, H2.
  apply indexed_sorted in Hs.
  destruct (@StronglySorted_pair _ _ _ _ _ Hs Hin Hjo) as [E|[(_ & H3 & H4)|(_ & H3 & H4)]];
    cbn [fst snd] in *.
  - inversion E. congruence.
  - lia.
  - lia.
Qed.

Lemma filterNestedMatches_fixed l :
  StronglySorted (fun a b => cm_start a < cm_start b /\ cm_end a < cm_end b) l ->
  filterNestedMatches l = l.
Proof.
  intros Hs. unfold filterNestedMatches.
  assert (Hsort : sort_by cm_start l = l).
  { apply sort_by_sorted_id. eapply StronglySorted_impl_In; [|exact Hs].
    intros a b _ _ [H _]. lia. }
  rewrite Hsort. rewrite filter_all; [apply map_snd_indexed|].
  intros [i x] Hin. cbn [fst snd]. rewrite (@sorted_not_nested _ _ _ Hs Hin). reflexivity.
Qed.

(** X17: [filterNestedMatches] leaves a list of spans that is in strictly
    ascending order of start and of end as it is, and so filtering its own
    result again changes nothing. *)
Theorem filterNestedMatches_idempotent :
  forall matches : list ContentMatch,
    filterNestedMatches (filterNestedMatches matches) = filterNestedMatches matches.
Proof.
  intros matches. apply filterNestedMatches_fixed, filterNestedMatches_sorted.
Qed.

(** ** Splitting a string at a separator *)

Lemma startsWith_split s p : startsWith s p = true -> s = p ++ skipn (List.length p) s.
Proof.
  revert s. induction p as [|c p IH]; intros s H; [reflexivity|].
  destruct s as [|x s]; [discriminate|]. simpl in H.
  apply andb_true_iff in H as [Hx H]. apply N.eqb_eq in Hx. subst x.
  simpl. f_equal. apply IH. exact H.
Qed.

Lemma split_str_nonempty sep s :
  (forall acc, split_str_loop sep s acc <> [])
  /\ (forall n, split_str_skip sep n s <> []).
Proof.
  induction s as [|c s [IHl IHk]]; (split; [intros acc|intros n]);
    try discriminate.
  - cbn [split_str_loop]. destruct (startsWith (c :: s) sep); [discriminate|apply IHl].
  - cbn [split_str_skip]. destruct n; [|apply IHk].
    destruct (startsWith (c :: s) sep); [discriminate|apply IHl].
Qed.

Lemma split_str_join_gen sep :
  sep <> [] ->
  forall s,
    (forall acc, join_with sep (split_str_loop sep s acc) = rev acc ++ s)
    /\ (forall n, n <= List.length s ->
          join_with sep (split_str_skip sep n s) = skipn n s).
Proof.
  intros Hsep. induction s as [|c s [IHl IHk]].
  - split.
    + intros acc. simpl. rewrite !app_nil_r. reflexivity.
    + intros n Hn. simpl in Hn. assert (n = 0) by lia. subst n. reflexivity.
  - assert (Hskip : startsWith (c :: s) sep = true ->
              forall part, join_with sep (part :: split_str_skip sep (List.length sep - 1) s)
                           = part ++ c :: s).
    { intros Hst part. pose proof (startsWith_split _ _ Hst) as Hs.
      destruct sep as [|d sep]; [congruence|].
      simpl in Hs. injection Hs as Hd Hs'.
      replace (List.length (d :: sep) - 1) with (List.length sep) by (simpl; lia).
      assert (Hlen : List.length sep <= List.length s).
      { rewrite Hs'. rewrite length_app. lia. }
      specialize (IHk (List.length sep) Hlen).
      unfold join_with in *.
      destruct (split_str_skip (d :: sep) (List.length sep) s) as [|q qs] eqn:Eq.
      - exfalso. exact (proj2 (split_str_nonempty (d :: sep) s) _ Eq).
      - cbn [List.map concat]. rewrite <- app_assoc. rewrite IHk.
        f_equal. simpl. rewrite Hd. f_equal. symmetry. exact Hs'. }
    split.
    + intros acc. cbn [split_str_loop].
      destruct (startsWith (c :: s) sep) eqn:Hst.
      * apply (Hskip eq_refl).
      * rewrite IHl. simpl. rewrite <- app_assoc. reflexivity.
    + intros n Hn. cbn [split_str_skip]. destruct n as [|n].
      * destruct (startsWith (c :: s) sep) eqn:Hst.
        -- apply (Hskip eq_refl []).
        -- rewrite IHl. reflexivity.
      * simpl in Hn. rewrite IHk by lia. reflexivity.
Qed.

Lemma split_str_join s sep : sep <> [] -> join_with sep (split_str s sep) = s.
Proof. intros Hsep. unfold split_str. apply (split_str_join_gen Hsep s). Qed.

Lemma occurs_app_l a b k l : occurs a k l -> occurs (a ++ b) k l.
Proof.
  intros H j x Hj. specialize (H j x Hj).
  rewrite nth_error_app1; [exact H|]. apply nth_error_Some. congruence.
Qed.

Lemma includes_false_occurs s p k :
  includes s p = false -> ~ occurs s k p.
Proof. intros H Ho. apply occurs_includes in Ho. congruence. Qed.

Lemma occurs_at_end acc s sep :
  occurs (rev acc ++ s) (List.length acc) sep -> startsWith s sep = true.
Proof.
  intros H. apply occurs_startsWith in H.
  rewrite skipn_app, length_rev, Nat.sub_diag, skipn_all2 in H
    by (rewrite length_rev; lia).
  exact H.
Qed.

Lemma no_occurrence_part sep acc s :
  sep <> [] -> no_occurrence sep acc s -> includes (rev acc) sep = false.
Proof.
  intros Hsep Hno. destruct (includes (rev acc) sep) eqn:E; [|reflexivity].
  apply includes_occurs in E as (k & _ & Ho). exfalso.
  pose proof (occurs_bound Ho Hsep) as Hb. rewrite length_rev in Hb.
  apply (Hno k).
  - destruct sep; [congruence|]. simpl in Hb. lia.
  - apply occurs_app_l. exact Ho.
Qed.

Lemma split_str_parts_free sep :
  sep <> [] ->
  forall s,
    (forall acc, no_occurrence sep acc s ->
       Forall (fun part => includes part sep = false) (split_str_loop sep s acc))
    /\ (forall n, Forall (fun part => includes part sep = false)
                         (split_str_skip sep n s)).
Proof.
  intros Hsep. induction s as [|c s [IHl IHk]].
  - split.
    + intros acc Hno. simpl. constructor; [|constructor].
      apply (no_occurrence_part Hsep Hno).
    + intros n. simpl. constructor; [|constructor].
      destruct sep; [congruence|reflexivity].
  - assert (Hnext : startsWith (c :: s) sep = false ->
              forall acc, no_occurrence sep acc (c :: s) -> no_occurrence sep (c :: acc) s).
    { intros Hst acc Hno k Hk Ho. cbn [rev] in Ho. rewrite <- app_assoc in Ho.
      cbn [app] in Ho. simpl in Hk.
      destruct (Nat.eq_dec k (List.length acc)) as [->|Hne].
      - apply occurs_at_end in Ho. congruence.
      - apply (Hno k); [lia|exact Ho]. }
    split.
    + intros acc Hno. cbn [split_str_loop].
      destruct (startsWith (c :: s) sep) eqn:Hst.
      * constructor; [apply (no_occurrence_part Hsep Hno)|apply IHk].
      * apply IHl. apply Hnext; [reflexivity|exact Hno].
    + intros n. cbn [split_str_skip]. destruct n as [|n]; [|apply IHk].
      destruct (startsWith (c :: s) sep) eqn:Hst.
      * constructor; [destruct sep; [congruence|reflexivity]|apply IHk].
      * apply IHl. apply (Hnext eq_refl []). intros k Hk. simpl in Hk. lia.
Qed.

Lemma split_str_free s sep :
  sep <> [] -> Forall (fun part => includes part sep = false) (split_str s sep).
Proof.
  intros Hsep. unfold split_str. apply (split_str_parts_free Hsep s).
  intros k Hk. simpl in Hk. lia.
Qed.

Lemma join_with_part sep parts part :
  In part parts -> exists a b, join_with sep parts = a ++ part ++ b.
Proof.
  destruct parts as [|p parts]; [intros []|].
  intros [<-|Hin].
  - exists [], (concat (List.map (fun q => sep ++ q) parts)). reflexivity.
  - unfold join_with.
    enough (H : exists a b, concat (List.map (fun q => sep ++ q) parts) = a ++ part ++ b).
    { destruct H as (a & b & ->). exists (p ++ a), b. rewrite <- app_assoc. reflexivity. }
    clear p. induction parts as [|q parts IH]; [destruct Hin|].
    destruct Hin as [<-|Hin].
    + exists sep, (concat (List.map (fun q0 => sep ++ q0) parts)).
      simpl. rewrite <- app_assoc. reflexivity.
    + destruct (IH Hin) as (a & b & E). exists ((sep ++ q) ++ a), b.
      simpl. rewrite E, <- !app_assoc. reflexivity.
Qed.

Lemma includes_inside a s b p : includes s p = true -> includes (a ++ s ++ b) p = true.
Proof.
  intros H. apply includes_occurs in H as (k & _ & Ho).
  apply (@occurs_includes _ (List.length a + k)).
  apply occurs_skip, occurs_app_l. exact Ho.
Qed.

Lemma split_str_part_inside s sep part p :
  sep <> [] -> In part (split_str s sep) -> includes part p = true ->
  includes s p = true.
Proof.
  intros Hsep Hin Hp.
  destruct (join_with_part sep _ _ Hin) as (a & b & E).
  rewrite split_str_join in E by exact Hsep. rewrite E.
  apply includes_inside. exact Hp.
Qed.

(** ** Putting the elements in the place of the placeholders *)

Lemma substitute_back_fold placeholderMap s :
  substitute_back placeholderMap s
  = fold_left substitute_step placeholderMap [TextNode s].
Proof. reflexivity. Qed.

Lemma text_of_app a b : text_of (a ++ b) = text_of a ++ text_of b.
Proof. unfold text_of. rewrite map_app, concat_app. reflexivity. Qed.

Lemma interleave_text_rest e p parts :
  restore e = p ->
  text_of (interleave e parts false) = concat (List.map (fun q => p ++ q) parts).
Proof.
  intros He. induction parts as [|q parts IH]; [reflexivity|].
  cbn [interleave List.map concat]. rewrite !text_of_app, IH.
  unfold text_of at 1. cbn [List.map concat]. rewrite He, app_nil_r.
  rewrite <- app_assoc. f_equal. f_equal.
  destruct q; unfold text_of; simpl; rewrite ?app_nil_r; reflexivity.
Qed.

Lemma interleave_text e p parts :
  restore e = p -> text_of (interleave e parts true) = join_with p parts.
Proof.
  intros He. destruct parts as [|q parts]; [reflexivity|].
  cbn [interleave join_with]. rewrite !text_of_app, (@interleave_text_rest e p parts He).
  change (text_of []) with (@nil char). cbn [app]. f_equal.
  destruct q; unfold text_of; simpl; rewrite ?app_nil_r; reflexivity.
Qed.

Lemma substitute_step_text result p e :
  p <> [] -> restore e = p -> text_of (substitute_step result (p, e)) = text_of result.
Proof.
  intros Hp He. unfold substitute_step.
  induction result as [|item result IH]; [reflexivity|].
  cbn [flat_map]. rewrite text_of_app, IH.
  change (item :: result) with ([item] ++ result). rewrite (text_of_app [item]).
  f_equal. destruct item; try reflexivity.
  destruct (includes s p); [|reflexivity].
  rewrite (@interleave_text e p _ He), split_str_join by exact Hp.
  unfold text_of. simpl. rewrite app_nil_r. reflexivity.
Qed.

Lemma substitute_back_text placeholderMap s :
  Forall (fun entry : jsstring * element =>
            fst entry <> [] /\ restore (snd entry) = fst entry) placeholderMap ->
  text_of (substitute_back placeholderMap s) = s.
Proof.
  intros Hm. rewrite substitute_back_fold.
  assert (H : forall result,
             text_of (fold_left substitute_step placeholderMap result) = text_of result).
  { induction Hm as [|[p e] m [Hp He] _ IH]; intros result; [reflexivity|].
    cbn [fold_left]. rewrite IH. apply substitute_step_text; assumption. }
  rewrite H. unfold text_of. simpl. apply app_nil_r.
Qed.

Lemma map_set_good k v mp :
  good_entry (k, v) -> Forall good_entry mp -> Forall good_entry (map_set k v mp).
Proof.
  intros Hkv. induction 1 as [|[k' v'] mp Hx Hm IH]; simpl.
  - constructor; [exact Hkv|constructor].
  - destruct (str_eqb k' k); constructor; assumption.
Qed.

Lemma replace_fold_state (St : Type) (P : St -> Prop) text
    (f : St -> rmatch -> St * jsstring) ms :
  (forall s x, P s -> P (fst (f s x))) ->
  forall s next, P s -> P (fst (replace_fold text f ms s next)).
Proof.
  intros Hf. induction ms as [|x ms IH]; intros s next Hs; [exact Hs|].
  cbn [replace_fold]. specialize (Hf s x Hs).
  destruct (f s x) as [s1 rep]. cbn [fst] in Hf.
  destruct (next <=? index x).
  - specialize (IH s1 (m_end x) Hf).
    destruct (replace_fold text f ms s1 (m_end x)) as [s2 rest]. exact IH.
  - apply IH. exact Hf.
Qed.

Lemma smiles_replacer_good text s x :
  Forall good_entry (snd s) -> Forall good_entry (snd (fst (smiles_replacer text s x))).
Proof.
  destruct s as [n mp]. intros H. cbn [smiles_replacer fst snd].
  apply map_set_good; [|exact H]. repeat split. discriminate.
Qed.

Lemma inline_math_replacer_good text s x :
  Forall good_entry (snd s) -> Forall good_entry (snd (fst (inline_math_replacer text s x))).
Proof.
  destruct s as [n mp]. intros H. unfold inline_math_replacer.
  repeat match goal with |- context [if ?b then _ else _] =>
    destruct b; try exact H end;
    cbn [fst snd]; (apply map_set_good; [|exact H]); repeat split; discriminate.
Qed.

Lemma replace_all_st_state (St : Type) (P : St -> Prop) fl r text
    (f : St -> rmatch -> St * jsstring) s :
  (forall s x, P s -> P (fst (f s x))) -> P s ->
  P (fst (replace_all_st fl r text f s)).
Proof. intros Hf Hs. unfold replace_all_st. apply replace_fold_state; assumption. Qed.

Lemma substitute_placeholders_good textFragment :
  Forall good_entry (fst (substitute_placeholders textFragment)).
Proof.
  unfold substitute_placeholders.
  destruct (replace_all_st no_flags smilesCodePattern textFragment
              (smiles_replacer textFragment) (0, [])) as [s1 c1] eqn:E1.
  assert (H1 : Forall good_entry (snd s1)).
  { change s1 with (fst (s1, c1)). rewrite <- E1.
    apply (@replace_all_st_state _ (fun s => Forall good_entry (snd s))).
    - intros s x. apply smiles_replacer_good.
    - constructor. }
  destruct (replace_all_st flags_s inlinePattern c1 (inline_math_replacer c1) s1)
    as [s2 c2] eqn:E2.
  cbn [fst]. change s2 with (fst (s2, c2)). rewrite <- E2.
  apply (@replace_all_st_state _ (fun s => Forall good_entry (snd s))).
  - intros s x. apply inline_math_replacer_good.
  - exact H1.
Qed.

Lemma processChildren_text placeholderMap :
  Forall good_entry placeholderMap ->
  forall c, children_text (processChildren placeholderMap c) = children_text c.
Proof.
  intros Hm. fix IH 1. intros [s|e|items].
  - cbn [processChildren children_text]. rewrite map_map.
    transitivity (text_of (substitute_back placeholderMap s)).
    + unfold text_of. f_equal. apply map_ext. intros [ ]; reflexivity.
    + apply substitute_back_text. eapply Forall_impl; [|exact Hm].
      intros entry (H1 & H2 & _). split; assumption.
  - reflexivity.
  - cbn [processChildren children_text]. f_equal. rewrite map_map.
    revert items. fix IHl 1. intros [|c items]; [reflexivity|].
    cbn [List.map]. rewrite IH, IHl. reflexivity.
Qed.

(** ** A placeholder inside another one *)

Lemma includes_trans s q p :
  includes s q = true -> includes q p = true -> includes s p = true.
Proof.
  intros Hq Hp. apply includes_occurs in Hq as (k & _ & Hk).
  apply includes_occurs in Hp as (j & _ & Hj).
  apply (@occurs_includes _ (k + j)). intros i x Hi.
  rewrite <- Nat.add_assoc. apply Hk. apply Hj. exact Hi.
Qed.

Lemma interleave_items e parts first item :
  In item (interleave e parts first) ->
  item = e \/ exists part, In part parts /\ item = TextNode part.
Proof.
  revert first. induction parts as [|q parts IH]; intros first Hin; [destruct Hin|].
  cbn [interleave] in Hin. apply in_app_iff in Hin as [Hin|Hin].
  - destruct first; [destruct Hin|]. destruct Hin as [<-|[]]. left. reflexivity.
  - apply in_app_iff in Hin as [Hin|Hin].
    + destruct (truthy q); [|destruct Hin]. destruct Hin as [<-|[]].
      right. exists q. split; [left; reflexivity|reflexivity].
    + apply IH in Hin as [->|(part & Hp & ->)]; [left; reflexivity|].
      right. exists part. split; [right; exact Hp|reflexivity].
Qed.

Lemma substitute_step_free p result k el :
  k <> [] -> is_text el = false -> texts_free p result ->
  texts_free p (substitute_step result (k, el)).
Proof.
  intros Hk Hel Hfree. unfold texts_free, substitute_step in *.
  rewrite Forall_forall in *. intros item Hin s ->.
  apply in_flat_map in Hin as (src & Hsrc & Hin).
  destruct src as [t| | | | ]; try (destruct Hin as [E|[]]; discriminate E).
  destruct (includes t k) eqn:Et.
  - apply interleave_items in Hin as [E|(part & Hpart & E)].
    + rewrite <- E in Hel. discriminate.
    + injection E as ->. destruct (includes part p) eqn:Ep; [|reflexivity].
      rewrite <- (Hfree _ Hsrc t eq_refl).
      symmetry. apply (@split_str_part_inside t k part p Hk Hpart Ep).
  - destruct Hin as [E|[]]. injection E as ->. apply (Hfree _ Hsrc). reflexivity.
Qed.

Lemma substitute_step_clears p e result :
  p <> [] -> is_text e = false -> texts_free p (substitute_step result (p, e)).
Proof.
  intros Hp He. unfold texts_free, substitute_step.
  rewrite Forall_forall. intros item Hin s ->.
  apply in_flat_map in Hin as (src & Hsrc & Hin).
  destruct src as [t| | | | ]; try (destruct Hin as [E|[]]; discriminate E).
  destruct (includes t p) eqn:Et.
  - apply interleave_items in Hin as [E|(part & Hpart & E)].
    + rewrite <- E in He. discriminate.
    + injection E as ->.
      pose proof (@split_str_free t p Hp) as Hf. rewrite Forall_forall in Hf.
      apply Hf. exact Hpart.
  - destruct Hin as [E|[]]. injection E as ->. exact Et.
Qed.

Lemma substitute_step_idle q e result :
  texts_free q result -> substitute_step result (q, e) = result.
Proof.
  unfold texts_free, substitute_step. induction 1 as [|item result Hitem _ IH];
    [reflexivity|].
  cbn [flat_map]. rewrite IH. destruct item; try reflexivity.
  rewrite (Hitem s eq_refl). reflexivity.
Qed.

Lemma texts_free_weaken p q result :
  includes q p = true -> texts_free p result -> texts_free q result.
Proof.
  intros Hqp H. unfold texts_free in *. eapply Forall_impl; [|exact H].
  intros item Hitem s E. specialize (Hitem s E).
  destruct (includes s q) eqn:Eq; [|reflexivity].
  rewrite (@includes_trans s q p Eq Hqp) in Hitem. discriminate.
Qed.

Lemma fold_steps_free p mid :
  Forall (fun entry : jsstring * element =>
            fst entry <> [] /\ is_text (snd entry) = false) mid ->
  forall result, texts_free p result ->
    texts_free p (fold_left substitute_step mid result).
Proof.
  induction 1 as [|[k el] mid [Hk Hel] _ IH]; intros result Hfree; [exact Hfree|].
  cbn [fold_left]. apply IH. apply substitute_step_free; assumption.
Qed.

(** ** Placeholders *)

(** X18: the substitution of the elements for the placeholders loses no
    text.  For the table and the string that [substitute_placeholders] makes
    of a text fragment, writing in the result of [substitute_back] each
    element as its key gives the string again; and the children processor of
    the Markdown components, with this table, keeps the text of any children,
    strings, elements and arrays alike. *)
Theorem placeholders_keep_the_text :
  forall (textFragment : jsstring) (c : children),
    text_of (substitute_back (fst (substitute_placeholders textFragment))
                             (snd (substitute_placeholders textFragment)))
    = snd (substitute_placeholders textFragment)
    /\ children_text (processChildren (fst (substitute_placeholders textFragment)) c)
       = children_text c.
Proof.
  intros textFragment c.
  pose proof (substitute_placeholders_good textFragment) as Hm. split.
  - apply substitute_back_text. eapply Forall_impl; [|exact Hm].
    intros entry (H1 & H2 & _). split; assumption.
  - apply processChildren_text. exact Hm.
Qed.

(** X19: a placeholder that holds an earlier placeholder of the table never
    gets its element.  When the turn of the earlier one is over, no text of
    the result holds it any more, so the later one is found nowhere: the
    result is the same as without its entry.  The names of the program count
    up, so [MATH_PLACEHOLDER_1] is in [MATH_PLACEHOLDER_10]: of eleven
    formulas in one text, the last is shown as the second, followed by the
    digit 0. *)
Theorem placeholder_inside_another :
  (forall (pre : list (jsstring * element)) (p : jsstring) (e : element)
          (mid : list (jsstring * element)) (q : jsstring) (e' : element)
          (post : list (jsstring * element)) (s : jsstring),
      p <> [] -> includes q p = true -> is_text e = false ->
      Forall (fun entry : jsstring * element =>
                fst entry <> [] /\ is_text (snd entry) = false) mid ->
      substitute_back (pre ++ (p, e) :: mid ++ (q, e') :: post) s
      = substitute_back (pre ++ (p, e) :: mid ++ post) s)
  /\ (let text :=
         js "$a+1$ $a+2$ $a+3$ $a+4$ $a+5$ $a+6$ $a+7$ $a+8$ $a+9$ $b+0$ $b+1$" in
       List.map fst (fst (substitute_placeholders text))
       = List.map (fun n => js "MATH_PLACEHOLDER_" ++ number_to_string n) (seq 0 11)
       /\ List.map restore
            (substitute_back (fst (substitute_placeholders text))
                             (snd (substitute_placeholders text)))
          = List.map js
              ["MATH_PLACEHOLDER_0"; " "; "MATH_PLACEHOLDER_1"; " ";
               "MATH_PLACEHOLDER_2"; " "; "MATH_PLACEHOLDER_3"; " ";
               "MATH_PLACEHOLDER_4"; " "; "MATH_PLACEHOLDER_5"; " ";
               "MATH_PLACEHOLDER_6"; " "; "MATH_PLACEHOLDER_7"; " ";
               "MATH_PLACEHOLDER_8"; " "; "MATH_PLACEHOLDER_9"; " ";
               "MATH_PLACEHOLDER_1"; "0"]%string).
Proof.
  split; [|split; vm_compute; reflexivity].
  intros pre p e mid q e' post s Hp Hq He Hmid.
  rewrite !substitute_back_fold, !fold_left_app. cbn [fold_left].
  rewrite !fold_left_app. cbn [fold_left].
  rewrite substitute_step_idle; [reflexivity|].
  apply (@texts_free_weaken p q _ Hq). apply (@fold_steps_free p mid Hmid).
  apply substitute_step_clears; assumption.
Qed.

Lemma placeholder_inside_another_witness :
  substitute_back
    [(js "MATH_PLACEHOLDER_1", InlineMath (Some (js "MATH_PLACEHOLDER_1")) (js "a+2"));
     (js "MATH_PLACEHOLDER_10", InlineMath (Some (js "MATH_PLACEHOLDER_10")) (js "b+1"))]
    (js "see MATH_PLACEHOLDER_10")
  = substitute_back
      [(js "MATH_PLACEHOLDER_1", InlineMath (Some (js "MATH_PLACEHOLDER_1")) (js "a+2"))]
      (js "see MATH_PLACEHOLDER_10").
Proof.
  apply (proj1 placeholder_inside_another [] (js "MATH_PLACEHOLDER_1")
           (InlineMath (Some (js "MATH_PLACEHOLDER_1")) (js "a+2")) []
           (js "MATH_PLACEHOLDER_10")
           (InlineMath (Some (js "MATH_PLACEHOLDER_10")) (js "b+1")) []
           (js "see MATH_PLACEHOLDER_10")).
  - discriminate.
  - vm_compute. reflexivity.
  - reflexivity.
  - constructor.
Defined.

(** ** What a replacement leaves of a text *)

Lemma match_at_none_after fl text r j :
  consumes r = true -> List.length text <= j -> match_at fl text r j = None.
Proof.
  intros Hc Hj. destruct (match_at fl text r j) as [st|] eqn:E; [|reflexivity].
  apply match_at_sound in E.
  pose proof (consumes_progress Hc E) as Hp.
  pose proof (Matches_bounds E) as [_ Hb]. cbn [pos fst] in *. lia.
Qed.

Lemma exec_none_match_at fl text r i j :
  consumes r = true -> exec_match fl r text i = None -> i <= j ->
  match_at fl text r j = None.
Proof.
  intros Hc He Hij. destruct (Nat.le_gt_cases j (List.length text)) as [Hj|Hj].
  - destruct (match_at fl text r j) as [st|] eqn:E; [|reflexivity].
    apply match_at_sound in E. exfalso. exact (exec_match_none He Hij Hj E).
  - apply match_at_none_after; [exact Hc|lia].
Qed.

Lemma global_matches_visits fl r text :
  consumes r = true ->
  forall fuel i, List.length text - i < fuel ->
    visits fl text r i (global_matches fl r text fuel i).
Proof.
  intros Hc. induction fuel as [|f IH]; intros i Hf; [lia|].
  cbn [global_matches].
  destruct (exec_match fl r text i) as [x|] eqn:E.
  - pose proof E as E1. apply exec_match_sound in E1 as (H1 & H2 & H3 & HM).
    pose proof (consumes_progress Hc HM) as Hp. cbn [pos fst] in Hp.
    pose proof E as E2. apply exec_match_first in E2 as [_ Hgap].
    replace (m_end x =? index x) with false by (symmetry; apply Nat.eqb_neq; lia).
    cbn [visits]. repeat split; try assumption.
    + intros j Hj1 Hj2. apply Hgap. lia.
    + apply IH. lia.
  - cbn [visits]. intros j Hj. eapply exec_none_match_at; eassumption.
Qed.

Lemma In_skipn_nth (A : Type) (l : list A) n c :
  In c (skipn n l) -> exists j, n <= j /\ nth_error l j = Some c.
Proof.
  intros Hin. apply In_nth_error in Hin as (k & Hk).
  exists (n + k). split; [lia|]. rewrite <- Hk. symmetry. apply nth_error_skipn.
Qed.

Lemma In_slice_nth s i j c :
  In c (slice s i j) -> exists k, i <= k /\ k < j /\ nth_error s k = Some c.
Proof.
  intros Hin. unfold slice in Hin. apply In_nth_error in Hin as (k & Hk).
  assert (Hlt : k < j - i).
  { assert (Hs : nth_error (firstn (j - i) (skipn i s)) k <> None) by congruence.
    apply nth_error_Some in Hs. rewrite length_firstn in Hs. lia. }
  exists (i + k). split; [lia|]. split; [lia|].
  rewrite <- Hk. rewrite nth_error_firstn.
  replace (k <? j - i) with true by (symmetry; apply Nat.ltb_lt; exact Hlt).
  symmetry. apply nth_error_skipn.
Qed.

Lemma replace_fold_chars (St : Type) fl r text (f : St -> rmatch -> St * jsstring)
    (P : char -> Prop) :
  (forall j c, nth_error text j = Some c -> match_at fl text r j = None -> P c) ->
  (forall s x, Forall P (snd (f s x))) ->
  forall ms s next, visits fl text r next ms ->
    Forall P (snd (replace_fold text f ms s next)).
Proof.
  intros Hgap Hrep. induction ms as [|x ms IH]; intros s next Hv.
  - cbn [replace_fold snd]. cbn [visits] in Hv. apply Forall_forall. intros c Hc.
    apply In_skipn_nth in Hc as (j & Hj & Hn). apply (Hgap j c Hn). apply Hv. exact Hj.
  - cbn [replace_fold]. cbn [visits] in Hv. destruct Hv as (H1 & H2 & H3 & H4 & H5).
    specialize (Hrep s x). destruct (f s x) as [s1 rep]. cbn [snd] in Hrep.
    replace (next <=? index x) with true by (symmetry; apply Nat.leb_le; exact H1).
    specialize (IH s1 (m_end x) H5).
    destruct (replace_fold text f ms s1 (m_end x)) as [s2 rest]. cbn [snd] in *.
    apply Forall_app. split; [|apply Forall_app; split; assumption].
    apply Forall_forall. intros c Hc.
    apply In_slice_nth in Hc as (k & Hk1 & Hk2 & Hn). apply (Hgap k c Hn).
    apply H4; assumption.
Qed.

Lemma replace_all_chars fl r text (f : rmatch -> jsstring) (P : char -> Prop) :
  consumes r = true ->
  (forall j c, nth_error text j = Some c -> match_at fl text r j = None -> P c) ->
  (forall x, Forall P (f x)) ->
  Forall P (replace_all fl r text f).
Proof.
  intros Hc Hgap Hrep. unfold replace_all, replace_all_st.
  apply (@replace_fold_chars unit fl r text (fun _ x => (tt, f x)) P Hgap).
  - intros s x. apply Hrep.
  - apply global_matches_visits; [exact Hc|lia].
Qed.

(** ** The id of a heading *)

Lemma class_unmatched fl text neg items j c :
  nth_error text j = Some c -> match_at fl text (Class neg items) j = None ->
  class_mem fl neg items c = false.
Proof.
  intros Hn Hm. destruct (class_mem fl neg items c) eqn:E; [|reflexivity].
  exfalso. apply (@match_at_complete fl text (Class neg items) j (S j, [])); [|exact Hm].
  apply (M_Class fl text neg items (j, []) (x := c)); assumption.
Qed.

Lemma run_unmatched fl text neg items j c :
  nth_error text j = Some c ->
  match_at fl text (plus (Class neg items)) j = None ->
  class_mem fl neg items c = false.
Proof.
  intros Hn Hm. destruct (class_mem fl neg items c) eqn:E; [|reflexivity].
  exfalso. apply (@match_at_complete fl text (plus (Class neg items)) j (j + 1, []));
    [|exact Hm].
  apply (@Matches_rep_run fl text (Class neg items) _ true eq_refl 1);
    [lia|discriminate|].
  intros k Hk. assert (k = 0) by lia. subst k. rewrite Nat.add_0_r.
  exists c. split; assumption.
Qed.

Lemma id_char_of c :
  class_mem no_flags true [cr "a" "z"; cr "0" "9"; CSpace] c = false ->
  class_mem no_flags false [CSpace] c = false ->
  is_id_char c = true.
Proof.
  unfold is_id_char, class_mem, item_mem, cr, cc, in_range, char_eq, canon, ch. simpl.
  rewrite !orb_false_r. intros H1 H2. rewrite H2, orb_false_r in H1.
  destruct ((97 <=? c)%N && (c <=? 122)%N); [reflexivity|].
  destruct ((48 <=? c)%N && (c <=? 57)%N); [reflexivity|discriminate].
Qed.

Lemma Forall_firstn (A : Type) (P : A -> Prop) n l :
  Forall P l -> Forall P (firstn n l).
Proof.
  intros H. rewrite <- (firstn_skipn n l) in H. apply Forall_app in H. apply H.
Qed.

Lemma headingId_chars (toLowerCase : jsstring -> jsstring) text :
  List.length (headingId toLowerCase text) <= 50
  /\ Forall (fun c => is_id_char c = true) (headingId toLowerCase text).
Proof.
  unfold headingId. rewrite substring_slice by lia. unfold slice. cbn [skipn].
  split; [rewrite length_firstn; lia|]. apply Forall_firstn.
  set (c1 := replace_all no_flags (Class true [cr "a" "z"; cr "0" "9"; CSpace])
                         (toLowerCase text) (fun _ => [])).
  assert (H1 : Forall (fun c => class_mem no_flags true [cr "a" "z"; cr "0" "9"; CSpace] c
                               = false) c1).
  { apply replace_all_chars; [reflexivity| |intros x; constructor].
    intros j c Hn Hm. eapply class_unmatched; eassumption. }
  apply replace_all_chars; [reflexivity| |intros x; repeat constructor].
  intros j c Hn Hm. apply id_char_of.
  - rewrite Forall_forall in H1. apply H1. eapply nth_error_In. exact Hn.
  - eapply run_unmatched; eassumption.
Qed.

(** ** The elements of a heading *)

Lemma small_variables_spans text :
  Forall (fun el => is_text_span el = true) (processTextWithSmallVariables text).
Proof.
  unfold processTextWithSmallVariables. apply Forall_forall. intros el Hin.
  apply filter_In in Hin as [Hin _]. apply in_map_iff in Hin as ([i part] & <- & _).
  destruct (isSimpleVariable part); [reflexivity|].
  destruct (isSmallVariableLatex part); reflexivity.
Qed.

Lemma mixed_fold_spans text ms :
  forall st,
    Forall (fun el => is_text_span el = true) (fst st) ->
    Forall (fun el => is_text_span el = true) (fst (fold_left (mixed_step text) ms st)).
Proof.
  induction ms as [|[i mm] ms IH]; intros [elements currentIndex] H; [exact H|].
  cbn [fold_left]. apply IH. cbn [mixed_step fst] in *.
  apply Forall_app. split; [exact H|]. apply Forall_app. split.
  - destruct (currentIndex <? ms_start mm); [|constructor].
    destruct (truthy _); [apply small_variables_spans|constructor].
  - constructor; [reflexivity|constructor].
Qed.

Lemma processMixedContent_spans text :
  Forall (fun el => is_text_span el = true) (processMixedContent text).
Proof.
  unfold processMixedContent.
  pose proof (@mixed_fold_spans text (indexed (mixed_matches text)) ([], 0)
                (Forall_nil _)) as H.
  destruct (fold_left (mixed_step text) (indexed (mixed_matches text)) ([], 0))
    as [elements currentIndex].
  cbn [fst] in H.
  destruct (List.length (mixed_matches text) =? 0); [apply small_variables_spans|].
  apply Forall_forall. intros el Hin. apply filter_In in Hin as [Hin _].
  revert el Hin. apply Forall_forall.
  destruct (currentIndex <? List.length text); [|exact H].
  destruct (truthy _); [|exact H].
  apply Forall_app. split; [exact H|apply small_variables_spans].
Qed.

(** ** Headings *)

(** X20: the id that [renderHeading] gives a heading has at most 50
    characters, each of them a lower-case letter, a digit or a hyphen,
    whatever the text and the level are; and the children of the heading are
    spans around a text each: a formula of the heading is not handed to a
    formula component, it stays as its source in a span. *)
Theorem renderHeading_id_and_children :
  forall (toLowerCase : jsstring -> jsstring) (text : jsstring) (level : nat),
    exists tag id props children,
      renderHeading toLowerCase text level
      = Elem tag None (("id"%string, id) :: props) children
      /\ List.length id <= 50
      /\ Forall (fun c => is_id_char c = true) id
      /\ Forall (fun el => is_text_span el = true) children.
Proof.
  intros toLowerCase text level. unfold renderHeading. cbn [app].
  eexists _, _, _, _. split; [reflexivity|].
  destruct (headingId_chars toLowerCase text) as [H1 H2].
  split; [exact H1|]. split; [exact H2|]. apply processMixedContent_spans.
Qed.

(** ** The tags that [parseLatexList] removes *)

Lemma name_chars text name rest :
  valid_name name -> text = js "\begin{" ++ name ++ js "}" ++ rest ->
  forall n, run text (class_mem flags_s true [cc "}"]) 7 n ->
            nth_error text (7 + n) = Some (ch "}") -> n = List.length name.
Proof.
  intros [_ Hn] -> n Hrun Hclose.
  assert (Hat : forall k, nth_error (js "\begin{" ++ name ++ js "}" ++ rest) (7 + k)
                          = nth_error (name ++ js "}" ++ rest) k).
  { intros k. rewrite nth_error_app2 by (simpl; lia).
    f_equal. simpl. lia. }
  destruct (lt_eq_lt_dec n (List.length name)) as [[Hlt|Heq]|Hgt]; [|exact Heq|].
  - exfalso. rewrite Hat, nth_error_app1 in Hclose by exact Hlt.
    apply nth_error_In in Hclose. rewrite Forall_forall in Hn.
    exact (Hn _ Hclose eq_refl).
  - exfalso. destruct (Hrun (List.length name) Hgt) as (x & Hx & Hp).
    rewrite Hat, nth_error_app2 in Hx by lia.
    rewrite Nat.sub_diag in Hx. simpl in Hx. injection Hx as <-.
    apply (not_brace_class flags_s) in Hp; [|reflexivity]. apply Hp. reflexivity.
Qed.

Lemma begin_tag_removed name rest :
  valid_name name ->
  replace_first flags_s beginTagPattern (tag_text (js "begin") name ++ rest)
                (fun _ => [])
  = rest.
Proof.
  intros Hv. set (text := tag_text (js "begin") name ++ rest).
  assert (Htext : text = js "\begin{" ++ name ++ js "}" ++ rest).
  { unfold text, tag_text. rewrite <- !app_assoc. reflexivity. }
  assert (Ho : occurs text 0 (tag_text (js "begin") name))
    by apply occurs_prefix.
  apply tag_text_parts in Ho as (H0 & Hkind & Hopen & Hname & Hclose).
  change (List.length (js "begin")) with 5 in *.
  assert (HM : Matches flags_s text beginTagPattern (0, [])
                       (8 + List.length name, [])).
  { unfold beginTagPattern. cbn [seqs].
    apply build_seq with (j := 0) (c' := []); [apply build_bol|].
    apply build_seq with (j := 7) (c' := []).
    { apply build_lit; [reflexivity| |reflexivity].
      rewrite Htext. apply occurs_prefix. }
    apply build_seq with (j := 7 + List.length name) (c' := []).
    { apply build_run with (p := class_mem flags_s true [cc "}"])
                           (n := List.length name);
        [reflexivity| | |discriminate|reflexivity].
      - intros i Hi. destruct (nth_error name i) as [x|] eqn:E.
        + exists x. split; [apply Hname; exact E|].
          apply (@not_brace_class flags_s x eq_refl).
          destruct Hv as [_ Hn]. rewrite Forall_forall in Hn.
          apply Hn. eapply nth_error_In. exact E.
        + apply nth_error_None in E. lia.
      - destruct Hv as [Hne _]. destruct name; simpl; [congruence|lia]. }
    apply build_char; [reflexivity|exact Hclose|lia]. }
  unfold replace_first.
  destruct (exec_match flags_s beginTagPattern text 0) as [x|] eqn:E.
  - apply exec_match_sound in E as (_ & _ & _ & HMx).
    unfold beginTagPattern in HMx. cbn [seqs] in HMx.
    apply inv_seq in HMx as (y0 & Hb & HMx).
    apply inv_bol in Hb as [-> Hz]; [|reflexivity]. cbn [pos fst] in Hz.
    apply inv_seq in HMx as (y1 & H1 & HMx).
    apply Matches_lit_inv in H1 as [-> _]; [|reflexivity].
    cbn [pos caps fst snd] in *. rewrite Hz in *.
    change (0 + List.length (js "\begin{")) with 7 in *.
    apply inv_seq in HMx as (y2 & H2 & HMx).
    assert (Hr2 := Matches_rep_run_inv (a := Class true [cc "}"]) (g := true)
                                       eq_refl H2 eq_refl).
    destruct Hr2 as (n & -> & _ & _ & Hrun); [discriminate|].
    cbn [pos caps fst snd] in *.
    apply inv_char in HMx as [Hc Hy]; [|reflexivity].
    cbn [pos caps fst snd] in *. inversion Hy as [[Hend Hcaps]].
    assert (Hnn : n = List.length name)
      by exact (@name_chars text name rest Hv Htext n Hrun Hc).
    rewrite Hend, Hnn. change (slice text 0 0) with (@nil char). cbn [app].
    unfold text, tag_text. rewrite <- !app_assoc.
    change (js "\" ++ js "begin" ++ js "{" ++ name ++ js "}" ++ rest)
      with (js "\begin{" ++ name ++ js "}" ++ rest).
    replace (S (S (S (S (S (S (S (S (List.length name)))))))))
      with (List.length (js "\begin{" ++ name ++ js "}"))
      by (rewrite !length_app; simpl; lia).
    replace (js "\begin{" ++ name ++ js "}" ++ rest)
      with ((js "\begin{" ++ name ++ js "}") ++ rest)
      by (rewrite <- !app_assoc; reflexivity).
    rewrite skipn_app, skipn_all, Nat.sub_diag. reflexivity.
  - exfalso.
    exact (exec_match_none E (Nat.le_0_l 0) (Nat.le_0_l _) HM).
Qed.

Lemma end_tag_removed name body :
  valid_name name -> includes body (js "\end{") = false ->
  replace_first flags_s endTagPattern (body ++ tag_text (js "end") name)
                (fun _ => [])
  = body.
Proof.
  intros Hv Hfree. set (text := body ++ tag_text (js "end") name).
  set (b := List.length body).
  assert (Hbody : occurs text 0 body) by apply occurs_prefix.
  assert (Ho : occurs text b (tag_text (js "end") name)).
  { pose proof (@occurs_prefix (tag_text (js "end") name) []) as Hp.
    rewrite app_nil_r in Hp.
    replace b with (b + 0) by lia.
    exact (@occurs_skip body _ 0 _ Hp). }
  assert (Hlen : List.length text = b + 5 + List.length name + 1).
  { unfold text, b. rewrite length_app, tag_text_length.
    change (List.length (js "end")) with 3. lia. }
  pose proof Ho as Hparts.
  apply tag_text_parts in Hparts as (H0 & Hkind & Hopen & Hname & Hclose).
  change (List.length (js "end")) with 3 in *.
  assert (HM : Matches flags_s text endTagPattern (b, []) (List.length text, [])).
  { unfold endTagPattern. cbn [seqs].
    apply build_seq with (j := b + 5) (c' := []).
    { apply build_lit; [reflexivity| |reflexivity].
      unfold tag_text in Ho. 
      change (js "\" ++ js "end" ++ js "{" ++ name ++ js "}")
        with (js "\end{" ++ name ++ js "}") in Ho.
      apply occurs_app in Ho as [Ho _]. exact Ho. }
    apply build_seq with (j := b + 5 + List.length name) (c' := []).
    { apply build_run with (p := class_mem flags_s true [cc "}"])
                           (n := List.length name);
        [reflexivity| | |discriminate|reflexivity].
      - intros i Hi. destruct (nth_error name i) as [x|] eqn:E.
        + exists x. split.
          * replace (b + 5 + i) with (S (S b + 3) + i) by lia.
            apply Hname; exact E.
          * apply (@not_brace_class flags_s x eq_refl).
            destruct Hv as [_ Hn]. rewrite Forall_forall in Hn.
            apply Hn. eapply nth_error_In. exact E.
        + apply nth_error_None in E. lia.
      - destruct Hv as [Hne _]. destruct name; simpl; [congruence|lia]. }
    apply build_seq with (j := List.length text) (c' := []).
    { apply build_char; [reflexivity| |lia].
      replace (b + 5 + List.length name) with (S (S b + 3) + List.length name)
        by lia.
      exact Hclose. }
    apply build_eol. reflexivity. }
  unfold replace_first.
  destruct (exec_match flags_s endTagPattern text 0) as [x|] eqn:E.
  - pose proof (@exec_match_first _ _ _ _ _ E) as [_ Hfirst].
    apply exec_match_sound in E as (_ & _ & _ & HMx).
    unfold endTagPattern in HMx. cbn [seqs] in HMx.
    apply inv_seq in HMx as (y1 & H1 & HMx).
    apply Matches_lit_inv in H1 as [-> Hopening]; [|reflexivity].
    cbn [pos caps fst snd] in *.
    change (List.length (js "\end{")) with 5 in *.
    apply inv_seq in HMx as (y2 & H2 & HMx).
    assert (Hr2 := Matches_rep_run_inv (a := Class true [cc "}"]) (g := true)
                                       eq_refl H2 eq_refl).
    destruct Hr2 as (n & -> & _ & _ & _); [discriminate|].
    cbn [pos caps fst snd] in *.
    apply inv_seq in HMx as (y3 & H3 & HMx).
    apply inv_char in H3 as [_ ->]; [|reflexivity].
    cbn [pos caps fst snd] in *.
    apply inv_eol in HMx as [Hy He]; [|reflexivity].
    cbn [pos fst] in He. inversion Hy as [[Hend Hcaps]].
    assert (Hle : index x <= b).
    { destruct (le_lt_dec (index x) b) as [H|H]; [exact H|exfalso].
      apply (match_at_complete HM). apply Hfirst. lia. }
    assert (Hge : b <= index x).
    { destruct (le_lt_dec b (index x)) as [H|H]; [exact H|exfalso].
      destruct (le_lt_dec (index x + 5) b) as [Hin|Hout].
      - assert (Hw : occurs body (index x - 0) (js "\end{")).
        { apply (@occurs_within text 0 body (index x) (js "\end{"));
            [exact Hbody|exact Hopening|lia|simpl; fold b; lia]. }
        apply occurs_includes in Hw. congruence.
      - set (d := b - index x).
        assert (Hd : 1 <= d /\ d < List.length (js "\end{"))
          by (unfold d; simpl; lia).
        pose proof (occurs_nth Hopening (proj2 Hd)) as Hn.
        replace (index x + d) with b in Hn by (unfold d; lia).
        rewrite H0 in Hn. symmetry in Hn.
        exact (@opening_inner (js "\end{") d (or_intror eq_refl) (proj1 Hd) Hn). }
    assert (Hix : index x = b) by lia.
    rewrite Hend, He, Hix, skipn_all. cbn [app]. rewrite app_nil_r.
    apply (@occurs_slice text 0 body Hbody).
  - exfalso.
    refine (exec_match_none E (Nat.le_0_l b) _ HM). lia.
Qed.

Lemma innerContent_inner name body :
  valid_name name -> includes body (js "\end{") = false ->
  innerContent_of (tag_text (js "begin") name ++ body ++ tag_text (js "end") name)
  = trim body.
Proof.
  intros Hv Hfree. unfold innerContent_of.
  rewrite (@begin_tag_removed name _ Hv).
  rewrite (@end_tag_removed name body Hv Hfree). reflexivity.
Qed.

(** ** White space at the ends *)

Lemma trimStart_nil s : trimStart s = [] <-> forallb is_space s = true.
Proof.
  induction s as [|c s IH]; simpl; [tauto|].
  destruct (is_space c); simpl; [exact IH|]. split; discriminate.
Qed.

Lemma trimStart_spaces ws rest :
  forallb is_space ws = true -> trimStart (ws ++ rest) = trimStart rest.
Proof.
  induction ws as [|c ws IH]; simpl; [reflexivity|].
  destruct (is_space c); simpl; [exact IH|discriminate].
Qed.

Lemma trimStart_app s rest :
  forallb is_space s = false -> trimStart (s ++ rest) = trimStart s ++ rest.
Proof.
  induction s as [|c s IH]; simpl; [discriminate|].
  destruct (is_space c); simpl; [exact IH|reflexivity].
Qed.

Lemma forallb_rev (A : Type) (p : A -> bool) l : forallb p (rev l) = forallb p l.
Proof.
  induction l as [|x l IH]; simpl; [reflexivity|].
  rewrite forallb_app, IH. simpl. rewrite andb_true_r. apply andb_comm.
Qed.

Lemma trimEnd_cons c s :
  trimEnd (c :: s) = if forallb is_space (c :: s) then [] else c :: trimEnd s.
Proof.
  unfold trimEnd. cbn [rev forallb].
  destruct (forallb is_space s) eqn:Hs.
  - rewrite trimStart_spaces by (rewrite forallb_rev; exact Hs).
    rewrite andb_true_r.
    assert (Hn : trimStart (rev s) = [])
      by (apply trimStart_nil; rewrite forallb_rev; exact Hs).
    rewrite Hn. simpl. destruct (is_space c); reflexivity.
  - rewrite andb_false_r.
    rewrite trimStart_app by (rewrite forallb_rev; exact Hs).
    rewrite rev_app_distr. reflexivity.
Qed.

Lemma trimEnd_nil s : trimEnd s = [] <-> forallb is_space s = true.
Proof.
  unfold trimEnd. rewrite <- (forallb_rev is_space s), <- trimStart_nil.
  split; intros H.
  - apply (f_equal (@rev char)) in H. rewrite rev_involutive in H. exact H.
  - rewrite H. reflexivity.
Qed.

Lemma trimStart_blank_iff s :
  forallb is_space (trimStart s) = forallb is_space s.
Proof.
  induction s as [|c s IH]; simpl; [reflexivity|].
  destruct (is_space c) eqn:Hc; simpl; [exact IH|rewrite Hc; reflexivity].
Qed.

Lemma trim_blank s : truthy (trim s) = false <-> forallb is_space s = true.
Proof.
  unfold trim. rewrite <- trimStart_blank_iff, <- trimEnd_nil.
  destruct (trimEnd (trimStart s)); simpl; split; congruence.
Qed.

Lemma trim_commute s : trimStart (trimEnd s) = trimEnd (trimStart s).
Proof.
  induction s as [|c s IH]; [reflexivity|].
  rewrite trimEnd_cons. cbn [forallb trimStart].
  destruct (is_space c) eqn:Hc; cbn [andb].
  - destruct (forallb is_space s) eqn:Hs.
    + apply trimStart_nil in Hs. rewrite Hs. reflexivity.
    + cbn [trimStart]. rewrite Hc. exact IH.
  - cbn [trimStart]. rewrite Hc. rewrite trimEnd_cons. cbn [forallb].
    rewrite Hc. reflexivity.
Qed.

Lemma trimStart_idem s : trimStart (trimStart s) = trimStart s.
Proof.
  induction s as [|c s IH]; simpl; [reflexivity|].
  destruct (is_space c) eqn:Hc; [exact IH|]. simpl. rewrite Hc. reflexivity.
Qed.

Lemma trim_trimEnd s : trim (trimEnd s) = trim s.
Proof.
  unfold trim. rewrite trim_commute.
  unfold trimEnd at 1 2. rewrite rev_involutive, trimStart_idem. reflexivity.
Qed.

Lemma trimEnd_app s t :
  forallb is_space t = false -> trimEnd (s ++ t) = s ++ trimEnd t.
Proof.
  intros Ht. unfold trimEnd. rewrite rev_app_distr.
  rewrite trimStart_app by (rewrite forallb_rev; exact Ht).
  rewrite rev_app_distr, rev_involutive. reflexivity.
Qed.

Lemma trimEnd_prefix s : exists ws, s = trimEnd s ++ ws.
Proof.
  induction s as [|c s [ws IH]]; [exists []; reflexivity|].
  rewrite trimEnd_cons. destruct (forallb is_space (c :: s)).
  - exists (c :: s). reflexivity.
  - exists ws. simpl. f_equal. exact IH.
Qed.

(** ** The items of a list *)

Lemma occurs_past (pre rest : jsstring) k l :
  occurs (pre ++ rest) k l -> List.length pre <= k ->
  occurs rest (k - List.length pre) l.
Proof.
  intros H Hk j x Hj. apply H in Hj.
  rewrite nth_error_app2 in Hj by lia.
  replace (k - List.length pre + j) with (k + j - List.length pre) by lia.
  exact Hj.
Qed.

Lemma items_no_command p c :
  nth_error p 0 = Some (ch "\") -> nth_error p 1 = Some c -> c <> ch "i" ->
  forall items, Forall (fun item => Forall (fun x => x <> ch "\") item) items ->
    forall k, ~ occurs (items_text items) k p.
Proof.
  intros H0 H1 Hc items. induction items as [|a items IH]; intros Hall k Ho.
  - apply Ho in H0. destruct (k + 0); discriminate.
  - inversion Hall as [|? ? Ha Hitems]; subst.
    unfold items_text in Ho. cbn [List.map concat] in Ho.
    fold (items_text items) in Ho. rewrite <- app_assoc in Ho.
    destruct (le_lt_dec 5 k) as [H5|H5].
    + apply occurs_past in Ho; [|exact H5].
      change (List.length (js "\item")) with 5 in Ho.
      destruct (le_lt_dec (List.length a) (k - 5)) as [Hk|Hk].
      * apply occurs_past in Ho; [|exact Hk]. exact (IH Hitems _ Ho).
      * apply Ho in H0. rewrite nth_error_app1 in H0 by lia.
        apply nth_error_In in H0. rewrite Forall_forall in Ha.
        exact (Ha _ H0 eq_refl).
    + pose proof (Ho _ _ H0) as E0. pose proof (Ho _ _ H1) as E1.
      rewrite Nat.add_0_r in E0.
      destruct k as [|k].
      * simpl in E1. injection E1 as <-. apply Hc. reflexivity.
      * do 4 (destruct k as [|k]; [simpl in E0; discriminate|]). lia.
Qed.

Lemma items_tag_free items :
  Forall item_text items -> tag_free (items_text items).
Proof.
  intros Hall.
  assert (Hb : Forall (fun item => Forall (fun x => x <> ch "\") item) items).
  { eapply Forall_impl; [|exact Hall]. intros a [Ha _]. exact Ha. }
  split.
  - destruct (includes (items_text items) (js "\begin{")) eqn:E; [|reflexivity].
    apply includes_occurs in E as (k & _ & Ho). exfalso.
    refine (@items_no_command (js "\begin{") (ch "b") eq_refl eq_refl _ items Hb k Ho).
    discriminate.
  - destruct (includes (items_text items) (js "\end{")) eqn:E; [|reflexivity].
    apply includes_occurs in E as (k & _ & Ho). exfalso.
    refine (@items_no_command (js "\end{") (ch "e") eq_refl eq_refl _ items Hb k Ho).
    discriminate.
Qed.

Lemma item_match_here text q :
  occurs text q (js "\item") ->
  match_at no_flags text (lit "\item") q = Some (q + 5, []).
Proof.
  intros Ho.
  assert (HM : Matches no_flags text (lit "\item") (q, []) (q + 5, [])).
  { apply build_lit; [reflexivity|exact Ho|reflexivity]. }
  destruct (match_at no_flags text (lit "\item") q) as [st|] eqn:E.
  - apply match_at_sound in E.
    apply Matches_lit_inv in E as [-> _]; [|reflexivity]. reflexivity.
  - exfalso. exact (match_at_complete HM E).
Qed.

Lemma item_no_match text q :
  nth_error text q <> Some (ch "\") ->
  match_at no_flags text (lit "\item") q = None.
Proof.
  intros Hq.
  destruct (match_at no_flags text (lit "\item") q) as [st|] eqn:E; [|reflexivity].
  apply match_at_sound in E.
  apply Matches_lit_inv in E as [_ Ho]; [|reflexivity].
  apply occurs_head in Ho. contradiction.
Qed.

Lemma split_items :
  forall fuel done cur rest text q,
    text = done ++ cur ++ items_text rest ->
    Forall (fun x => x <> ch "\") cur ->
    Forall (fun item => Forall (fun x => x <> ch "\") item) rest ->
    List.length done <= q -> q <= List.length done + List.length cur ->
    List.length text - q < fuel ->
    split_loop no_flags (lit "\item") text fuel (List.length done) q
    = List.map Some (cur :: rest).
Proof.
  induction fuel as [|f IH]; intros done cur rest text q Ht Hcur Hrest Hlo Hhi Hfuel;
    [lia|].
  cbn [split_loop].
  assert (Hslice : slice text (List.length done) (List.length done + List.length cur)
                   = cur).
  { rewrite Ht. apply slice_middle. }
  destruct (le_lt_dec (List.length done + List.length cur) q) as [Hq|Hq].
  - assert (Eq : q = List.length done + List.length cur) by lia.
    destruct rest as [|a rest].
    + assert (Hlen : List.length text = q).
      { rewrite Ht, !length_app. simpl. lia. }
      rewrite Hlen, Nat.ltb_irrefl, Eq, Hslice. reflexivity.
    + assert (Ht' : text = (done ++ cur) ++ js "\item" ++ a ++ items_text rest).
      { rewrite Ht. unfold items_text. cbn [List.map concat].
        rewrite <- !app_assoc. reflexivity. }
      assert (Ho : occurs text q (js "\item")).
      { rewrite Ht', Eq, <- length_app.
        replace (List.length (done ++ cur)) with (List.length (done ++ cur) + 0)
          by lia.
        apply occurs_skip. apply occurs_prefix. }
      assert (Hlen : q + 5 <= List.length text).
      { apply (occurs_bound Ho). discriminate. }
      assert (Hlt : (q <? List.length text) = true) by (apply Nat.ltb_lt; lia).
      rewrite Hlt, (item_match_here Ho). cbn [pos caps fst snd].
      rewrite Nat.min_l by lia.
      assert (Hne : (q + 5 =? List.length done) = false)
        by (apply Nat.eqb_neq; lia).
      rewrite Hne. cbn [List.map].
      change (group_texts text [] (List.length (groups (lit "\item"))))
        with (@nil (option jsstring)).
      cbn [app]. rewrite Eq at 1. rewrite Hslice. f_equal.
      replace (q + 5) with (List.length (done ++ cur ++ js "\item"))
        by (rewrite !length_app; simpl; lia).
      apply (IH (done ++ cur ++ js "\item") a rest text).
      * rewrite Ht'. rewrite <- !app_assoc. reflexivity.
      * inversion Hrest; assumption.
      * inversion Hrest; assumption.
      * lia.
      * lia.
      * rewrite !length_app. simpl. lia.
  - assert (Hn : nth_error text q = nth_error cur (q - List.length done)).
    { rewrite Ht, nth_error_app2 by lia. apply nth_error_app1. lia. }
    assert (Hlen : q < List.length text).
    { rewrite Ht, !length_app. lia. }
    assert (Hlt : (q <? List.length text) = true) by (apply Nat.ltb_lt; lia).
    rewrite Hlt, item_no_match.
    + apply IH; try assumption; lia.
    + rewrite Hn. intros E. apply nth_error_In in E.
      rewrite Forall_forall in Hcur. exact (Hcur _ E eq_refl).
Qed.

Lemma split_items_text items :
  items <> [] ->
  Forall (fun item => Forall (fun x => x <> ch "\") item) items ->
  split_strings no_flags (lit "\item") (items_text items) = [] :: items.
Proof.
  intros Hne Hall. unfold split_strings, split.
  destruct (items_text items) as [|c0 t0] eqn:Et.
  - destruct items as [|a items]; [congruence|discriminate].
  - rewrite <- Et.
    rewrite (@split_items _ [] [] items (items_text items) 0 eq_refl
               (Forall_nil _) Hall (Nat.le_refl _) (Nat.le_refl _));
      [|lia].
    cbn [List.map]. f_equal. rewrite map_map. apply map_id.
Qed.

Lemma items_text_app l1 l2 : items_text (l1 ++ l2) = items_text l1 ++ items_text l2.
Proof. unfold items_text. rewrite map_app, concat_app. reflexivity. Qed.

Lemma item_not_blank a : item_text a -> forallb is_space a = false.
Proof.
  intros [_ Ha]. destruct (forallb is_space a) eqn:E; [|reflexivity].
  apply trim_blank in E. congruence.
Qed.

Lemma trimEnd_item a : item_text a -> item_text (trimEnd a).
Proof.
  intros [Hb Ht]. split.
  - destruct (trimEnd_prefix a) as [ws E]. rewrite E in Hb.
    apply Forall_app in Hb. exact (proj1 Hb).
  - rewrite trim_trimEnd. exact Ht.
Qed.

Lemma trim_items init a :
  item_text a -> trim (items_text (init ++ [a])) = items_text (init ++ [trimEnd a]).
Proof.
  intros Ha. unfold trim.
  assert (Hs : trimStart (items_text (init ++ [a])) = items_text (init ++ [a])).
  { destruct init; reflexivity. }
  rewrite Hs, !items_text_app.
  unfold items_text at 2 4. cbn [List.map concat]. rewrite !app_nil_r.
  rewrite trimEnd_app by reflexivity.
  rewrite trimEnd_app by (apply item_not_blank; exact Ha).
  reflexivity.
Qed.

Lemma list_items_items items :
  items <> [] -> Forall item_text items -> list_items (items_text items) = items.
Proof.
  intros Hne Hall. unfold list_items.
  rewrite split_items_text; [|exact Hne|].
  - cbn [List.filter]. change (truthy (trim [])) with false. cbv iota.
    rewrite filter_all.
    + destruct items; [congruence|reflexivity].
    + intros a Ha. rewrite Forall_forall in Hall. exact (proj2 (Hall a Ha)).
  - eapply Forall_impl; [|exact Hall]. intros a [Ha _]. exact Ha.
Qed.

Lemma render_items_trim environment placeholders :
  forall l1 l2 s,
    List.map trim l1 = List.map trim l2 ->
    List.map (fun ii : nat * jsstring =>
                render_item environment placeholders (fst ii) (snd ii))
             (combine (seq s (List.length l1)) l1)
    = List.map (fun ii : nat * jsstring =>
                  render_item environment placeholders (fst ii) (snd ii))
               (combine (seq s (List.length l2)) l2).
Proof.
  induction l1 as [|a l1 IH]; intros [|b l2] s E; try discriminate;
    [reflexivity|].
  cbn [List.map] in E. injection E as Eab E.
  cbn [List.length seq combine List.map fst snd]. f_equal.
  - unfold render_item. rewrite Eab. reflexivity.
  - apply IH. exact E.
Qed.

Lemma plain_items_parsed environment name items :
  valid_name name -> items <> [] -> Forall item_text items ->
  parseLatexList
    (tag_text (js "begin") name ++ items_text items ++ tag_text (js "end") name)
    environment
  = List.map (fun ii : nat * jsstring =>
                render_item environment [] (fst ii) (snd ii))
             (indexed items).
Proof.
  intros Hv Hne Hall.
  destruct (exists_last Hne) as (init & a & ->).
  assert (Ha : item_text a).
  { apply Forall_app in Hall as [_ Hl]. inversion Hl; assumption. }
  assert (Hall' : Forall item_text (init ++ [trimEnd a])).
  { apply Forall_app in Hall as [Hi _]. apply Forall_app. split; [exact Hi|].
    constructor; [apply trimEnd_item; exact Ha|constructor]. }
  pose proof (items_tag_free Hall) as [_ Hfree].
  pose proof (items_tag_free Hall') as Hfree'.
  unfold parseLatexList.
  rewrite (innerContent_inner _ Hv Hfree), (trim_items init Ha).
  unfold placeholders_of. rewrite (tag_free_no_envs Hfree').
  cbn [indexed List.length seq combine fold_left app]. unfold substring_from.
  cbn [skipn].
  rewrite list_items_items; [|destruct init; discriminate|exact Hall'].
  apply render_items_trim. rewrite !map_app. cbn [List.map].
  rewrite trim_trimEnd. reflexivity.
Qed.

Lemma spaces_no_backslash ws :
  forallb is_space ws = true -> Forall (fun x => x <> ch "\") ws.
Proof.
  intros H. rewrite forallb_forall in H. apply Forall_forall.
  intros x Hx ->. apply H in Hx. discriminate.
Qed.


(** X21: a list environment with nothing but white space between its tags
    has no items, and [renderLatexEnvironment] shows it in the box for
    malformed environments, with the source text of the environment. *)
Theorem empty_list_is_malformed :
  forall (environment name ws : jsstring),
    valid_name name -> forallb is_space ws = true ->
    let content := tag_text (js "begin") name ++ ws ++ tag_text (js "end") name in
    parseLatexList content environment = []
    /\ renderLatexEnvironment environment content
       = Elem "div" None
           [("className"%string,
             js "bg-yellow-50 dark:bg-yellow-900/20 border border-yellow-200 dark:border-yellow-800 p-3 rounded-md my-4")]
           [Elem "p" None
                 [("className"%string, js "text-sm text-yellow-800 dark:text-yellow-200 mb-2")]
                 [TextNode (js "Malformed LaTeX "); TextNode environment;
                  TextNode (js " environment:")];
            Elem "pre" None
                 [("className"%string, js "whitespace-pre-wrap text-sm text-gray-700 dark:text-gray-300")]
                 [TextNode content]].
Proof.
  intros environment name ws Hv Hws content.
  assert (Hfree : includes ws (js "\end{") = false).
  { apply (absent_includes _ (spaces_no_backslash ws Hws)). left. reflexivity. }
  assert (Htrim : trim ws = []).
  { apply trim_blank in Hws. destruct (trim ws); [reflexivity|discriminate]. }
  assert (Hparse : parseLatexList content environment = []).
  { unfold parseLatexList, content.
    rewrite (innerContent_inner _ Hv Hfree), Htrim. reflexivity. }
  split; [exact Hparse|].
  unfold renderLatexEnvironment. rewrite Hparse. reflexivity.
Qed.

Lemma empty_list_is_malformed_witness :
  parseLatexList (js "\begin{itemize}" ++ js " " ++ js "\end{itemize}")
                 (js "itemize") = [].
Proof.
  apply (empty_list_is_malformed (js "itemize") (name := js "itemize") (js " ")).
  - split; [discriminate|]. repeat constructor; discriminate.
  - reflexivity.
Defined.

(** X22: a list environment whose items hold some text and no backslash is
    split into exactly these items: outside a description list
    [parseLatexList] returns one [li] for each item, in order, with the
    position of the item as key and the content of its trimmed text; an
    [itemize] environment becomes a [ul] of them and an [enumerate]
    environment an [ol]. *)
Theorem plain_list_rendered :
  forall (name : jsstring) (items : list jsstring),
    valid_name name -> items <> [] -> Forall item_text items ->
    let content :=
      tag_text (js "begin") name ++ items_text items ++ tag_text (js "end") name in
    let entries :=
      List.map (fun ii : nat * jsstring =>
                  Elem "li" (Some (number_to_string (fst ii)))
                       [("className"%string, js "mb-1")]
                       (renderItemContent [] (trim (snd ii))))
               (indexed items) in
    (forall environment, environment <> js "description" ->
                         parseLatexList content environment = entries)
    /\ renderLatexEnvironment (js "itemize") content
       = Elem "ul" None
              [("className"%string, js "list-disc list-outside space-y-1 my-4 pl-5")]
              entries
    /\ renderLatexEnvironment (js "enumerate") content
       = Elem "ol" None
              [("className"%string, js "list-decimal list-outside space-y-1 my-4 pl-5")]
              entries.
Proof.
  intros name items Hv Hne Hall content entries.
  assert (Hparse : forall environment,
             environment <> js "description" ->
             parseLatexList content environment = entries).
  { intros environment Hd. unfold content.
    rewrite (plain_items_parsed environment Hv Hne Hall).
    unfold entries. apply map_ext. intros [i a]. unfold render_item.
    destruct (str_eqb environment (js "description")) eqn:E; [|reflexivity].
    apply str_eqb_eq in E. contradiction. }
  assert (Hlen : (List.length entries =? 0) = false).
  { unfold entries, indexed. rewrite length_map, length_combine, length_seq.
    rewrite Nat.min_id. destruct items; [congruence|reflexivity]. }
  split; [exact Hparse|]. split.
  - unfold renderLatexEnvironment. rewrite Hparse by discriminate.
    rewrite Hlen. reflexivity.
  - unfold renderLatexEnvironment. rewrite Hparse by discriminate.
    rewrite Hlen. reflexivity.
Qed.

Lemma plain_list_rendered_witness :
  renderLatexEnvironment (js "itemize")
    (js "\begin{itemize}" ++ items_text [js " A"; js " B "] ++ js "\end{itemize}")
  = Elem "ul" None
         [("className"%string, js "list-disc list-outside space-y-1 my-4 pl-5")]
         (List.map (fun ii : nat * jsstring =>
                      Elem "li" (Some (number_to_string (fst ii)))
                           [("className"%string, js "mb-1")]
                           (renderItemContent [] (trim (snd ii))))
                   (indexed [js " A"; js " B "])).
Proof.
  apply (@plain_list_rendered (js "itemize") [js " A"; js " B "]).
  - split; [discriminate|]. repeat constructor; discriminate.
  - discriminate.
  - repeat constructor; discriminate.
Defined.

(** X23: the placeholders of [parseLatexList] are kept in a plain object, so
    a part of an item that is the name of a member of [Object.prototype] and
    no placeholder is looked up successfully: [renderItemContent] shows the
    inherited member in place of the text, and a list item that reads
    [constructor] or [toString] loses its text. *)
Theorem inherited_name_is_not_text :
  forall (placeholders : list (jsstring * jsstring)) (w : jsstring),
    In w object_prototype_names -> assoc w placeholders = None ->
    renderItemContent placeholders w
    = [Elem "span" (Some (js "0")) [] [Inherited w]]
    /\ parseLatexList (js "\begin{itemize}\item " ++ w ++ js "\end{itemize}")
                      (js "itemize")
       = [Elem "li" (Some (js "0")) [("className"%string, js "mb-1")]
               [Elem "span" (Some (js "0")) [] [Inherited w]]].
Proof.
  intros placeholders w Hw Hnone.
  assert (Hparts : List.filter truthy (split_strings no_flags placeholderRegex w)
                   = [w]
                   /\ existsb (str_eqb w) object_prototype_names = true).
  { unfold object_prototype_names in Hw. cbn [List.map In] in Hw.
    repeat (destruct Hw as [<- | Hw]; [split; vm_compute; reflexivity|]).
    contradiction. }
  destruct Hparts as [Hparts Hin]. split.
  - unfold renderItemContent. rewrite Hparts.
    cbn [indexed List.length seq combine List.map]. rewrite Hnone, Hin.
    reflexivity.
  - clear Hparts Hin Hnone. unfold object_prototype_names in Hw.
    cbn [List.map In] in Hw.
    repeat (destruct Hw as [<- | Hw]; [vm_compute; reflexivity|]).
    contradiction.
Qed.

Lemma inherited_name_is_not_text_witness :
  renderItemContent [] (js "constructor")
  = [Elem "span" (Some (js "0")) [] [Inherited (js "constructor")]].
Proof.
  apply (@inherited_name_is_not_text [] (js "constructor")).
  - left. reflexivity.
  - reflexivity.
Defined.

(** ** Spans that do not overlap *)

Lemma ForallOrdPairs_app (A : Type) (R : A -> A -> Prop) l1 l2 :
  ForallOrdPairs R l1 -> ForallOrdPairs R l2 ->
  (forall a b, In a l1 -> In b l2 -> R a b) ->
  ForallOrdPairs R (l1 ++ l2).
Proof.
  induction l1 as [|x l1 IH]; intros H1 H2 H; [exact H2|].
  inversion H1 as [|? ? Hx Hl1]; subst. cbn [app]. constructor.
  - apply Forall_app. split; [exact Hx|].
    apply Forall_forall. intros b Hb. apply H; [left; reflexivity|exact Hb].
  - apply IH; [exact Hl1|exact H2|].
    intros a b Ha Hb. apply H; [right; exact Ha|exact Hb].
Qed.

Lemma ForallOrdPairs_impl_In (A : Type) (R Q : A -> A -> Prop) l :
  (forall a b, In a l -> In b l -> R a b -> Q a b) ->
  ForallOrdPairs R l -> ForallOrdPairs Q l.
Proof.
  induction l as [|x l IH]; intros H HR; [constructor|].
  inversion HR as [|? ? Hx Hl]; subst. constructor.
  - rewrite Forall_forall in *. intros b Hb.
    apply H; [left; reflexivity|right; exact Hb|apply Hx; exact Hb].
  - apply IH; [|exact Hl]. intros a b Ha Hb. apply H; right; assumption.
Qed.

Lemma StronglySorted_pairs (A : Type) (R : A -> A -> Prop) l :
  StronglySorted R l -> ForallOrdPairs R l.
Proof.
  induction 1 as [|x l Hs IH Hx]; constructor; assumption.
Qed.

Lemma chained_pairs fl text r :
  forall l from,
    chained fl text r from l ->
    ForallOrdPairs (fun x y => m_end x <= index y) l.
Proof.
  induction l as [|x l IH]; intros from H; [constructor|].
  destruct H as (_ & _ & _ & _ & Hl). constructor; [|exact (IH _ Hl)].
  eapply Forall_impl; [|exact (@chained_Forall _ _ _ _ _ Hl)].
  intros y (Hy & _). exact Hy.
Qed.

Lemma mk_match_end text ty x :
  index x <= m_end x -> m_end x <= List.length text ->
  cm_end (mk_match text ty x) = m_end x.
Proof.
  intros H1 H2. unfold mk_match, rm_text. cbn [cm_end].
  rewrite slice_length by exact H2. lia.
Qed.

(** The spans of one scan with a pattern lie one after the other. *)
Lemma exec_all_apart fl r text ty :
  ForallOrdPairs (fun a b => cm_end a <= cm_start b)
                 (List.map (mk_match text ty) (exec_all fl r text)).
Proof.
  unfold exec_all.
  pose proof (exec_loop_chained fl text r (S (List.length text)) 0) as Hc.
  pose proof (@chained_Forall _ _ _ _ _ Hc) as Hb. apply chained_pairs in Hc.
  revert Hb Hc. generalize (exec_loop fl r text (S (List.length text)) 0).
  induction l as [|x l IH]; intros Hb Hc; [constructor|].
  inversion Hb as [|? ? (_ & Hx1 & Hx2 & _) Hbl]; subst.
  inversion Hc as [|? ? Hx Hl]; subst.
  cbn [List.map]. constructor; [|exact (IH Hbl Hl)].
  apply Forall_map. eapply Forall_impl; [|exact Hx].
  intros y Hy. rewrite mk_match_end by assumption. exact Hy.
Qed.

Lemma map_type text ty l :
  Forall (fun x => cm_type x = ty) (List.map (mk_match text ty) l).
Proof. apply Forall_map. apply Forall_forall. intros x _. reflexivity. Qed.

Lemma block_span_starts text z :
  In z (exec_all flags_s blockPattern text) ->
  ~ inline_math_span (mk_match text math z).
Proof.
  intros Hz (_ & H1 & H2).
  apply exec_all_matches in Hz as (_ & Hlen & HM).
  destruct (block_shape HM Hlen) as (rest & [E|E]);
    cbn [mk_match cm_content] in H1, H2; unfold rm_text in H1, H2;
    rewrite E in H1, H2; rewrite startsWith_app in *; discriminate.
Qed.

Lemma ForallOrdPairs_map (A B : Type) (f : A -> B) (R : B -> B -> Prop) l :
  ForallOrdPairs (fun a b => R (f a) (f b)) l -> ForallOrdPairs R (List.map f l).
Proof.
  induction 1 as [|x l Hx Hl IH]; cbn [List.map]; constructor; [|exact IH].
  apply Forall_map. exact Hx.
Qed.

Lemma In_map_type text ty l a :
  In a (List.map (mk_match text ty) l) -> cm_type a = ty.
Proof. intros H. apply in_map_iff in H as (z & <- & _). reflexivity. Qed.

Lemma kept_apart_sym a b : kept_apart a b -> kept_apart b a.
Proof.
  intros [H|[H|H]]; [left; symmetry; exact H|right; right; exact H|right; left; exact H].
Qed.

Lemma disjoint_spans_sym a b : disjoint_spans a b -> disjoint_spans b a.
Proof. intros [H|H]; [right|left]; exact H. Qed.

Lemma one_scan_apart fl r text ty :
  ForallOrdPairs (fun a b => kept_apart a b -> disjoint_spans a b)
                 (List.map (mk_match text ty) (exec_all fl r text)).
Proof.
  eapply ForallOrdPairs_impl_In; [|apply exec_all_apart].
  intros a b _ _ H _. left. exact H.
Qed.

(** The spans of the chemical tags, the headings and the block math. *)
Lemma scans_apart text :
  let acc :=
    findHeadingMatches text (findSmilesMatches text [])
    ++ List.map (mk_match text math) (exec_all flags_s blockPattern text) in
  ForallOrdPairs (fun a b => kept_apart a b -> disjoint_spans a b) acc
  /\ Forall (fun x => cm_type x <> env) acc.
Proof.
  unfold findHeadingMatches, findSmilesMatches. cbn [app]. split.
  - apply ForallOrdPairs_app; [apply ForallOrdPairs_app| |];
      try apply one_scan_apart.
    + intros a b Ha Hb Hk. exfalso.
      apply In_map_type in Ha, Hb.
      destruct Hk as [H|[((H & _) & _)|((H & _) & _)]]; congruence.
    + intros a b Ha Hb Hk. exfalso.
      assert (Hta : cm_type a <> math).
      { apply in_app_or in Ha as [Ha|Ha]; apply In_map_type in Ha;
          rewrite Ha; discriminate. }
      pose proof (In_map_type _ _ _ _ Hb) as Htb.
      destruct Hk as [H|[((H & _) & _)|(H & _)]]; try congruence.
      apply in_map_iff in Hb as (z & <- & Hz).
      exact (block_span_starts Hz H).
  - repeat (apply Forall_app; split);
      (eapply Forall_impl; [|apply map_type]); cbv beta;
      intros x ->; discriminate.
Qed.

Lemma inline_step_apart text acc x :
  ForallOrdPairs (fun a b => kept_apart a b -> disjoint_spans a b) acc ->
  Forall (fun y => cm_type y <> env) acc ->
  ForallOrdPairs (fun a b => kept_apart a b -> disjoint_spans a b)
                 (inline_step text acc x)
  /\ Forall (fun y => cm_type y <> env) (inline_step text acc x).
Proof.
  intros Hp Ht. unfold inline_step.
  destruct (existsb _ acc) eqn:Eo; [split; assumption|].
  destruct (isInListContext text (index x)); [split; assumption|].
  destruct (shouldSkipMathFragment (rm_text text x)); [split; assumption|].
  split.
  - apply ForallOrdPairs_app; [exact Hp|repeat constructor|].
    intros a b Ha [<-|[]] _.
    pose proof (existsb_false_In _ _ a Eo Ha) as Hf. cbv beta in Hf.
    unfold disjoint_spans. cbn [mk_match cm_start cm_end].
    apply andb_false_iff in Hf as [Hf|Hf]; apply Nat.ltb_ge in Hf; [left|right];
      exact Hf.
  - apply Forall_app. split; [exact Ht|]. repeat constructor. discriminate.
Qed.

Lemma inline_fold_apart text ms :
  forall acc,
    ForallOrdPairs (fun a b => kept_apart a b -> disjoint_spans a b) acc ->
    Forall (fun y => cm_type y <> env) acc ->
    ForallOrdPairs (fun a b => kept_apart a b -> disjoint_spans a b)
                   (fold_left (inline_step text) ms acc)
    /\ Forall (fun y => cm_type y <> env) (fold_left (inline_step text) ms acc).
Proof.
  induction ms as [|x ms IH]; intros acc Hp Ht; [split; assumption|].
  cbn [fold_left]. destruct (inline_step_apart text x Hp Ht) as [Hp' Ht'].
  apply IH; assumption.
Qed.

Lemma env_spans_apart text :
  ForallOrdPairs (fun a b => kept_apart a b -> disjoint_spans a b)
    (List.map (fun e => {| cm_start := env_start e; cm_end := env_end e;
                           cm_content := env_content e; cm_type := env |})
              (findTopLevelEnvs text)).
Proof.
  destruct (envs_in_order text) as [Hs He]. rewrite He.
  apply ForallOrdPairs_map. apply StronglySorted_pairs in Hs.
  eapply ForallOrdPairs_impl_In; [|exact Hs].
  intros a b _ _ H _. left. exact H.
Qed.

(** All the spans that the scanner collects, before the filter. *)
Lemma collected_apart text :
  ForallOrdPairs (fun a b => kept_apart a b -> disjoint_spans a b)
    (findEnvironmentMatches text
       (findMathMatches text
          (findHeadingMatches text (findSmilesMatches text [])))).
Proof.
  unfold findEnvironmentMatches, findMathMatches.
  destruct (scans_apart text) as [Hp Ht].
  destruct (inline_fold_apart text (exec_all flags_s inlinePattern text) Hp Ht)
    as [Hp' Ht'].
  apply ForallOrdPairs_app; [exact Hp'|apply env_spans_apart|].
  intros a b Ha Hb Hk. exfalso.
  rewrite Forall_forall in Ht'. specialize (Ht' a Ha).
  apply in_map_iff in Hb as (e & <- & _). cbn [cm_type] in Hk.
  destruct Hk as [H|[(_ & H)|((H & _) & _)]]; cbn [cm_type] in H;
    congruence.
Qed.

(** ** The alert for a block-level span *)

Lemma nth_error_indexed_from (A : Type) (l : list A) :
  forall s i x, nth_error l i = Some x ->
                In (s + i, x) (combine (seq s (List.length l)) l).
Proof.
  induction l as [|y l IH]; intros s i x H; [destruct i; discriminate|].
  destruct i as [|i]; cbn [List.length seq combine].
  - injection H as <-. left. rewrite Nat.add_0_r. reflexivity.
  - right. replace (s + S i) with (S s + i) by lia. apply IH. exact H.
Qed.

Lemma block_fold_elements content renderAsMarkdown l :
  forall elements currentIndex,
    let result :=
      fold_left (block_step content renderAsMarkdown) l (elements, currentIndex) in
    (forall e, In e elements -> In e (fst result))
    /\ (forall index x, In (index, x) l ->
                        In (renderMatchedContent x index) (fst result)).
Proof.
  induction l as [|[i y] l IH]; intros elements currentIndex; cbn [fold_left].
  - split; [auto|]. intros index x [].
  - unfold block_step at 2.
    match goal with
    | |- context [fold_left _ l (?els, ?ci)] =>
        destruct (IH els ci) as [Hkeep Hnew]
    end.
    split.
    + intros e He. apply Hkeep. apply in_or_app. left. exact He.
    + intros index x [E|Hin]; [|exact (Hnew _ _ Hin)].
      injection E as <- <-. apply Hkeep.
      apply in_or_app. right. apply in_or_app. right. left. reflexivity.
Qed.

Lemma complex_elements content renderAsMarkdown inline index x :
  nth_error (blockMatches content) index = Some x ->
  exists elements,
    renderWithComplexProcessing content renderAsMarkdown inline
    = prose inline elements
    /\ In (renderMatchedContent x index) elements.
Proof.
  intros Hn. unfold renderWithComplexProcessing.
  pose proof (@block_fold_elements content renderAsMarkdown
                (indexed (blockMatches content)) [] 0) as [_ Hnew].
  cbv zeta in Hnew.
  destruct (fold_left (block_step content renderAsMarkdown)
                      (indexed (blockMatches content)) ([], 0))
    as [elements currentIndex].
  cbn [fst] in Hnew.
  assert (Hin : In (renderMatchedContent x index) elements).
  { apply Hnew. apply (@nth_error_indexed_from _ _ 0 index x Hn). }
  set (final := if currentIndex <? List.length content then _ else elements).
  assert (Hfin : In (renderMatchedContent x index) final).
  { unfold final. destruct (currentIndex <? List.length content); [|exact Hin].
    apply in_or_app. left. exact Hin. }
  exists final. split; [|exact Hfin].
  destruct final; [destruct Hfin|reflexivity].
Qed.

Lemma env_span_source text x :
  In x (parseContent text) -> cm_type x = env ->
  exists e, In e (findTopLevelEnvs text) /\ cm_content x = env_content e.
Proof.
  intros Hin Hty. unfold parseContent in Hin.
  apply filterNestedMatches_In in Hin. unfold findEnvironmentMatches in Hin.
  apply in_app_or in Hin as [Hin|Hin].
  - exfalso. unfold findMathMatches in Hin.
    destruct (scans_apart text) as [Hp Ht].
    destruct (inline_fold_apart text (exec_all flags_s inlinePattern text) Hp Ht)
      as [_ Ht'].
    rewrite Forall_forall in Ht'. exact (Ht' x Hin Hty).
  - apply in_map_iff in Hin as (e & <- & He). exists e. split; [exact He|reflexivity].
Qed.

Lemma block_start_includes text x :
  valid_span text x ->
  is_some (match_ no_flags blockMathStart (cm_content x)) = true ->
  includes text (js "$$") = true \/ includes text (js "\[") = true.
Proof.
  intros (Hlt & Hlen & Hc) Hm. apply is_some_true in Hm as (z & Hz).
  unfold match_ in Hz. apply exec_match_sound in Hz as (_ & _ & _ & HM).
  unfold blockMathStart in HM.
  apply inv_seq in HM as (y0 & Hb & HM).
  apply inv_bol in Hb as [-> Hz]; [|reflexivity]. cbn [pos fst] in Hz.
  apply inv_group in HM as (y1 & HM & _).
  assert (Hin : forall l, occurs (cm_content x) 0 l -> includes text l = true).
  { intros l Ho. rewrite Hc in Ho.
    apply occurs_in_slice in Ho; [|lia|exact Hlen].
    exact (occurs_includes Ho). }
  apply inv_alt in HM as [HM|HM];
    apply Matches_lit_inv in HM as [_ Ho]; try reflexivity;
    cbn [pos fst] in Ho; rewrite Hz in Ho; [left|right]; apply Hin; exact Ho.
Qed.

Lemma block_span_complex content x :
  In x (blockMatches content) -> cm_type x = math \/ cm_type x = env ->
  hasComplexStructures content = true.
Proof.
  intros Hin Hty. unfold blockMatches in Hin.
  apply filter_In in Hin as [Hin Hb]. unfold hasComplexStructures.
  destruct Hty as [Hty|Hty].
  - unfold isBlockLevel in Hb. rewrite Hty in Hb.
    assert (Hv : valid_span content x).
    { pose proof (filterNestedMatches_Forall (all_matches_valid content)) as H.
      rewrite Forall_forall in H. apply H. exact Hin. }
    destruct (block_start_includes Hv Hb) as [H|H]; rewrite H;
      rewrite ?orb_true_r; reflexivity.
  - destruct (env_span_source _ _ Hin Hty) as (e & He & _).
    destruct (findTopLevelEnvs content); [destruct He|reflexivity].
Qed.

(** ** Small variables before inline math *)












(** ** Overlaps, validation and small variables in the whole pipeline *)

(** Where the scanner makes no overlap test, spans do overlap in part: a
    heading and block math, a chemical tag and a heading, and an environment
    with inline math, with block math, with a chemical tag and with a
    heading. *)
Lemma partial_overlaps_remain :
  List.map (fun x => (cm_start x, cm_end x, cm_type x))
           (parseContent (js "# a $$b" ++ [10%N] ++ js "$$"))
  = [(0, 7, heading); (4, 10, math)]
  /\ List.map (fun x => (cm_start x, cm_end x, cm_type x))
              (parseContent (js "<smiles>" ++ [10%N] ++ js "# a</smiles> b"))
     = [(0, 21, smiles); (9, 23, heading)]
  /\ List.map (fun x => (cm_start x, cm_end x, cm_type x))
              (parseContent (js "$a+\begin{x}$ \end{x}"))
     = [(0, 13, math); (3, 21, env)]
  /\ List.map (fun x => (cm_start x, cm_end x, cm_type x))
              (parseContent (js "$$a\begin{x}$$ \end{x}"))
     = [(0, 14, math); (3, 22, env)]
  /\ List.map (fun x => (cm_start x, cm_end x, cm_type x))
              (parseContent (js "<smiles>\begin{x}</smiles>\end{x}"))
     = [(0, 26, smiles); (8, 33, env)]
  /\ List.map (fun x => (cm_start x, cm_end x, cm_type x))
              (parseContent (js "# a \begin{x}" ++ [10%N] ++ js "\end{x}"))
     = [(0, 13, heading); (4, 21, env)].
Proof. repeat split; vm_compute; reflexivity. Qed.

(** C1 as the code has it: for every text the spans of [parseContent] are in
    strictly ascending order of their starts and of their ends, so that none
    lies inside another; two spans of the same type do not overlap, and an
    inline math span overlaps no span of a chemical tag, of a heading or of
    math; and each span has [0 <= start < end <= length] and holds the
    characters of the text from [start] to [end]. *)
Theorem parseContent_spans :
  forall text : jsstring,
    StronglySorted (fun a b => cm_start a < cm_start b /\ cm_end a < cm_end b)
                   (parseContent text)
    /\ (forall a b : ContentMatch,
           In a (parseContent text) -> In b (parseContent text) -> a <> b ->
           kept_apart a b -> disjoint_spans a b)
    /\ Forall (fun x => 0 <= cm_start x /\ cm_start x < cm_end x
                        /\ cm_end x <= List.length text
                        /\ cm_content x = substring text (cm_start x) (cm_end x))
              (parseContent text).
Proof.
  intros text. split; [|split].
  - unfold parseContent. apply filterNestedMatches_sorted.
  - intros a b Ha Hb Hne Hk. unfold parseContent in Ha, Hb.
    apply filterNestedMatches_In in Ha, Hb.
    destruct (ForallOrdPairs_In (collected_apart text) _ _ Ha Hb) as [E|[H|H]].
    + contradiction.
    + exact (H Hk).
    + apply disjoint_spans_sym, H, kept_apart_sym, Hk.
  - unfold parseContent.
    eapply Forall_impl; [|apply filterNestedMatches_Forall, all_matches_valid].
    intros x (H1 & H2 & H3). rewrite substring_slice by lia.
    repeat split; try lia. exact H3.
Qed.

Lemma parseContent_spans_witness :
  disjoint_spans
    {| cm_start := 0; cm_end := 5; cm_content := js "$$a$$"; cm_type := math |}
    {| cm_start := 6; cm_end := 11; cm_content := js "$b+1$"; cm_type := math |}.
Proof.
  apply (proj1 (proj2 (parseContent_spans (js "$$a$$ $b+1$")))).
  - vm_compute. left. reflexivity.
  - vm_compute. right. left. reflexivity.
  - discriminate.
  - left. reflexivity.
Defined.

(** C4 as the code has it: [validateLatexInput] refuses every string that
    holds one of the disallowed commands and accepts ordinary math and
    environment strings.  [RichText] makes this check after segmentation, on
    each block-level span of math or of an environment when it renders that
    span: whatever the flags are, the output of [RichText] for a content that
    passes the whole-input check holds the LaTeX error alert, keyed by the
    position of the span among the block-level spans, for every such span
    that fails. *)
Theorem disallowed_primitives_rejected_per_span :
  (forall (input : jsstring) (command : String.string),
      In command dangerousLatexCommands ->
      includes input (js command) = true ->
      validateLatexInput input = false)
  /\ (forall (x : ContentMatch) (index : nat),
         cm_type x = math \/ cm_type x = env ->
         validateLatexInput (cm_content x) = false ->
         renderMatchedContent x index = latexError index)
  /\ (forall (content : jsstring) (renderAsMarkdown inline : bool)
             (x : ContentMatch),
         validateMarkdownContent content = true ->
         In x (blockMatches content) ->
         cm_type x = math \/ cm_type x = env ->
         validateLatexInput (cm_content x) = false ->
         exists index elements,
           nth_error (blockMatches content) index = Some x
           /\ RichText content renderAsMarkdown inline
              = Some (prose inline elements)
           /\ In (latexError index) elements)
  /\ validateLatexInput (js "$x^2 + y^2$") = true
  /\ validateLatexInput (js "\begin{itemize}\item test\end{itemize}") = true
  /\ validateLatexInput (js "\frac{x}{y}") = true
  /\ RichText (js "$$\input{a}$$ and $$b$$") true false
     = Some (prose false
               [latexError 0;
                MarkdownEl (key_of "text-" 1) [] (js " and ");
                renderMatchedContent
                  {| cm_start := 18; cm_end := 23; cm_content := js "$$b$$";
                     cm_type := math |} 1]).
Proof.
  split; [|split; [|split]].
  - intros input command Hin Hinc.
    unfold validateLatexInput. apply negb_false_iff.
    apply existsb_exists. exists (lit command). split.
    + unfold dangerousLatexPatterns. apply in_map. exact Hin.
    + apply includes_occurs in Hinc as (i & Hi & Ho).
      apply (@test_true no_flags input (lit command) i
                        (i + List.length (js command), [])); [exact Hi|].
      apply Matches_lit; [reflexivity|exact Ho].
  - intros x index Hty Hv. unfold renderMatchedContent.
    destruct Hty as [-> | ->]; rewrite Hv; reflexivity.
  - intros content renderAsMarkdown inline x Hvalid Hin Hty Hbad.
    destruct (In_nth_error _ _ Hin) as (index & Hn).
    destruct (@complex_elements content renderAsMarkdown inline index x Hn)
      as (elements & Hr & He).
    exists index, elements. split; [exact Hn|]. split.
    + unfold RichText. rewrite Hvalid.
      assert (Ht : truthy content = true).
      { unfold validateMarkdownContent in Hvalid.
        destruct (truthy content); [reflexivity|discriminate]. }
      rewrite Ht, (block_span_complex _ _ Hin Hty). cbn [negb orb].
      rewrite Hr. reflexivity.
    + replace (latexError index) with (renderMatchedContent x index); [exact He|].
      unfold renderMatchedContent.
      destruct Hty as [-> | ->]; rewrite Hbad; reflexivity.
  - repeat split; vm_compute; reflexivity.
Qed.

Lemma disallowed_primitives_rejected_per_span_witness :
  validateLatexInput (js "see \input{file.tex}") = false
  /\ renderMatchedContent
       {| cm_start := 0; cm_end := 13; cm_content := js "$$\input{a}$$";
          cm_type := math |} 0
     = latexError 0
  /\ exists index elements,
       nth_error (blockMatches (js "$$\input{a}$$ and $$b$$")) index
       = Some {| cm_start := 0; cm_end := 13; cm_content := js "$$\input{a}$$";
                 cm_type := math |}
       /\ RichText (js "$$\input{a}$$ and $$b$$") true false
          = Some (prose false elements)
       /\ In (latexError index) elements.
Proof.
  split; [|split].
  - apply (proj1 disallowed_primitives_rejected_per_span _ "\input{"%string).
    + left. reflexivity.
    + vm_compute. reflexivity.
  - apply (proj1 (proj2 disallowed_primitives_rejected_per_span)).
    + left. reflexivity.
    + vm_compute. reflexivity.
  - apply (proj1 (proj2 (proj2 disallowed_primitives_rejected_per_span))).
    + vm_compute. reflexivity.
    + vm_compute. left. reflexivity.
    + left. reflexivity.
    + vm_compute. reflexivity.
Defined.

(** The check is made in [renderMatchedContent] only.  Inline math is not a
    block-level span: it is rendered with the text around it, by the
    replacement of [processTextFragmentWithPlaceholders], and reaches the
    formula component unchecked. *)
Lemma inline_math_not_validated :
  validateLatexInput (js "$\input{a}+1$") = false
  /\ blockMatches (js "$$b$$ and $\input{a}+1$")
     = [{| cm_start := 0; cm_end := 5; cm_content := js "$$b$$"; cm_type := math |}]
  /\ RichText (js "$$b$$ and $\input{a}+1$") true false
     = Some (prose false
               [renderMatchedContent
                  {| cm_start := 0; cm_end := 5; cm_content := js "$$b$$";
                     cm_type := math |} 0;
                MarkdownEl (key_of "text-" 5)
                  [(js "MATH_PLACEHOLDER_0",
                    InlineMath (Some (js "MATH_PLACEHOLDER_0")) (js "\input{a}+1"))]
                  (js " and MATH_PLACEHOLDER_0")]).
Proof. repeat split; vm_compute; reflexivity. Qed.


